(** * SINGULARITY-DELTA: the reality graph, the axiom registry, the failure
    inevitability index, the counterfactual simulator and the existence judge.

    A shallow embedding of [core/reality_graph/graph_builder.py],
    [core/axioms/axiom_base.py], [core/inevitability_index/fii_model.py],
    [core/counterfactuals/scenario_generator.py] and
    [core/verdict/existence_judge.py].

    Conventions of the embedding.
    - Python numbers ([int], [float]) are exact rationals [Q]; statements
      about numeric results use [==] ([Qeq]).  A number in a field that the
      source annotates [float] stands for a finite float, a number in a
      metadata map for an [int] or a finite [float]: the infinities and NaN
      have no counterpart, and neither has the [OverflowError] Python raises
      when an [int] beyond the range of a float meets a float.  Theorems
      that assert a normal return are stated for metadata numbers within
      that range ([within_float_range]).  The one place where binary64
      rounding is examined has its own definition over primitive floats.
    - The recursion limit of the interpreter is a parameter
      ([Interpreter]): the two recursive searches raise [RecursionError]
      when they would nest deeper than the room they have.
    - A [dict] is an association list in insertion order (Python dicts keep
      insertion order; assignment to an existing key keeps its position).
    - A [set] of strings is a duplicate-free list; the order of the list stands
      for the iteration order of the set, which Python leaves unspecified.
    - A Python exception is a [Raise]; functions that only read the graph
      return a [result], functions that mutate it also return the graph as the
      exception leaves it. *)

From Stdlib Require Import List String Ascii Bool Arith Lia QArith Qabs Lqa.
From Stdlib Require Import DecimalString PrimFloat Permutation.
From Stdlib Require Import SpecFloat FloatOps FloatAxioms.
Import ListNotations.

Local Close Scope Q_scope.
Local Open Scope list_scope.
Local Open Scope string_scope.

(* ------------------------------------------------------------------ *)
(** ** Python values, exceptions, dicts and sets *)

(** The values a metadata map holds ([Dict[str, Any]] restricted to the
    scalars the programs read and write).  [VNum q] is an [int] or a finite
    [float] of value [q]. *)
Inductive pyval : Type :=
| VNum (q : Q)
| VBool (b : bool)
| VStr (s : string).

(** Structured values that are only ever produced (evidence maps, collapse
    path metadata). *)
#[local] Unset Elimination Schemes.
Inductive pyobj : Type :=
| OVal (v : pyval)
| OInf
| ONone
| OList (l : list pyobj)
| ODict (d : list (string * pyobj)).
#[local] Set Elimination Schemes.

Inductive pyexc : Type :=
| KeyError (k : string)
| TypeError
| ValueError (msg : string)
| AttributeError
| ZeroDivisionError
| StopIteration
| RecursionError.

(** [OutOfFuel] is not a Python outcome: it marks a [while] loop of the
    model that used up its step budget.  The budgets are shown to suffice
    below. *)
Inductive result (A : Type) : Type :=
| Ok (a : A)
| Raise (e : pyexc)
| OutOfFuel.

Arguments Ok {A} a.
Arguments Raise {A} e.
Arguments OutOfFuel {A}.

Definition bind {A B : Type} (r : result A) (k : A -> result B) : result B :=
  match r with
  | Ok a => k a
  | Raise e => Raise e
  | OutOfFuel => OutOfFuel
  end.

Notation "x <- r ;; k" := (bind r (fun x => k))
  (at level 61, r at next level, right associativity).

Definition is_ok {A : Type} (r : result A) : Prop := exists a, r = Ok a.

Definition no_zero_division {A : Type} (r : result A) : Prop :=
  r <> Raise ZeroDivisionError.

Fixpoint mapM {A B : Type} (f : A -> result B) (l : list A) : result (list B) :=
  match l with
  | [] => Ok []
  | x :: l' => y <- f x ;; ys <- mapM f l' ;; Ok (y :: ys)
  end.

Definition from_option {A : Type} (e : pyexc) (o : option A) : result A :=
  match o with
  | Some a => Ok a
  | None => Raise e
  end.

Section Dict.
Context {V : Type}.

Fixpoint dict_get (k : string) (d : list (string * V)) : option V :=
  match d with
  | [] => None
  | (k', v) :: d' => if String.eqb k k' then Some v else dict_get k d'
  end.

Definition dict_mem (k : string) (d : list (string * V)) : bool :=
  match dict_get k d with Some _ => true | None => false end.

(** [d[k] = v] *)
Fixpoint dict_set (k : string) (v : V) (d : list (string * V)) : list (string * V) :=
  match d with
  | [] => [(k, v)]
  | (k', v') :: d' =>
      if String.eqb k k' then (k', v) :: d' else (k', v') :: dict_set k v d'
  end.

(** [del d[k]] on a key that is present *)
Fixpoint dict_del (k : string) (d : list (string * V)) : list (string * V) :=
  match d with
  | [] => []
  | (k', v') :: d' =>
      if String.eqb k k' then d' else (k', v') :: dict_del k d'
  end.

Definition dict_keys (d : list (string * V)) : list string := map fst d.
Definition dict_values (d : list (string * V)) : list V := map snd d.

(** [d[k]] *)
Definition dict_index (k : string) (d : list (string * V)) : result V :=
  from_option (KeyError k) (dict_get k d).
End Dict.

Definition dict (V : Type) : Type := list (string * V).

Definition pyset := list string.

Definition set_mem (x : string) (s : pyset) : bool :=
  existsb (String.eqb x) s.

Definition set_add (x : string) (s : pyset) : pyset :=
  if set_mem x s then s else (s ++ [x])%list.

Definition set_discard (x : string) (s : pyset) : pyset :=
  filter (fun y => negb (String.eqb x y)) s.

(** Numeric reading of a value: [True] and [False] count as 1 and 0, a string
    in an arithmetic position or compared with a number is a [TypeError]. *)
Definition as_num (v : pyval) : result Q :=
  match v with
  | VNum q => Ok q
  | VBool true => Ok 1%Q
  | VBool false => Ok 0%Q
  | VStr _ => Raise TypeError
  end.

Definition is_numeric (v : pyval) : Prop :=
  match v with VStr _ => False | _ => True end.

(** [a >= b], [a > b] on numbers *)
Definition Qgeb (a b : Q) : bool := Qle_bool b a.
Definition Qgtb (a b : Q) : bool := negb (Qle_bool a b).

(** [min(a, b)] and [max(a, b)]: the first argument wins a tie *)
Definition py_min (a b : Q) : Q := if Qgtb a b then b else a.
Definition py_max (a b : Q) : Q := if Qgtb b a then b else a.

(** [a / b] *)
Definition py_div (a b : Q) : result Q :=
  if Qeq_bool b 0 then Raise ZeroDivisionError else Ok (a / b)%Q.

Definition Qnat (n : nat) : Q := inject_Z (Z.of_nat n).

(** [str.lower()] on ASCII letters *)
Definition lower_ascii (c : ascii) : ascii :=
  let n := nat_of_ascii c in
  if andb (Nat.leb 65 n) (Nat.leb n 90) then ascii_of_nat (n + 32) else c.

Fixpoint lower (s : string) : string :=
  match s with
  | EmptyString => EmptyString
  | String c s' => String (lower_ascii c) (lower s')
  end.

(** [needle in hay] *)
Definition contains (needle hay : string) : bool :=
  match String.index 0 needle hay with
  | Some _ => true
  | None => false
  end.

Fixpoint join (sep : string) (l : list string) : string :=
  match l with
  | [] => ""
  | [x] => x
  | x :: l' => x ++ sep ++ join sep l'
  end.

(** [str(n)] for a length or a count *)
Definition str_nat (n : nat) : string := NilZero.string_of_uint (Nat.to_uint n).

(* ------------------------------------------------------------------ *)
(** ** The reality graph ([graph_builder.py]) *)

Inductive NodeType : Type :=
| DECISION | CONSEQUENCE | CONSTRAINT | ASSUMPTION
| RESOURCE | BEHAVIOR | FAILURE_MODE | POLICY.

Inductive EdgeType : Type :=
| CAUSES | REQUIRES | CONTRADICTS | DEPENDS_ON | ENABLES | WEAKENS | ASSUMES.

Definition NodeType_eqb (a b : NodeType) : bool :=
  match a, b with
  | DECISION, DECISION | CONSEQUENCE, CONSEQUENCE | CONSTRAINT, CONSTRAINT
  | ASSUMPTION, ASSUMPTION | RESOURCE, RESOURCE | BEHAVIOR, BEHAVIOR
  | FAILURE_MODE, FAILURE_MODE | POLICY, POLICY => true
  | _, _ => false
  end.

Definition EdgeType_eqb (a b : EdgeType) : bool :=
  match a, b with
  | CAUSES, CAUSES | REQUIRES, REQUIRES | CONTRADICTS, CONTRADICTS
  | DEPENDS_ON, DEPENDS_ON | ENABLES, ENABLES | WEAKENS, WEAKENS
  | ASSUMES, ASSUMES => true
  | _, _ => false
  end.

(** [EdgeType.value] *)
Definition EdgeType_value (t : EdgeType) : string :=
  match t with
  | CAUSES => "causes" | REQUIRES => "requires" | CONTRADICTS => "contradicts"
  | DEPENDS_ON => "depends_on" | ENABLES => "enables" | WEAKENS => "weakens"
  | ASSUMES => "assumes"
  end.

Definition NodeType_value (t : NodeType) : string :=
  match t with
  | DECISION => "decision" | CONSEQUENCE => "consequence"
  | CONSTRAINT => "constraint" | ASSUMPTION => "assumption"
  | RESOURCE => "resource" | BEHAVIOR => "behavior"
  | FAILURE_MODE => "failure_mode" | POLICY => "policy"
  end.

Record Node : Type := mkNode {
  n_id : string;
  n_type : NodeType;
  n_name : string;
  n_description : string;
  n_metadata : dict pyval;
  n_criticality : Q
}.

Record Edge : Type := mkEdge {
  e_id : string;
  e_source : string;
  e_target : string;
  e_type : EdgeType;
  e_weight : Q;
  e_confidence : Q;
  e_metadata : dict pyval
}.

(** [severity] is annotated [float] and is used as a number by every
    consumer; [explanation] copies a metadata value unchanged. *)
Record Contradiction : Type := mkContradiction {
  c_node_a : Node;
  c_node_b : Node;
  c_explanation : pyval;
  c_severity : Q;
  c_causal_chain : list string
}.

Record RealityGraph : Type := mkGraph {
  nodes : dict Node;
  edges : dict Edge;
  _adjacency : dict pyset;
  _reverse_adjacency : dict pyset
}.

(** [RealityGraph()] *)
Definition empty_graph : RealityGraph := mkGraph [] [] [] [].

(** [add_node]: the returned pair is the value returned (or the exception
    raised) and the graph afterwards. *)
Definition add_node (node : Node) (g : RealityGraph) : result Node * RealityGraph :=
  let nodes1 := dict_set (n_id node) node (nodes g) in
  let adj1 :=
    if negb (dict_mem (n_id node) (_adjacency g))
    then dict_set (n_id node) [] (_adjacency g) else _adjacency g in
  let radj1 :=
    if negb (dict_mem (n_id node) (_reverse_adjacency g))
    then dict_set (n_id node) [] (_reverse_adjacency g)
    else _reverse_adjacency g in
  (Ok node, mkGraph nodes1 (edges g) adj1 radj1).

(** [add_edge]: both endpoint checks come before the first assignment. *)
Definition add_edge (edge : Edge) (g : RealityGraph) : result Edge * RealityGraph :=
  if negb (dict_mem (e_source edge) (nodes g)) then
    (Raise (ValueError ("Source node " ++ e_source edge ++ " not found")), g)
  else if negb (dict_mem (e_target edge) (nodes g)) then
    (Raise (ValueError ("Target node " ++ e_target edge ++ " not found")), g)
  else
    let g1 := mkGraph (nodes g) (dict_set (e_id edge) edge (edges g))
                      (_adjacency g) (_reverse_adjacency g) in
    match dict_get (e_source edge) (_adjacency g1) with
    | None => (Raise (KeyError (e_source edge)), g1)
    | Some out =>
        let g2 := mkGraph (nodes g1) (edges g1)
                    (dict_set (e_source edge) (set_add (e_id edge) out) (_adjacency g1))
                    (_reverse_adjacency g1) in
        match dict_get (e_target edge) (_reverse_adjacency g2) with
        | None => (Raise (KeyError (e_target edge)), g2)
        | Some inc =>
            (Ok edge,
             mkGraph (nodes g2) (edges g2) (_adjacency g2)
               (dict_set (e_target edge) (set_add (e_id edge) inc)
                  (_reverse_adjacency g2)))
        end
    end.

Definition get_node (g : RealityGraph) (node_id : string) : option Node :=
  dict_get node_id (nodes g).

Definition get_edge (g : RealityGraph) (edge_id : string) : option Edge :=
  dict_get edge_id (edges g).

(** [_adjacency.get(node_id, set())] *)
Definition bucket (idx : dict pyset) (node_id : string) : pyset :=
  match dict_get node_id idx with Some s => s | None => [] end.

Definition get_outgoing_edges (g : RealityGraph) (node_id : string) : result (list Edge) :=
  mapM (fun eid => dict_index eid (edges g)) (bucket (_adjacency g) node_id).

Definition get_incoming_edges (g : RealityGraph) (node_id : string) : result (list Edge) :=
  mapM (fun eid => dict_index eid (edges g)) (bucket (_reverse_adjacency g) node_id).

Definition get_nodes_by_type (g : RealityGraph) (t : NodeType) : list Node :=
  filter (fun n => NodeType_eqb (n_type n) t) (dict_values (nodes g)).

Definition get_behavior_nodes (g : RealityGraph) : list Node :=
  get_nodes_by_type g BEHAVIOR.

Definition get_decision_nodes (g : RealityGraph) : list Node :=
  get_nodes_by_type g DECISION.

Definition get_critical_nodes (g : RealityGraph) (threshold : Q) : list Node :=
  filter (fun n => Qgeb (n_criticality n) threshold) (dict_values (nodes g)).

(** Rendering of numbers inside f-strings ([str(x)], [{x:.2%}], [{x:.2f}],
    [{x:.4f}]) is Python's; the development is parametric in it. *)
Class Formatter : Type := {
  str_num : Q -> string;
  fmt_percent : nat -> Q -> string;
  fmt_fixed : nat -> Q -> string
}.

(** The room the interpreter has for nested calls.  CPython refuses a call
    that would nest deeper than [sys.getrecursionlimit()] frames, 1000 unless
    a program changes it (this one does not), and raises [RecursionError].
    How much of it is left when one of the two recursive searches of the
    program starts ([has_cycle] in [_find_deadlock_paths] and [dfs] in
    [compute_causal_paths]) depends on the frames of the caller, so the
    number of nested activations a search can reach is a parameter of the
    development. *)
Class Interpreter : Type := {
  recursion_room : nat
}.

(** [str(v)], as an f-string applies it *)
Definition str_val `{Formatter} (v : pyval) : string :=
  match v with
  | VNum q => str_num q
  | VBool true => "True"
  | VBool false => "False"
  | VStr s => s
  end.

(** [repr] of a list of plain strings *)
Definition repr_strs (l : list string) : string :=
  "[" ++ join ", " (map (fun s => "'" ++ s ++ "'") l) ++ "]".

(** Truth value of a metadata entry, as [not x] and [if x] see it *)
Definition truthy (v : pyval) : bool :=
  match v with
  | VNum q => negb (Qeq_bool q 0)
  | VBool b => b
  | VStr s => negb (String.eqb s "")
  end.

(** [sum(values)]: left to right from the integer 0 *)
Fixpoint py_sum_from (acc : Q) (vals : list pyval) : result Q :=
  match vals with
  | [] => Ok acc
  | v :: vals' => q <- as_num v ;; py_sum_from (acc + q)%Q vals'
  end.

Definition py_sum (vals : list pyval) : result Q := py_sum_from 0%Q vals.

(** [max(xs)] on numbers: a later item replaces the current maximum only when
    it is strictly greater; the empty sequence is a [ValueError]. *)
Definition py_max_list (xs : list Q) : result Q :=
  match xs with
  | [] => Raise (ValueError "max() arg is an empty sequence")
  | x :: xs' => Ok (fold_left (fun m y => if Qgtb y m then y else m) xs' x)
  end.

(** Step budget of the two stack-driven searches over an adjacency index:
    every key is expanded at most once and pushes at most its bucket. *)
Definition budget (idx : dict pyset) : nat :=
  2 + list_sum (map (fun k => S (List.length (bucket idx k))) (dict_keys idx)).

(** Work left for a stack-driven search over [idx]: every key not yet visited
    counts for one step plus the pushes of its bucket. *)
Definition unvisited_weight (idx : dict pyset) (visited : pyset) : nat :=
  list_sum (map (fun k => if set_mem k visited then 0
                          else S (List.length (bucket idx k)))
                (dict_keys idx)).

(** The [while stack:] loop of [has_decision_ancestry].  [stack] holds the
    Python list with its last element first, so [pop()] takes the head and
    [append] conses. *)
Fixpoint ancestry_loop (g : RealityGraph) (fuel : nat) (visited : pyset)
    (stack : list string) {struct fuel} : result bool :=
  match stack with
  | [] => Ok false
  | current_id :: rest =>
      match fuel with
      | O => OutOfFuel
      | S fuel' =>
          if set_mem current_id visited then ancestry_loop g fuel' visited rest
          else
            let visited1 := set_add current_id visited in
            current <- dict_index current_id (nodes g) ;;
            if NodeType_eqb (n_type current) DECISION then Ok true
            else
              incoming <- get_incoming_edges g current_id ;;
              ancestry_loop g fuel' visited1
                (fold_left (fun st e => e_source e :: st) incoming rest)
      end
  end.

Definition has_decision_ancestry (g : RealityGraph) (node : Node) : result bool :=
  ancestry_loop g (budget (_reverse_adjacency g)) [] [n_id node].

(** First detector of [find_contradictions]: explicit CONTRADICTS edges.
    The [severity] entry goes into a field annotated [float]; an entry that
    is not a number is a [TypeError] here, where Python raises it at the
    first numeric use of the field ([max], [is_fatal], the probabilistic
    OR). *)
Definition explicit_contradiction (g : RealityGraph) (edge : Edge)
  : result (list Contradiction) :=
  if EdgeType_eqb (e_type edge) CONTRADICTS then
    source <- dict_index (e_source edge) (nodes g) ;;
    target <- dict_index (e_target edge) (nodes g) ;;
    severity <- as_num (match dict_get "severity" (e_metadata edge) with
                        | Some v => v
                        | None => VNum (9 # 10)
                        end) ;;
    Ok [mkContradiction source target
          (match dict_get "reason" (e_metadata edge) with
           | Some v => v
           | None => VStr "Explicit contradiction"
           end)
          severity
          [n_name source; "contradicts"; n_name target]]
  else Ok [].

Definition concatM {A B : Type} (f : A -> result (list B)) (l : list A)
  : result (list B) :=
  ls <- mapM f l ;; Ok (List.concat ls).

Definition _find_explicit_contradictions (g : RealityGraph) : result (list Contradiction) :=
  concatM (explicit_contradiction g) (dict_values (edges g)).

(** The consumers of a resource: sources of its incoming REQUIRES edges. *)
Definition consumers_of (g : RealityGraph) (resource : Node) : result (list Node) :=
  incoming <- get_incoming_edges g (n_id resource) ;;
  mapM (fun edge => dict_index (e_source edge) (nodes g))
       (filter (fun edge => EdgeType_eqb (e_type edge) REQUIRES) incoming).

Definition demand_of (c : Node) : pyval :=
  match dict_get "resource_demand" (n_metadata c) with
  | Some v => v
  | None => VNum 1
  end.

(** Body of the loop of [_find_resource_contradictions] for one resource. *)
Definition resource_contradiction `{Formatter} (g : RealityGraph) (resource : Node)
  : result (list Contradiction) :=
  consumers <- consumers_of g resource ;;
  match consumers with
  | c0 :: c1 :: _ =>
      let capacity := match dict_get "capacity" (n_metadata resource) with
                      | Some v => v
                      | None => VNum 1
                      end in
      total_demand <- py_sum (map demand_of consumers) ;;
      cap <- as_num capacity ;;
      if Qgtb total_demand cap then
        Ok [mkContradiction c0 c1
              (VStr ("Resource '" ++ n_name resource ++ "' oversubscribed: "
                     ++ str_num total_demand ++ " > " ++ str_val capacity))
              (85 # 100)
              [n_name c0; "requires " ++ n_name resource; n_name c1;
               "resource_exhausted"]]
      else Ok []
  | _ => Ok []
  end.

Definition _find_resource_contradictions `{Formatter} (g : RealityGraph)
  : result (list Contradiction) :=
  concatM (resource_contradiction g) (get_nodes_by_type g RESOURCE).

Definition _find_logical_contradictions (g : RealityGraph) : list Contradiction :=
  let decisions := get_decision_nodes g in
  let ha_decisions :=
    filter (fun d => andb (contains "high" (lower (n_name d)))
                          (contains "availab" (lower (n_name d)))) decisions in
  let single_points :=
    filter (fun d => contains "single" (lower (n_name d))) decisions in
  let stateless :=
    filter (fun d => contains "stateless" (lower (n_name d))) decisions in
  let stateful :=
    filter (fun d => andb (contains "state" (lower (n_name d)))
                          (negb (contains "stateless" (lower (n_name d))))) decisions in
  (List.concat (map (fun ha => map (fun sp =>
      mkContradiction ha sp
        (VStr "High availability cannot coexist with single point of failure")
        (95 # 100)
        [n_name ha; "requires_redundancy"; n_name sp; "lacks_redundancy"])
      single_points) ha_decisions)
  ++
  List.concat (map (fun sl => map (fun sf =>
      mkContradiction sl sf
        (VStr "Stateless architecture contradicts stateful component")
        (7 # 10)
        [n_name sl; "requires_no_state"; n_name sf; "maintains_state"])
      stateful) stateless))%list.

Definition find_contradictions `{Formatter} (g : RealityGraph)
  : result (list Contradiction) :=
  explicit <- _find_explicit_contradictions g ;;
  resource_contradictions <- _find_resource_contradictions g ;;
  Ok (explicit ++ resource_contradictions ++ _find_logical_contradictions g)%list.

Record Stats : Type := mkStats {
  total_nodes : nat;
  total_edges : nat;
  decisions : nat;
  behaviors : nat;
  assumptions : nat;
  constraints : nat;
  critical_nodes : nat
}.

Definition get_stats (g : RealityGraph) : Stats :=
  mkStats (List.length (nodes g)) (List.length (edges g))
    (List.length (get_decision_nodes g)) (List.length (get_behavior_nodes g))
    (List.length (get_nodes_by_type g ASSUMPTION))
    (List.length (get_nodes_by_type g CONSTRAINT))
    (List.length (get_critical_nodes g (7 # 10))).

Definition Contradiction_to_dict (c : Contradiction) : pyobj :=
  ODict [("node_a", OVal (VStr (n_name (c_node_a c))));
         ("node_b", OVal (VStr (n_name (c_node_b c))));
         ("explanation", OVal (c_explanation c));
         ("severity", OVal (VNum (c_severity c)));
         ("causal_chain", OList (map (fun s => OVal (VStr s)) (c_causal_chain c)))].

(* ------------------------------------------------------------------ *)
(** ** The axiom registry ([axiom_base.py]) *)

Inductive AxiomViolationType : Type :=
| AV_CONTRADICTION | AV_CAUSALITY_BREAK | AV_INEVITABILITY | AV_HUMAN_DEPENDENCY
| AV_SILENT_ASSUMPTION | AV_UNEXPLAINED_BEHAVIOR | AV_COUNTERFACTUAL_FAILURE.

Definition AxiomViolationType_value (t : AxiomViolationType) : string :=
  match t with
  | AV_CONTRADICTION => "contradiction"
  | AV_CAUSALITY_BREAK => "causality_break"
  | AV_INEVITABILITY => "inevitability"
  | AV_HUMAN_DEPENDENCY => "human_dependency"
  | AV_SILENT_ASSUMPTION => "silent_assumption"
  | AV_UNEXPLAINED_BEHAVIOR => "unexplained_behavior"
  | AV_COUNTERFACTUAL_FAILURE => "counterfactual_failure"
  end.

Record AxiomViolation : Type := mkViolation {
  axiom_name : string;
  violation_type : AxiomViolationType;
  severity : Q;
  evidence : pyobj;
  causal_chain : list string;
  explanation : pyval
}.

(** [AxiomViolation.is_fatal] *)
Definition is_fatal (v : AxiomViolation) : bool := Qgeb (severity v) (95 # 100).

(** The context map, in the shape the axioms read it.  A field that is [None]
    is a key that is absent. *)
Record CounterfactualRecord : Type := mkCFRecord {
  r_survived : bool;
  r_scenario_criticality : Q
}.

Record HumanDependency : Type := mkHumanDependency {
  h_identifier : string;
  h_is_single_point_of_failure : option bool;
  h_failure_scenario : string
}.

Record Assumption : Type := mkAssumption {
  a_stress_test_failed : option bool
}.

Record Context : Type := mkContext {
  failure_inevitability_index : option Q;
  failure_paths : option (list string);
  counterfactual_results : option (list CounterfactualRecord);
  human_dependencies : option (list HumanDependency);
  extracted_assumptions : option (list Assumption);
  hostile_assumptions : option (list Assumption)
}.

(** [{}], and any context without a recognised key *)
Definition empty_context : Context := mkContext None None None None None None.

Definition get_or {A : Type} (o : option A) (default : A) : A :=
  match o with Some a => a | None => default end.

Definition ostr (s : string) : pyobj := OVal (VStr s).
Definition onat (n : nat) : pyobj := OVal (VNum (Qnat n)).

(** [ExistenceAxiom.verify] *)
Definition ExistenceAxiom_verify (g : RealityGraph) (context : Context)
  : result (option AxiomViolation) :=
  flags <- mapM (fun node => b <- has_decision_ancestry g node ;; Ok (node, b))
                (get_behavior_nodes g) ;;
  let orphaned_behaviors :=
    map (fun nb => n_id (fst nb)) (filter (fun nb => negb (snd nb)) flags) in
  match orphaned_behaviors with
  | [] => Ok None
  | _ =>
      Ok (Some (mkViolation "EXISTENCE_AXIOM" AV_UNEXPLAINED_BEHAVIOR (8 # 10)
                  (ODict [("orphaned_behaviors", OList (map ostr orphaned_behaviors))])
                  ["undefined_origin"; "behavior_without_decision"]
                  (VStr ("Found " ++ str_nat (List.length orphaned_behaviors)
                         ++ " behaviors with no decision origin"))))
  end.

(** [next(c for c in contradictions if c.severity == max_severity)].  Among
    the numbers of the model the maximum is always found; Python's [next]
    raises [StopIteration] when no severity equals the maximum, as happens
    with a NaN. *)
Definition first_with_severity (m : Q) (cs : list Contradiction) : result Contradiction :=
  from_option StopIteration (find (fun c => Qeq_bool (c_severity c) m) cs).

(** [ContradictionLaw.verify] *)
Definition ContradictionLaw_verify `{Formatter} (g : RealityGraph) (context : Context)
  : result (option AxiomViolation) :=
  contradictions <- find_contradictions g ;;
  match contradictions with
  | [] => Ok None
  | _ =>
      max_severity <- py_max_list (map c_severity contradictions) ;;
      primary_contradiction <- first_with_severity max_severity contradictions ;;
      Ok (Some (mkViolation "CONTRADICTION_LAW" AV_CONTRADICTION max_severity
                  (ODict [("contradictions",
                           OList (map Contradiction_to_dict contradictions));
                          ("primary", Contradiction_to_dict primary_contradiction)])
                  (c_causal_chain primary_contradiction)
                  (c_explanation primary_contradiction)))
  end.

(** [InevitabilityAxiom.verify] *)
Definition InevitabilityAxiom_verify `{Formatter} (g : RealityGraph) (context : Context)
  : result (option AxiomViolation) :=
  let fii := get_or (failure_inevitability_index context) 0%Q in
  if Qgeb fii (95 # 100) then
    let paths := get_or (failure_paths context) [] in
    Ok (Some (mkViolation "INEVITABILITY_AXIOM" AV_INEVITABILITY fii
                (ODict [("fii", OVal (VNum fii));
                        ("failure_paths", OList (map ostr paths));
                        ("escape_paths", onat 0)])
                ["all_paths_analyzed"; "no_escape_route"; "collapse_certain"]
                (VStr ("Failure Inevitability Index: " ++ fmt_percent 2 fii
                       ++ ". No viable execution path exists."))))
  else Ok None.

Definition CounterfactualRecord_obj (r : CounterfactualRecord) : pyobj :=
  ODict [("survived", OVal (VBool (r_survived r)));
         ("scenario_criticality", OVal (VNum (r_scenario_criticality r)))].

(** [CounterfactualValidityAxiom.verify] *)
Definition CounterfactualValidityAxiom_verify (g : RealityGraph) (context : Context)
  : result (option AxiomViolation) :=
  let results := get_or (counterfactual_results context) [] in
  let failed_scenarios := filter (fun r => negb (r_survived r)) results in
  let critical_failures :=
    filter (fun r => Qgeb (r_scenario_criticality r) (7 # 10)) failed_scenarios in
  match critical_failures with
  | [] => Ok None
  | _ =>
      failure_rate <-
        match results with
        | [] => Ok 0%Q
        | _ => py_div (Qnat (List.length failed_scenarios)) (Qnat (List.length results))
        end ;;
      Ok (Some (mkViolation "COUNTERFACTUAL_VALIDITY" AV_COUNTERFACTUAL_FAILURE
                  (py_min (9 # 10) failure_rate)
                  (ODict [("failed_scenarios", onat (List.length failed_scenarios));
                          ("critical_failures", onat (List.length critical_failures));
                          ("total_tested", onat (List.length results));
                          ("details",
                           OList (map CounterfactualRecord_obj (firstn 3 critical_failures)))])
                  ["counterfactual_test"; "critical_scenario_failure"]
                  (VStr ("System collapsed in " ++ str_nat (List.length critical_failures)
                         ++ " critical alternate scenarios"))))
  end.

(** [HumanDependencyParadox.verify] *)
Definition HumanDependencyParadox_verify (g : RealityGraph) (context : Context)
  : result (option AxiomViolation) :=
  let deps := get_or (human_dependencies context) [] in
  let critical_dependencies :=
    filter (fun h => get_or (h_is_single_point_of_failure h) false) deps in
  match critical_dependencies with
  | [] => Ok None
  | _ =>
      Ok (Some (mkViolation "HUMAN_DEPENDENCY_PARADOX" AV_HUMAN_DEPENDENCY (85 # 100)
                  (ODict [("critical_humans",
                           OList (map (fun h => ostr (h_identifier h)) critical_dependencies));
                          ("failure_scenarios",
                           OList (map (fun h => ostr (h_failure_scenario h))
                                      critical_dependencies))])
                  ["human_identified"; "no_redundancy"; "single_point_of_failure"]
                  (VStr ("System stability depends on "
                         ++ str_nat (List.length critical_dependencies)
                         ++ " irreplaceable human(s)"))))
  end.

Definition Assumption_obj (a : Assumption) : pyobj :=
  match a_stress_test_failed a with
  | Some b => ODict [("stress_test_failed", OVal (VBool b))]
  | None => ODict []
  end.

(** [SilentAssumptionLaw.verify] *)
Definition SilentAssumptionLaw_verify (g : RealityGraph) (context : Context)
  : result (option AxiomViolation) :=
  let all_assumptions := get_or (extracted_assumptions context) [] in
  let hostile := get_or (hostile_assumptions context) [] in
  let violated_assumptions :=
    filter (fun a => get_or (a_stress_test_failed a) false) hostile in
  match violated_assumptions with
  | [] => Ok None
  | _ =>
      Ok (Some (mkViolation "SILENT_ASSUMPTION_LAW" AV_SILENT_ASSUMPTION (75 # 100)
                  (ODict [("total_assumptions", onat (List.length all_assumptions));
                          ("violated", onat (List.length violated_assumptions));
                          ("details",
                           OList (map Assumption_obj (firstn 5 violated_assumptions)))])
                  ["assumption_extracted"; "stress_test"; "assumption_violated"]
                  (VStr (str_nat (List.length violated_assumptions)
                         ++ " critical assumptions failed stress testing"))))
  end.

(** [AxiomRegistry.axioms], in registration order *)
Definition axioms `{Formatter}
  : list (RealityGraph -> Context -> result (option AxiomViolation)) :=
  [ExistenceAxiom_verify; ContradictionLaw_verify; InevitabilityAxiom_verify;
   CounterfactualValidityAxiom_verify; HumanDependencyParadox_verify;
   SilentAssumptionLaw_verify].

(** [AxiomRegistry.verify_all]: every axiom is run, in order; the violations
    found are collected in that order. *)
Fixpoint verify_each (axs : list (RealityGraph -> Context -> result (option AxiomViolation)))
    (g : RealityGraph) (context : Context) (violations : list AxiomViolation)
  : result (list AxiomViolation) :=
  match axs with
  | [] => Ok violations
  | verify :: axs' =>
      violation <- verify g context ;;
      verify_each axs' g context
        (match violation with
         | Some v => (violations ++ [v])%list
         | None => violations
         end)
  end.

Definition verify_all `{Formatter} (g : RealityGraph) (context : Context)
  : result (list AxiomViolation) :=
  verify_each axioms g context [].

Definition get_fatal_violations (violations : list AxiomViolation) : list AxiomViolation :=
  filter is_fatal violations.

(* ------------------------------------------------------------------ *)
(** ** The failure inevitability index ([fii_model.py]) *)

Inductive CollapsePathType : Type :=
| CP_CONTRADICTION | CP_RESOURCE_EXHAUSTION | CP_HUMAN_DEPENDENCY
| CP_CASCADING_FAILURE | CP_ASSUMPTION_VIOLATION | CP_DEADLOCK | CP_UNBOUNDED_GROWTH.

Record CollapsePath : Type := mkPath {
  path_type : CollapsePathType;
  path_nodes : list string;
  certainty : Q;
  path_explanation : pyval;
  path_metadata : list (string * pyobj)
}.

(** The probabilistic OR of [_compute_base_fii] and [_combine_factors]:
    [acc + p - (acc * p)]. *)
Definition prob_or (acc p : Q) : Q := (acc + p - acc * p)%Q.

(** The same expression in the arithmetic Python evaluates it in, IEEE 754
    binary64 with round to nearest even. *)
Definition prob_or_binary64 (acc p : float) : float := (acc + p - acc * p)%float.

(** A certainty in that arithmetic: a float [x] with [0 <= x <= 1]. *)
Definition is_certainty (x : float) : Prop :=
  PrimFloat.leb 0 x = true /\ PrimFloat.leb x 1 = true.

(** [get_node(id).metadata], [get_node(id).criticality], [get_node(id).name]:
    an attribute of [None] is an [AttributeError]. *)
Definition node_attr {A : Type} (g : RealityGraph) (attr : Node -> A) (node_id : string)
  : result A :=
  match get_node g node_id with
  | Some n => Ok (attr n)
  | None => Raise AttributeError
  end.

(** [capacity > 0] and the certainty of an exhausted resource *)
Definition exhaustion_certainty (total_demand cap : Q) : result Q :=
  if Qgtb cap 0 then
    ratio <- py_div total_demand cap ;;
    Ok (py_min 1 (ratio - 1)%Q)
  else Ok 1%Q.

(** [[e for e in incoming if e.type.value == "requires"]] *)
Definition requires_edges_of (incoming : list Edge) : list Edge :=
  filter (fun e => String.eqb (EdgeType_value (e_type e)) "requires") incoming.

(** [self.graph.get_node(e.source).metadata.get("resource_demand", 1)] *)
Definition demand_at (g : RealityGraph) (e : Edge) : result pyval :=
  md <- node_attr g n_metadata (e_source e) ;;
  Ok (match dict_get "resource_demand" md with
      | Some v => v
      | None => VNum 1
      end).

(** Body of the loop of [_find_resource_exhaustion_paths] for one resource.
    A [capacity] that is [None] is the default [float('inf')], which no demand
    exceeds. *)
Definition resource_exhaustion_path `{Formatter} (g : RealityGraph) (resource : Node)
  : result (list CollapsePath) :=
  let capacity := dict_get "capacity" (n_metadata resource) in
  incoming <- get_incoming_edges g (n_id resource) ;;
  let requires_edges := requires_edges_of incoming in
  match requires_edges with
  | [] => Ok []
  | _ =>
      demands <- mapM (demand_at g) requires_edges ;;
      total_demand <- py_sum demands ;;
      match capacity with
      | None => Ok []
      | Some capv =>
          cap <- as_num capv ;;
          if Qgtb total_demand cap then
            c <- exhaustion_certainty total_demand cap ;;
            oversubscription <-
              (if Qgtb cap 0 then
                 r <- py_div total_demand cap ;; Ok (OVal (VNum r))
               else Ok OInf) ;;
            Ok [mkPath CP_RESOURCE_EXHAUSTION
                  (map e_source requires_edges ++ [n_id resource])%list
                  c
                  (VStr ("Resource '" ++ n_name resource ++ "' exhausted: demand "
                         ++ str_num total_demand ++ " > capacity " ++ str_val capv))
                  [("resource", ostr (n_name resource));
                   ("capacity", OVal capv);
                   ("demand", OVal (VNum total_demand));
                   ("oversubscription", oversubscription)]]
          else Ok []
      end
  end.

Definition _find_resource_exhaustion_paths `{Formatter} (g : RealityGraph)
  : result (list CollapsePath) :=
  concatM (resource_exhaustion_path g) (get_nodes_by_type g RESOURCE).

(** One pass of [for edge in get_outgoing_edges(current)] in
    [_find_all_dependents]. *)
Definition dependents_step (out : list Edge) (dependents : pyset) (stack : list string)
  : pyset * list string :=
  fold_left
    (fun (acc : pyset * list string) (edge : Edge) =>
       if orb (String.eqb (EdgeType_value (e_type edge)) "causes")
              (String.eqb (EdgeType_value (e_type edge)) "enables")
       then (set_add (e_target edge) (fst acc), e_target edge :: snd acc)
       else acc)
    out (dependents, stack).

(** The [while stack:] loop of [_find_all_dependents]; the stack is held as in
    [ancestry_loop]. *)
Fixpoint dependents_loop (g : RealityGraph) (fuel : nat) (dependents visited : pyset)
    (stack : list string) {struct fuel} : result pyset :=
  match stack with
  | [] => Ok dependents
  | current :: rest =>
      match fuel with
      | O => OutOfFuel
      | S fuel' =>
          if set_mem current visited then dependents_loop g fuel' dependents visited rest
          else
            let visited1 := set_add current visited in
            out <- get_outgoing_edges g current ;;
            let ds := dependents_step out dependents rest in
            dependents_loop g fuel' (fst ds) visited1 (snd ds)
      end
  end.

Definition _find_all_dependents (g : RealityGraph) (node_id : string) : result pyset :=
  dependents_loop g (budget (_adjacency g)) [] [] [node_id].

Definition _find_cascading_failure_paths `{Formatter} (g : RealityGraph)
  : result (list CollapsePath) :=
  concatM (fun node =>
    dependents <- _find_all_dependents g (n_id node) ;;
    if Nat.ltb 3 (List.length dependents) then
      ratio <- py_div (Qnat (List.length dependents)) 10 ;;
      Ok [mkPath CP_CASCADING_FAILURE
            (n_id node :: dependents)
            (py_min (9 # 10) ratio)
            (VStr ("Failure of '" ++ n_name node ++ "' cascades to "
                   ++ str_nat (List.length dependents) ++ " components"))
            [("trigger", ostr (n_name node));
             ("cascade_size", onat (List.length dependents));
             ("criticality", OVal (VNum (n_criticality node)))]]
    else Ok [])
  (get_critical_nodes g (8 # 10)).

Definition _find_spof_paths `{Formatter} (g : RealityGraph) : result (list CollapsePath) :=
  concatM (fun node =>
    dependents <- _find_all_dependents g (n_id node) ;;
    flagged <- mapM (fun d =>
                 c <- node_attr g n_criticality d ;; Ok (d, Qgtb c (7 # 10)))
               dependents ;;
    let critical_dependents := map fst (filter snd flagged) in
    let has_redundancy :=
      match dict_get "has_redundancy" (n_metadata node) with
      | Some v => truthy v
      | None => false
      end in
    if andb (negb has_redundancy) (Nat.ltb 1 (List.length critical_dependents)) then
      Ok [mkPath
            (if String.eqb (NodeType_value (n_type node)) "resource"
             then CP_HUMAN_DEPENDENCY else CP_CASCADING_FAILURE)
            (n_id node :: critical_dependents)
            (py_min (95 # 100)
               ((7 # 10) + Qnat (List.length critical_dependents) * (5 # 100))%Q)
            (VStr ("'" ++ n_name node ++ "' is a single point of failure for "
                   ++ str_nat (List.length critical_dependents) ++ " critical components"))
            [("spof", ostr (n_name node));
             ("critical_dependents", onat (List.length critical_dependents))]]
    else Ok [])
  (dict_values (nodes g)).

(** The variables [has_cycle] closes over in [_find_deadlock_paths]. *)
Record DeadlockState : Type := mkDeadlock {
  dl_paths : list CollapsePath;
  dl_visited : pyset;
  dl_rec_stack : pyset;
  dl_current_path : list string
}.

(** [current_path.index(target)] *)
Fixpoint list_index (x : string) (l : list string) : option nat :=
  match l with
  | [] => None
  | y :: l' => if String.eqb x y then Some O
               else match list_index x l' with
                    | Some i => Some (S i)
                    | None => None
                    end
  end.

(** [rec_stack.remove(x)]: a [KeyError] when [x] is not a member *)
Definition set_remove (x : string) (s : pyset) : result pyset :=
  if set_mem x s then Ok (set_discard x s) else Raise (KeyError x).

(** The deadlock path recorded when [target] is met on the recursion stack. *)
Definition deadlock_path (g : RealityGraph) (st : DeadlockState) (target : string)
  : result CollapsePath :=
  cycle_start <- from_option (ValueError "not in list")
                   (list_index target (dl_current_path st)) ;;
  let cycle := skipn cycle_start (dl_current_path st) in
  names <- mapM (node_attr g n_name) cycle ;;
  Ok (mkPath CP_DEADLOCK cycle (8 # 10)
        (VStr ("Circular dependency detected: " ++ join " → " names))
        [("cycle", OList (map ostr cycle))]).

(** The [for edge in self.graph.get_outgoing_edges(node_id)] loop of
    [has_cycle] and the three statements after it; [recurse] is the recursive
    call [has_cycle(target)]. *)
Fixpoint cycle_edges (recurse : string -> DeadlockState -> result (bool * DeadlockState))
    (g : RealityGraph) (node_id : string) (es : list Edge) (st : DeadlockState)
    {struct es} : result (bool * DeadlockState) :=
  match es with
  | [] =>
      rs <- set_remove node_id (dl_rec_stack st) ;;
      Ok (false, mkDeadlock (dl_paths st) (dl_visited st) rs
                   (removelast (dl_current_path st)))
  | edge :: es' =>
      if orb (String.eqb (EdgeType_value (e_type edge)) "requires")
             (String.eqb (EdgeType_value (e_type edge)) "depends_on")
      then
        let target := e_target edge in
        if negb (set_mem target (dl_visited st)) then
          r <- recurse target st ;;
          if fst r then Ok (true, snd r) else cycle_edges recurse g node_id es' (snd r)
        else if set_mem target (dl_rec_stack st) then
          p <- deadlock_path g st target ;;
          Ok (true, mkDeadlock (dl_paths st ++ [p])%list (dl_visited st)
                     (dl_rec_stack st) (dl_current_path st))
        else cycle_edges recurse g node_id es' st
      else cycle_edges recurse g node_id es' st
  end.

(** The nested function [has_cycle].  [room] is the number of nested
    activations the interpreter has room for: the call that would exceed it
    raises [RecursionError]. *)
Fixpoint has_cycle (g : RealityGraph) (room : nat) (node_id : string)
    (st : DeadlockState) {struct room} : result (bool * DeadlockState) :=
  match room with
  | O => Raise RecursionError
  | S fuel' =>
      let st1 := mkDeadlock (dl_paths st)
                   (set_add node_id (dl_visited st))
                   (set_add node_id (dl_rec_stack st))
                   (dl_current_path st ++ [node_id])%list in
      out <- get_outgoing_edges g node_id ;;
      cycle_edges (has_cycle g fuel') g node_id out st1
  end.




(** [for node_id in self.graph.nodes: if node_id not in visited: has_cycle(node_id)] *)
Fixpoint deadlock_roots `{Interpreter} (g : RealityGraph) (roots : list string)
    (st : DeadlockState) : result DeadlockState :=
  match roots with
  | [] => Ok st
  | node_id :: roots' =>
      if negb (set_mem node_id (dl_visited st)) then
        r <- has_cycle g recursion_room node_id st ;;
        deadlock_roots g roots' (snd r)
      else deadlock_roots g roots' st
  end.

Definition _find_deadlock_paths `{Interpreter} (g : RealityGraph)
  : result (list CollapsePath) :=
  st <- deadlock_roots g (dict_keys (nodes g)) (mkDeadlock [] [] [] []) ;;
  Ok (dl_paths st).

(** [_identify_collapse_paths]: the value assigned to [self.collapse_paths]. *)
Definition _identify_collapse_paths `{Formatter} `{Interpreter} (g : RealityGraph)
  : result (list CollapsePath) :=
  contradictions <- find_contradictions g ;;
  let contradiction_paths :=
    map (fun c => mkPath CP_CONTRADICTION (c_causal_chain c) (c_severity c)
                    (c_explanation c)
                    [("source", ostr (n_name (c_node_a c)));
                     ("target", ostr (n_name (c_node_b c)))])
        contradictions in
  resource_paths <- _find_resource_exhaustion_paths g ;;
  cascade_paths <- _find_cascading_failure_paths g ;;
  spof_paths <- _find_spof_paths g ;;
  deadlock_paths <- _find_deadlock_paths g ;;
  Ok (contradiction_paths ++ resource_paths ++ cascade_paths ++ spof_paths
      ++ deadlock_paths)%list.

Definition _compute_base_fii (collapse_paths : list CollapsePath) : Q :=
  match collapse_paths with
  | [] => 0%Q
  | _ => fold_left (fun combined path => prob_or combined (certainty path))
                   collapse_paths 0%Q
  end.

Definition _compute_violation_adjustment (violations : list AxiomViolation) : result Q :=
  match violations with
  | [] => Ok 0%Q
  | _ =>
      max_severity <- py_max_list (map severity violations) ;;
      let violation_count := Qnat (List.length violations) in
      Ok (py_min 1 (max_severity * (1 + (5 # 100) * (violation_count - 1)))%Q)
  end.

Definition _compute_structure_adjustment (g : RealityGraph) : result Q :=
  let stats := get_stats g in
  if Nat.eqb (total_nodes stats) 0 then Ok 0%Q
  else
    critical_ratio <- py_div (Qnat (critical_nodes stats)) (Qnat (total_nodes stats)) ;;
    assumption_ratio <- py_div (Qnat (assumptions stats))
                               (Qnat (Nat.max (decisions stats) 1)) ;;
    Ok (critical_ratio * (3 # 10) + py_min 1 assumption_ratio * (2 # 10))%Q.

Definition _combine_factors (base violations structure : Q) : Q :=
  prob_or (prob_or base violations) structure.

(** [FIICalculator(graph, violations).compute()] *)
Definition compute `{Formatter} `{Interpreter} (g : RealityGraph)
    (violations : list AxiomViolation) : result Q :=
  collapse_paths <- _identify_collapse_paths g ;;
  let base_fii := _compute_base_fii collapse_paths in
  violation_adjustment <- _compute_violation_adjustment violations ;;
  structure_adjustment <- _compute_structure_adjustment g ;;
  let fii := _combine_factors base_fii violation_adjustment structure_adjustment in
  Ok (py_min 1 (py_max 0 fii)).

(* ------------------------------------------------------------------ *)
(** ** Counterfactual scenarios and results ([scenario_generator.py]) *)

Inductive ScenarioType : Type :=
| TRAFFIC_SPIKE | NODE_FAILURE | HUMAN_UNAVAILABLE | ASSUMPTION_VIOLATED
| RESOURCE_DEGRADED | NETWORK_PARTITION | DATA_CORRUPTION | DEPLOYMENT_FAILURE.

(** The closures a scenario carries are built by four factory methods only;
    a modification is the factory together with the argument it captured. *)
Inductive Modification : Type :=
| ModifyTrafficSpike (multiplier : Q)
| ModifyNodeFailure (node_id : string)
| ModifyRemoveResource (resource_id : string)
| ModifyViolateAssumption (assumption_id : string).

Record CounterfactualScenario : Type := mkScenario {
  s_name : string;
  s_scenario_type : ScenarioType;
  s_description : string;
  s_criticality : Q;
  s_modifications : list Modification;
  s_metadata : list (string * pyobj)
}.

Record CounterfactualResult : Type := mkResult {
  scenario : CounterfactualScenario;
  survived : bool;
  collapse_reason : string;
  fii_after : Q;
  new_violations : list AxiomViolation;
  cr_explanation : string
}.

(* ------------------------------------------------------------------ *)
(** ** The existence judge ([existence_judge.py]) *)

Inductive VerdictType : Type := PERMISSIBLE | NOT_PERMISSIBLE | UNVERIFIED.

Record ExistenceVerdict : Type := mkVerdict {
  verdict : VerdictType;
  v_certainty : Q;
  primary_reason : string;
  supporting_evidence : list pyval;
  v_failure_inevitability_index : Q;
  axiom_violations : list AxiomViolation;
  counterfactual_failures : nat;
  proof_chain : list string
}.

(** The fields of an [ExistenceJudge]. *)
Record ExistenceJudge : Type := mkJudge {
  j_graph : RealityGraph;
  j_violations : list AxiomViolation;
  j_fii : Q;
  j_cf_results : list CounterfactualResult
}.

Definition _count_cf_failures (j : ExistenceJudge) : nat :=
  List.length (filter (fun r => negb (survived r)) (j_cf_results j)).

Definition _verdict_fatal_axiom `{Formatter} (j : ExistenceJudge) (violation : AxiomViolation)
  : ExistenceVerdict :=
  mkVerdict NOT_PERMISSIBLE 1
    ("Fatal violation of " ++ axiom_name violation)
    [explanation violation;
     VStr ("Severity: " ++ fmt_percent 2 (severity violation));
     VStr ("Violation type: " ++ AxiomViolationType_value (violation_type violation))]
    (j_fii j) (j_violations j) (_count_cf_failures j)
    ["AXIOM_VERIFICATION";
     axiom_name violation;
     AxiomViolationType_value (violation_type violation);
     "severity=" ++ fmt_fixed 2 (severity violation);
     "FATAL_VIOLATION";
     "SYSTEM_INVALID"].

Definition _verdict_inevitable_failure `{Formatter} (j : ExistenceJudge) : ExistenceVerdict :=
  mkVerdict NOT_PERMISSIBLE 1
    ("Failure Inevitability Index: " ++ fmt_percent 2 (j_fii j))
    [VStr "All execution paths lead to system collapse";
     VStr ("FII threshold exceeded: " ++ fmt_percent 2 (j_fii j) ++ " ≥ 90%");
     VStr "Per Inevitability Axiom: system is logically failed"]
    (j_fii j) (j_violations j) (_count_cf_failures j)
    ["FII_CALCULATION";
     "fii=" ++ fmt_fixed 4 (j_fii j);
     "fii >= 0.90";
     "INEVITABILITY_AXIOM_TRIGGERED";
     "COLLAPSE_CERTAIN";
     "SYSTEM_INVALID"].

(** [failures[0]] raises an [IndexError] on an empty list; the caller passes
    at least two failures. *)
Definition _verdict_counterfactual_failure (j : ExistenceJudge)
    (first_failure : CounterfactualResult) (failures : list CounterfactualResult)
  : ExistenceVerdict :=
  mkVerdict NOT_PERMISSIBLE (95 # 100)
    ("System collapsed in " ++ str_nat (List.length failures) ++ " critical scenarios")
    (map (fun f => VStr ("Failed scenario: " ++ s_name (scenario f))) (firstn 3 failures)
     ++ [VStr "Per Counterfactual Validity Axiom: system is fundamentally fragile"])%list
    (j_fii j) (j_violations j) (List.length failures)
    ["COUNTERFACTUAL_SIMULATION";
     "critical_failures=" ++ str_nat (List.length failures);
     s_name (scenario first_failure);
     collapse_reason first_failure;
     "COUNTERFACTUAL_VALIDITY_VIOLATED";
     "SYSTEM_INVALID"].

Definition _identify_missing_data (j : ExistenceJudge) : list string :=
  let stats := get_stats (j_graph j) in
  ((if Nat.eqb (decisions stats) 0 then ["engineering decisions"] else [])
   ++ (if Nat.eqb (behaviors stats) 0 then ["system behaviors"] else [])
   ++ (if Nat.eqb (total_edges stats) 0 then ["causal relationships"] else [])
   ++ (if Nat.eqb (assumptions stats) 0 then ["system assumptions"] else []))%list.

Definition _verdict_unverified (j : ExistenceJudge) : ExistenceVerdict :=
  let missing := _identify_missing_data j in
  mkVerdict UNVERIFIED (5 # 10)
    "Insufficient data to render verdict"
    [VStr ("Missing: " ++ join ", " missing);
     VStr "Cannot verify system without complete model";
     VStr "Recommendation: Provide additional system specifications"]
    (j_fii j) (j_violations j) (_count_cf_failures j)
    ["DATA_COMPLETENESS_CHECK";
     "INCOMPLETE_MODEL";
     "missing=" ++ repr_strs missing;
     "CANNOT_VERIFY";
     "VERDICT_UNVERIFIED"].

Definition _verdict_permissible_fragile `{Formatter} (j : ExistenceJudge) : ExistenceVerdict :=
  mkVerdict PERMISSIBLE (75 # 100)
    "System is logically permissible but exhibits fragility"
    [VStr ("FII: " ++ fmt_percent 2 (j_fii j) ++ " (elevated but below threshold)");
     VStr ("Axiom violations: " ++ str_nat (List.length (j_violations j)) ++ " (non-fatal)");
     VStr "System may survive but requires careful operation"]
    (j_fii j) (j_violations j) (_count_cf_failures j)
    ["AXIOM_VERIFICATION";
     "no_fatal_violations";
     "FII_CALCULATION";
     "fii=" ++ fmt_fixed 4 (j_fii j);
     "fii < 0.90";
     "COUNTERFACTUAL_VALIDATION";
     "acceptable_failure_rate";
     "VERDICT_PERMISSIBLE_FRAGILE"].

Definition _verdict_permissible_robust `{Formatter} (j : ExistenceJudge) : ExistenceVerdict :=
  mkVerdict PERMISSIBLE 1
    "System is logically permissible and robust"
    [VStr ("FII: " ++ fmt_percent 2 (j_fii j) ++ " (low)");
     VStr ("No fatal axiom violations (" ++ str_nat (List.length (j_violations j))
           ++ " minor issues)");
     VStr "Survived critical counterfactual scenarios";
     VStr "System demonstrates structural soundness"]
    (j_fii j) (j_violations j) (_count_cf_failures j)
    ["AXIOM_VERIFICATION";
     "no_fatal_violations";
     "FII_CALCULATION";
     "fii=" ++ fmt_fixed 4 (j_fii j);
     "fii < 0.70";
     "COUNTERFACTUAL_VALIDATION";
     "critical_scenarios_survived";
     "VERDICT_PERMISSIBLE_ROBUST"].

(** The [for behavior in behaviors] loop of [_has_sufficient_data]: it stops
    at the first behaviour without decision ancestry. *)
Fixpoint all_have_ancestry (g : RealityGraph) (behaviors : list Node) : result bool :=
  match behaviors with
  | [] => Ok true
  | behavior :: rest =>
      b <- has_decision_ancestry g behavior ;;
      if negb b then Ok false else all_have_ancestry g rest
  end.

Definition _has_sufficient_data (j : ExistenceJudge) : result bool :=
  let stats := get_stats (j_graph j) in
  if Nat.eqb (decisions stats) 0 then Ok false
  else if Nat.eqb (total_edges stats) 0 then Ok false
  else all_have_ancestry (j_graph j) (get_behavior_nodes (j_graph j)).

(** [ExistenceJudge.render_verdict] *)
Definition render_verdict `{Formatter} (j : ExistenceJudge) : result ExistenceVerdict :=
  let fatal_violations := filter is_fatal (j_violations j) in
  match fatal_violations with
  | first_fatal :: _ => Ok (_verdict_fatal_axiom j first_fatal)
  | [] =>
      if Qgeb (j_fii j) (90 # 100) then Ok (_verdict_inevitable_failure j)
      else
        let critical_cf_failures :=
          filter (fun r => andb (negb (survived r))
                                (Qgeb (s_criticality (scenario r)) (7 # 10)))
                 (j_cf_results j) in
        match critical_cf_failures with
        | first_failure :: _ :: _ =>
            Ok (_verdict_counterfactual_failure j first_failure critical_cf_failures)
        | _ =>
            sufficient <- _has_sufficient_data j ;;
            if negb sufficient then Ok (_verdict_unverified j)
            else if orb (Qgeb (j_fii j) (70 # 100))
                        (Nat.ltb 3 (List.length (j_violations j)))
            then Ok (_verdict_permissible_fragile j)
            else Ok (_verdict_permissible_robust j)
        end
  end.

(* ------------------------------------------------------------------ *)
(** ** Structural invariants of a graph *)

Fixpoint nodupb (l : list string) : bool :=
  match l with
  | [] => true
  | x :: l' => andb (negb (set_mem x l')) (nodupb l')
  end.

(** The two stores are dicts (no key twice) and every node and edge is filed
    under its own id, as [add_node] and [add_edge] file them. *)
Definition keyedb (g : RealityGraph) : bool :=
  nodupb (dict_keys (nodes g)) && nodupb (dict_keys (edges g))
  && nodupb (dict_keys (_adjacency g)) && nodupb (dict_keys (_reverse_adjacency g))
  && forallb (fun kv => String.eqb (n_id (snd kv)) (fst kv)) (nodes g)
  && forallb (fun kv => String.eqb (e_id (snd kv)) (fst kv)) (edges g).

(** The adjacency indices are in lock-step with the stores: the nodes are
    exactly the keys of either index; every edge is listed in the forward
    bucket of its source and the reverse bucket of its target, both of which
    are nodes; every id listed in a bucket is an edge leaving (entering) the
    node the bucket belongs to. *)
Definition lockstepb (g : RealityGraph) : bool :=
  forallb (fun k => dict_mem k (nodes g)) (dict_keys (_adjacency g))
  && forallb (fun k => dict_mem k (nodes g)) (dict_keys (_reverse_adjacency g))
  && forallb (fun k => andb (dict_mem k (_adjacency g)) (dict_mem k (_reverse_adjacency g)))
             (dict_keys (nodes g))
  && forallb (fun kv =>
                set_mem (fst kv) (bucket (_adjacency g) (e_source (snd kv)))
                && set_mem (fst kv) (bucket (_reverse_adjacency g) (e_target (snd kv)))
                && dict_mem (e_source (snd kv)) (nodes g)
                && dict_mem (e_target (snd kv)) (nodes g))
             (edges g)
  && forallb (fun ks =>
                forallb (fun eid => match dict_get eid (edges g) with
                                    | Some e => String.eqb (e_source e) (fst ks)
                                    | None => false
                                    end) (snd ks))
             (_adjacency g)
  && forallb (fun ks =>
                forallb (fun eid => match dict_get eid (edges g) with
                                    | Some e => String.eqb (e_target e) (fst ks)
                                    | None => false
                                    end) (snd ks))
             (_reverse_adjacency g).

Definition well_formed (g : RealityGraph) : Prop :=
  keyedb g = true /\ lockstepb g = true.

(** The metadata entries the calculators use as numbers are numbers:
    [capacity] and [resource_demand] of a node, [severity] of an edge. *)
Definition numeric_entry (key : string) (md : dict pyval) : Prop :=
  forall v, dict_get key md = Some v -> is_numeric v.

Definition numeric_metadata (g : RealityGraph) : Prop :=
  (forall k n, In (k, n) (nodes g) ->
     numeric_entry "capacity" (n_metadata n)
     /\ numeric_entry "resource_demand" (n_metadata n))
  /\ (forall k e, In (k, e) (edges g) -> numeric_entry "severity" (e_metadata e)).




(* ------------------------------------------------------------------ *)
(** ** Concrete graphs *)

(** The graph an operation leaves behind. *)
Definition exec {A : Type} (op : RealityGraph -> result A * RealityGraph)
    (g : RealityGraph) : RealityGraph :=
  snd (op g).

(** [Node(id=i, type=t, name=i, metadata=md)] and
    [Edge(id=i, source=s, target=t, type=ty, metadata=md)]; the other fields
    take their dataclass defaults. *)
Definition node_of (i : string) (t : NodeType) (md : dict pyval) : Node :=
  mkNode i t i "" md (5 # 10).

Definition edge_of (i s t : string) (ty : EdgeType) (md : dict pyval) : Edge :=
  mkEdge i s t ty 1 1 md.

(** A resource [R1] of capacity 10 required by two decisions of demand 8. *)
Definition scenario_resource : RealityGraph :=
  exec (add_edge (edge_of "E2" "D2" "R1" REQUIRES []))
  (exec (add_edge (edge_of "E1" "D1" "R1" REQUIRES []))
  (exec (add_node (node_of "D2" DECISION [("resource_demand", VNum 8)]))
  (exec (add_node (node_of "D1" DECISION [("resource_demand", VNum 8)]))
  (exec (add_node (node_of "R1" RESOURCE [("capacity", VNum 10)])) empty_graph)))).

(** Two decisions joined by a CONTRADICTS edge of severity 0.95. *)
Definition scenario_contradicts : RealityGraph :=
  exec (add_edge (edge_of "E1" "D1" "D2" CONTRADICTS [("severity", VNum (95 # 100))]))
  (exec (add_node (node_of "D2" DECISION []))
  (exec (add_node (node_of "D1" DECISION [])) empty_graph)).

(** A resource without a [capacity] entry required by two decisions without a
    [resource_demand] entry. *)
Definition scenario_no_capacity : RealityGraph :=
  exec (add_edge (edge_of "E2" "D2" "R1" REQUIRES []))
  (exec (add_edge (edge_of "E1" "D1" "R1" REQUIRES []))
  (exec (add_node (node_of "D2" DECISION []))
  (exec (add_node (node_of "D1" DECISION []))
  (exec (add_node (node_of "R1" RESOURCE [])) empty_graph)))).

(** A resource of capacity 5 required by a single decision of demand 8. *)
Definition scenario_one_consumer : RealityGraph :=
  exec (add_edge (edge_of "E1" "D1" "R1" REQUIRES []))
  (exec (add_node (node_of "D1" DECISION [("resource_demand", VNum 8)]))
  (exec (add_node (node_of "R1" RESOURCE [("capacity", VNum 5)])) empty_graph)).


(** A formatter for the closed examples: a number is written as the fraction
    the model holds.  The theorems below hold for every formatter. *)
Definition str_fraction (q : Q) : string :=
  NilZero.string_of_int (Z.to_int (Qnum q)) ++ "/"
  ++ NilZero.string_of_uint (Pos.to_uint (Qden q)).

#[export] Instance fraction_formatter : Formatter := {|
  str_num := str_fraction;
  fmt_percent := fun _ q => str_fraction (q * 100)%Q ++ "%";
  fmt_fixed := fun _ q => str_fraction q
|}.

(** An interpreter for the closed examples: of CPython's 1000 frames, 900
    are left to a search.  The examples nest a handful of calls; the
    theorems below hold for every interpreter. *)
#[export] Instance roomy_interpreter : Interpreter := {|
  recursion_room := 900
|}.

(** A judge that is handed one violation of severity 0.95 together with an
    index of 0.95. *)
Definition violation_fatal : AxiomViolation :=
  mkViolation "CONTRADICTION_LAW" AV_CONTRADICTION (95 # 100) (ODict [])
    ["D1"; "contradicts"; "D2"] (VStr "Explicit contradiction").

Definition judge_fatal : ExistenceJudge :=
  mkJudge scenario_contradicts [violation_fatal] (95 # 100) [].

(** The certainty the source writes as [0.6], and the two it combines with. *)
Definition certainty_exhaustion_16_10 : Q := py_min 1 ((16 # 1) / (10 # 1) - 1)%Q.

(* ------------------------------------------------------------------ *)
(** ** Objects and references ([scenario_generator.py])

    The simulator mutates graphs in place, so here a graph lives in a heap of
    objects that refer to one another by address.  A node and an edge hold
    their metadata dict by reference; a graph object holds its four dicts,
    whose values are references to nodes, edges and sets.  (The four dicts
    are created by [RealityGraph.__init__] and never handed out, so they are
    kept inside the graph object.) *)

Definition addr := nat.

Record NodeObj : Type := mkNodeObj {
  no_id : string;
  no_type : NodeType;
  no_name : string;
  no_description : string;
  no_metadata : addr;
  no_criticality : Q
}.

Record EdgeObj : Type := mkEdgeObj {
  eo_id : string;
  eo_source : string;
  eo_target : string;
  eo_type : EdgeType;
  eo_weight : Q;
  eo_confidence : Q;
  eo_metadata : addr
}.

Record GraphObj : Type := mkGraphObj {
  go_nodes : dict addr;
  go_edges : dict addr;
  go_adjacency : dict addr;
  go_reverse_adjacency : dict addr
}.

Inductive obj : Type :=
| ONode (n : NodeObj)
| OEdge (e : EdgeObj)
| OMeta (md : dict pyval)
| OSet (s : pyset)
| OGraph (go : GraphObj).

(** The address of an object is its position; allocation appends. *)
Definition heap := list obj.

(** The addresses an object holds. *)
Definition refs (o : obj) : list addr :=
  match o with
  | ONode n => [no_metadata n]
  | OEdge e => [eo_metadata e]
  | OMeta _ => []
  | OSet _ => []
  | OGraph go =>
      (dict_values (go_nodes go) ++ dict_values (go_edges go)
       ++ dict_values (go_adjacency go) ++ dict_values (go_reverse_adjacency go))%list
  end.

(** Computations on the heap: the result (or the exception) and the heap as
    the computation leaves it. *)
Definition HM (A : Type) : Type := heap -> result A * heap.

Definition hret {A : Type} (a : A) : HM A := fun h => (Ok a, h).

Definition hraise {A : Type} (e : pyexc) : HM A := fun h => (Raise e, h).

Definition hbind {A B : Type} (m : HM A) (k : A -> HM B) : HM B :=
  fun h =>
    match m h with
    | (Ok a, h') => k a h'
    | (Raise e, h') => (Raise e, h')
    | (OutOfFuel, h') => (OutOfFuel, h')
    end.

Notation "x <~ m ;; k" := (hbind m (fun x => k))
  (at level 61, m at next level, right associativity).

(** A pure computation that may raise. *)
Definition hlift {A : Type} (r : result A) : HM A := fun h => (r, h).

Definition load (a : addr) : HM obj :=
  fun h => match nth_error h a with
           | Some o => (Ok o, h)
           | None => (Raise AttributeError, h)
           end.

Fixpoint set_nth (a : addr) (o : obj) (h : heap) : heap :=
  match h, a with
  | [], _ => []
  | _ :: h', O => o :: h'
  | x :: h', S a' => x :: set_nth a' o h'
  end.

Definition store (a : addr) (o : obj) : HM unit :=
  fun h => (Ok tt, set_nth a o h).

(** A new object whose content may mention its own address. *)
Definition alloc_at (f : addr -> obj) : HM addr :=
  fun h => (Ok (List.length h), (h ++ [f (List.length h)])%list).

Definition alloc (o : obj) : HM addr := alloc_at (fun _ => o).

(** Typed loads.  A Python reference always leads to an object of the class
    the program expects; the [AttributeError] branches are never taken on a
    heap that holds a graph. *)
Definition load_node (a : addr) : HM NodeObj :=
  o <~ load a ;; match o with ONode n => hret n | _ => hraise AttributeError end.

Definition load_edge (a : addr) : HM EdgeObj :=
  o <~ load a ;; match o with OEdge e => hret e | _ => hraise AttributeError end.

Definition load_meta (a : addr) : HM (dict pyval) :=
  o <~ load a ;; match o with OMeta md => hret md | _ => hraise AttributeError end.

Definition load_set (a : addr) : HM pyset :=
  o <~ load a ;; match o with OSet s => hret s | _ => hraise AttributeError end.

Definition load_graph (a : addr) : HM GraphObj :=
  o <~ load a ;; match o with OGraph go => hret go | _ => hraise AttributeError end.

(** [for x in l: f(x)] *)
Fixpoint hfor {X : Type} (l : list X) (f : X -> HM unit) : HM unit :=
  match l with
  | [] => hret tt
  | x :: l' => _ <~ f x ;; hfor l' f
  end.

(** [[f(x) for x in l]] *)
Fixpoint hmapM {X Y : Type} (f : X -> HM Y) (l : list X) : HM (list Y) :=
  match l with
  | [] => hret []
  | x :: l' => y <~ f x ;; ys <~ hmapM f l' ;; hret (y :: ys)
  end.

(** [d[k]] on a dict of references *)
Definition href (k : string) (d : dict addr) : HM addr :=
  hlift (dict_index k d).

(** [copy.deepcopy(node)]: a new node object with a new metadata dict. *)
Definition deepcopy_node (a : addr) : HM addr :=
  node <~ load_node a ;;
  md <~ load_meta (no_metadata node) ;;
  md' <~ alloc (OMeta md) ;;
  alloc (ONode (mkNodeObj (no_id node) (no_type node) (no_name node)
                  (no_description node) md' (no_criticality node))).

Definition deepcopy_edge (a : addr) : HM addr :=
  edge <~ load_edge a ;;
  md <~ load_meta (eo_metadata edge) ;;
  md' <~ alloc (OMeta md) ;;
  alloc (OEdge (mkEdgeObj (eo_id edge) (eo_source edge) (eo_target edge)
                  (eo_type edge) (eo_weight edge) (eo_confidence edge) md')).

(** [s.add(x)] and [s.discard(x)] on the set at an address *)
Definition heap_set_add (sa : addr) (x : string) : HM unit :=
  s <~ load_set sa ;; store sa (OSet (set_add x s)).

Definition heap_set_discard (sa : addr) (x : string) : HM unit :=
  s <~ load_set sa ;; store sa (OSet (set_discard x s)).

(** First loop of [_clone_graph], for one node of the original. *)
Definition clone_node (new_graph : addr) (a : addr) : HM unit :=
  new_node <~ deepcopy_node a ;;
  n <~ load_node new_node ;;
  out <~ alloc (OSet []) ;;
  inc <~ alloc (OSet []) ;;
  go <~ load_graph new_graph ;;
  store new_graph
    (OGraph (mkGraphObj (dict_set (no_id n) new_node (go_nodes go))
               (go_edges go)
               (dict_set (no_id n) out (go_adjacency go))
               (dict_set (no_id n) inc (go_reverse_adjacency go)))).

(** Second loop of [_clone_graph], for one edge of the original. *)
Definition clone_edge (new_graph : addr) (a : addr) : HM unit :=
  new_edge <~ deepcopy_edge a ;;
  e <~ load_edge new_edge ;;
  go <~ load_graph new_graph ;;
  _ <~ store new_graph
         (OGraph (mkGraphObj (go_nodes go)
                    (dict_set (eo_id e) new_edge (go_edges go))
                    (go_adjacency go) (go_reverse_adjacency go))) ;;
  out <~ href (eo_source e) (go_adjacency go) ;;
  _ <~ heap_set_add out (eo_id e) ;;
  inc <~ href (eo_target e) (go_reverse_adjacency go) ;;
  heap_set_add inc (eo_id e).

(** [CounterfactualSimulator._clone_graph] *)
Definition _clone_graph (graph : addr) : HM addr :=
  new_graph <~ alloc (OGraph (mkGraphObj [] [] [] [])) ;;
  go <~ load_graph graph ;;
  _ <~ hfor (dict_values (go_nodes go)) (clone_node new_graph) ;;
  _ <~ hfor (dict_values (go_edges go)) (clone_edge new_graph) ;;
  hret new_graph.

(** [graph.get_incoming_edges(node_id)] and [graph.get_outgoing_edges(node_id)]
    on the graph at an address: the edge objects, by reference. *)
Definition heap_bucket_edges (graph : addr) (idx : GraphObj -> dict addr)
    (node_id : string) : HM (list EdgeObj) :=
  go <~ load_graph graph ;;
  match dict_get node_id (idx go) with
  | None => hret []
  | Some sa =>
      s <~ load_set sa ;;
      hmapM (fun eid => ea <~ href eid (go_edges go) ;; load_edge ea) s
  end.

(** [graph.add_edge(edge)] for the edge object at [ea] *)
Definition heap_add_edge (graph : addr) (ea : addr) : HM unit :=
  edge <~ load_edge ea ;;
  go <~ load_graph graph ;;
  if negb (dict_mem (eo_source edge) (go_nodes go)) then
    hraise (ValueError ("Source node " ++ eo_source edge ++ " not found"))
  else if negb (dict_mem (eo_target edge) (go_nodes go)) then
    hraise (ValueError ("Target node " ++ eo_target edge ++ " not found"))
  else
    _ <~ store graph
           (OGraph (mkGraphObj (go_nodes go)
                      (dict_set (eo_id edge) ea (go_edges go))
                      (go_adjacency go) (go_reverse_adjacency go))) ;;
    out <~ href (eo_source edge) (go_adjacency go) ;;
    _ <~ heap_set_add out (eo_id edge) ;;
    inc <~ href (eo_target edge) (go_reverse_adjacency go) ;;
    heap_set_add inc (eo_id edge).

(** The body of the [for edge_id in edges_to_remove] loop of
    [_modify_node_failure]. *)
Definition remove_edge (graph : addr) (edge_id : string) : HM unit :=
  go <~ load_graph graph ;;
  ea <~ href edge_id (go_edges go) ;;
  edge <~ load_edge ea ;;
  _ <~ match dict_get (eo_source edge) (go_adjacency go) with
       | Some sa => heap_set_discard sa edge_id
       | None => hret tt
       end ;;
  _ <~ match dict_get (eo_target edge) (go_reverse_adjacency go) with
       | Some sa => heap_set_discard sa edge_id
       | None => hret tt
       end ;;
  store graph
    (OGraph (mkGraphObj (go_nodes go) (dict_del edge_id (go_edges go))
               (go_adjacency go) (go_reverse_adjacency go))).

(** [_modify_node_failure(node_id)(graph)] *)
Definition modify_node_failure (node_id : string) (graph : addr) : HM unit :=
  go <~ load_graph graph ;;
  if dict_mem node_id (go_nodes go) then
    flags <~ hmapM (fun kv =>
                 edge <~ load_edge (snd kv) ;;
                 hret (fst kv, orb (String.eqb (eo_source edge) node_id)
                                   (String.eqb (eo_target edge) node_id)))
               (go_edges go) ;;
    let edges_to_remove := map fst (filter snd flags) in
    _ <~ hfor edges_to_remove (remove_edge graph) ;;
    go1 <~ load_graph graph ;;
    store graph
      (OGraph (mkGraphObj (dict_del node_id (go_nodes go1)) (go_edges go1)
                 (if dict_mem node_id (go_adjacency go1)
                  then dict_del node_id (go_adjacency go1) else go_adjacency go1)
                 (if dict_mem node_id (go_reverse_adjacency go1)
                  then dict_del node_id (go_reverse_adjacency go1)
                  else go_reverse_adjacency go1)))
  else hret tt.

(** The body of the [for edge in incoming] loop of [_modify_traffic_spike]:
    [source_node.metadata["resource_demand"] *= multiplier] when the key is
    present. *)
Definition spike_demand (multiplier : Q) (graph : addr) (edge : EdgeObj) : HM unit :=
  go <~ load_graph graph ;;
  match dict_get (eo_source edge) (go_nodes go) with
  | None => hraise AttributeError
  | Some na =>
      source_node <~ load_node na ;;
      md <~ load_meta (no_metadata source_node) ;;
      match dict_get "resource_demand" md with
      | None => hret tt
      | Some v =>
          q <~ hlift (as_num v) ;;
          store (no_metadata source_node)
            (OMeta (dict_set "resource_demand" (VNum (q * multiplier)%Q) md))
      end
  end.

(** [_modify_traffic_spike(multiplier)(graph)] *)
Definition modify_traffic_spike (multiplier : Q) (graph : addr) : HM unit :=
  go <~ load_graph graph ;;
  all_nodes <~ hmapM load_node (dict_values (go_nodes go)) ;;
  let resources := filter (fun n => NodeType_eqb (no_type n) RESOURCE) all_nodes in
  hfor resources (fun resource =>
    if orb (contains "cpu" (lower (no_name resource)))
           (contains "memory" (lower (no_name resource)))
    then
      incoming <~ heap_bucket_edges graph go_reverse_adjacency (no_id resource) ;;
      hfor incoming (spike_demand multiplier graph)
    else hret tt).

(** [_modify_remove_resource(resource_id)(graph)] *)
Definition modify_remove_resource (resource_id : string) (graph : addr) : HM unit :=
  go <~ load_graph graph ;;
  match dict_get resource_id (go_nodes go) with
  | None => hret tt
  | Some na =>
      resource <~ load_node na ;;
      md <~ load_meta (no_metadata resource) ;;
      _ <~ store (no_metadata resource) (OMeta (dict_set "available" (VBool false) md)) ;;
      md1 <~ load_meta (no_metadata resource) ;;
      store (no_metadata resource) (OMeta (dict_set "capacity" (VNum 0) md1))
  end.

(** The graph held at an address, read back as a value: every reference is
    followed to the object it leads to. *)
Definition read_node (h : heap) (a : addr) : option Node :=
  match nth_error h a with
  | Some (ONode n) =>
      match nth_error h (no_metadata n) with
      | Some (OMeta md) =>
          Some (mkNode (no_id n) (no_type n) (no_name n) (no_description n) md
                  (no_criticality n))
      | _ => None
      end
  | _ => None
  end.

Definition read_edge (h : heap) (a : addr) : option Edge :=
  match nth_error h a with
  | Some (OEdge e) =>
      match nth_error h (eo_metadata e) with
      | Some (OMeta md) =>
          Some (mkEdge (eo_id e) (eo_source e) (eo_target e) (eo_type e)
                  (eo_weight e) (eo_confidence e) md)
      | _ => None
      end
  | _ => None
  end.

Definition read_set (h : heap) (a : addr) : option pyset :=
  match nth_error h a with
  | Some (OSet s) => Some s
  | _ => None
  end.

Fixpoint read_dict {V : Type} (rd : addr -> option V) (d : dict addr) : option (dict V) :=
  match d with
  | [] => Some []
  | (k, a) :: d' =>
      match rd a, read_dict rd d' with
      | Some v, Some vs => Some ((k, v) :: vs)
      | _, _ => None
      end
  end.

Definition read_graph (h : heap) (a : addr) : option RealityGraph :=
  match nth_error h a with
  | Some (OGraph go) =>
      match read_dict (read_node h) (go_nodes go),
            read_dict (read_edge h) (go_edges go),
            read_dict (read_set h) (go_adjacency go),
            read_dict (read_set h) (go_reverse_adjacency go) with
      | Some ns, Some es, Some adj, Some radj => Some (mkGraph ns es adj radj)
      | _, _, _, _ => None
      end
  | _ => None
  end.

(** The value of the graph at an address, for the calculators, which only
    read it. *)
Definition snapshot (a : addr) : HM RealityGraph :=
  fun h => match read_graph h a with
           | Some g => (Ok g, h)
           | None => (Raise AttributeError, h)
           end.

Section Simulator.
Context `{Formatter} `{Interpreter}.

(** [str(uuid.uuid4())], the default id of a new [Edge]: the ids handed out,
    indexed by the address of the edge they are made for. *)
Variable uuid4 : addr -> string.

(** [_modify_violate_assumption(assumption_id)(graph)] *)
Definition modify_violate_assumption (assumption_id : string) (graph : addr) : HM unit :=
  go <~ load_graph graph ;;
  match dict_get assumption_id (go_nodes go) with
  | None => hret tt
  | Some na =>
      assumption <~ load_node na ;;
      outgoing <~ heap_bucket_edges graph go_adjacency assumption_id ;;
      hfor outgoing (fun edge =>
        if EdgeType_eqb (eo_type edge) ASSUMES then
          md <~ alloc (OMeta [("reason",
                               VStr ("Assumption '" ++ no_name assumption ++ "' violated"));
                              ("severity", VNum (85 # 100))]) ;;
          contra_edge <~ alloc_at (fun a =>
            OEdge (mkEdgeObj (uuid4 a) (eo_target edge) assumption_id CONTRADICTS 1 1 md)) ;;
          heap_add_edge graph contra_edge
        else hret tt)
  end.

(** [modification(test_graph)] *)
Definition apply_modification (m : Modification) (graph : addr) : HM unit :=
  match m with
  | ModifyTrafficSpike multiplier => modify_traffic_spike multiplier graph
  | ModifyNodeFailure node_id => modify_node_failure node_id graph
  | ModifyRemoveResource resource_id => modify_remove_resource resource_id graph
  | ModifyViolateAssumption assumption_id => modify_violate_assumption assumption_id graph
  end.

(** The first two steps of [_test_scenario]: clone the base graph and apply
    the modifications of the scenario to the clone. *)
Definition prepare_scenario (base_graph : addr) (modifications : list Modification)
  : HM addr :=
  test_graph <~ _clone_graph base_graph ;;
  _ <~ hfor modifications (fun m => apply_modification m test_graph) ;;
  hret test_graph.

(** [CounterfactualSimulator._test_scenario].  The context it builds has no
    key the axioms read. *)
Definition _test_scenario (base_graph : addr) (sc : CounterfactualScenario)
  : HM CounterfactualResult :=
  test_graph <~ prepare_scenario base_graph (s_modifications sc) ;;
  g <~ snapshot test_graph ;;
  violations <~ hlift (verify_all g empty_context) ;;
  fii <~ hlift (compute g violations) ;;
  let fatal_violations := get_fatal_violations violations in
  let has_survived :=
    andb (Nat.eqb (List.length fatal_violations) 0) (negb (Qgeb fii (9 # 10))) in
  let reason :=
    match fatal_violations with
    | v :: _ => "Fatal axiom violation: " ++ str_val (explanation v)
    | [] => "FII reached " ++ fmt_percent 2 fii ++ " - inevitable failure"
    end in
  hret (mkResult sc has_survived
          (if has_survived then "" else reason)
          fii violations
          (if has_survived
           then "System survived '" ++ s_name sc ++ "' (FII: " ++ fmt_percent 2 fii ++ ")"
           else "System collapsed under '" ++ s_name sc ++ "': " ++ reason)).

(** [CounterfactualSimulator.run_simulation] *)
Definition run_simulation (base_graph : addr) (scenarios : list CounterfactualScenario)
  : HM (list CounterfactualResult) :=
  hmapM (_test_scenario base_graph) scenarios.

End Simulator.

(** The frame condition of a scenario run from a heap of [n0] objects: the
    heap has at least [n0] objects, and no object at an address from [n0] on
    refers below [n0]. *)
Definition upper_closed (n0 : nat) (h : heap) : Prop :=
  n0 <= List.length h
  /\ forall a o, n0 <= a -> nth_error h a = Some o -> Forall (fun r => n0 <= r) (refs o).

(** A computation that respects the frame: it keeps the first [n0] objects
    as they are, keeps the part above closed, and a value it returns
    satisfies [Q]. *)
Definition safe {A : Type} (n0 : nat) (m : HM A) (Q : A -> Prop) : Prop :=
  forall h, upper_closed n0 h ->
    upper_closed n0 (snd (m h))
    /\ firstn n0 (snd (m h)) = firstn n0 h
    /\ forall a, fst (m h) = Ok a -> Q a.

(** A heap holding the base graph [B -Requires-> R] at address 6, and an id
    generator for the examples. *)
Definition heap_base : heap :=
  [OMeta [("capacity", VNum 10)];
   ONode (mkNodeObj "R" RESOURCE "R" "" 0 (5 # 10));
   OMeta [("resource_demand", VNum 8)];
   ONode (mkNodeObj "B" DECISION "B" "" 2 (5 # 10));
   OMeta [];
   OEdge (mkEdgeObj "E" "B" "R" REQUIRES 1 1 4);
   OGraph (mkGraphObj [("R", 1); ("B", 3)] [("E", 5)] [("R", 7); ("B", 8)]
             [("R", 9); ("B", 10)]);
   OSet []; OSet ["E"]; OSet ["E"]; OSet []].

Definition uuid_of_address (a : addr) : string := "uuid-" ++ str_nat a.

(** The value of the graph that [heap_base] holds at address 6. *)
Definition graph_base : RealityGraph :=
  exec (add_edge (edge_of "E" "B" "R" REQUIRES []))
  (exec (add_node (node_of "B" DECISION [("resource_demand", VNum 8)]))
  (exec (add_node (node_of "R" RESOURCE [("capacity", VNum 10)])) empty_graph)).


(** [_clone_graph] on graph values: what the two loops build, node by node
    and edge by edge.  A missing bucket is the [KeyError] of
    [new_graph._adjacency[new_edge.source]]. *)
Definition clone_node_value (acc : RealityGraph) (n : Node) : RealityGraph :=
  mkGraph (dict_set (n_id n) n (nodes acc)) (edges acc)
          (dict_set (n_id n) [] (_adjacency acc))
          (dict_set (n_id n) [] (_reverse_adjacency acc)).

Definition clone_edge_value (acc : RealityGraph) (e : Edge) : result RealityGraph :=
  out <- dict_index (e_source e) (_adjacency acc) ;;
  inc <- dict_index (e_target e) (_reverse_adjacency acc) ;;
  Ok (mkGraph (nodes acc) (dict_set (e_id e) e (edges acc))
        (dict_set (e_source e) (set_add (e_id e) out) (_adjacency acc))
        (dict_set (e_target e) (set_add (e_id e) inc) (_reverse_adjacency acc))).

Fixpoint clone_edges_value (es : list Edge) (acc : RealityGraph) : result RealityGraph :=
  match es with
  | [] => Ok acc
  | e :: es' => acc' <- clone_edge_value acc e ;; clone_edges_value es' acc'
  end.

Definition clone_value (g : RealityGraph) : result RealityGraph :=
  clone_edges_value (dict_values (edges g))
    (fold_left clone_node_value (dict_values (nodes g)) empty_graph).

(** No two node ids of the graph object share a metadata dict, and no node
    shares one with an edge. *)
Definition separate (h : heap) (go : GraphObj) : Prop :=
  (forall k a no k' a' no',
      In (k, a) (go_nodes go) -> In (k', a') (go_nodes go) ->
      nth_error h a = Some (ONode no) -> nth_error h a' = Some (ONode no') ->
      no_metadata no = no_metadata no' -> k = k')
  /\ (forall k a no k' a' eo,
      In (k, a) (go_nodes go) -> In (k', a') (go_edges go) ->
      nth_error h a = Some (ONode no) -> nth_error h a' = Some (OEdge eo) ->
      no_metadata no <> eo_metadata eo).

(** The graph object at [c] holds the value [g], its buckets are separate
    set objects, and its nodes have metadata dicts of their own. *)
Definition holds (h : heap) (c : addr) (g : RealityGraph) : Prop :=
  exists go,
    nth_error h c = Some (OGraph go)
    /\ read_dict (read_node h) (go_nodes go) = Some (nodes g)
    /\ read_dict (read_edge h) (go_edges go) = Some (edges g)
    /\ read_dict (read_set h) (go_adjacency go) = Some (_adjacency g)
    /\ read_dict (read_set h) (go_reverse_adjacency go) = Some (_reverse_adjacency g)
    /\ NoDup (dict_values (go_adjacency go) ++ dict_values (go_reverse_adjacency go))%list
    /\ separate h go.

(** Nodes, edges and metadata dicts of [h] are the same objects in [h'];
    sets are still sets and graphs still graphs. *)
Definition keeps (h h' : heap) : Prop :=
  forall a o, nth_error h a = Some o ->
    match o with
    | OSet _ => exists s, nth_error h' a = Some (OSet s)
    | OGraph _ => exists go, nth_error h' a = Some (OGraph go)
    | _ => nth_error h' a = Some o
    end.

(** The chance that none of the collapse paths with certainties [cs] is
    taken, were they independent: the product of the [1 - c]. *)
Definition survival (cs : list Q) : Q :=
  fold_right (fun c acc => ((1 - c) * acc)%Q) 1%Q cs.

(** [l1] is [l2] with some items left out. *)
Inductive subseq {A : Type} : list A -> list A -> Prop :=
| subseq_nil : subseq [] []
| subseq_skip (x : A) (l1 l2 : list A) : subseq l1 l2 -> subseq l1 (x :: l2)
| subseq_keep (x : A) (l1 l2 : list A) : subseq l1 l2 -> subseq (x :: l1) (x :: l2).

(** The [name] each axiom of the registry sets in its [__init__], in
    registration order. *)
Definition axiom_names : list string :=
  ["EXISTENCE_AXIOM"; "CONTRADICTION_LAW"; "INEVITABILITY_AXIOM";
   "COUNTERFACTUAL_VALIDITY"; "HUMAN_DEPENDENCY_PARADOX"; "SILENT_ASSUMPTION_LAW"].

(** The violations an axiom contributes to the list of [verify_all]. *)
Definition reported (o : option AxiomViolation) : list AxiomViolation :=
  match o with Some v => [v] | None => [] end.

(** [CounterfactualSimulator.get_critical_failures] *)
Definition get_critical_failures (results : list CounterfactualResult)
  : list CounterfactualResult :=
  filter (fun r => andb (negb (survived r)) (Qgeb (s_criticality (scenario r)) (7 # 10)))
         results.

(** [CounterfactualSimulator.get_failure_rate] *)
Definition get_failure_rate (results : list CounterfactualResult) : result Q :=
  match results with
  | [] => Ok 0%Q
  | _ =>
      let failed := List.length (filter (fun r => negb (survived r)) results) in
      py_div (Qnat failed) (Qnat (List.length results))
  end.

(** A decision that assumes something and causes nothing, beside a
    behaviour that no edge reaches. *)
Definition scenario_orphan : RealityGraph :=
  exec (add_edge (edge_of "E1" "D1" "A1" ASSUMES []))
  (exec (add_node (node_of "B1" BEHAVIOR []))
  (exec (add_node (node_of "A1" ASSUMPTION []))
  (exec (add_node (node_of "D1" DECISION [])) empty_graph))).

(** [s] is the source of an edge that the reverse index lists for [v]. *)
Definition incoming_source (g : RealityGraph) (v s : string) : Prop :=
  exists eid e, In eid (bucket (_reverse_adjacency g) v)
                /\ dict_get eid (edges g) = Some e /\ e_source e = s.

(** [d] is [x] or is reached from [x] by following incoming edges
    backwards. *)
Inductive reaches_back (g : RealityGraph) : string -> string -> Prop :=
| reaches_back_here (x : string) : reaches_back g x x
| reaches_back_step (x s d : string) :
    incoming_source g x s -> reaches_back g s d -> reaches_back g x d.

(** The node stored under [d] is a decision. *)
Definition is_decision (g : RealityGraph) (d : string) : Prop :=
  exists n, dict_get d (nodes g) = Some n /\ n_type n = DECISION.

(** One decision whose name mentions high availability and a single
    instance. *)
Definition scenario_ha_single : RealityGraph :=
  exec (add_node (node_of "Highly available API on a single database" DECISION []))
       empty_graph.

(* ------------------------------------------------------------------ *)
(** ** Causal paths ([RealityGraph.compute_causal_paths]) *)

(** The variables the nested function [dfs] closes over. *)
Record PathState : Type := mkPathState {
  ps_paths : list (list string);
  ps_visited : pyset;
  ps_current_path : list string
}.

(** [edge.type in [EdgeType.CAUSES, EdgeType.ENABLES, EdgeType.REQUIRES]] *)
Definition is_causal (edge : Edge) : bool :=
  existsb (EdgeType_eqb (e_type edge)) [CAUSES; ENABLES; REQUIRES].

(** The [for edge in self.get_outgoing_edges(node_id)] loop of [dfs];
    [recurse] is the recursive call [dfs(edge.target)]. *)
Fixpoint dfs_edges (recurse : string -> PathState -> result PathState)
    (es : list Edge) (st : PathState) {struct es} : result PathState :=
  match es with
  | [] => Ok st
  | edge :: es' =>
      if is_causal edge then
        st' <- recurse (e_target edge) st ;;
        dfs_edges recurse es' st'
      else dfs_edges recurse es' st
  end.

(** The nested function [dfs].  [room] is the number of nested activations
    the interpreter has room for: the call that would exceed it raises
    [RecursionError].  [current_path.pop()] is applied to a list that ends
    with [node_id]. *)
Fixpoint dfs (g : RealityGraph) (to_node_id : string) (room : nat) (node_id : string)
    (st : PathState) {struct room} : result PathState :=
  match room with
  | O => Raise RecursionError
  | S fuel' =>
      if set_mem node_id (ps_visited st) then Ok st
      else
        let st1 := mkPathState (ps_paths st) (set_add node_id (ps_visited st))
                     (ps_current_path st ++ [node_id])%list in
        st2 <- (if String.eqb node_id to_node_id then
                  Ok (mkPathState (ps_paths st1 ++ [ps_current_path st1])%list
                        (ps_visited st1) (ps_current_path st1))
                else
                  out <- get_outgoing_edges g node_id ;;
                  dfs_edges (dfs g to_node_id fuel') out st1) ;;
        visited <- set_remove node_id (ps_visited st2) ;;
        Ok (mkPathState (ps_paths st2) visited (removelast (ps_current_path st2)))
  end.

(** [RealityGraph.compute_causal_paths] *)
Definition compute_causal_paths `{Interpreter} (g : RealityGraph)
    (from_node_id to_node_id : string) : result (list (list string)) :=
  st <- dfs g to_node_id recursion_room from_node_id (mkPathState [] [] []) ;;
  Ok (ps_paths st).

(** An outgoing edge of [a] of one of the three causal types leads to [b]. *)
Definition causal_step (g : RealityGraph) (a b : string) : Prop :=
  exists eid e, In eid (bucket (_adjacency g) a)
                /\ dict_get eid (edges g) = Some e
                /\ is_causal e = true /\ e_target e = b.

(** Consecutive items of the list are joined by causal steps. *)
Fixpoint causal_path (g : RealityGraph) (l : list string) : Prop :=
  match l with
  | a :: ((b :: _) as rest) => causal_step g a b /\ causal_path g rest
  | _ => True
  end.

(** [edge.type.value in ["causes", "enables"]] *)
Definition is_dependency (e : Edge) : bool :=
  orb (String.eqb (EdgeType_value (e_type e)) "causes")
      (String.eqb (EdgeType_value (e_type e)) "enables").

(** An outgoing CAUSES or ENABLES edge of [a] leads to [b]. *)
Definition dependency_step (g : RealityGraph) (a b : string) : Prop :=
  exists eid e, In eid (bucket (_adjacency g) a)
                /\ dict_get eid (edges g) = Some e
                /\ is_dependency e = true /\ e_target e = b.

(** [b] is reached from [a] by one or more CAUSES or ENABLES edges. *)
Inductive depends_transitively (g : RealityGraph) : string -> string -> Prop :=
| depends_one (a b : string) :
    dependency_step g a b -> depends_transitively g a b
| depends_more (a b c : string) :
    dependency_step g a b -> depends_transitively g b c -> depends_transitively g a c.

(* ------------------------------------------------------------------ *)
(** ** The standard scenarios *)

(** [CounterfactualSimulator.generate_standard_scenarios]: the list assigned
    to [self.scenarios], for the base graph [g]. *)
Definition generate_standard_scenarios (g : RealityGraph) : list CounterfactualScenario :=
  let critical_nodes := get_critical_nodes g (8 # 10) in
  let resource_nodes := get_nodes_by_type g RESOURCE in
  let human_resources :=
    filter (fun r => orb (contains "human" (lower (n_name r)))
                         (contains "engineer" (lower (n_name r))))
           resource_nodes in
  let assumption_nodes := get_nodes_by_type g ASSUMPTION in
  ([mkScenario "Traffic Spike 1.5x" TRAFFIC_SPIKE
      "System receives 1.5x expected traffic" (7 # 10)
      [ModifyTrafficSpike (15 # 10)] [("multiplier", OVal (VNum (15 # 10)))];
    mkScenario "Traffic Spike 3x" TRAFFIC_SPIKE
      "System receives 3x expected traffic" (8 # 10)
      [ModifyTrafficSpike 3] [("multiplier", OVal (VNum 3))]]
   ++ map (fun node =>
        mkScenario ("Node Failure: " ++ n_name node) NODE_FAILURE
          ("Critical node '" ++ n_name node ++ "' fails") (9 # 10)
          [ModifyNodeFailure (n_id node)] [("failed_node", ostr (n_name node))])
      (firstn 3 critical_nodes)
   ++ map (fun human =>
        mkScenario ("Human Unavailable: " ++ n_name human) HUMAN_UNAVAILABLE
          ("Key person '" ++ n_name human ++ "' becomes unavailable") (85 # 100)
          [ModifyRemoveResource (n_id human)] [("missing_human", ostr (n_name human))])
      (firstn 2 human_resources)
   ++ map (fun assumption =>
        mkScenario ("Assumption Violated: " ++ n_name assumption) ASSUMPTION_VIOLATED
          ("Assumption '" ++ n_name assumption ++ "' proves false") (75 # 100)
          [ModifyViolateAssumption (n_id assumption)]
          [("violated_assumption", ostr (n_name assumption))])
      (firstn 3 assumption_nodes))%list.

(** The node id a modification was built for. *)
Definition modification_target (m : Modification) : option string :=
  match m with
  | ModifyTrafficSpike _ => None
  | ModifyNodeFailure node_id => Some node_id
  | ModifyRemoveResource resource_id => Some resource_id
  | ModifyViolateAssumption assumption_id => Some assumption_id
  end.


(* ------------------------------------------------------------------ *)
(** ** Cycles of requirements *)

(** [edge.type.value in ["requires", "depends_on"]] *)
Definition is_requirement (e : Edge) : bool :=
  orb (String.eqb (EdgeType_value (e_type e)) "requires")
      (String.eqb (EdgeType_value (e_type e)) "depends_on").

(** An outgoing REQUIRES or DEPENDS_ON edge of [a] leads to [b]. *)
Definition requirement_step (g : RealityGraph) (a b : string) : Prop :=
  exists eid e, In eid (bucket (_adjacency g) a)
                /\ dict_get eid (edges g) = Some e
                /\ is_requirement e = true /\ e_target e = b.

(** Every element of the list has one outgoing edge, a REQUIRES or
    DEPENDS_ON edge to the next element: the search that enters the first
    element has no other way than down the list. *)
Fixpoint forced_chain (g : RealityGraph) (l : list string) : Prop :=
  match l with
  | [] => True
  | x :: l' =>
      match l' with
      | [] => True
      | y :: _ => exists e, get_outgoing_edges g x = Ok [e]
                            /\ is_requirement e = true /\ e_target e = y
      end /\ forced_chain g l'
  end.

(** [b] is reached from [a] by one or more REQUIRES or DEPENDS_ON edges. *)
Inductive requires_transitively (g : RealityGraph) : string -> string -> Prop :=
| requires_one (a b : string) :
    requirement_step g a b -> requires_transitively g a b
| requires_more (a b c : string) :
    requirement_step g a b -> requires_transitively g b c -> requires_transitively g a c.

(** Every element of the list requires the next one. *)
Fixpoint requirement_chain (g : RealityGraph) (l : list string) : Prop :=
  match l with
  | [] => True
  | x :: l' =>
      match l' with
      | [] => True
      | y :: _ => requirement_step g x y
      end /\ requirement_chain g l'
  end.

(** A simple cycle of requirements among the nodes of the graph: no id
    twice, every element requires the next one and the last the first. *)
Definition requirement_cycle (g : RealityGraph) (l : list string) : Prop :=
  l <> []
  /\ NoDup l
  /\ (forall x, In x l -> dict_mem x (nodes g) = true)
  /\ requirement_chain g l
  /\ requirement_step g (last l "") (hd "" l).

(** The nodes [has_cycle] has left again. *)
Definition finished (st : DeadlockState) (y : string) : Prop :=
  In y (dl_visited st) /\ ~ In y (dl_rec_stack st).

(** What holds of the search as long as no cycle has been met: nothing is
    recorded, the recursion stack has the ids of the current path, the
    current path is a chain of requirements without repetition among the
    visited ids, and what is finished only requires what is finished and
    lies on no cycle. *)
Definition search_inv (g : RealityGraph) (st : DeadlockState) : Prop :=
  dl_paths st = []
  /\ dl_rec_stack st = dl_current_path st
  /\ requirement_chain g (dl_current_path st)
  /\ NoDup (dl_current_path st)
  /\ incl (dl_current_path st) (dl_visited st)
  /\ (forall y z, finished st y -> requirement_step g y z -> finished st z)
  /\ (forall y, finished st y -> ~ requires_transitively g y y).

(** The one path recorded when the search meets a cycle. *)
Definition first_cycle (g : RealityGraph) (st : DeadlockState) : Prop :=
  exists p, dl_paths st = [p]
            /\ path_type p = CP_DEADLOCK /\ requirement_cycle g (path_nodes p).

(** What a call [has_cycle(node)] gives when it starts from a state in which
    no cycle has been met. *)
Definition search_post (g : RealityGraph) (node : string) (st : DeadlockState)
    (r : bool * DeadlockState) : Prop :=
  if fst r then first_cycle g (snd r)
  else search_inv g (snd r)
       /\ dl_current_path (snd r) = dl_current_path st
       /\ incl (dl_visited st) (dl_visited (snd r))
       /\ finished (snd r) node.

(** A circular requirement between two services, and a third service that
    requires the first. *)
Definition scenario_circular : RealityGraph :=
  exec (add_edge (edge_of "E3" "C" "A" REQUIRES []))
  (exec (add_edge (edge_of "E2" "B" "A" DEPENDS_ON []))
  (exec (add_edge (edge_of "E1" "A" "B" REQUIRES []))
  (exec (add_node (node_of "C" BEHAVIOR []))
  (exec (add_node (node_of "B" BEHAVIOR []))
  (exec (add_node (node_of "A" BEHAVIOR [])) empty_graph))))).


(* ------------------------------------------------------------------ *)
(** ** A resource made unavailable *)

(** [resource.metadata["available"] = False] and
    [resource.metadata["capacity"] = 0] *)
Definition unavailable (resource : Node) : Node :=
  mkNode (n_id resource) (n_type resource) (n_name resource) (n_description resource)
    (dict_set "capacity" (VNum 0)
       (dict_set "available" (VBool false) (n_metadata resource)))
    (n_criticality resource).

(** [_modify_remove_resource(resource_id)(graph)] on graph values *)
Definition remove_resource_value (resource_id : string) (g : RealityGraph)
  : RealityGraph :=
  match get_node g resource_id with
  | Some resource =>
      mkGraph (dict_set resource_id (unavailable resource) (nodes g)) (edges g)
        (_adjacency g) (_reverse_adjacency g)
  | None => g
  end.

(** The demand [_find_resource_exhaustion_paths] reads off a consumer is a
    positive number. *)
Definition positive_demand (consumer : Node) : Prop :=
  exists q, as_num (demand_of consumer) = Ok q /\ (0 < q)%Q.

(** The scenario [generate_standard_scenarios] builds for a person "R". *)
Definition scenario_human_unavailable : CounterfactualScenario :=
  mkScenario "Human Unavailable: R" HUMAN_UNAVAILABLE
    "Key person 'R' becomes unavailable" (85 # 100)
    [ModifyRemoveResource "R"] [("missing_human", ostr "R")].


(* ------------------------------------------------------------------ *)
(** ** A node that fails *)

(** The body of the [for edge_id in edges_to_remove] loop of
    [_modify_node_failure], on graph values. *)
Definition remove_edge_value (g : RealityGraph) (edge_id : string) : result RealityGraph :=
  edge <- dict_index edge_id (edges g) ;;
  Ok (mkGraph (nodes g) (dict_del edge_id (edges g))
        (match dict_get (e_source edge) (_adjacency g) with
         | Some s => dict_set (e_source edge) (set_discard edge_id s) (_adjacency g)
         | None => _adjacency g
         end)
        (match dict_get (e_target edge) (_reverse_adjacency g) with
         | Some s => dict_set (e_target edge) (set_discard edge_id s) (_reverse_adjacency g)
         | None => _reverse_adjacency g
         end)).

Fixpoint remove_edges_value (edge_ids : list string) (g : RealityGraph)
  : result RealityGraph :=
  match edge_ids with
  | [] => Ok g
  | edge_id :: rest => g' <- remove_edge_value g edge_id ;; remove_edges_value rest g'
  end.

(** [edge.source == node_id or edge.target == node_id] *)
Definition is_incident (node_id : string) (e : Edge) : bool :=
  orb (String.eqb (e_source e) node_id) (String.eqb (e_target e) node_id).

(** [_modify_node_failure(node_id)(graph)] on graph values *)
Definition node_failure_value (node_id : string) (g : RealityGraph) : result RealityGraph :=
  if dict_mem node_id (nodes g) then
    let edges_to_remove :=
      map fst (filter (fun kv => is_incident node_id (snd kv)) (edges g)) in
    g1 <- remove_edges_value edges_to_remove g ;;
    Ok (mkGraph (dict_del node_id (nodes g1)) (edges g1)
          (if dict_mem node_id (_adjacency g1)
           then dict_del node_id (_adjacency g1) else _adjacency g1)
          (if dict_mem node_id (_reverse_adjacency g1)
           then dict_del node_id (_reverse_adjacency g1) else _reverse_adjacency g1))
  else Ok g.


(* ------------------------------------------------------------------ *)
(** ** A cascade *)

(** A critical service whose failure reaches four other services, one
    after the other. *)
Definition scenario_cascade : RealityGraph :=
  exec (add_edge (edge_of "C4" "N3" "N4" CAUSES []))
  (exec (add_edge (edge_of "C3" "N2" "N3" ENABLES []))
  (exec (add_edge (edge_of "C2" "N1" "N2" CAUSES []))
  (exec (add_edge (edge_of "C1" "N0" "N1" CAUSES []))
  (exec (add_node (node_of "N4" BEHAVIOR []))
  (exec (add_node (node_of "N3" BEHAVIOR []))
  (exec (add_node (node_of "N2" BEHAVIOR []))
  (exec (add_node (node_of "N1" BEHAVIOR []))
  (exec (add_node (mkNode "N0" BEHAVIOR "N0" "" [] (9 # 10))) empty_graph)))))))).

(** [node.metadata.get("has_redundancy", False)], as the condition
    [_find_spof_paths] tests. *)
Definition has_redundancy (node : Node) : bool :=
  match dict_get "has_redundancy" (n_metadata node) with
  | Some v => truthy v
  | None => false
  end.

(** A database without redundancy behind two critical services. *)
Definition scenario_spof : RealityGraph :=
  exec (add_edge (edge_of "S2" "DB" "Billing" ENABLES []))
  (exec (add_edge (edge_of "S1" "DB" "Checkout" CAUSES []))
  (exec (add_node (mkNode "Billing" BEHAVIOR "Billing" "" [] (8 # 10)))
  (exec (add_node (mkNode "Checkout" BEHAVIOR "Checkout" "" [] (9 # 10)))
  (exec (add_node (node_of "DB" RESOURCE [])) empty_graph)))).


(* ------------------------------------------------------------------ *)
(** ** A node with a changed metadata dict *)


(* ------------------------------------------------------------------ *)
(** * Properties *)

(** ** Dicts and sets *)

Lemma dict_mem_get {V : Type} (k : string) (d : dict V) :
  dict_mem k d = true <-> exists v, dict_get k d = Some v.
Proof.
  unfold dict_mem. destruct (dict_get k d) as [v|]; split; intros Hx.
  - now exists v.
  - reflexivity.
  - discriminate.
  - destruct Hx as [v Hv]. discriminate.
Qed.

Lemma mapM_ok_length {A B : Type} (f : A -> result B) (l : list A) (ys : list B) :
  mapM f l = Ok ys -> List.length ys = List.length l.
Proof.
  revert ys. induction l as [|x l IH]; simpl; intros ys Hm.
  - injection Hm as <-. reflexivity.
  - destruct (f x) as [y| |]; simpl in Hm; try discriminate.
    destruct (mapM f l) as [zs| |]; simpl in Hm; try discriminate.
    injection Hm as <-. simpl. now rewrite (IH zs).
Qed.

Lemma mapM_ok_in {A B : Type} (f : A -> result B) (l : list A) (ys : list B) (x : A) :
  mapM f l = Ok ys -> In x l -> exists y, f x = Ok y /\ In y ys.
Proof.
  revert ys. induction l as [|a l IH]; simpl; intros ys Hm Hin; [contradiction|].
  destruct (f a) as [y| |] eqn:Hfa; simpl in Hm; try discriminate.
  destruct (mapM f l) as [zs| |]; simpl in Hm; try discriminate.
  injection Hm as <-. destruct Hin as [->|Hin].
  - exists y. split; [assumption | now left].
  - destruct (IH zs eq_refl Hin) as [y' [Hy' Hin']]. exists y'. split; [assumption | now right].
Qed.

Lemma concatM_ok_in {A B : Type} (f : A -> result (list B)) (l : list A)
    (ys : list B) (x : A) (zs : list B) :
  concatM f l = Ok ys -> In x l -> f x = Ok zs -> incl zs ys.
Proof.
  unfold concatM. destruct (mapM f l) as [ls| |] eqn:Hm; simpl; try discriminate.
  intros Hc Hin Hfx. injection Hc as <-.
  destruct (mapM_ok_in f l ls x Hm Hin) as [y [Hy Hiny]].
  rewrite Hfx in Hy. injection Hy as <-.
  intros z Hz. apply in_concat. exists zs. split; assumption.
Qed.

(* ------------------------------------------------------------------ *)
(** ** [add_edge] on a dangling endpoint *)

(** C9.  When the source id or the target id of an edge is not a node of the
    graph, [add_edge] raises a [ValueError] naming the missing node, and the
    graph it leaves is the graph it was given: the edge store and both
    adjacency indices are what they were before the call. *)
Theorem add_edge_dangling_endpoint (g : RealityGraph) (edge : Edge) :
  dict_mem (e_source edge) (nodes g) = false
  \/ dict_mem (e_target edge) (nodes g) = false ->
  (exists msg, fst (add_edge edge g) = Raise (ValueError msg))
  /\ snd (add_edge edge g) = g
  /\ edges (snd (add_edge edge g)) = edges g
  /\ _adjacency (snd (add_edge edge g)) = _adjacency g
  /\ _reverse_adjacency (snd (add_edge edge g)) = _reverse_adjacency g.
Proof.
  intros Hmissing. unfold add_edge.
  destruct (dict_mem (e_source edge) (nodes g)) eqn:Hs; simpl.
  - destruct Hmissing as [Hm|Hm]; [discriminate|]. rewrite Hm. simpl.
    repeat split; eauto.
  - repeat split; eauto.
Qed.

(** The edge [E1] from [D1] to a missing [R1], on the graph holding [D1] only. *)
Lemma add_edge_dangling_endpoint_witness :
  (exists msg, fst (add_edge (edge_of "E1" "D1" "R1" REQUIRES [])
                      (exec (add_node (node_of "D1" DECISION [])) empty_graph))
               = Raise (ValueError msg))
  /\ snd (add_edge (edge_of "E1" "D1" "R1" REQUIRES [])
            (exec (add_node (node_of "D1" DECISION [])) empty_graph))
     = exec (add_node (node_of "D1" DECISION [])) empty_graph
  /\ edges (snd (add_edge (edge_of "E1" "D1" "R1" REQUIRES [])
                   (exec (add_node (node_of "D1" DECISION [])) empty_graph)))
     = edges (exec (add_node (node_of "D1" DECISION [])) empty_graph)
  /\ _adjacency (snd (add_edge (edge_of "E1" "D1" "R1" REQUIRES [])
                        (exec (add_node (node_of "D1" DECISION [])) empty_graph)))
     = _adjacency (exec (add_node (node_of "D1" DECISION [])) empty_graph)
  /\ _reverse_adjacency (snd (add_edge (edge_of "E1" "D1" "R1" REQUIRES [])
                                (exec (add_node (node_of "D1" DECISION [])) empty_graph)))
     = _reverse_adjacency (exec (add_node (node_of "D1" DECISION [])) empty_graph).
Proof.
  apply (add_edge_dangling_endpoint
           (exec (add_node (node_of "D1" DECISION [])) empty_graph)
           (edge_of "E1" "D1" "R1" REQUIRES [])).
  right. reflexivity.
Defined.

(* ------------------------------------------------------------------ *)
(** ** The probabilistic OR *)

(** Addition and multiplication of binary64 numbers are commutative, as
    IEEE 754 specifies them. *)
Lemma SFadd_comm (prec emax : Z) (x y : spec_float) :
  SFadd prec emax x y = SFadd prec emax y x.
Proof.
  destruct x as [sx|sx| |sx mx ex], y as [sy|sy| |sy my ey]; cbn; try reflexivity.
  - destruct sx, sy; reflexivity.
  - destruct sx, sy; reflexivity.
  - rewrite Z.min_comm. f_equal. apply Z.add_comm.
Qed.

Lemma SFmul_comm (prec emax : Z) (x y : spec_float) :
  SFmul prec emax x y = SFmul prec emax y x.
Proof.
  destruct x as [sx|sx| |sx mx ex], y as [sy|sy| |sy my ey]; cbn; try reflexivity;
    try (destruct sx, sy; reflexivity).
  rewrite xorb_comm, Pos.mul_comm, Z.add_comm. reflexivity.
Qed.

Lemma Prim2SF_eq (x y : float) : Prim2SF x = Prim2SF y -> x = y.
Proof.
  intros Heq. rewrite <- (SF2Prim_Prim2SF x), <- (SF2Prim_Prim2SF y). now rewrite Heq.
Qed.

Lemma prob_or_binary64_spec (x y : float) :
  Prim2SF (prob_or_binary64 x y)
  = SF64sub (SF64add (Prim2SF x) (Prim2SF y)) (SF64mul (Prim2SF x) (Prim2SF y)).
Proof.
  unfold prob_or_binary64. now rewrite sub_spec, add_spec, mul_spec.
Qed.

Lemma prob_or_binary64_comm (x y : float) :
  prob_or_binary64 x y = prob_or_binary64 y x.
Proof.
  apply Prim2SF_eq. rewrite !prob_or_binary64_spec. unfold SF64add, SF64mul.
  now rewrite (SFadd_comm _ _ (Prim2SF x)), (SFmul_comm _ _ (Prim2SF x)).
Qed.

(** A certainty is a zero or a finite number: the comparisons with 0 and 1
    exclude the infinities and the NaN. *)
Lemma certainty_cases (x : float) :
  is_certainty x ->
  (exists s, Prim2SF x = S754_zero s)
  \/ (exists s m e, Prim2SF x = S754_finite s m e).
Proof.
  intros [H0 H1]. rewrite leb_spec in H0, H1.
  destruct (Prim2SF x) as [s|s| |s m e] eqn:E.
  - left. now exists s.
  - exfalso. destruct s; [vm_compute in H0 | vm_compute in H1]; discriminate.
  - exfalso. vm_compute in H0. discriminate.
  - right. now exists s, m, e.
Qed.

Lemma SFeqb_same (v : spec_float) :
  (exists s, v = S754_zero s) \/ (exists s m e, v = S754_finite s m e) ->
  SFeqb v v = true.
Proof.
  intros [[s ->]|[s [m [e ->]]]]; [reflexivity|].
  unfold SFeqb, SFcompare.
  destruct s; rewrite Z.compare_refl, ?Pos.compare_cont_refl, ?Pos.compare_refl;
    reflexivity.
Qed.

(** Combining a certainty with 0.0 gives the certainty back bit for bit,
    but for the negative zero, which comes back as 0.0. *)
Lemma prob_or_binary64_zero (x : float) :
  is_certainty x ->
  Prim2SF (prob_or_binary64 x 0) = Prim2SF x
  \/ (Prim2SF x = S754_zero true
      /\ Prim2SF (prob_or_binary64 x 0) = S754_zero false).
Proof.
  intros Hx. rewrite prob_or_binary64_spec.
  replace (Prim2SF 0) with (S754_zero false) by reflexivity.
  destruct (certainty_cases x Hx) as [[s E]|[s [m [e E]]]]; rewrite E.
  - destruct s; [right; split; reflexivity | left; reflexivity].
  - left. reflexivity.
Qed.

(** C8 (as amended).  In binary64, the arithmetic the program runs in, the
    combinator [acc + p - acc * p] returns a certainty [x] when [x] is
    combined with 0.0 on either side: a float that [==] finds equal to [x],
    and the very float [x] unless [x] is the negative zero (which comes back
    as 0.0); and it is commutative bit for bit, for any two floats.  In
    exact arithmetic it returns [a] when [a] is combined with 0, returns 1
    when [a] is combined with 1, on either side, and is commutative. *)
Theorem prob_or_algebra (x y : float) (a b : Q) :
  is_certainty x ->
  PrimFloat.eqb (prob_or_binary64 x 0) x = true
  /\ PrimFloat.eqb (prob_or_binary64 0 x) x = true
  /\ (Prim2SF x = S754_zero true
      \/ (prob_or_binary64 x 0 = x /\ prob_or_binary64 0 x = x))
  /\ prob_or_binary64 x y = prob_or_binary64 y x
  /\ (prob_or a 0 == a)%Q /\ (prob_or 0 a == a)%Q
  /\ (prob_or a 1 == 1)%Q /\ (prob_or 1 a == 1)%Q
  /\ (prob_or a b == prob_or b a)%Q.
Proof.
  intros Hx.
  assert (Heqb : PrimFloat.eqb (prob_or_binary64 x 0) x = true).
  { rewrite eqb_spec.
    destruct (prob_or_binary64_zero x Hx) as [-> | [E ->]].
    - apply SFeqb_same. now apply certainty_cases.
    - rewrite E. reflexivity. }
  split; [exact Heqb|].
  split; [now rewrite (prob_or_binary64_comm 0 x)|].
  split.
  { destruct (prob_or_binary64_zero x Hx) as [E | [E _]]; [right | now left].
    apply Prim2SF_eq in E.
    split; [exact E | now rewrite (prob_or_binary64_comm 0 x)]. }
  split; [apply prob_or_binary64_comm|].
  unfold prob_or. repeat split; ring.
Qed.

(** The binary64 number nearest to 0.4 and the rational 2/5. *)
Lemma prob_or_algebra_witness :
  is_certainty 0x1.999999999999ap-2
  /\ PrimFloat.eqb (prob_or_binary64 0x1.999999999999ap-2 0) 0x1.999999999999ap-2 = true
  /\ prob_or_binary64 0x1.999999999999ap-2 1 = prob_or_binary64 1 0x1.999999999999ap-2
  /\ (prob_or (2 # 5) 1 == 1)%Q.
Proof.
  assert (Hx : is_certainty 0x1.999999999999ap-2) by (split; reflexivity).
  split; [exact Hx|].
  destruct (prob_or_algebra 0x1.999999999999ap-2 1 (2 # 5) 0 Hx)
    as [H1 [_ [_ [H4 [_ [_ [H7 _]]]]]]].
  split; [exact H1|]. split; [exact H4 | exact H7].
Defined.

(** C8 (as stated) fails in the arithmetic the program runs in: with the
    binary64 number nearest to 0.4, which lies in [0,1], combining with 1.0
    gives 0.9999999999999999 and not 1.0, on either side. *)
Lemma prob_or_binary64_one_inexact :
  PrimFloat.leb 0 0x1.999999999999ap-2 = true
  /\ PrimFloat.leb 0x1.999999999999ap-2 1 = true
  /\ PrimFloat.eqb (prob_or_binary64 0x1.999999999999ap-2 1) 1 = false
  /\ PrimFloat.eqb (prob_or_binary64 1 0x1.999999999999ap-2) 1 = false
  /\ PrimFloat.eqb (prob_or_binary64 0x1.999999999999ap-2 1) 0x1.fffffffffffffp-1 = true.
Proof.
  repeat split; vm_compute; reflexivity.
Qed.

(* ------------------------------------------------------------------ *)
(** ** The first branch of the judge *)

Lemma is_fatal_iff (v : AxiomViolation) :
  is_fatal v = true <-> (95 # 100 <= severity v)%Q.
Proof.
  unfold is_fatal, Qgeb. apply Qle_bool_iff.
Qed.

Lemma filter_first_match {A : Type} (p : A -> bool) (pre post : list A) (x : A) :
  Forall (fun y => p y = false) pre -> p x = true ->
  filter p (pre ++ x :: post)%list = x :: filter p post.
Proof.
  intros Hpre Hx. induction Hpre as [|y pre Hy _ IH]; simpl.
  - now rewrite Hx.
  - now rewrite Hy.
Qed.

Lemma first_match_split {A : Type} (p : A -> bool) (l : list A) :
  (exists x, In x l /\ p x = true) ->
  exists pre x post, l = (pre ++ x :: post)%list
                     /\ Forall (fun y => p y = false) pre /\ p x = true.
Proof.
  induction l as [|a l IH]; intros [x [Hin Hp]]; [destruct Hin|].
  destruct (p a) eqn:Hpa.
  - exists [], a, l. repeat split; auto.
  - destruct Hin as [->|Hin]; [congruence|].
    destruct IH as [pre [y [post [-> [Hpre Hy]]]]]; [now exists x|].
    exists (a :: pre), y, post. repeat split; auto.
Qed.

(** C2 (as amended).  Whenever the judge is handed at least one violation of
    severity at least 0.95, whatever the index, the counterfactual results and
    the graph are, [render_verdict] returns the verdict of its first branch
    for the first such violation: NOT_PERMISSIBLE with certainty 1, the
    primary reason ["Fatal violation of "] followed by the name of the axiom,
    and the explanation of the violation as the first item of supporting
    evidence. *)
Theorem render_verdict_fatal_first `{Formatter} (j : ExistenceJudge) :
  (exists v, In v (j_violations j) /\ (95 # 100 <= severity v)%Q) ->
  exists pre first post vd,
    j_violations j = (pre ++ first :: post)%list
    /\ Forall (fun v => ~ (95 # 100 <= severity v)%Q) pre
    /\ (95 # 100 <= severity first)%Q
    /\ render_verdict j = Ok vd
    /\ vd = _verdict_fatal_axiom j first
    /\ verdict vd = NOT_PERMISSIBLE
    /\ (v_certainty vd == 1)%Q
    /\ primary_reason vd = "Fatal violation of " ++ axiom_name first
    /\ hd_error (supporting_evidence vd) = Some (explanation first).
Proof.
  intros [v [Hin Hsev]].
  destruct (first_match_split is_fatal (j_violations j)) as [pre [x [post [Heq [Hpre Hx]]]]].
  { exists v. split; [assumption | now apply is_fatal_iff]. }
  exists pre, x, post, (_verdict_fatal_axiom j x).
  split; [assumption|]. split.
  { eapply Forall_impl; [|exact Hpre]. intros a Ha Hle.
    apply is_fatal_iff in Hle. congruence. }
  split; [now apply is_fatal_iff|].
  split.
  { unfold render_verdict. rewrite Heq, (filter_first_match _ _ _ _ Hpre Hx). reflexivity. }
  repeat split; reflexivity.
Qed.

(** The judge [judge_fatal], whose only violation has severity 0.95. *)
Lemma render_verdict_fatal_first_witness :
  exists pre first post vd,
    j_violations judge_fatal = (pre ++ first :: post)%list
    /\ Forall (fun v => ~ (95 # 100 <= severity v)%Q) pre
    /\ (95 # 100 <= severity first)%Q
    /\ render_verdict judge_fatal = Ok vd
    /\ vd = _verdict_fatal_axiom judge_fatal first
    /\ verdict vd = NOT_PERMISSIBLE
    /\ (v_certainty vd == 1)%Q
    /\ primary_reason vd = "Fatal violation of " ++ axiom_name first
    /\ hd_error (supporting_evidence vd) = Some (explanation first).
Proof.
  apply (@render_verdict_fatal_first fraction_formatter judge_fatal).
  exists violation_fatal. split; [now left | vm_compute; discriminate].
Defined.

(** C2 (as stated) fails: for a judge handed the single violation
    [violation_fatal] (severity 0.95) and an index of 0.95, the verdict is
    NOT_PERMISSIBLE with certainty 1, but its primary reason is
    ["Fatal violation of CONTRADICTION_LAW"], which is not the explanation
    ["Explicit contradiction"] of the violation. *)
Lemma render_verdict_reason_names_axiom :
  exists vd,
    render_verdict judge_fatal = Ok vd
    /\ verdict vd = NOT_PERMISSIBLE
    /\ primary_reason vd = "Fatal violation of CONTRADICTION_LAW"
    /\ explanation violation_fatal = VStr "Explicit contradiction"
    /\ VStr (primary_reason vd) <> explanation violation_fatal.
Proof.
  eexists. split; [reflexivity|]. repeat split. discriminate.
Qed.

(* ------------------------------------------------------------------ *)
(** ** The contradiction scenario *)

(** C5.  On the graph of two decisions [D1], [D2] joined by a CONTRADICTS
    edge whose metadata carries severity 0.95, [ContradictionLaw.verify]
    returns a violation of severity 0.95; [is_fatal] is [severity >= 0.95],
    so this violation is fatal; it is the only violation [verify_all] finds;
    and the judge, whatever index and counterfactual results accompany it,
    returns NOT_PERMISSIBLE with certainty 1 and a primary reason naming
    CONTRADICTION_LAW. *)
Theorem contradicts_edge_is_fatal `{Formatter} (fii : Q) (cf : list CounterfactualResult) :
  exists v vd,
    ContradictionLaw_verify scenario_contradicts empty_context = Ok (Some v)
    /\ axiom_name v = "CONTRADICTION_LAW"
    /\ (severity v == 95 # 100)%Q
    /\ is_fatal v = true
    /\ (forall w, is_fatal w = true <-> (95 # 100 <= severity w)%Q)
    /\ verify_all scenario_contradicts empty_context = Ok [v]
    /\ render_verdict (mkJudge scenario_contradicts [v] fii cf) = Ok vd
    /\ verdict vd = NOT_PERMISSIBLE
    /\ (v_certainty vd == 1)%Q
    /\ primary_reason vd = "Fatal violation of CONTRADICTION_LAW".
Proof.
  eexists. eexists.
  split; [vm_compute; reflexivity|].
  split; [reflexivity|].
  split; [reflexivity|].
  split; [reflexivity|].
  split; [exact is_fatal_iff|].
  split; [vm_compute; reflexivity|].
  split; [reflexivity|].
  repeat split; reflexivity.
Qed.

(* ------------------------------------------------------------------ *)
(** ** The resource scenario *)

(** C1 (as amended).  On the graph of a resource [R1] of capacity 10 required
    by two decisions of demand 8, collapse-path discovery yields exactly two
    paths, in this order: a contradiction path of certainty 0.85 (the
    oversubscription contradiction that [find_contradictions] reports for
    [R1]) and a resource-exhaustion path of certainty
    min(1, 16/10 - 1) = 0.6; [compute] with an empty violation list returns
    0.85 + 0.6 - 0.85 * 0.6 = 0.94. *)
Theorem resource_scenario_paths `{Formatter} :
  exists p1 p2 fii,
    _identify_collapse_paths scenario_resource = Ok [p1; p2]
    /\ path_type p1 = CP_CONTRADICTION /\ (certainty p1 == 85 # 100)%Q
    /\ path_type p2 = CP_RESOURCE_EXHAUSTION
    /\ certainty p2 = certainty_exhaustion_16_10
    /\ (certainty p2 == 6 # 10)%Q
    /\ compute scenario_resource [] = Ok fii
    /\ (fii == prob_or (85 # 100) (6 # 10))%Q
    /\ (fii == 94 # 100)%Q.
Proof.
  do 3 eexists.
  split; [vm_compute; reflexivity|].
  split; [reflexivity|].
  split; [reflexivity|].
  split; [reflexivity|].
  split; [vm_compute; reflexivity|].
  split; [reflexivity|].
  split; [vm_compute; reflexivity|].
  split; reflexivity.
Qed.

(** C1 (as stated) fails: on that graph discovery does not yield a single
    path, and the index [compute] returns for an empty violation list is
    above 0.9, not near 0.6. *)
Lemma resource_scenario_not_single_path :
  (forall p, _identify_collapse_paths scenario_resource <> Ok [p])
  /\ (exists fii, compute scenario_resource [] = Ok fii /\ (9 # 10 < fii)%Q)
  /\ List.length (filter (fun p => match path_type p with
                                   | CP_RESOURCE_EXHAUSTION => false
                                   | _ => true
                                   end)
                    (match _identify_collapse_paths scenario_resource with
                     | Ok ps => ps
                     | _ => []
                     end)) = 1.
Proof.
  split; [|split].
  - intros p. vm_compute. discriminate.
  - eexists. split; [vm_compute; reflexivity|]. reflexivity.
  - reflexivity.
Qed.

(* ------------------------------------------------------------------ *)
(** ** Numbers *)

Lemma Qgtb_lt (a b : Q) : Qgtb a b = true <-> (b < a)%Q.
Proof.
  unfold Qgtb. rewrite negb_true_iff. split.
  - intros Hf. apply Qnot_le_lt. intros Hle. apply Qle_bool_iff in Hle. congruence.
  - intros Hlt. destruct (Qle_bool a b) eqn:Hb; [|reflexivity].
    apply Qle_bool_iff in Hb. exfalso. apply (Qlt_not_le _ _ Hlt Hb).
Qed.

Lemma Qgtb_nlt (a b : Q) : Qgtb a b = false <-> ~ (b < a)%Q.
Proof.
  rewrite <- Qgtb_lt. destruct (Qgtb a b); split; intros Hx; congruence.
Qed.

Lemma py_div_positive (a b : Q) : (0 < b)%Q -> py_div a b = Ok (a / b)%Q.
Proof.
  intros Hb. unfold py_div. destruct (Qeq_bool b 0) eqn:Hz; [|reflexivity].
  apply Qeq_bool_iff in Hz. rewrite Hz in Hb. exfalso. apply (Qlt_irrefl _ Hb).
Qed.

(** ** Results that are not a division error *)

Lemma bind_no_zero_division {A B : Type} (r : result A) (k : A -> result B) :
  no_zero_division r -> (forall a, r = Ok a -> no_zero_division (k a)) ->
  no_zero_division (bind r k).
Proof.
  unfold no_zero_division. intros Hr Hk. destruct r as [a|e|]; simpl.
  - now apply Hk.
  - intros Heq. apply Hr. injection Heq as ->. reflexivity.
  - discriminate.
Qed.

Lemma mapM_no_zero_division {A B : Type} (f : A -> result B) (l : list A) :
  (forall x, In x l -> no_zero_division (f x)) -> no_zero_division (mapM f l).
Proof.
  induction l as [|x l IH]; simpl; intros Hf.
  - discriminate.
  - apply bind_no_zero_division; [apply Hf; now left|]. intros y _.
    apply bind_no_zero_division; [apply IH; intros z Hz; apply Hf; now right|].
    intros ys _. discriminate.
Qed.

Lemma concatM_no_zero_division {A B : Type} (f : A -> result (list B)) (l : list A) :
  (forall x, In x l -> no_zero_division (f x)) -> no_zero_division (concatM f l).
Proof.
  intros Hf. unfold concatM. apply bind_no_zero_division.
  - now apply mapM_no_zero_division.
  - intros ls _. discriminate.
Qed.

Lemma dict_index_no_zero_division {V : Type} (k : string) (d : dict V) :
  no_zero_division (dict_index k d).
Proof.
  unfold dict_index. destruct (dict_get k d); discriminate.
Qed.

Lemma as_num_no_zero_division (v : pyval) : no_zero_division (as_num v).
Proof.
  destruct v as [q|[|]|s]; discriminate.
Qed.

Lemma py_sum_from_no_zero_division (vals : list pyval) (acc : Q) :
  no_zero_division (py_sum_from acc vals).
Proof.
  revert acc. induction vals as [|v vals IH]; simpl; intros acc; [discriminate|].
  apply bind_no_zero_division; [apply as_num_no_zero_division|]. intros q _. apply IH.
Qed.

Lemma get_incoming_edges_no_zero_division (g : RealityGraph) (k : string) :
  no_zero_division (get_incoming_edges g k).
Proof.
  apply mapM_no_zero_division. intros eid _. apply dict_index_no_zero_division.
Qed.

Lemma exhaustion_certainty_positive (total cap : Q) :
  (0 < cap)%Q -> exhaustion_certainty total cap = Ok (py_min 1 (total / cap - 1)%Q).
Proof.
  intros Hc. unfold exhaustion_certainty.
  rewrite (proj2 (Qgtb_lt cap 0) Hc), (py_div_positive _ _ Hc). reflexivity.
Qed.

Lemma exhaustion_certainty_nonpositive (total cap : Q) :
  ~ (0 < cap)%Q -> exhaustion_certainty total cap = Ok 1%Q.
Proof.
  intros Hc. unfold exhaustion_certainty.
  now rewrite (proj2 (Qgtb_nlt cap 0) Hc).
Qed.

Lemma resource_exhaustion_path_no_zero_division `{Formatter}
    (g : RealityGraph) (resource : Node) :
  no_zero_division (resource_exhaustion_path g resource).
Proof.
  unfold resource_exhaustion_path.
  apply bind_no_zero_division; [apply get_incoming_edges_no_zero_division|].
  intros incoming _.
  destruct (requires_edges_of incoming) as [|e0 es]; [discriminate|].
  apply bind_no_zero_division.
  { apply mapM_no_zero_division. intros e _. unfold demand_at.
    apply bind_no_zero_division.
    - unfold node_attr. destruct (get_node g (e_source e)); discriminate.
    - intros md _. discriminate. }
  intros demands _.
  apply bind_no_zero_division; [apply py_sum_from_no_zero_division|].
  intros total _.
  destruct (dict_get "capacity" (n_metadata resource)) as [capv|]; [|discriminate].
  apply bind_no_zero_division; [apply as_num_no_zero_division|].
  intros cap _.
  destruct (Qgtb total cap); [|discriminate].
  destruct (Qgtb cap 0) eqn:Hpos.
  - apply Qgtb_lt in Hpos.
    rewrite (exhaustion_certainty_positive _ _ Hpos), (py_div_positive _ _ Hpos).
    discriminate.
  - apply Qgtb_nlt in Hpos.
    rewrite (exhaustion_certainty_nonpositive _ _ Hpos). discriminate.
Qed.

(* ------------------------------------------------------------------ *)
(** ** The two resource rules *)




Lemma requires_filter (incoming : list Edge) :
  requires_edges_of incoming
  = filter (fun edge => EdgeType_eqb (e_type edge) REQUIRES) incoming.
Proof.
  unfold requires_edges_of. apply filter_ext. intros e. now destruct (e_type e).
Qed.

Lemma mapM_ok_map {A B C : Type} (f : A -> result B) (f' : A -> result C)
    (h : B -> C) (l : list A) :
  (forall x y, f x = Ok y -> f' x = Ok (h y)) ->
  forall ys, mapM f l = Ok ys -> mapM f' l = Ok (map h ys).
Proof.
  intros Hf. induction l as [|x l IH]; cbn [mapM]; intros ys Hm.
  - now injection Hm as <-.
  - destruct (f x) as [y| |] eqn:Hfx; cbn [bind] in Hm; try discriminate Hm.
    destruct (mapM f l) as [zs| |]; cbn [bind] in Hm; try discriminate Hm.
    injection Hm as <-. rewrite (Hf x y Hfx), (IH zs eq_refl). reflexivity.
Qed.

(** The sources of the incoming REQUIRES edges of a resource and their
    demands, as the loop of [_find_resource_exhaustion_paths] reads them:
    one demand per consumer, 1 where the consumer has no entry. *)
Lemma exhaustion_reads_consumers (g : RealityGraph) (resource : Node)
    (consumers : list Node) :
  consumers_of g resource = Ok consumers ->
  exists incoming,
    get_incoming_edges g (n_id resource) = Ok incoming
    /\ List.length (requires_edges_of incoming) = List.length consumers
    /\ mapM (demand_at g) (requires_edges_of incoming) = Ok (map demand_of consumers).
Proof.
  unfold consumers_of. intros Hc.
  destruct (get_incoming_edges g (n_id resource)) as [incoming| |];
    cbn [bind] in Hc; try discriminate Hc.
  exists incoming. split; [reflexivity|]. rewrite requires_filter. split.
  - symmetry. exact (mapM_ok_length _ _ _ Hc).
  - refine (mapM_ok_map _ _ demand_of _ _ _ Hc).
    intros e n Hn. unfold dict_index, from_option in Hn.
    unfold demand_at, node_attr, get_node, demand_of.
    destruct (dict_get (e_source e) (nodes g)) as [n'|]; [|discriminate Hn].
    injection Hn as ->. reflexivity.
Qed.

Lemma concatM_ok_inv {A B : Type} (f : A -> result (list B)) (l : list A)
    (ys : list B) (y : B) :
  concatM f l = Ok ys -> In y ys ->
  exists x zs, In x l /\ f x = Ok zs /\ In y zs.
Proof.
  unfold concatM. destruct (mapM f l) as [ls| |] eqn:Hm; cbn [bind]; try discriminate.
  intros Hc Hy. injection Hc as <-. apply in_concat in Hy.
  destruct Hy as [zs [Hzs Hy]]. revert ls Hm Hzs.
  induction l as [|a l IH]; cbn [mapM]; intros ls Hm Hzs.
  - injection Hm as <-. destruct Hzs.
  - destruct (f a) as [b| |] eqn:Hfa; cbn [bind] in Hm; try discriminate Hm.
    destruct (mapM f l) as [ls'| |]; cbn [bind] in Hm; try discriminate Hm.
    injection Hm as <-. destruct Hzs as [<-|Hzs].
    + exists a, b. split; [now left|]. now split.
    + destruct (IH ls' eq_refl Hzs) as [x [zs' [Hx [Hfx Hy']]]].
      exists x, zs'. split; [now right|]. now split.
Qed.

(** The loop body emits nothing or one resource-exhaustion path. *)
Lemma resource_exhaustion_path_shape `{Formatter} (g : RealityGraph) (resource : Node)
    (zs : list CollapsePath) :
  resource_exhaustion_path g resource = Ok zs ->
  zs = [] \/ exists p, zs = [p] /\ path_type p = CP_RESOURCE_EXHAUSTION.
Proof.
  unfold resource_exhaustion_path. intros Hzs.
  destruct (get_incoming_edges g (n_id resource)) as [incoming| |];
    cbn [bind] in Hzs; try discriminate Hzs.
  destruct (requires_edges_of incoming) as [|e0 es];
    [injection Hzs as <-; now left|].
  destruct (mapM (demand_at g) (e0 :: es)) as [demands| |];
    cbn [bind] in Hzs; try discriminate Hzs.
  destruct (py_sum demands) as [total| |]; cbn [bind] in Hzs; try discriminate Hzs.
  destruct (dict_get "capacity" (n_metadata resource)) as [capv|];
    [|injection Hzs as <-; now left].
  destruct (as_num capv) as [cap| |]; cbn [bind] in Hzs; try discriminate Hzs.
  destruct (Qgtb total cap); [|injection Hzs as <-; now left].
  destruct (exhaustion_certainty total cap) as [c| |];
    cbn [bind] in Hzs; try discriminate Hzs.
  match type of Hzs with
  | bind ?m _ = _ => destruct m as [o| |]; cbn [bind] in Hzs; try discriminate Hzs
  end.
  injection Hzs as <-. right. eexists. split; reflexivity.
Qed.

(** C4 (as amended).  [_find_resource_exhaustion_paths] never raises a
    division error, and every path it returns is the resource-exhaustion
    path that its loop emits for one resource node.  For a resource node
    whose consumers (the sources of its incoming REQUIRES edges, one per
    edge) have the summed demand [total], where a consumer without a
    [resource_demand] entry counts for 1: with at least one consumer and a
    [capacity] entry below [total] the loop emits one path, which is among
    the paths returned; with a capacity entry that [total] does not exceed,
    without a capacity entry (capacity unbounded) or without a consumer it
    emits none.  The certainty of the path is min(1, demand / capacity - 1)
    when the capacity is positive and 1 otherwise, in particular when it is
    0.  (The trigger is not that of the resource detector of
    [find_contradictions], which wants two consumers and takes a missing
    capacity as 1.) *)
Theorem resource_exhaustion_rule `{Formatter} (g : RealityGraph) (resource : Node)
    (consumers : list Node) (total : Q) :
  In resource (get_nodes_by_type g RESOURCE) ->
  consumers_of g resource = Ok consumers ->
  py_sum (map demand_of consumers) = Ok total ->
  no_zero_division (_find_resource_exhaustion_paths g)
  /\ (forall c, dict_get "resource_demand" (n_metadata c) = None -> demand_of c = VNum 1)
  /\ (forall ps p, _find_resource_exhaustion_paths g = Ok ps -> In p ps ->
        path_type p = CP_RESOURCE_EXHAUSTION
        /\ exists r, In r (get_nodes_by_type g RESOURCE)
                     /\ resource_exhaustion_path g r = Ok [p])
  /\ (consumers = [] -> resource_exhaustion_path g resource = Ok [])
  /\ (dict_get "capacity" (n_metadata resource) = None ->
      resource_exhaustion_path g resource = Ok [])
  /\ (forall capv cap,
        dict_get "capacity" (n_metadata resource) = Some capv ->
        as_num capv = Ok cap ->
        consumers <> [] ->
        ((cap < total)%Q ->
         exists p, resource_exhaustion_path g resource = Ok [p]
                   /\ (forall ps, _find_resource_exhaustion_paths g = Ok ps -> In p ps)
                   /\ path_type p = CP_RESOURCE_EXHAUSTION
                   /\ ((0 < cap)%Q -> certainty p = py_min 1 (total / cap - 1)%Q)
                   /\ (~ (0 < cap)%Q -> certainty p = 1%Q)
                   /\ ((cap == 0)%Q -> certainty p = 1%Q))
        /\ (~ (cap < total)%Q -> resource_exhaustion_path g resource = Ok [])).
Proof.
  intros Hres Hcons Hsum.
  destruct (exhaustion_reads_consumers g resource consumers Hcons)
    as [incoming [Hinc [Hlen Hdem]]].
  split.
  { apply concatM_no_zero_division. intros r _.
    apply resource_exhaustion_path_no_zero_division. }
  split.
  { intros c Hnone. unfold demand_of. now rewrite Hnone. }
  split.
  { intros ps p Hps Hp. unfold _find_resource_exhaustion_paths in Hps.
    destruct (concatM_ok_inv _ _ _ p Hps Hp) as [r [zs [Hr [Hzs Hin]]]].
    destruct (resource_exhaustion_path_shape g r zs Hzs) as [->|[p' [-> Hty]]];
      [destruct Hin|].
    destruct Hin as [<-|[]]. split; [exact Hty|]. now exists r. }
  split.
  { intros Hnil. unfold resource_exhaustion_path. rewrite Hinc. cbn [bind].
    rewrite Hnil in Hlen. cbn [List.length] in Hlen.
    apply length_zero_iff_nil in Hlen. now rewrite Hlen. }
  split.
  { intros Hnone. unfold resource_exhaustion_path. rewrite Hinc. cbn [bind].
    destruct (requires_edges_of incoming) as [|e0 es]; [reflexivity|].
    rewrite Hdem. cbn [bind]. rewrite Hsum. cbn [bind]. now rewrite Hnone. }
  intros capv cap Hcapv Hcap Hne.
  assert (Hshape : resource_exhaustion_path g resource
                   = (if Qgtb total cap then
                        c <- exhaustion_certainty total cap ;;
                        oversubscription <-
                          (if Qgtb cap 0 then
                             r <- py_div total cap ;; Ok (OVal (VNum r))
                           else Ok OInf) ;;
                        Ok [mkPath CP_RESOURCE_EXHAUSTION
                              (map e_source (requires_edges_of incoming)
                               ++ [n_id resource])%list
                              c
                              (VStr ("Resource '" ++ n_name resource
                                     ++ "' exhausted: demand "
                                     ++ str_num total ++ " > capacity " ++ str_val capv))
                              [("resource", ostr (n_name resource));
                               ("capacity", OVal capv);
                               ("demand", OVal (VNum total));
                               ("oversubscription", oversubscription)]]
                      else Ok [])).
  { unfold resource_exhaustion_path. rewrite Hinc. cbn [bind].
    destruct (requires_edges_of incoming) as [|e0 es] eqn:Hreq.
    - cbn [List.length] in Hlen. symmetry in Hlen.
      apply length_zero_iff_nil in Hlen. congruence.
    - rewrite Hdem. cbn [bind]. rewrite Hsum. cbn [bind]. rewrite Hcapv, Hcap.
      reflexivity. }
  assert (Hfound : forall p, resource_exhaustion_path g resource = Ok [p] ->
                     forall ps, _find_resource_exhaustion_paths g = Ok ps -> In p ps).
  { intros p Hp ps Hps. unfold _find_resource_exhaustion_paths in Hps.
    apply (concatM_ok_in _ _ _ resource [p] Hps Hres Hp). now left. }
  split.
  - intros Hlt. apply Qgtb_lt in Hlt. rewrite Hshape, Hlt in Hfound |- *.
    destruct (Qgtb cap 0) eqn:Hpos.
    + apply Qgtb_lt in Hpos.
      rewrite (exhaustion_certainty_positive _ _ Hpos), (py_div_positive _ _ Hpos)
        in Hfound |- *.
      eexists. split; [reflexivity|]. split; [apply Hfound; reflexivity|].
      split; [reflexivity|]. split; [reflexivity|]. split.
      * intros Hn. contradiction.
      * intros Hz. rewrite Hz in Hpos. exfalso. apply (Qlt_irrefl _ Hpos).
    + apply Qgtb_nlt in Hpos.
      rewrite (exhaustion_certainty_nonpositive _ _ Hpos) in Hfound |- *.
      eexists. split; [reflexivity|]. split; [apply Hfound; reflexivity|].
      split; [reflexivity|].
      split; [intros Hp; contradiction|]. split; reflexivity.
  - intros Hnlt. apply Qgtb_nlt in Hnlt. now rewrite Hshape, Hnlt.
Qed.

(** The resource [R1] of [scenario_one_consumer]: demand 8 against capacity 5. *)
Lemma resource_exhaustion_rule_witness :
  get_nodes_by_type scenario_one_consumer RESOURCE
  = [node_of "R1" RESOURCE [("capacity", VNum 5)]]
  /\ consumers_of scenario_one_consumer (node_of "R1" RESOURCE [("capacity", VNum 5)])
     = Ok [node_of "D1" DECISION [("resource_demand", VNum 8)]]
  /\ (5 < 8)%Q
  /\ no_zero_division (_find_resource_exhaustion_paths scenario_one_consumer)
  /\ exists p,
       resource_exhaustion_path scenario_one_consumer
         (node_of "R1" RESOURCE [("capacity", VNum 5)]) = Ok [p]
       /\ _find_resource_exhaustion_paths scenario_one_consumer = Ok [p]
       /\ path_type p = CP_RESOURCE_EXHAUSTION
       /\ certainty p = py_min 1 (8 / 5 - 1)%Q.
Proof.
  split; [reflexivity|]. split; [reflexivity|]. split; [reflexivity|].
  destruct (@resource_exhaustion_rule fraction_formatter scenario_one_consumer
              (node_of "R1" RESOURCE [("capacity", VNum 5)])
              [node_of "D1" DECISION [("resource_demand", VNum 8)]] 8%Q
              (or_introl eq_refl) eq_refl eq_refl)
    as [Hsafe [_ [_ [_ [_ Hrule]]]]].
  split; [exact Hsafe|].
  destruct (Hrule (VNum 5) 5%Q eq_refl eq_refl ltac:(discriminate)) as [Hemit _].
  destruct (Hemit eq_refl) as [p [Hp [Hin [Ht [Hc _]]]]].
  exists p. split; [exact Hp|]. split.
  - assert (E : exists ps, _find_resource_exhaustion_paths scenario_one_consumer = Ok ps
                           /\ List.length ps = 1)
      by (eexists; split; [vm_compute; reflexivity | reflexivity]).
    destruct E as [ps [E Hlen]]. rewrite E.
    destruct ps as [|q [|q' ps']]; try discriminate Hlen.
    destruct (Hin [q] E) as [->|[]]. reflexivity.
  - split; [exact Ht|]. apply Hc. reflexivity.
Defined.

(** C4 (as stated) fails on the trigger: the resource of capacity 5 with the
    single consumer of demand 8 is an exhausted resource for the calculator
    (certainty min(1, 8/5 - 1) = 0.6), while the resource detector of
    [find_contradictions] reports nothing for it; and the resource without a
    capacity entry and two consumers is reported by the detector, while the
    calculator emits no path for it. *)
Lemma exhaustion_trigger_differs :
  (exists p, _find_resource_exhaustion_paths scenario_one_consumer = Ok [p]
             /\ path_type p = CP_RESOURCE_EXHAUSTION
             /\ (certainty p == 6 # 10)%Q)
  /\ _find_resource_contradictions scenario_one_consumer = Ok []
  /\ _find_resource_exhaustion_paths scenario_no_capacity = Ok []
  /\ (exists c, _find_resource_contradictions scenario_no_capacity = Ok [c]).
Proof.
  split; [eexists; split; [vm_compute; reflexivity|split; reflexivity]|].
  split; [reflexivity|]. split; [reflexivity|].
  eexists. vm_compute. reflexivity.
Qed.

(* ------------------------------------------------------------------ *)
(** ** Dict and set lemmas *)

Lemma dict_get_set_same {V : Type} (k : string) (v : V) (d : dict V) :
  dict_get k (dict_set k v d) = Some v.
Proof.
  induction d as [|[k' v'] d IH]; simpl.
  - now rewrite String.eqb_refl.
  - destruct (String.eqb k k') eqn:E; simpl; rewrite E; [reflexivity | exact IH].
Qed.

Lemma dict_get_set_other {V : Type} (k k' : string) (v : V) (d : dict V) :
  k' <> k -> dict_get k' (dict_set k v d) = dict_get k' d.
Proof.
  intros Hne. induction d as [|[k0 v0] d IH]; simpl.
  - apply String.eqb_neq in Hne. now rewrite Hne.
  - destruct (String.eqb k k0) eqn:E; simpl.
    + apply String.eqb_eq in E. subst k0. apply String.eqb_neq in Hne. now rewrite Hne.
    + now rewrite IH.
Qed.

Lemma dict_mem_set {V : Type} (k k' : string) (v : V) (d : dict V) :
  dict_mem k' (dict_set k v d) = orb (String.eqb k' k) (dict_mem k' d).
Proof.
  unfold dict_mem. destruct (String.eqb k' k) eqn:E.
  - apply String.eqb_eq in E. subst k'. now rewrite dict_get_set_same.
  - apply String.eqb_neq in E. now rewrite (dict_get_set_other _ _ _ _ E).
Qed.

Lemma dict_set_absent {V : Type} (k : string) (v : V) (d : dict V) :
  dict_mem k d = false -> dict_set k v d = (d ++ [(k, v)])%list.
Proof.
  unfold dict_mem. induction d as [|[k' v'] d IH]; simpl; intros Hm; [reflexivity|].
  destruct (String.eqb k k'); [discriminate|]. now rewrite IH.
Qed.

Lemma dict_keys_set_present {V : Type} (k : string) (v : V) (d : dict V) :
  dict_mem k d = true -> dict_keys (dict_set k v d) = dict_keys d.
Proof.
  unfold dict_mem, dict_keys. induction d as [|[k' v'] d IH]; simpl; intros Hm;
    [discriminate|].
  destruct (String.eqb k k'); simpl; [reflexivity|]. now rewrite IH.
Qed.

Lemma in_dict_set {V : Type} (k k0 : string) (v v0 : V) (d : dict V) :
  In (k, v) (dict_set k0 v0 d) -> (k = k0 /\ v = v0) \/ In (k, v) d.
Proof.
  induction d as [|[k' v'] d IH]; simpl.
  - intros [Heq|[]]. injection Heq as <- <-. now left.
  - destruct (String.eqb k0 k') eqn:E; simpl.
    + apply String.eqb_eq in E. subst k'.
      intros [Heq|Hin]; [injection Heq as <- <-; now left | right; now right].
    + intros [Heq|Hin]; [right; now left|].
      destruct (IH Hin) as [Hl|Hr]; [now left | right; now right].
Qed.

Lemma set_mem_in (x : string) (s : pyset) : set_mem x s = true <-> In x s.
Proof.
  unfold set_mem. rewrite existsb_exists. split.
  - intros [y [Hin Heq]]. apply String.eqb_eq in Heq. now subst y.
  - intros Hin. exists x. split; [assumption | apply String.eqb_refl].
Qed.

Lemma set_mem_not_in (x : string) (s : pyset) : set_mem x s = false <-> ~ In x s.
Proof.
  rewrite <- set_mem_in. destruct (set_mem x s); split; intros Hx; congruence.
Qed.

Lemma dict_get_in {V : Type} (k : string) (v : V) (d : dict V) :
  dict_get k d = Some v -> In (k, v) d.
Proof.
  induction d as [|[k' v'] d IH]; simpl; [discriminate|].
  destruct (String.eqb k k') eqn:E.
  - apply String.eqb_eq in E. subst k'. intros Heq. injection Heq as <-. now left.
  - intros Hg. right. now apply IH.
Qed.

Lemma dict_mem_keys {V : Type} (k : string) (d : dict V) :
  dict_mem k d = set_mem k (dict_keys d).
Proof.
  unfold dict_mem, dict_keys, set_mem. induction d as [|[k' v'] d IH]; simpl; [reflexivity|].
  destruct (String.eqb k k'); [reflexivity | exact IH].
Qed.

Lemma dict_mem_in_keys {V : Type} (k : string) (d : dict V) :
  dict_mem k d = true <-> In k (dict_keys d).
Proof.
  rewrite dict_mem_keys. apply set_mem_in.
Qed.

Lemma nodupb_NoDup (l : list string) : nodupb l = true <-> NoDup l.
Proof.
  induction l as [|x l IH]; simpl.
  - split; [constructor | reflexivity].
  - rewrite andb_true_iff, negb_true_iff, set_mem_not_in, IH. split.
    + intros [Hn Hd]. now constructor.
    + intros Hnd. inversion Hnd; subst. now split.
Qed.

Lemma in_dict_get {V : Type} (k : string) (v : V) (d : dict V) :
  NoDup (dict_keys d) -> In (k, v) d -> dict_get k d = Some v.
Proof.
  unfold dict_keys. induction d as [|[k' v'] d IH]; simpl; intros Hnd Hin; [contradiction|].
  inversion Hnd as [|? ? Hnotin Hnd']; subst.
  destruct Hin as [Heq|Hin].
  - injection Heq as -> ->. now rewrite String.eqb_refl.
  - destruct (String.eqb k k') eqn:E.
    + apply String.eqb_eq in E. subst k'. exfalso. apply Hnotin.
      apply in_map_iff. now exists (k, v).
    + now apply IH.
Qed.

Lemma nodupb_snoc (l : list string) (x : string) :
  nodupb l = true -> set_mem x l = false -> nodupb (l ++ [x]) = true.
Proof.
  rewrite !nodupb_NoDup, set_mem_not_in. intros Hnd Hnotin.
  apply NoDup_app; [assumption | repeat constructor; intros [] | ].
  intros a Ha [<-|[]]. contradiction.
Qed.

(* ------------------------------------------------------------------ *)
(** ** The structural invariants, as propositions *)

Lemma forallb_pairs {A B : Type} (p : A * B -> bool) (l : list (A * B)) :
  forallb p l = true <-> forall a b, In (a, b) l -> p (a, b) = true.
Proof.
  rewrite forallb_forall. split.
  - intros Hall a b Hin. now apply Hall.
  - intros Hall [a b] Hin. now apply Hall.
Qed.

Lemma keyedb_spec (g : RealityGraph) :
  keyedb g = true <->
  NoDup (dict_keys (nodes g)) /\ NoDup (dict_keys (edges g))
  /\ NoDup (dict_keys (_adjacency g)) /\ NoDup (dict_keys (_reverse_adjacency g))
  /\ (forall k n, In (k, n) (nodes g) -> n_id n = k)
  /\ (forall k e, In (k, e) (edges g) -> e_id e = k).
Proof.
  unfold keyedb. rewrite !andb_true_iff, !nodupb_NoDup, !forallb_pairs.
  simpl. split.
  - intros [[[[[H1 H2] H3] H4] H5] H6]. repeat split; try assumption.
    + intros k n Hin. now apply String.eqb_eq, H5.
    + intros k e Hin. now apply String.eqb_eq, H6.
  - intros [H1 [H2 [H3 [H4 [H5 H6]]]]]. repeat split; try assumption.
    + intros k n Hin. now apply String.eqb_eq, H5.
    + intros k e Hin. now apply String.eqb_eq, H6.
Qed.

Lemma lockstepb_spec (g : RealityGraph) :
  lockstepb g = true <->
  (forall k, In k (dict_keys (_adjacency g)) -> dict_mem k (nodes g) = true)
  /\ (forall k, In k (dict_keys (_reverse_adjacency g)) -> dict_mem k (nodes g) = true)
  /\ (forall k, In k (dict_keys (nodes g)) ->
        dict_mem k (_adjacency g) = true /\ dict_mem k (_reverse_adjacency g) = true)
  /\ (forall eid e, In (eid, e) (edges g) ->
        In eid (bucket (_adjacency g) (e_source e))
        /\ In eid (bucket (_reverse_adjacency g) (e_target e))
        /\ dict_mem (e_source e) (nodes g) = true
        /\ dict_mem (e_target e) (nodes g) = true)
  /\ (forall k s eid, In (k, s) (_adjacency g) -> In eid s ->
        exists e, dict_get eid (edges g) = Some e /\ e_source e = k)
  /\ (forall k s eid, In (k, s) (_reverse_adjacency g) -> In eid s ->
        exists e, dict_get eid (edges g) = Some e /\ e_target e = k).
Proof.
  unfold lockstepb. rewrite !andb_true_iff, !forallb_pairs, !forallb_forall.
  simpl. split.
  - intros [[[[[H1 H2] H3] H4] H5] H6]. repeat split.
    + exact H1.
    + exact H2.
    + apply H3 in H. now apply andb_true_iff in H.
    + apply H3 in H. now apply andb_true_iff in H.
    + apply H4 in H. rewrite !andb_true_iff in H. now apply set_mem_in.
    + apply H4 in H. rewrite !andb_true_iff in H. now apply set_mem_in.
    + apply H4 in H. rewrite !andb_true_iff in H. tauto.
    + apply H4 in H. rewrite !andb_true_iff in H. tauto.
    + intros k s eid Hin Heid. specialize (H5 k s Hin).
      rewrite forallb_forall in H5. specialize (H5 eid Heid).
      destruct (dict_get eid (edges g)) as [e|]; [|discriminate].
      exists e. split; [reflexivity | now apply String.eqb_eq].
    + intros k s eid Hin Heid. specialize (H6 k s Hin).
      rewrite forallb_forall in H6. specialize (H6 eid Heid).
      destruct (dict_get eid (edges g)) as [e|]; [|discriminate].
      exists e. split; [reflexivity | now apply String.eqb_eq].
  - intros [H1 [H2 [H3 [H4 [H5 H6]]]]]. repeat split.
    + exact H1.
    + exact H2.
    + intros k Hin. apply andb_true_iff. now apply H3.
    + intros eid e Hin. destruct (H4 eid e Hin) as [Ha [Hb [Hc Hd]]].
      rewrite !andb_true_iff. repeat split; try assumption; now apply set_mem_in.
    + intros k s Hin. apply forallb_forall. intros eid Heid.
      destruct (H5 k s eid Hin Heid) as [e [-> Hs]]. now apply String.eqb_eq.
    + intros k s Hin. apply forallb_forall. intros eid Heid.
      destruct (H6 k s eid Hin Heid) as [e [-> Hs]]. now apply String.eqb_eq.
Qed.

(* ------------------------------------------------------------------ *)
(** ** [add_node] *)

Lemma in_keys_dict_set {V : Type} (k k0 : string) (v0 : V) (d : dict V) :
  In k (dict_keys (dict_set k0 v0 d)) <-> k = k0 \/ In k (dict_keys d).
Proof.
  rewrite <- !dict_mem_in_keys, dict_mem_set, orb_true_iff, String.eqb_eq. tauto.
Qed.

Lemma nodup_keys_dict_set {V : Type} (k : string) (v : V) (d : dict V) :
  NoDup (dict_keys d) -> NoDup (dict_keys (dict_set k v d)).
Proof.
  intros Hnd. destruct (dict_mem k d) eqn:Hm.
  - now rewrite dict_keys_set_present.
  - rewrite (dict_set_absent _ _ _ Hm).
    replace (dict_keys (d ++ [(k, v)])%list) with (dict_keys d ++ [k])%list
      by (unfold dict_keys; now rewrite map_app).
    apply nodupb_NoDup, nodupb_snoc; [now apply nodupb_NoDup|].
    now rewrite <- dict_mem_keys.
Qed.

Lemma bucket_set_empty (idx : dict pyset) (k0 k : string) :
  dict_mem k0 idx = false -> bucket (dict_set k0 [] idx) k = bucket idx k.
Proof.
  intros Hm. unfold bucket. destruct (String.eqb k k0) eqn:E.
  - apply String.eqb_eq in E. subst k. rewrite dict_get_set_same.
    unfold dict_mem in Hm. now destruct (dict_get k0 idx).
  - apply String.eqb_neq in E. now rewrite dict_get_set_other.
Qed.

(** The index [add_node] leaves: the old one, with an empty bucket added
    for an id that had none. *)
Lemma ensure_bucket_cases (idx : dict pyset) (k0 : string) :
  let idx' := if negb (dict_mem k0 idx) then dict_set k0 [] idx else idx in
  (dict_mem k0 idx = true /\ idx' = idx)
  \/ (dict_mem k0 idx = false /\ idx' = dict_set k0 [] idx).
Proof.
  simpl. destruct (dict_mem k0 idx); simpl; [left | right]; now split.
Qed.

Lemma ensure_bucket_mem (idx : dict pyset) (k0 k : string) :
  dict_mem k (if negb (dict_mem k0 idx) then dict_set k0 [] idx else idx)
  = orb (String.eqb k k0) (dict_mem k idx).
Proof.
  destruct (dict_mem k0 idx) eqn:Hm; simpl.
  - destruct (String.eqb k k0) eqn:E; [|reflexivity].
    apply String.eqb_eq in E. now subst k.
  - apply dict_mem_set.
Qed.

Lemma ensure_bucket_bucket (idx : dict pyset) (k0 k : string) :
  bucket (if negb (dict_mem k0 idx) then dict_set k0 [] idx else idx) k = bucket idx k.
Proof.
  destruct (dict_mem k0 idx) eqn:Hm; simpl; [reflexivity|].
  now apply bucket_set_empty.
Qed.

Lemma ensure_bucket_in (idx : dict pyset) (k0 k : string) (s : pyset) :
  In (k, s) (if negb (dict_mem k0 idx) then dict_set k0 [] idx else idx) ->
  In (k, s) idx \/ (k = k0 /\ s = []).
Proof.
  destruct (dict_mem k0 idx) eqn:Hm; simpl; [now left|].
  intros Hin. apply in_dict_set in Hin. tauto.
Qed.

Lemma ensure_bucket_nodup (idx : dict pyset) (k0 : string) :
  NoDup (dict_keys idx) ->
  NoDup (dict_keys (if negb (dict_mem k0 idx) then dict_set k0 [] idx else idx)).
Proof.
  intros Hnd. destruct (dict_mem k0 idx); simpl; [assumption|].
  now apply nodup_keys_dict_set.
Qed.

Lemma bucket_in_entry (idx : dict pyset) (k eid : string) :
  In eid (bucket idx k) -> exists s, In (k, s) idx /\ In eid s.
Proof.
  unfold bucket. destruct (dict_get k idx) as [s|] eqn:Hg; [|intros []].
  intros Hin. exists s. split; [now apply dict_get_in | assumption].
Qed.

Lemma add_node_well_formed (g : RealityGraph) (node : Node) :
  well_formed g -> well_formed (exec (add_node node) g).
Proof.
  intros [Hk Hl]. apply keyedb_spec in Hk. apply lockstepb_spec in Hl.
  destruct Hk as [K1 [K2 [K3 [K4 [K5 K6]]]]].
  destruct Hl as [L1 [L2 [L3 [L4 [L5 L6]]]]].
  split.
  - apply keyedb_spec. unfold exec, add_node. simpl.
    repeat split.
    + now apply nodup_keys_dict_set.
    + assumption.
    + now apply ensure_bucket_nodup.
    + now apply ensure_bucket_nodup.
    + intros k n Hin. apply in_dict_set in Hin.
      destruct Hin as [[-> ->]|Hin]; [reflexivity | now apply K5].
    + assumption.
  - apply lockstepb_spec. unfold exec, add_node. simpl.
    repeat split.
    + intros k Hin. apply dict_mem_in_keys in Hin. rewrite ensure_bucket_mem in Hin.
      rewrite dict_mem_set. apply orb_true_iff in Hin. apply orb_true_iff.
      destruct Hin as [Hin|Hin]; [now left|]. right.
      apply L1. now apply dict_mem_in_keys.
    + intros k Hin. apply dict_mem_in_keys in Hin. rewrite ensure_bucket_mem in Hin.
      rewrite dict_mem_set. apply orb_true_iff in Hin. apply orb_true_iff.
      destruct Hin as [Hin|Hin]; [now left|]. right.
      apply L2. now apply dict_mem_in_keys.
    + rewrite ensure_bucket_mem. apply orb_true_iff.
      apply in_keys_dict_set in H. destruct H as [->|Hin].
      * left. apply String.eqb_refl.
      * right. now apply L3.
    + rewrite ensure_bucket_mem. apply orb_true_iff.
      apply in_keys_dict_set in H. destruct H as [->|Hin].
      * left. apply String.eqb_refl.
      * right. now apply L3.
    + rewrite ensure_bucket_bucket. now apply (L4 eid e).
    + rewrite ensure_bucket_bucket. now apply (L4 eid e).
    + rewrite dict_mem_set. apply orb_true_iff. right. now apply (L4 eid e).
    + rewrite dict_mem_set. apply orb_true_iff. right. now apply (L4 eid e).
    + intros k s eid Hin Heid. apply ensure_bucket_in in Hin.
      destruct Hin as [Hin|[-> ->]]; [now apply (L5 k s) | destruct Heid].
    + intros k s eid Hin Heid. apply ensure_bucket_in in Hin.
      destruct Hin as [Hin|[-> ->]]; [now apply (L6 k s) | destruct Heid].
Qed.

(** C10.  [add_node] never fails: it returns the node it was given, which is
    afterwards the node stored under its id, and it leaves the edge store and
    every adjacency bucket as they were.  On a graph in lock-step, a node
    whose id is new is appended with an empty forward and an empty reverse
    bucket; a node whose id is present replaces the stored node in place,
    both adjacency indices are unchanged, and every edge incident to the id
    is still stored and still listed in the bucket of its source and of its
    target; in both cases the graph is in lock-step afterwards. *)
Theorem add_node_never_fails (g : RealityGraph) (node : Node) :
  fst (add_node node g) = Ok node
  /\ get_node (exec (add_node node) g) (n_id node) = Some node
  /\ edges (exec (add_node node) g) = edges g
  /\ (forall k, bucket (_adjacency (exec (add_node node) g)) k = bucket (_adjacency g) k)
  /\ (forall k, bucket (_reverse_adjacency (exec (add_node node) g)) k
                = bucket (_reverse_adjacency g) k)
  /\ (well_formed g ->
      (dict_mem (n_id node) (nodes g) = false ->
       nodes (exec (add_node node) g) = (nodes g ++ [(n_id node, node)])%list
       /\ dict_get (n_id node) (_adjacency (exec (add_node node) g)) = Some []
       /\ dict_get (n_id node) (_reverse_adjacency (exec (add_node node) g)) = Some [])
      /\ (dict_mem (n_id node) (nodes g) = true ->
          dict_keys (nodes (exec (add_node node) g)) = dict_keys (nodes g)
          /\ (forall k, k <> n_id node ->
                get_node (exec (add_node node) g) k = get_node g k)
          /\ _adjacency (exec (add_node node) g) = _adjacency g
          /\ _reverse_adjacency (exec (add_node node) g) = _reverse_adjacency g
          /\ (forall eid e, dict_get eid (edges g) = Some e ->
                e_source e = n_id node \/ e_target e = n_id node ->
                dict_get eid (edges (exec (add_node node) g)) = Some e
                /\ In eid (bucket (_adjacency (exec (add_node node) g)) (e_source e))
                /\ In eid (bucket (_reverse_adjacency (exec (add_node node) g))
                             (e_target e))))
      /\ well_formed (exec (add_node node) g)).
Proof.
  split; [reflexivity|].
  split; [unfold exec, add_node, get_node; simpl; apply dict_get_set_same|].
  split; [reflexivity|].
  split; [intros k; unfold exec, add_node; simpl; apply ensure_bucket_bucket|].
  split; [intros k; unfold exec, add_node; simpl; apply ensure_bucket_bucket|].
  intros Hwf. pose proof Hwf as [Hk Hl].
  apply keyedb_spec in Hk. apply lockstepb_spec in Hl.
  destruct Hl as [L1 [L2 [L3 [L4 [L5 L6]]]]].
  split; [|split].
  - intros Habsent. unfold exec, add_node. simpl.
    assert (Ha : dict_mem (n_id node) (_adjacency g) = false).
    { destruct (dict_mem (n_id node) (_adjacency g)) eqn:E; [|reflexivity].
      apply dict_mem_in_keys, L1 in E. congruence. }
    assert (Hr : dict_mem (n_id node) (_reverse_adjacency g) = false).
    { destruct (dict_mem (n_id node) (_reverse_adjacency g)) eqn:E; [|reflexivity].
      apply dict_mem_in_keys, L2 in E. congruence. }
    rewrite Ha, Hr. simpl.
    split; [now apply dict_set_absent|]. split; apply dict_get_set_same.
  - intros Hpresent. unfold exec, add_node. simpl.
    destruct (L3 (n_id node)) as [Ha Hr]; [now apply dict_mem_in_keys|].
    rewrite Ha, Hr. simpl.
    split; [now apply dict_keys_set_present|].
    split; [intros k Hne; unfold get_node; simpl; now apply dict_get_set_other|].
    split; [reflexivity|]. split; [reflexivity|].
    intros eid e Hget _. split; [assumption|].
    apply dict_get_in in Hget. destruct (L4 eid e Hget) as [Hs [Ht _]]. now split.
  - now apply add_node_well_formed.
Qed.

(** Adding a node under the id [D1], which [scenario_resource] already has. *)
Lemma add_node_never_fails_witness :
  well_formed scenario_resource
  /\ dict_mem "D1" (nodes scenario_resource) = true
  /\ fst (add_node (node_of "D1" BEHAVIOR []) scenario_resource)
     = Ok (node_of "D1" BEHAVIOR [])
  /\ _adjacency (exec (add_node (node_of "D1" BEHAVIOR [])) scenario_resource)
     = _adjacency scenario_resource
  /\ _reverse_adjacency (exec (add_node (node_of "D1" BEHAVIOR [])) scenario_resource)
     = _reverse_adjacency scenario_resource
  /\ well_formed (exec (add_node (node_of "D1" BEHAVIOR [])) scenario_resource).
Proof.
  assert (Hwf : well_formed scenario_resource) by (split; reflexivity).
  destruct (add_node_never_fails scenario_resource (node_of "D1" BEHAVIOR []))
    as [Hok [_ [_ [_ [_ Hrest]]]]].
  destruct (Hrest Hwf) as [_ [Hpresent Hwf']].
  destruct (Hpresent eq_refl) as [_ [_ [Ha [Hr _]]]].
  repeat split; try assumption; try apply Hwf; try apply Hwf'.
Defined.

(* ------------------------------------------------------------------ *)
(** ** Results that are values *)

Lemma is_ok_bind {A B : Type} (r : result A) (k : A -> result B) :
  is_ok r -> (forall a, r = Ok a -> is_ok (k a)) -> is_ok (bind r k).
Proof.
  intros [a ->] Hk. simpl. now apply Hk.
Qed.

Lemma mapM_is_ok {A B : Type} (f : A -> result B) (l : list A) :
  (forall x, In x l -> is_ok (f x)) -> is_ok (mapM f l).
Proof.
  induction l as [|x l IH]; simpl; intros Hf.
  - now exists [].
  - apply is_ok_bind; [apply Hf; now left|]. intros y _.
    apply is_ok_bind; [apply IH; intros z Hz; apply Hf; now right|].
    intros ys _. now exists (y :: ys).
Qed.

Lemma concatM_is_ok {A B : Type} (f : A -> result (list B)) (l : list A) :
  (forall x, In x l -> is_ok (f x)) -> is_ok (concatM f l).
Proof.
  intros Hf. unfold concatM. apply is_ok_bind; [now apply mapM_is_ok|].
  intros ls _. now exists (List.concat ls).
Qed.

Lemma mapM_ok_inv {A B : Type} (f : A -> result B) (l : list A) (ys : list B) (y : B) :
  mapM f l = Ok ys -> In y ys -> exists x, In x l /\ f x = Ok y.
Proof.
  revert ys. induction l as [|a l IH]; simpl; intros ys Hm Hin.
  - injection Hm as <-. destruct Hin.
  - destruct (f a) as [b| |] eqn:Hfa; simpl in Hm; try discriminate.
    destruct (mapM f l) as [zs| |]; simpl in Hm; try discriminate.
    injection Hm as <-. destruct Hin as [<-|Hin].
    + exists a. split; [now left | assumption].
    + destruct (IH zs eq_refl Hin) as [x [Hx Hfx]]. exists x. split; [now right | assumption].
Qed.

Lemma in_dict_values {V : Type} (v : V) (d : dict V) :
  In v (dict_values d) -> exists k, In (k, v) d.
Proof.
  unfold dict_values. intros Hin. apply in_map_iff in Hin.
  destruct Hin as [[k v'] [Heq Hin]]. simpl in Heq. subst v'. now exists k.
Qed.

(* ------------------------------------------------------------------ *)
(** ** Lookups on a well-formed graph *)

Section WellFormed.
Variable g : RealityGraph.
Hypothesis Hwf : well_formed g.

Lemma wf_edge_endpoints (k : string) (e : Edge) :
  In (k, e) (edges g) ->
  dict_mem (e_source e) (nodes g) = true /\ dict_mem (e_target e) (nodes g) = true.
Proof.
  destruct Hwf as [_ Hl]. apply lockstepb_spec in Hl.
  destruct Hl as [_ [_ [_ [L4 _]]]]. intros Hin.
  destruct (L4 k e Hin) as [_ [_ [Hs Ht]]]. now split.
Qed.

Lemma wf_node_key (k : string) (n : Node) :
  In (k, n) (nodes g) -> n_id n = k /\ dict_mem (n_id n) (nodes g) = true.
Proof.
  destruct Hwf as [Hk _]. apply keyedb_spec in Hk.
  destruct Hk as [_ [_ [_ [_ [K5 _]]]]]. intros Hin.
  rewrite (K5 k n Hin). split; [reflexivity|].
  apply dict_mem_in_keys. unfold dict_keys. apply in_map_iff. now exists (k, n).
Qed.

Lemma wf_node_value (n : Node) :
  In n (dict_values (nodes g)) -> dict_mem (n_id n) (nodes g) = true.
Proof.
  intros Hin. destruct (in_dict_values _ _ Hin) as [k Hk].
  now apply (wf_node_key k).
Qed.

Lemma wf_incoming (k : string) :
  exists es, get_incoming_edges g k = Ok es
             /\ List.length es = List.length (bucket (_reverse_adjacency g) k)
             /\ forall e, In e es -> exists eid, In (eid, e) (edges g).
Proof.
  destruct Hwf as [_ Hl]. apply lockstepb_spec in Hl.
  destruct Hl as [_ [_ [_ [_ [_ L6]]]]].
  unfold get_incoming_edges.
  destruct (mapM_is_ok (fun eid => dict_index eid (edges g))
              (bucket (_reverse_adjacency g) k)) as [es Hes].
  { intros eid Hin. destruct (bucket_in_entry _ _ _ Hin) as [s [Hs Heid]].
    destruct (L6 k s eid Hs Heid) as [e [He _]].
    exists e. unfold dict_index. now rewrite He. }
  exists es. split; [assumption|]. split; [now apply mapM_ok_length in Hes|].
  intros e Hin. destruct (mapM_ok_inv _ _ _ _ Hes Hin) as [eid [_ He]].
  exists eid. unfold dict_index in He.
  destruct (dict_get eid (edges g)) as [e'|] eqn:Hg; simpl in He; [|discriminate].
  injection He as ->. now apply dict_get_in.
Qed.

Lemma wf_outgoing (k : string) :
  exists es, get_outgoing_edges g k = Ok es
             /\ List.length es = List.length (bucket (_adjacency g) k)
             /\ forall e, In e es -> exists eid, In (eid, e) (edges g).
Proof.
  destruct Hwf as [_ Hl]. apply lockstepb_spec in Hl.
  destruct Hl as [_ [_ [_ [_ [L5 _]]]]].
  unfold get_outgoing_edges.
  destruct (mapM_is_ok (fun eid => dict_index eid (edges g))
              (bucket (_adjacency g) k)) as [es Hes].
  { intros eid Hin. destruct (bucket_in_entry _ _ _ Hin) as [s [Hs Heid]].
    destruct (L5 k s eid Hs Heid) as [e [He _]].
    exists e. unfold dict_index. now rewrite He. }
  exists es. split; [assumption|]. split; [now apply mapM_ok_length in Hes|].
  intros e Hin. destruct (mapM_ok_inv _ _ _ _ Hes Hin) as [eid [_ He]].
  exists eid. unfold dict_index in He.
  destruct (dict_get eid (edges g)) as [e'|] eqn:Hg; simpl in He; [|discriminate].
  injection He as ->. now apply dict_get_in.
Qed.

Lemma wf_node_lookup (k : string) :
  dict_mem k (nodes g) = true ->
  exists n, dict_get k (nodes g) = Some n /\ In (k, n) (nodes g).
Proof.
  intros Hm. apply dict_mem_get in Hm. destruct Hm as [n Hn].
  exists n. split; [assumption | now apply dict_get_in].
Qed.

End WellFormed.

(* ------------------------------------------------------------------ *)
(** ** The step budget of the stack-driven searches suffices *)

Lemma set_mem_add (x y : string) (s : pyset) :
  set_mem y (set_add x s) = orb (String.eqb y x) (set_mem y s).
Proof.
  unfold set_add. destruct (set_mem x s) eqn:Hx.
  - destruct (String.eqb y x) eqn:E; [|reflexivity].
    apply String.eqb_eq in E. now subst y.
  - unfold set_mem. rewrite existsb_app. simpl. rewrite orb_false_r. apply orb_comm.
Qed.

Lemma bucket_absent (idx : dict pyset) (k : string) :
  ~ In k (dict_keys idx) -> bucket idx k = [].
Proof.
  intros Hnotin. unfold bucket. destruct (dict_get k idx) as [s|] eqn:Hg; [|reflexivity].
  exfalso. apply Hnotin. apply dict_mem_in_keys. apply dict_mem_get. now exists s.
Qed.

Section Weight.
Variable idx : dict pyset.

Let weight_on (l : list string) (visited : pyset) : nat :=
  list_sum (map (fun k => if set_mem k visited then 0
                          else S (List.length (bucket idx k))) l).

Lemma weight_on_monotone (l : list string) (x : string) (visited : pyset) :
  weight_on l (set_add x visited) <= weight_on l visited.
Proof.
  unfold weight_on. induction l as [|k l IH]; simpl; [lia|].
  rewrite set_mem_add. destruct (String.eqb k x); simpl.
  - destruct (set_mem k visited); lia.
  - destruct (set_mem k visited); lia.
Qed.

Lemma weight_on_visit (l : list string) (x : string) (visited : pyset) :
  In x l -> set_mem x visited = false ->
  weight_on l (set_add x visited) + S (List.length (bucket idx x)) <= weight_on l visited.
Proof.
  unfold weight_on. induction l as [|k l IH]; simpl; intros Hin Hx; [contradiction|].
  rewrite set_mem_add. destruct (String.eqb k x) eqn:E; simpl.
  - apply String.eqb_eq in E. subst k. rewrite Hx.
    pose proof (weight_on_monotone l x visited) as Hm. unfold weight_on in Hm. lia.
  - destruct Hin as [->|Hin]; [rewrite String.eqb_refl in E; discriminate|].
    specialize (IH Hin Hx). destruct (set_mem k visited); lia.
Qed.

Lemma unvisited_weight_visit (x : string) (visited : pyset) :
  set_mem x visited = false ->
  unvisited_weight idx (set_add x visited) + List.length (bucket idx x)
  <= unvisited_weight idx visited.
Proof.
  intros Hx. destruct (in_dec string_dec x (dict_keys idx)) as [Hin|Hnotin].
  - pose proof (weight_on_visit (dict_keys idx) x visited Hin Hx) as Hv.
    unfold weight_on in Hv. unfold unvisited_weight. lia.
  - rewrite (bucket_absent _ _ Hnotin). simpl.
    pose proof (weight_on_monotone (dict_keys idx) x visited) as Hm.
    unfold weight_on in Hm. unfold unvisited_weight. lia.
Qed.

Lemma budget_weight : budget idx = 2 + unvisited_weight idx [].
Proof.
  reflexivity.
Qed.

End Weight.

Lemma fold_left_push {A : Type} (f : A -> string) (es : list A) (st : list string) :
  fold_left (fun acc e => f e :: acc) es st = (rev (map f es) ++ st)%list.
Proof.
  revert st. induction es as [|e es IH]; simpl; intros st; [reflexivity|].
  rewrite IH, <- app_assoc. reflexivity.
Qed.

Lemma ancestry_loop_total (g : RealityGraph) (fuel : nat) :
  well_formed g ->
  forall visited stack,
    (forall k, In k stack -> dict_mem k (nodes g) = true) ->
    List.length stack + unvisited_weight (_reverse_adjacency g) visited < fuel ->
    is_ok (ancestry_loop g fuel visited stack).
Proof.
  intros Hwf. induction fuel as [|fuel IH]; intros visited stack Hnodes Hfuel; [lia|].
  destruct stack as [|current rest]; [now exists false|].
  simpl. destruct (set_mem current visited) eqn:Hv.
  - apply IH; [intros k Hk; apply Hnodes; now right | simpl in Hfuel; lia].
  - destruct (wf_node_lookup g current) as [n [Hn _]]; [apply Hnodes; now left|].
    unfold dict_index. rewrite Hn. simpl.
    destruct (NodeType_eqb (n_type n) DECISION); [now exists true|].
    destruct (wf_incoming g Hwf current) as [es [Hes [Hlen Hedges]]].
    rewrite Hes. simpl. rewrite fold_left_push. apply IH.
    + intros k Hk. apply in_app_or in Hk. destruct Hk as [Hk|Hk].
      * apply in_rev, in_map_iff in Hk. destruct Hk as [e [<- He]].
        destruct (Hedges e He) as [eid Heid].
        now apply (wf_edge_endpoints g Hwf eid e).
      * apply Hnodes. now right.
    + rewrite length_app, length_rev, length_map, Hlen.
      pose proof (unvisited_weight_visit (_reverse_adjacency g) current visited Hv).
      simpl in Hfuel. lia.
Qed.

Lemma has_decision_ancestry_total (g : RealityGraph) (node : Node) :
  well_formed g -> dict_mem (n_id node) (nodes g) = true ->
  is_ok (has_decision_ancestry g node).
Proof.
  intros Hwf Hnode. unfold has_decision_ancestry.
  apply ancestry_loop_total; [assumption | | ].
  - intros k [<-|[]]. assumption.
  - rewrite budget_weight. simpl. lia.
Qed.

Lemma set_add_forall (P : string -> Prop) (x : string) (s : pyset) :
  P x -> (forall y, In y s -> P y) -> forall y, In y (set_add x s) -> P y.
Proof.
  intros Hx Hs y Hin. unfold set_add in Hin. destruct (set_mem x s); [now apply Hs|].
  apply in_app_or in Hin. destruct Hin as [Hin|[<-|[]]]; [now apply Hs | assumption].
Qed.

Lemma dependents_step_spec (P : string -> Prop) (out : list Edge)
    (dependents : pyset) (stack : list string) :
  (forall e, In e out -> P (e_target e)) ->
  (forall x, In x dependents -> P x) ->
  (forall x, In x stack -> P x) ->
  (forall x, In x (fst (dependents_step out dependents stack)) -> P x)
  /\ (forall x, In x (snd (dependents_step out dependents stack)) -> P x)
  /\ List.length (snd (dependents_step out dependents stack))
     <= List.length out + List.length stack.
Proof.
  unfold dependents_step. revert dependents stack.
  induction out as [|e out IH]; intros dependents stack Hout Hd Hs; simpl.
  - repeat split; auto.
  - destruct (orb _ _).
    + destruct (IH (set_add (e_target e) dependents) (e_target e :: stack))
        as [H1 [H2 H3]].
      * intros e' He'. apply Hout. now right.
      * apply set_add_forall; [apply Hout; now left | assumption].
      * intros x [<-|Hx]; [apply Hout; now left | now apply Hs].
      * repeat split; try assumption. simpl in H3. lia.
    + destruct (IH dependents stack) as [H1 [H2 H3]]; try assumption.
      * intros e' He'. apply Hout. now right.
      * repeat split; try assumption. lia.
Qed.

Lemma dependents_loop_total (g : RealityGraph) (fuel : nat) :
  well_formed g ->
  forall dependents visited stack,
    (forall x, In x dependents -> dict_mem x (nodes g) = true) ->
    List.length stack + unvisited_weight (_adjacency g) visited < fuel ->
    exists ds, dependents_loop g fuel dependents visited stack = Ok ds
               /\ forall x, In x ds -> dict_mem x (nodes g) = true.
Proof.
  intros Hwf. induction fuel as [|fuel IH]; intros dependents visited stack Hd Hfuel;
    [lia|].
  destruct stack as [|current rest]; [now exists dependents|].
  simpl. destruct (set_mem current visited) eqn:Hv.
  - apply IH; [assumption | simpl in Hfuel; lia].
  - destruct (wf_outgoing g Hwf current) as [es [Hes [Hlen Hedges]]].
    rewrite Hes. simpl.
    destruct (dependents_step_spec
                (fun x => In x rest \/ dict_mem x (nodes g) = true) es dependents rest)
      as [H1 [_ H3]].
    { intros e He. right. destruct (Hedges e He) as [eid Heid].
      now apply (wf_edge_endpoints g Hwf eid e). }
    { intros x Hx. right. now apply Hd. }
    { intros x Hx. now left. }
    destruct (dependents_step_spec
                (fun x => dict_mem x (nodes g) = true) es dependents [])
      as [H1' _].
    { intros e He. destruct (Hedges e He) as [eid Heid].
      now apply (wf_edge_endpoints g Hwf eid e). }
    { assumption. }
    { intros x []. }
    apply IH.
    + intros x Hx. clear H1 H3.
      assert (Hfst : forall st, fst (dependents_step es dependents st)
                                = fst (dependents_step es dependents [])).
      { unfold dependents_step. clear. revert dependents.
        assert (Hgen : forall out d st st',
                   fst (fold_left
                          (fun (acc : pyset * list string) (edge : Edge) =>
                             if orb (String.eqb (EdgeType_value (e_type edge)) "causes")
                                    (String.eqb (EdgeType_value (e_type edge)) "enables")
                             then (set_add (e_target edge) (fst acc),
                                   e_target edge :: snd acc)
                             else acc) out (d, st))
                   = fst (fold_left
                            (fun (acc : pyset * list string) (edge : Edge) =>
                               if orb (String.eqb (EdgeType_value (e_type edge)) "causes")
                                      (String.eqb (EdgeType_value (e_type edge)) "enables")
                               then (set_add (e_target edge) (fst acc),
                                     e_target edge :: snd acc)
                               else acc) out (d, st'))).
        { induction out as [|e out IHo]; intros d st st'; simpl; [reflexivity|].
          destruct (orb _ _); simpl; apply IHo. }
        intros dependents st. apply Hgen. }
      rewrite Hfst in Hx. now apply H1'.
    + pose proof (unvisited_weight_visit (_adjacency g) current visited Hv).
      simpl in Hfuel. lia.
Qed.

Lemma find_all_dependents_total (g : RealityGraph) (node_id : string) :
  well_formed g ->
  exists ds, _find_all_dependents g node_id = Ok ds
             /\ forall x, In x ds -> dict_mem x (nodes g) = true.
Proof.
  intros Hwf. unfold _find_all_dependents. apply dependents_loop_total.
  - assumption.
  - intros x [].
  - rewrite budget_weight. simpl. lia.
Qed.

(* ------------------------------------------------------------------ *)
(** ** The room [has_cycle] needs *)

Lemma filter_length_le {A : Type} (p q : A -> bool) (l : list A) :
  (forall x, In x l -> p x = true -> q x = true) ->
  List.length (filter p l) <= List.length (filter q l).
Proof.
  induction l as [|x l IH]; simpl; intros Hpq; [lia|].
  assert (IH' := IH (fun y Hy => Hpq y (or_intror Hy))).
  destruct (p x) eqn:Hp.
  - rewrite (Hpq x (or_introl eq_refl) Hp). simpl. lia.
  - destruct (q x); simpl; lia.
Qed.




Lemma incl_set_add (x : string) (s : pyset) : incl s (set_add x s).
Proof.
  intros y Hy. apply set_mem_in. rewrite set_mem_add.
  apply orb_true_iff. right. now apply set_mem_in.
Qed.

Lemma in_set_add (x : string) (s : pyset) : In x (set_add x s).
Proof.
  apply set_mem_in. rewrite set_mem_add. now rewrite String.eqb_refl.
Qed.

Lemma set_add_fresh (x : string) (s : pyset) :
  ~ In x s -> set_add x s = (s ++ [x])%list.
Proof.
  intros Hx. unfold set_add. apply set_mem_not_in in Hx. now rewrite Hx.
Qed.

Lemma set_discard_fresh (x : string) (s : pyset) :
  ~ In x s -> set_discard x (s ++ [x])%list = s.
Proof.
  intros Hx. unfold set_discard. rewrite filter_app. simpl.
  rewrite String.eqb_refl. simpl. rewrite app_nil_r.
  induction s as [|y s IH]; simpl; [reflexivity|].
  destruct (String.eqb x y) eqn:E.
  - apply String.eqb_eq in E. subst y. exfalso. apply Hx. now left.
  - simpl. f_equal. apply IH. intros Hin. apply Hx. now right.
Qed.








(* ------------------------------------------------------------------ *)
(** ** The calculators on a well-formed graph with numeric metadata *)

Lemma as_num_numeric (v : pyval) : is_numeric v -> is_ok (as_num v).
Proof.
  destruct v as [q|[|]|s]; simpl; intros Hn; try contradiction; now eexists.
Qed.

Lemma py_sum_from_numeric (vals : list pyval) (acc : Q) :
  (forall v, In v vals -> is_numeric v) -> is_ok (py_sum_from acc vals).
Proof.
  revert acc. induction vals as [|v vals IH]; simpl; intros acc Hn; [now eexists|].
  apply is_ok_bind; [apply as_num_numeric, Hn; now left|].
  intros q _. apply IH. intros w Hw. apply Hn. now right.
Qed.



Lemma py_max_list_in (xs : list Q) :
  xs <> [] -> exists m, py_max_list xs = Ok m /\ In m xs.
Proof.
  destruct xs as [|x xs]; [congruence|]. intros _. simpl.
  eexists. split; [reflexivity|].
  revert x. induction xs as [|y ys IH]; intros x; simpl; [now left|].
  destruct (Qgtb y x).
  - destruct (IH y) as [Hin|Hin]; [right; now left | right; now right].
  - destruct (IH x) as [Hin|Hin]; [now left | right; now right].
Qed.

Section Total.
Context `{Formatter}.
Variable g : RealityGraph.
Hypothesis Hwf : well_formed g.
Hypothesis Hnum : numeric_metadata g.

Lemma default_numeric (key : string) (md : dict pyval) (d : Q) :
  numeric_entry key md ->
  is_numeric (match dict_get key md with Some v => v | None => VNum d end).
Proof.
  intros Hn. destruct (dict_get key md) as [v|] eqn:Hg; [now apply Hn | exact I].
Qed.

Lemma explicit_contradiction_total (e : Edge) :
  In e (dict_values (edges g)) -> is_ok (explicit_contradiction g e).
Proof.
  intros Hin. destruct (in_dict_values _ _ Hin) as [k Hk].
  unfold explicit_contradiction.
  destruct (EdgeType_eqb (e_type e) CONTRADICTS); [|now eexists].
  destruct (wf_edge_endpoints g Hwf k e Hk) as [Hs Ht].
  destruct (wf_node_lookup g _ Hs) as [ns [Hns _]].
  destruct (wf_node_lookup g _ Ht) as [nt [Hnt _]].
  unfold dict_index. rewrite Hns, Hnt. simpl.
  apply is_ok_bind.
  - apply as_num_numeric, default_numeric. now apply (proj2 Hnum k e).
  - intros sev _. now eexists.
Qed.

Lemma consumers_of_total (resource : Node) :
  exists cs, consumers_of g resource = Ok cs
             /\ forall c, In c cs -> exists k, In (k, c) (nodes g).
Proof.
  unfold consumers_of.
  destruct (wf_incoming g Hwf (n_id resource)) as [es [Hes [_ Hedges]]].
  rewrite Hes. simpl.
  destruct (mapM_is_ok (fun edge => dict_index (e_source edge) (nodes g))
              (filter (fun edge => EdgeType_eqb (e_type edge) REQUIRES) es)) as [cs Hcs].
  { intros e He. apply filter_In in He. destruct He as [He _].
    destruct (Hedges e He) as [eid Heid].
    destruct (wf_edge_endpoints g Hwf eid e Heid) as [Hs _].
    destruct (wf_node_lookup g _ Hs) as [n [Hn _]].
    unfold dict_index. rewrite Hn. now eexists. }
  exists cs. split; [assumption|]. intros c Hc.
  destruct (mapM_ok_inv _ _ _ _ Hcs Hc) as [e [_ He]].
  unfold dict_index in He.
  destruct (dict_get (e_source e) (nodes g)) as [n|] eqn:Hg; simpl in He; [|discriminate].
  injection He as ->. exists (e_source e). now apply dict_get_in.
Qed.

Lemma resource_contradiction_total (resource : Node) :
  In resource (dict_values (nodes g)) -> is_ok (resource_contradiction g resource).
Proof.
  intros Hin. destruct (in_dict_values _ _ Hin) as [kr Hkr].
  unfold resource_contradiction.
  destruct (consumers_of_total resource) as [cs [Hcs Hnodes]]. rewrite Hcs. simpl.
  destruct cs as [|c0 [|c1 rest]]; try (now eexists).
  apply is_ok_bind.
  - apply py_sum_from_numeric. intros v Hv. apply in_map_iff in Hv.
    destruct Hv as [c [<- Hc]]. destruct (Hnodes c Hc) as [k Hk].
    unfold demand_of. apply default_numeric. now apply (proj1 Hnum k c).
  - intros total _. apply is_ok_bind.
    + apply as_num_numeric, default_numeric. now apply (proj1 Hnum kr resource).
    + intros cap _. destruct (Qgtb total cap); now eexists.
Qed.

Lemma nodes_by_type_values (t : NodeType) (n : Node) :
  In n (get_nodes_by_type g t) -> In n (dict_values (nodes g)).
Proof.
  unfold get_nodes_by_type. intros Hin. now apply filter_In in Hin.
Qed.

Lemma find_contradictions_total : is_ok (find_contradictions g).
Proof.
  unfold find_contradictions. apply is_ok_bind.
  - apply concatM_is_ok. intros e He. now apply explicit_contradiction_total.
  - intros ex _. apply is_ok_bind.
    + apply concatM_is_ok. intros r Hr.
      apply resource_contradiction_total. now apply (nodes_by_type_values RESOURCE).
    + intros rc _. now eexists.
Qed.

Lemma ExistenceAxiom_verify_total (context : Context) :
  is_ok (ExistenceAxiom_verify g context).
Proof.
  unfold ExistenceAxiom_verify. apply is_ok_bind.
  - apply mapM_is_ok. intros n Hn. apply is_ok_bind.
    + apply has_decision_ancestry_total; [assumption|].
      apply (wf_node_value g Hwf). now apply (nodes_by_type_values BEHAVIOR).
    + intros b _. now eexists.
  - intros flags _. destruct (map _ _); now eexists.
Qed.








End Total.

Section TotalIndex.
Context `{Formatter} `{Interpreter}.
Variable g : RealityGraph.
Hypothesis Hwf : well_formed g.
Hypothesis Hnum : numeric_metadata g.
Hypothesis Hroom : List.length (nodes g) <= recursion_room.

Lemma demand_at_total (e : Edge) (k : string) :
  In (k, e) (edges g) ->
  exists v, demand_at g e = Ok v /\ is_numeric v.
Proof.
  intros Hk. unfold demand_at, node_attr, get_node.
  destruct (wf_edge_endpoints g Hwf k e Hk) as [Hs _].
  destruct (wf_node_lookup g _ Hs) as [n [Hn Hin]]. rewrite Hn. simpl.
  eexists. split; [reflexivity|].
  apply default_numeric. now apply (proj1 Hnum (e_source e) n).
Qed.

Lemma resource_exhaustion_path_total (resource : Node) :
  In resource (dict_values (nodes g)) -> is_ok (resource_exhaustion_path g resource).
Proof.
  intros Hin. destruct (in_dict_values _ _ Hin) as [kr Hkr].
  unfold resource_exhaustion_path.
  destruct (wf_incoming g Hwf (n_id resource)) as [es [Hes [_ Hedges]]].
  rewrite Hes. cbn [bind].
  destruct (requires_edges_of es) as [|e0 rest] eqn:Hreq; [now eexists|].
  assert (Hreqs : forall e, In e (e0 :: rest) -> exists k, In (k, e) (edges g)).
  { intros e He. rewrite <- Hreq in He. unfold requires_edges_of in He.
    apply filter_In in He. now apply Hedges. }
  destruct (mapM_is_ok (demand_at g) (e0 :: rest)) as [demands Hdem].
  { intros e He. destruct (Hreqs e He) as [k Hk].
    destruct (demand_at_total e k Hk) as [v [Hv _]]. now exists v. }
  rewrite Hdem. cbn [bind].
  apply is_ok_bind.
  - apply py_sum_from_numeric. intros v Hv.
    destruct (mapM_ok_inv _ _ _ _ Hdem Hv) as [e [He Hev]].
    destruct (Hreqs e He) as [k Hk].
    destruct (demand_at_total e k Hk) as [v' [Hv' Hnumv]]. congruence.
  - intros total _.
    destruct (dict_get "capacity" (n_metadata resource)) as [capv|] eqn:Hcap;
      [|now eexists].
    apply is_ok_bind.
    + apply as_num_numeric. now apply (proj1 (proj1 Hnum kr resource Hkr)).
    + intros cap _. destruct (Qgtb total cap); [|now eexists].
      destruct (Qgtb cap 0) eqn:Hpos.
      * apply Qgtb_lt in Hpos.
        rewrite (exhaustion_certainty_positive _ _ Hpos), (py_div_positive _ _ Hpos).
        now eexists.
      * apply Qgtb_nlt in Hpos. rewrite (exhaustion_certainty_nonpositive _ _ Hpos).
        now eexists.
Qed.

Lemma find_cascading_failure_paths_total : is_ok (_find_cascading_failure_paths g).
Proof.
  unfold _find_cascading_failure_paths. apply concatM_is_ok. intros n _.
  destruct (find_all_dependents_total g (n_id n) Hwf) as [ds [Hds _]].
  rewrite Hds. cbn [bind]. destruct (Nat.ltb 3 (List.length ds)); [|now eexists].
  apply is_ok_bind; [|intros r _; now eexists].
  unfold py_div. now eexists.
Qed.

Lemma find_spof_paths_total : is_ok (_find_spof_paths g).
Proof.
  unfold _find_spof_paths. apply concatM_is_ok. intros n _.
  destruct (find_all_dependents_total g (n_id n) Hwf) as [ds [Hds Hnodes]].
  rewrite Hds. cbn [bind]. apply is_ok_bind.
  - apply mapM_is_ok. intros d Hd. unfold node_attr, get_node.
    destruct (wf_node_lookup g d (Hnodes d Hd)) as [m [Hm _]]. rewrite Hm. now eexists.
  - intros flagged _. destruct (andb _ _); now eexists.
Qed.





Lemma all_have_ancestry_total (behaviors : list Node) :
  (forall n, In n behaviors -> dict_mem (n_id n) (nodes g) = true) ->
  is_ok (all_have_ancestry g behaviors).
Proof.
  induction behaviors as [|b bs IH]; intros Hb; cbn [all_have_ancestry]; [now eexists|].
  destruct (has_decision_ancestry_total g b Hwf) as [r Hr]; [apply Hb; now left|].
  rewrite Hr. cbn [bind]. destruct r; cbn [negb]; [|now eexists].
  apply IH. intros n Hn. apply Hb. now right.
Qed.

Lemma render_verdict_total (violations : list AxiomViolation) (fii : Q)
    (cf : list CounterfactualResult) :
  is_ok (render_verdict (mkJudge g violations fii cf)).
Proof.
  unfold render_verdict. cbn [j_violations j_fii j_cf_results].
  destruct (filter is_fatal violations); [|now eexists].
  destruct (Qgeb fii (90 # 100)); [now eexists|].
  assert (Hsuff : is_ok (_has_sufficient_data (mkJudge g violations fii cf))).
  { unfold _has_sufficient_data. cbn [j_graph].
    destruct (Nat.eqb (decisions (get_stats g)) 0); [now eexists|].
    destruct (Nat.eqb (total_edges (get_stats g)) 0); [now eexists|].
    apply all_have_ancestry_total. intros n Hn.
    apply (wf_node_value g Hwf). now apply (nodes_by_type_values g BEHAVIOR). }
  destruct Hsuff as [b Hb].
  destruct (filter _ cf) as [|r1 [|r2 rs]]; try (now eexists);
    rewrite Hb; cbn [bind]; destruct b; cbn [negb]; try (now eexists);
    destruct (orb _ _); now eexists.
Qed.

End TotalIndex.

(** [has_cycle] nests one call per node of a chain it is forced down: it
    raises [RecursionError] when the chain is longer than the room. *)
Lemma has_cycle_needs_room (g : RealityGraph) (chain : list string) :
  forall room st,
    NoDup chain ->
    (forall x, In x chain -> set_mem x (dl_visited st) = false) ->
    forced_chain g chain ->
    room < List.length chain ->
    has_cycle g room (hd "" chain) st = Raise RecursionError.
Proof.
  induction chain as [|a chain IH]; intros room st Hnd Hvis Hchain Hroom;
    [cbn in Hroom; lia|].
  destruct room as [|room]; [reflexivity|].
  destruct chain as [|b rest]; [cbn in Hroom; lia|].
  destruct Hchain as [[e [Hout [Hreq Htgt]]] Hrest].
  apply NoDup_cons_iff in Hnd. destruct Hnd as [Hnotin Hnd'].
  cbn [hd has_cycle]. rewrite Hout. cbn [bind cycle_edges].
  unfold is_requirement in Hreq. rewrite Hreq, Htgt.
  cbn [dl_visited].
  assert (Hb : set_mem b (set_add a (dl_visited st)) = false).
  { rewrite set_mem_add. rewrite (Hvis b (or_intror (or_introl eq_refl))).
    destruct (String.eqb b a) eqn:E; [|reflexivity].
    apply String.eqb_eq in E. subst b. exfalso. apply Hnotin. now left. }
  rewrite Hb. cbn [negb].
  change b with (hd "" (b :: rest)) at 1.
  rewrite IH; [reflexivity | exact Hnd' | | exact Hrest | cbn in Hroom |- *; lia].
  intros x Hx. cbn [dl_visited]. rewrite set_mem_add.
  rewrite (Hvis x (or_intror Hx)).
  destruct (String.eqb x a) eqn:E; [|reflexivity].
  apply String.eqb_eq in E. subst x. exfalso. now apply Hnotin.
Qed.

(** The room cannot be left out of C6: on a well-formed graph with numeric
    metadata whose first node starts a forced chain longer than the room,
    [compute] raises [RecursionError]. *)
Lemma long_chain_recursion_error `{Formatter} `{Interpreter} (g : RealityGraph)
    (chain : list string) (violations : list AxiomViolation) :
  well_formed g -> numeric_metadata g ->
  chain <> [] -> hd_error (dict_keys (nodes g)) = hd_error chain ->
  NoDup chain -> forced_chain g chain ->
  recursion_room < List.length chain ->
  compute g violations = Raise RecursionError.
Proof.
  intros Hwf Hnum Hne Hhd Hnd Hchain Hroom.
  unfold compute, _identify_collapse_paths.
  destruct (find_contradictions_total g Hwf Hnum) as [cs ->]. cbn [bind].
  destruct (concatM_is_ok (resource_exhaustion_path g) (get_nodes_by_type g RESOURCE))
    as [rp Hrp].
  { intros r Hr. apply (resource_exhaustion_path_total g Hwf Hnum).
    now apply (nodes_by_type_values g RESOURCE). }
  unfold _find_resource_exhaustion_paths. rewrite Hrp. cbn [bind].
  destruct (find_cascading_failure_paths_total g Hwf) as [cp ->]. cbn [bind].
  destruct (find_spof_paths_total g Hwf) as [sp ->]. cbn [bind].
  unfold _find_deadlock_paths.
  destruct chain as [|a rest]; [congruence|].
  destruct (dict_keys (nodes g)) as [|k ks]; [discriminate Hhd|].
  cbn [hd_error] in Hhd. injection Hhd as ->.
  cbn [deadlock_roots dl_visited set_mem existsb negb].
  change a with (hd "" (a :: rest)) at 1.
  rewrite (has_cycle_needs_room g (a :: rest) recursion_room _ Hnd); try assumption.
  - reflexivity.
  - intros x _. reflexivity.
Qed.

(** The two services of [scenario_circular] that require each other, in an
    interpreter with room for a single call. *)
Lemma long_chain_recursion_error_example :
  well_formed scenario_circular
  /\ @compute fraction_formatter {| recursion_room := 1 |} scenario_circular []
     = Raise RecursionError
  /\ is_ok (@compute fraction_formatter {| recursion_room := 2 |} scenario_circular []).
Proof.
  assert (Hwf : well_formed scenario_circular) by (split; reflexivity).
  split; [exact Hwf|]. split.
  - apply (@long_chain_recursion_error fraction_formatter {| recursion_room := 1 |}
             scenario_circular ["A"; "B"] [] Hwf).
    + split.
      * intros k n Hin. cbn in Hin.
        destruct Hin as [Hin|[Hin|[Hin|[]]]]; injection Hin as <- <-;
          split; intros v Hv; discriminate Hv.
      * intros k e Hin. cbn in Hin.
        destruct Hin as [Hin|[Hin|[Hin|[]]]]; injection Hin as <- <-;
          intros v Hv; discriminate Hv.
    + discriminate.
    + reflexivity.
    + repeat constructor; cbn; intuition discriminate.
    + cbn. split; [|exact (conj I I)].
      eexists. split; [reflexivity|]. split; reflexivity.
    + cbn. lia.
  - vm_compute. eexists. reflexivity.
Qed.






(* ------------------------------------------------------------------ *)
(** ** The heap: stores, allocations and the frame *)

Lemma set_nth_length (a : addr) (o : obj) (h : heap) :
  List.length (set_nth a o h) = List.length h.
Proof.
  revert a. induction h as [|x h IH]; intros [|a]; simpl; auto.
Qed.

Lemma set_nth_other (a b : addr) (o : obj) (h : heap) :
  a <> b -> nth_error (set_nth a o h) b = nth_error h b.
Proof.
  revert a b. induction h as [|x h IH]; intros [|a] [|b] Hne; simpl; auto;
    try congruence.
Qed.

Lemma set_nth_same (a : addr) (o o' : obj) (h : heap) :
  nth_error (set_nth a o h) a = Some o' -> o' = o.
Proof.
  revert a. induction h as [|x h IH]; intros [|a]; simpl; try discriminate.
  - congruence.
  - apply IH.
Qed.

Lemma set_nth_firstn (n0 a : addr) (o : obj) (h : heap) :
  n0 <= a -> firstn n0 (set_nth a o h) = firstn n0 h.
Proof.
  revert n0 a. induction h as [|x h IH]; intros [|n0] [|a] Hle; simpl; auto; try lia.
  f_equal. apply IH. lia.
Qed.

Lemma firstn_extend (n0 : nat) (h ext : heap) :
  n0 <= List.length h -> firstn n0 (h ++ ext)%list = firstn n0 h.
Proof.
  intros Hle. rewrite firstn_app. replace (n0 - List.length h) with 0 by lia.
  simpl. apply app_nil_r.
Qed.

Lemma upper_closed_initial (h : heap) : upper_closed (List.length h) h.
Proof.
  split; [lia|]. intros a o Hle Hnth.
  apply nth_error_None in Hle. congruence.
Qed.

Lemma upper_closed_lookup (n0 : nat) (h : heap) (a : addr) (o : obj) :
  upper_closed n0 h -> n0 <= a -> nth_error h a = Some o ->
  Forall (fun r => n0 <= r) (refs o).
Proof.
  intros [_ Hc] Hle Hnth. now apply (Hc a o).
Qed.

Lemma upper_closed_store (n0 : nat) (h : heap) (a : addr) (o : obj) :
  upper_closed n0 h -> Forall (fun r => n0 <= r) (refs o) ->
  upper_closed n0 (set_nth a o h).
Proof.
  intros [Hlen Hc] Ho. split; [now rewrite set_nth_length|].
  intros b o' Hle Hnth. destruct (Nat.eq_dec a b) as [->|Hne].
  - apply set_nth_same in Hnth. now subst o'.
  - rewrite set_nth_other in Hnth by assumption. now apply (Hc b o').
Qed.

Lemma upper_closed_alloc (n0 : nat) (h : heap) (o : obj) :
  upper_closed n0 h -> Forall (fun r => n0 <= r) (refs o) ->
  upper_closed n0 (h ++ [o])%list.
Proof.
  intros [Hlen Hc] Ho. split; [rewrite length_app; simpl; lia|].
  intros b o' Hle Hnth. destruct (Nat.lt_ge_cases b (List.length h)) as [Hlt|Hge].
  - rewrite nth_error_app1 in Hnth by assumption. now apply (Hc b o').
  - rewrite nth_error_app2 in Hnth by assumption.
    destruct (b - List.length h) as [|k]; simpl in Hnth.
    + injection Hnth as <-. assumption.
    + destruct k; discriminate.
Qed.

(** *** Rules for [safe] *)

Lemma safe_ret {A : Type} (n0 : nat) (a : A) (Q : A -> Prop) :
  Q a -> safe n0 (hret a) Q.
Proof.
  intros Hq h Hh. simpl. split; [assumption|]. split; [reflexivity|].
  intros b Hb. now injection Hb as <-.
Qed.

Lemma safe_raise {A : Type} (n0 : nat) (e : pyexc) (Q : A -> Prop) :
  safe n0 (hraise e) Q.
Proof.
  intros h Hh. simpl. split; [assumption|]. split; [reflexivity|]. discriminate.
Qed.

Lemma safe_lift {A : Type} (n0 : nat) (r : result A) (Q : A -> Prop) :
  (forall a, r = Ok a -> Q a) -> safe n0 (hlift r) Q.
Proof.
  intros Hq h Hh. simpl. split; [assumption|]. split; [reflexivity | assumption].
Qed.

Lemma safe_bind {A B : Type} (n0 : nat) (m : HM A) (k : A -> HM B)
    (P : A -> Prop) (Q : B -> Prop) :
  safe n0 m P -> (forall a, P a -> safe n0 (k a) Q) -> safe n0 (hbind m k) Q.
Proof.
  intros Hm Hk h Hh. unfold hbind.
  destruct (Hm h Hh) as [Hc [Hf Hp]]. destruct (m h) as [[a|e|] h1]; simpl in *.
  - destruct (Hk a (Hp a eq_refl) h1 Hc) as [Hc2 [Hf2 Hq]].
    split; [assumption|]. split; [congruence | assumption].
  - split; [assumption|]. split; [assumption | discriminate].
  - split; [assumption|]. split; [assumption | discriminate].
Qed.

Lemma safe_weaken {A : Type} (n0 : nat) (m : HM A) (P Q : A -> Prop) :
  safe n0 m P -> (forall a, P a -> Q a) -> safe n0 m Q.
Proof.
  intros Hm Hpq h Hh. destruct (Hm h Hh) as [Hc [Hf Hp]].
  split; [assumption|]. split; [assumption|]. intros a Ha. now apply Hpq, Hp.
Qed.

Lemma safe_load_any (n0 : nat) (a : addr) : safe n0 (load a) (fun _ => True).
Proof.
  intros h Hh. unfold load.
  destruct (nth_error h a); simpl; (split; [assumption|]); split; auto.
Qed.

Lemma safe_load (n0 : nat) (a : addr) :
  n0 <= a -> safe n0 (load a) (fun o => Forall (fun r => n0 <= r) (refs o)).
Proof.
  intros Hle h Hh. unfold load. destruct (nth_error h a) as [o|] eqn:Hnth; simpl.
  - split; [assumption|]. split; [reflexivity|]. intros o' Ho'. injection Ho' as <-.
    now apply (upper_closed_lookup n0 h a).
  - split; [assumption|]. split; [reflexivity | discriminate].
Qed.

Lemma safe_store (n0 : nat) (a : addr) (o : obj) :
  n0 <= a -> Forall (fun r => n0 <= r) (refs o) -> safe n0 (store a o) (fun _ => True).
Proof.
  intros Hle Ho h Hh. unfold store. simpl.
  split; [now apply upper_closed_store|]. split; [now apply set_nth_firstn | auto].
Qed.

Lemma safe_alloc_at (n0 : nat) (f : addr -> obj) :
  (forall a, n0 <= a -> Forall (fun r => n0 <= r) (refs (f a))) ->
  safe n0 (alloc_at f) (fun a => n0 <= a).
Proof.
  intros Hf h Hh. unfold alloc_at. simpl. pose proof Hh as [Hlen _].
  split; [apply (upper_closed_alloc n0 h); [assumption | now apply Hf]|].
  split; [now apply firstn_extend|].
  intros a Ha. injection Ha as <-. assumption.
Qed.

Lemma safe_alloc (n0 : nat) (o : obj) :
  Forall (fun r => n0 <= r) (refs o) -> safe n0 (alloc o) (fun a => n0 <= a).
Proof.
  intros Ho. apply safe_alloc_at. intros a _. exact Ho.
Qed.

Lemma safe_hfor {X : Type} (n0 : nat) (l : list X) (f : X -> HM unit) :
  (forall x, In x l -> safe n0 (f x) (fun _ => True)) ->
  safe n0 (hfor l f) (fun _ => True).
Proof.
  induction l as [|x l IH]; intros Hf; simpl.
  - now apply safe_ret.
  - apply (safe_bind n0 _ _ (fun _ => True)); [apply Hf; now left|].
    intros _ _. apply IH. intros y Hy. apply Hf. now right.
Qed.

Lemma safe_hmapM {X Y : Type} (n0 : nat) (f : X -> HM Y) (l : list X) (Q : Y -> Prop) :
  (forall x, In x l -> safe n0 (f x) Q) ->
  safe n0 (hmapM f l) (Forall Q).
Proof.
  induction l as [|x l IH]; intros Hf; simpl.
  - apply safe_ret. constructor.
  - apply (safe_bind n0 _ _ Q); [apply Hf; now left|]. intros y Hy.
    apply (safe_bind n0 _ _ (Forall Q)); [apply IH; intros z Hz; apply Hf; now right|].
    intros ys Hys. apply safe_ret. now constructor.
Qed.

(** *** References held by a graph object *)

Lemma graph_refs (n0 : nat) (go : GraphObj) :
  Forall (fun r => n0 <= r) (refs (OGraph go)) <->
  Forall (fun r => n0 <= r) (dict_values (go_nodes go))
  /\ Forall (fun r => n0 <= r) (dict_values (go_edges go))
  /\ Forall (fun r => n0 <= r) (dict_values (go_adjacency go))
  /\ Forall (fun r => n0 <= r) (dict_values (go_reverse_adjacency go)).
Proof.
  simpl. rewrite !Forall_app. tauto.
Qed.

Lemma values_ge_get (n0 : nat) (d : dict addr) (k : string) (a : addr) :
  Forall (fun r => n0 <= r) (dict_values d) -> dict_get k d = Some a -> n0 <= a.
Proof.
  intros Hall Hget. apply dict_get_in in Hget.
  rewrite Forall_forall in Hall. apply Hall.
  unfold dict_values. apply in_map_iff. now exists (k, a).
Qed.

Lemma values_ge_set (n0 : nat) (d : dict addr) (k : string) (a : addr) :
  Forall (fun r => n0 <= r) (dict_values d) -> n0 <= a ->
  Forall (fun r => n0 <= r) (dict_values (dict_set k a d)).
Proof.
  intros Hall Ha. rewrite Forall_forall in *. intros r Hr.
  unfold dict_values in Hr. apply in_map_iff in Hr.
  destruct Hr as [[k' a'] [Heq Hin]]. simpl in Heq. subst a'.
  apply in_dict_set in Hin. destruct Hin as [[_ ->]|Hin]; [assumption|].
  apply Hall. unfold dict_values. apply in_map_iff. now exists (k', r).
Qed.

Lemma in_dict_del {V : Type} (k k0 : string) (v : V) (d : dict V) :
  In (k, v) (dict_del k0 d) -> In (k, v) d.
Proof.
  induction d as [|[k' v'] d IH]; simpl; [auto|].
  destruct (String.eqb k0 k'); [now right|].
  intros [Heq|Hin]; [now left | right; now apply IH].
Qed.

Lemma values_ge_del (n0 : nat) (d : dict addr) (k : string) :
  Forall (fun r => n0 <= r) (dict_values d) ->
  Forall (fun r => n0 <= r) (dict_values (dict_del k d)).
Proof.
  intros Hall. rewrite Forall_forall in *. intros r Hr.
  unfold dict_values in Hr. apply in_map_iff in Hr.
  destruct Hr as [[k' a'] [Heq Hin]]. simpl in Heq. subst a'.
  apply in_dict_del in Hin. apply Hall.
  unfold dict_values. apply in_map_iff. now exists (k', r).
Qed.

(** *** Typed loads *)

Lemma safe_load_graph (n0 : nat) (a : addr) :
  n0 <= a ->
  safe n0 (load_graph a) (fun go => Forall (fun r => n0 <= r) (refs (OGraph go))).
Proof.
  intros Hle. unfold load_graph.
  apply (safe_bind n0 _ _ _ _ (safe_load n0 a Hle)).
  intros [n|e|md|s|go] Ho; try apply safe_raise. now apply safe_ret.
Qed.

Lemma safe_load_node (n0 : nat) (a : addr) :
  n0 <= a -> safe n0 (load_node a) (fun n => n0 <= no_metadata n).
Proof.
  intros Hle. unfold load_node.
  apply (safe_bind n0 _ _ _ _ (safe_load n0 a Hle)).
  intros [n|e|md|s|go] Ho; try apply safe_raise. apply safe_ret.
  simpl in Ho. now inversion Ho.
Qed.

Lemma safe_load_edge (n0 : nat) (a : addr) :
  n0 <= a -> safe n0 (load_edge a) (fun e => n0 <= eo_metadata e).
Proof.
  intros Hle. unfold load_edge.
  apply (safe_bind n0 _ _ _ _ (safe_load n0 a Hle)).
  intros [n|e|md|s|go] Ho; try apply safe_raise. apply safe_ret.
  simpl in Ho. now inversion Ho.
Qed.

Lemma safe_load_graph_any (n0 : nat) (a : addr) :
  safe n0 (load_graph a) (fun _ => True).
Proof.
  unfold load_graph. apply (safe_bind n0 _ _ _ _ (safe_load_any n0 a)).
  intros [n|e|md|s|go] _; try apply safe_raise. now apply safe_ret.
Qed.

Lemma safe_load_node_any (n0 : nat) (a : addr) :
  safe n0 (load_node a) (fun _ => True).
Proof.
  unfold load_node. apply (safe_bind n0 _ _ _ _ (safe_load_any n0 a)).
  intros [n|e|md|s|go] _; try apply safe_raise. now apply safe_ret.
Qed.

Lemma safe_load_edge_any (n0 : nat) (a : addr) :
  safe n0 (load_edge a) (fun _ => True).
Proof.
  unfold load_edge. apply (safe_bind n0 _ _ _ _ (safe_load_any n0 a)).
  intros [n|e|md|s|go] _; try apply safe_raise. now apply safe_ret.
Qed.

Lemma safe_load_meta (n0 : nat) (a : addr) :
  safe n0 (load_meta a) (fun _ => True).
Proof.
  unfold load_meta. apply (safe_bind n0 _ _ _ _ (safe_load_any n0 a)).
  intros [n|e|md|s|go] _; try apply safe_raise. now apply safe_ret.
Qed.

Lemma safe_load_set (n0 : nat) (a : addr) :
  safe n0 (load_set a) (fun _ => True).
Proof.
  unfold load_set. apply (safe_bind n0 _ _ _ _ (safe_load_any n0 a)).
  intros [n|e|md|s|go] _; try apply safe_raise. now apply safe_ret.
Qed.

Lemma safe_href (n0 : nat) (k : string) (d : dict addr) :
  Forall (fun r => n0 <= r) (dict_values d) ->
  safe n0 (href k d) (fun a => n0 <= a).
Proof.
  intros Hd. unfold href. apply safe_lift. intros a Ha. unfold dict_index in Ha.
  destruct (dict_get k d) as [a'|] eqn:Hg; simpl in Ha; [|discriminate].
  injection Ha as <-. now apply (values_ge_get n0 d k).
Qed.

Lemma safe_heap_set_add (n0 : nat) (sa : addr) (x : string) :
  n0 <= sa -> safe n0 (heap_set_add sa x) (fun _ => True).
Proof.
  intros Hle. unfold heap_set_add.
  apply (safe_bind n0 _ _ _ _ (safe_load_set n0 sa)). intros s _.
  apply safe_store; [assumption | constructor].
Qed.

Lemma safe_heap_set_discard (n0 : nat) (sa : addr) (x : string) :
  n0 <= sa -> safe n0 (heap_set_discard sa x) (fun _ => True).
Proof.
  intros Hle. unfold heap_set_discard.
  apply (safe_bind n0 _ _ _ _ (safe_load_set n0 sa)). intros s _.
  apply safe_store; [assumption | constructor].
Qed.

(** *** The clone and the mutation operators respect the frame *)

Ltac safe_step rule :=
  eapply safe_bind; [solve [eapply rule; eauto] | cbv beta; intros].

Lemma safe_deepcopy_node (n0 : nat) (a : addr) :
  safe n0 (deepcopy_node a) (fun new_node => n0 <= new_node).
Proof.
  unfold deepcopy_node.
  safe_step safe_load_node_any. safe_step safe_load_meta.
  eapply safe_bind; [apply safe_alloc; constructor | cbv beta; intros md' Hmd'].
  apply safe_alloc. simpl. now repeat constructor.
Qed.

Lemma safe_deepcopy_edge (n0 : nat) (a : addr) :
  safe n0 (deepcopy_edge a) (fun new_edge => n0 <= new_edge).
Proof.
  unfold deepcopy_edge.
  safe_step safe_load_edge_any. safe_step safe_load_meta.
  eapply safe_bind; [apply safe_alloc; constructor | cbv beta; intros md' Hmd'].
  apply safe_alloc. simpl. now repeat constructor.
Qed.

Lemma safe_clone_node (n0 : nat) (c a : addr) :
  n0 <= c -> safe n0 (clone_node c a) (fun _ => True).
Proof.
  intros Hc. unfold clone_node.
  eapply safe_bind; [apply safe_deepcopy_node | cbv beta; intros new_node Hnew].
  eapply safe_bind; [apply (safe_load_node n0 new_node Hnew) | cbv beta; intros n _].
  eapply safe_bind; [apply safe_alloc; constructor | cbv beta; intros out Hout].
  eapply safe_bind; [apply safe_alloc; constructor | cbv beta; intros inc Hinc].
  eapply safe_bind; [apply (safe_load_graph n0 c Hc) | cbv beta; intros go Hgo].
  apply graph_refs in Hgo. destruct Hgo as [Hn [He [Ha Hr]]].
  apply safe_store; [assumption|]. apply graph_refs. simpl.
  repeat split; try assumption; now apply values_ge_set.
Qed.

Lemma safe_clone_edge (n0 : nat) (c a : addr) :
  n0 <= c -> safe n0 (clone_edge c a) (fun _ => True).
Proof.
  intros Hc. unfold clone_edge.
  eapply safe_bind; [apply safe_deepcopy_edge | cbv beta; intros new_edge Hnew].
  eapply safe_bind; [apply (safe_load_edge n0 new_edge Hnew) | cbv beta; intros e _].
  eapply safe_bind; [apply (safe_load_graph n0 c Hc) | cbv beta; intros go Hgo].
  apply graph_refs in Hgo. destruct Hgo as [Hn [He [Ha Hr]]].
  eapply safe_bind.
  { apply safe_store; [assumption|]. apply graph_refs. simpl.
    repeat split; try assumption. now apply values_ge_set. }
  cbv beta; intros _ _.
  eapply safe_bind; [apply (safe_href n0 _ _ Ha) | cbv beta; intros out Hout].
  eapply safe_bind; [apply (safe_heap_set_add n0 out _ Hout) | cbv beta; intros _ _].
  eapply safe_bind; [apply (safe_href n0 _ _ Hr) | cbv beta; intros inc Hinc].
  now apply safe_heap_set_add.
Qed.

Lemma safe_clone_graph (n0 : nat) (base : addr) :
  safe n0 (_clone_graph base) (fun c => n0 <= c).
Proof.
  unfold _clone_graph.
  eapply safe_bind; [apply safe_alloc; simpl; constructor | cbv beta; intros c Hc].
  eapply safe_bind; [apply safe_load_graph_any | cbv beta; intros go _].
  eapply safe_bind.
  { apply safe_hfor. intros a _. now apply safe_clone_node. }
  cbv beta; intros _ _.
  eapply safe_bind.
  { apply safe_hfor. intros a _. now apply safe_clone_edge. }
  cbv beta; intros _ _. now apply safe_ret.
Qed.

Lemma safe_heap_bucket_edges (n0 : nat) (c : addr) (idx : GraphObj -> dict addr)
    (node_id : string) :
  n0 <= c -> safe n0 (heap_bucket_edges c idx node_id) (fun _ => True).
Proof.
  intros Hc. unfold heap_bucket_edges.
  eapply safe_bind; [apply safe_load_graph_any | cbv beta; intros go _].
  destruct (dict_get node_id (idx go)) as [sa|]; [|now apply safe_ret].
  eapply safe_bind; [apply safe_load_set | cbv beta; intros s _].
  eapply safe_weaken.
  - apply (safe_hmapM n0 _ _ (fun _ => True)). intros eid _.
    eapply safe_bind; [apply safe_lift; intros; exact I | cbv beta; intros ea _].
    apply safe_load_edge_any.
  - auto.
Qed.

Lemma safe_heap_add_edge (n0 : nat) (c ea : addr) :
  n0 <= c -> n0 <= ea -> safe n0 (heap_add_edge c ea) (fun _ => True).
Proof.
  intros Hc Hea. unfold heap_add_edge.
  eapply safe_bind; [apply safe_load_edge_any | cbv beta; intros edge _].
  eapply safe_bind; [apply (safe_load_graph n0 c Hc) | cbv beta; intros go Hgo].
  apply graph_refs in Hgo. destruct Hgo as [Hn [He [Ha Hr]]].
  destruct (negb (dict_mem (eo_source edge) (go_nodes go))); [apply safe_raise|].
  destruct (negb (dict_mem (eo_target edge) (go_nodes go))); [apply safe_raise|].
  eapply safe_bind.
  { apply safe_store; [assumption|]. apply graph_refs. simpl.
    repeat split; try assumption. now apply values_ge_set. }
  cbv beta; intros _ _.
  eapply safe_bind; [apply (safe_href n0 _ _ Ha) | cbv beta; intros out Hout].
  eapply safe_bind; [apply (safe_heap_set_add n0 out _ Hout) | cbv beta; intros _ _].
  eapply safe_bind; [apply (safe_href n0 _ _ Hr) | cbv beta; intros inc Hinc].
  now apply safe_heap_set_add.
Qed.

Lemma safe_remove_edge (n0 : nat) (c : addr) (edge_id : string) :
  n0 <= c -> safe n0 (remove_edge c edge_id) (fun _ => True).
Proof.
  intros Hc. unfold remove_edge.
  eapply safe_bind; [apply (safe_load_graph n0 c Hc) | cbv beta; intros go Hgo].
  apply graph_refs in Hgo. destruct Hgo as [Hn [He [Ha Hr]]].
  eapply safe_bind; [apply (safe_href n0 _ _ He) | cbv beta; intros ea Hea].
  eapply safe_bind; [apply safe_load_edge_any | cbv beta; intros edge _].
  eapply safe_bind.
  { destruct (dict_get (eo_source edge) (go_adjacency go)) as [sa|] eqn:Hg.
    - apply safe_heap_set_discard. now apply (values_ge_get n0 _ _ _ Ha Hg).
    - now apply safe_ret. }
  cbv beta; intros _ _.
  eapply safe_bind.
  { destruct (dict_get (eo_target edge) (go_reverse_adjacency go)) as [sa|] eqn:Hg.
    - apply safe_heap_set_discard. now apply (values_ge_get n0 _ _ _ Hr Hg).
    - now apply safe_ret. }
  cbv beta; intros _ _.
  apply safe_store; [assumption|]. apply graph_refs. simpl.
  repeat split; try assumption. now apply values_ge_del.
Qed.

Lemma safe_modify_node_failure (n0 : nat) (node_id : string) (c : addr) :
  n0 <= c -> safe n0 (modify_node_failure node_id c) (fun _ => True).
Proof.
  intros Hc. unfold modify_node_failure.
  eapply safe_bind; [apply safe_load_graph_any | cbv beta; intros go _].
  destruct (dict_mem node_id (go_nodes go)); [|now apply safe_ret].
  eapply safe_bind.
  { apply (safe_hmapM n0 _ _ (fun _ => True)). intros kv _.
    eapply safe_bind; [apply safe_load_edge_any | cbv beta; intros edge _].
    now apply safe_ret. }
  cbv beta; intros flags _.
  eapply safe_bind.
  { apply safe_hfor. intros eid _. now apply safe_remove_edge. }
  cbv beta; intros _ _.
  eapply safe_bind; [apply (safe_load_graph n0 c Hc) | cbv beta; intros go1 Hgo1].
  apply graph_refs in Hgo1. destruct Hgo1 as [Hn [He [Ha Hr]]].
  apply safe_store; [assumption|]. apply graph_refs. simpl.
  repeat split; try assumption.
  - now apply values_ge_del.
  - destruct (dict_mem node_id (go_adjacency go1)); [now apply values_ge_del | assumption].
  - destruct (dict_mem node_id (go_reverse_adjacency go1));
      [now apply values_ge_del | assumption].
Qed.

Lemma safe_spike_demand (n0 : nat) (multiplier : Q) (c : addr) (edge : EdgeObj) :
  n0 <= c -> safe n0 (spike_demand multiplier c edge) (fun _ => True).
Proof.
  intros Hc. unfold spike_demand.
  eapply safe_bind; [apply (safe_load_graph n0 c Hc) | cbv beta; intros go Hgo].
  apply graph_refs in Hgo. destruct Hgo as [Hn _].
  destruct (dict_get (eo_source edge) (go_nodes go)) as [na|] eqn:Hg; [|apply safe_raise].
  pose proof (values_ge_get n0 _ _ _ Hn Hg) as Hna.
  eapply safe_bind; [apply (safe_load_node n0 na Hna) | cbv beta; intros node Hmd].
  eapply safe_bind; [apply safe_load_meta | cbv beta; intros md _].
  destruct (dict_get "resource_demand" md) as [v|]; [|now apply safe_ret].
  eapply safe_bind; [apply safe_lift; intros; exact I | cbv beta; intros q _].
  apply safe_store; [assumption | constructor].
Qed.

Lemma safe_modify_traffic_spike (n0 : nat) (multiplier : Q) (c : addr) :
  n0 <= c -> safe n0 (modify_traffic_spike multiplier c) (fun _ => True).
Proof.
  intros Hc. unfold modify_traffic_spike.
  eapply safe_bind; [apply safe_load_graph_any | cbv beta; intros go _].
  eapply safe_bind.
  { apply (safe_hmapM n0 _ _ (fun _ => True)). intros a _. apply safe_load_node_any. }
  cbv beta; intros all_nodes _.
  apply safe_hfor. intros resource _.
  destruct (orb _ _); [|now apply safe_ret].
  eapply safe_bind; [now apply safe_heap_bucket_edges | cbv beta; intros incoming _].
  apply safe_hfor. intros edge _. now apply safe_spike_demand.
Qed.

Lemma safe_modify_remove_resource (n0 : nat) (resource_id : string) (c : addr) :
  n0 <= c -> safe n0 (modify_remove_resource resource_id c) (fun _ => True).
Proof.
  intros Hc. unfold modify_remove_resource.
  eapply safe_bind; [apply (safe_load_graph n0 c Hc) | cbv beta; intros go Hgo].
  apply graph_refs in Hgo. destruct Hgo as [Hn _].
  destruct (dict_get resource_id (go_nodes go)) as [na|] eqn:Hg; [|now apply safe_ret].
  pose proof (values_ge_get n0 _ _ _ Hn Hg) as Hna.
  eapply safe_bind; [apply (safe_load_node n0 na Hna) | cbv beta; intros node Hmd].
  eapply safe_bind; [apply safe_load_meta | cbv beta; intros md _].
  eapply safe_bind; [apply safe_store; [assumption | constructor] | cbv beta; intros _ _].
  eapply safe_bind; [apply safe_load_meta | cbv beta; intros md1 _].
  apply safe_store; [assumption | constructor].
Qed.

Lemma safe_modify_violate_assumption (n0 : nat) (uuid4 : addr -> string)
    (assumption_id : string) (c : addr) :
  n0 <= c -> safe n0 (modify_violate_assumption uuid4 assumption_id c) (fun _ => True).
Proof.
  intros Hc. unfold modify_violate_assumption.
  eapply safe_bind; [apply safe_load_graph_any | cbv beta; intros go _].
  destruct (dict_get assumption_id (go_nodes go)) as [na|]; [|now apply safe_ret].
  eapply safe_bind; [apply safe_load_node_any | cbv beta; intros assumption _].
  eapply safe_bind; [now apply safe_heap_bucket_edges | cbv beta; intros outgoing _].
  apply safe_hfor. intros edge _.
  destruct (EdgeType_eqb (eo_type edge) ASSUMES); [|now apply safe_ret].
  eapply safe_bind; [apply safe_alloc; constructor | cbv beta; intros md Hmd].
  eapply safe_bind.
  { apply safe_alloc_at. intros a _. simpl. now repeat constructor. }
  cbv beta; intros ea Hea. now apply safe_heap_add_edge.
Qed.

Lemma safe_apply_modification (n0 : nat) (uuid4 : addr -> string)
    (m : Modification) (c : addr) :
  n0 <= c -> safe n0 (apply_modification uuid4 m c) (fun _ => True).
Proof.
  intros Hc. destruct m; simpl.
  - now apply safe_modify_traffic_spike.
  - now apply safe_modify_node_failure.
  - now apply safe_modify_remove_resource.
  - now apply safe_modify_violate_assumption.
Qed.

Lemma safe_prepare_scenario (n0 : nat) (uuid4 : addr -> string) (base : addr)
    (modifications : list Modification) :
  safe n0 (prepare_scenario uuid4 base modifications) (fun c => n0 <= c).
Proof.
  unfold prepare_scenario.
  eapply safe_bind; [apply safe_clone_graph | cbv beta; intros c Hc].
  eapply safe_bind.
  { apply safe_hfor. intros m _. now apply safe_apply_modification. }
  cbv beta; intros _ _. now apply safe_ret.
Qed.

(** *** Reading a graph back depends only on the objects it reaches *)

Lemma nth_error_stable (h h' : heap) (a : addr) (o : obj) :
  firstn (List.length h) h' = h -> nth_error h a = Some o -> nth_error h' a = Some o.
Proof.
  intros Hpre Hnth.
  assert (Hlt : a < List.length h) by (apply nth_error_Some; congruence).
  rewrite <- (firstn_skipn (List.length h) h'), Hpre.
  now rewrite nth_error_app1.
Qed.

Lemma read_node_stable (h h' : heap) (a : addr) (n : Node) :
  firstn (List.length h) h' = h -> read_node h a = Some n -> read_node h' a = Some n.
Proof.
  intros Hpre. unfold read_node.
  destruct (nth_error h a) as [[no| | | |]|] eqn:Ha; try discriminate.
  destruct (nth_error h (no_metadata no)) as [[| |md| |]|] eqn:Hm; try discriminate.
  intros Hn. now rewrite (nth_error_stable h h' _ _ Hpre Ha),
                         (nth_error_stable h h' _ _ Hpre Hm).
Qed.

Lemma read_edge_stable (h h' : heap) (a : addr) (e : Edge) :
  firstn (List.length h) h' = h -> read_edge h a = Some e -> read_edge h' a = Some e.
Proof.
  intros Hpre. unfold read_edge.
  destruct (nth_error h a) as [[|eo| | |]|] eqn:Ha; try discriminate.
  destruct (nth_error h (eo_metadata eo)) as [[| |md| |]|] eqn:Hm; try discriminate.
  intros He. now rewrite (nth_error_stable h h' _ _ Hpre Ha),
                         (nth_error_stable h h' _ _ Hpre Hm).
Qed.

Lemma read_set_stable (h h' : heap) (a : addr) (s : pyset) :
  firstn (List.length h) h' = h -> read_set h a = Some s -> read_set h' a = Some s.
Proof.
  intros Hpre. unfold read_set.
  destruct (nth_error h a) as [[| | |s'|]|] eqn:Ha; try discriminate.
  intros Hs. now rewrite (nth_error_stable h h' _ _ Hpre Ha).
Qed.

Lemma read_dict_stable {V : Type} (rd rd' : addr -> option V) (d : dict addr)
    (vs : dict V) :
  (forall a v, rd a = Some v -> rd' a = Some v) ->
  read_dict rd d = Some vs -> read_dict rd' d = Some vs.
Proof.
  intros Hrd. revert vs. induction d as [|[k a] d IH]; simpl; intros vs Hvs;
    [assumption|].
  destruct (rd a) as [v|] eqn:Ha; [|discriminate].
  destruct (read_dict rd d) as [ws|]; [|discriminate].
  now rewrite (Hrd a v Ha), (IH ws eq_refl).
Qed.

Lemma read_graph_stable (h h' : heap) (a : addr) (g : RealityGraph) :
  firstn (List.length h) h' = h -> read_graph h a = Some g -> read_graph h' a = Some g.
Proof.
  intros Hpre. unfold read_graph.
  destruct (nth_error h a) as [[| | | |go]|] eqn:Ha; try discriminate.
  rewrite (nth_error_stable h h' _ _ Hpre Ha).
  destruct (read_dict (read_node h) (go_nodes go)) as [ns|] eqn:Hn; [|discriminate].
  destruct (read_dict (read_edge h) (go_edges go)) as [es|] eqn:He; [|discriminate].
  destruct (read_dict (read_set h) (go_adjacency go)) as [adj|] eqn:Hadj; [|discriminate].
  destruct (read_dict (read_set h) (go_reverse_adjacency go)) as [radj|] eqn:Hr;
    [|discriminate].
  intros Hg.
  rewrite (read_dict_stable _ (read_node h') _ _ (fun a v => read_node_stable h h' a v Hpre) Hn),
          (read_dict_stable _ (read_edge h') _ _ (fun a v => read_edge_stable h h' a v Hpre) He),
          (read_dict_stable _ (read_set h') _ _ (fun a v => read_set_stable h h' a v Hpre) Hadj),
          (read_dict_stable _ (read_set h') _ _ (fun a v => read_set_stable h h' a v Hpre) Hr).
  assumption.
Qed.

Lemma safe_frame {A : Type} (m : HM A) (Q : A -> Prop) (h : heap) :
  safe (List.length h) m Q ->
  firstn (List.length h) (snd (m h)) = h
  /\ upper_closed (List.length h) (snd (m h))
  /\ forall a, fst (m h) = Ok a -> Q a.
Proof.
  intros Hs. destruct (Hs h (upper_closed_initial h)) as [Hc [Hf Hq]].
  split; [|split; assumption]. now rewrite Hf, firstn_all.
Qed.

Lemma safe_snapshot (n0 : nat) (a : addr) : safe n0 (snapshot a) (fun _ => True).
Proof.
  intros h Hh. unfold snapshot.
  destruct (read_graph h a); simpl; (split; [assumption|]); split; auto.
Qed.

Lemma safe_test_scenario `{Formatter} `{Interpreter} (n0 : nat) (uuid4 : addr -> string)
    (base : addr)
    (sc : CounterfactualScenario) :
  safe n0 (_test_scenario uuid4 base sc) (fun _ => True).
Proof.
  unfold _test_scenario.
  eapply safe_bind; [apply safe_prepare_scenario | cbv beta; intros c Hc].
  eapply safe_bind; [apply safe_snapshot | cbv beta; intros g _].
  eapply safe_bind; [apply safe_lift; intros; exact I | cbv beta; intros vs _].
  eapply safe_bind; [apply safe_lift; intros; exact I | cbv beta; intros fii _].
  now apply safe_ret.
Qed.

Lemma safe_run_simulation `{Formatter} `{Interpreter} (n0 : nat)
    (uuid4 : addr -> string) (base : addr)
    (scenarios : list CounterfactualScenario) :
  safe n0 (run_simulation uuid4 base scenarios) (fun _ => True).
Proof.
  unfold run_simulation. eapply safe_weaken.
  - apply (safe_hmapM n0 _ _ (fun _ => True)). intros sc _. apply safe_test_scenario.
  - auto.
Qed.

(** C7.  Let a heap hold a base graph, read back as the value [G].  A
    scenario clones the base graph and applies its modifications to the
    clone.  Whatever the modifications are and whether or not they raise,
    the base graph reads back as [G] afterwards: its nodes, its edges, both
    adjacency indices and every metadata dict are what they were, so are its
    node and edge counts; the same holds after a second scenario and after a
    whole [run_simulation].  The clone is a new object, every object it
    reaches was allocated during its own scenario (none below the heap the
    scenario started from, where the base graph and the earlier clones
    live), and a clone left by one scenario reads back the same after the
    next scenario has run: the clones of two scenarios share no object. *)
Theorem counterfactual_clone_is_deep `{Formatter} `{Interpreter}
    (uuid4 : addr -> string) (h : heap)
    (base : addr) (G : RealityGraph) (mods mods' : list Modification)
    (scenarios : list CounterfactualScenario) :
  read_graph h base = Some G ->
  let run1 := prepare_scenario uuid4 base mods h in
  let run2 := prepare_scenario uuid4 base mods' (snd run1) in
  read_graph (snd run1) base = Some G
  /\ read_graph (snd run2) base = Some G
  /\ read_graph (snd (run_simulation uuid4 base scenarios h)) base = Some G
  /\ firstn (List.length h) (snd run1) = h
  /\ upper_closed (List.length h) (snd run1)
  /\ (forall c1, fst run1 = Ok c1 ->
        List.length h <= c1 /\ c1 <> base
        /\ forall C1, read_graph (snd run1) c1 = Some C1 ->
                      read_graph (snd run2) c1 = Some C1)
  /\ (forall c2, fst run2 = Ok c2 -> List.length (snd run1) <= c2)
  /\ upper_closed (List.length (snd run1)) (snd run2).
Proof.
  intros HG run1 run2.
  destruct (safe_frame _ _ h (safe_prepare_scenario (List.length h) uuid4 base mods))
    as [Hpre1 [Hup1 Hc1]].
  destruct (safe_frame _ _ (snd run1)
              (safe_prepare_scenario (List.length (snd run1)) uuid4 base mods'))
    as [Hpre2 [Hup2 Hc2]].
  destruct (safe_frame _ _ h (safe_run_simulation (List.length h) uuid4 base scenarios))
    as [Hpre3 _].
  fold run1 in Hpre1, Hup1, Hc1. fold run2 in Hpre2, Hup2, Hc2.
  assert (H1 : read_graph (snd run1) base = Some G)
    by (now apply (read_graph_stable h)).
  split; [exact H1|].
  split; [now apply (read_graph_stable (snd run1))|].
  split; [now apply (read_graph_stable h)|].
  split; [exact Hpre1|]. split; [exact Hup1|].
  split; [|split; [exact Hc2 | exact Hup2]].
  intros c1 Hrun. specialize (Hc1 c1 Hrun). split; [exact Hc1|]. split.
  - assert (Hlt : base < List.length h).
    { apply nth_error_Some. unfold read_graph in HG.
      destruct (nth_error h base); [discriminate | discriminate]. }
    lia.
  - intros C1 HC1. now apply (read_graph_stable (snd run1)).
Qed.

(** On [heap_base] the clone is the new object at address 11; before any
    modification it reads back as the value of the base graph. *)
Lemma clone_reads_back_example :
  fst (_clone_graph 6 heap_base) = Ok 11
  /\ read_graph (snd (_clone_graph 6 heap_base)) 11 = Some graph_base
  /\ read_graph (snd (_clone_graph 6 heap_base)) 6 = Some graph_base.
Proof.
  repeat split.
Qed.

(** The node-failure scenario for [R] on [heap_base]: the clone at address 11
    loses [R] and the edge [E]; the base graph at address 6 keeps both. *)
Lemma counterfactual_clone_is_deep_witness :
  read_graph heap_base 6 = Some graph_base
  /\ fst (prepare_scenario uuid_of_address 6 [ModifyNodeFailure "R"] heap_base) = Ok 11
  /\ read_graph (snd (prepare_scenario uuid_of_address 6 [ModifyNodeFailure "R"] heap_base)) 6
     = Some graph_base
  /\ List.length (nodes graph_base) = 2 /\ List.length (edges graph_base) = 1
  /\ (exists C1,
        read_graph (snd (prepare_scenario uuid_of_address 6 [ModifyNodeFailure "R"]
                           heap_base)) 11 = Some C1
        /\ dict_keys (nodes C1) = ["B"] /\ edges C1 = []
        /\ _adjacency C1 = [("B", [])] /\ _reverse_adjacency C1 = [("B", [])]).
Proof.
  split; [reflexivity|]. split; [reflexivity|].
  split.
  - exact (proj1 (@counterfactual_clone_is_deep fraction_formatter roomy_interpreter uuid_of_address
                    heap_base 6 graph_base [ModifyNodeFailure "R"]
                    [ModifyRemoveResource "R"] [] eq_refl)).
  - split; [reflexivity|]. split; [reflexivity|].
    eexists. split; [vm_compute; reflexivity|]. repeat split.
Defined.


(* ------------------------------------------------------------------ *)
(** ** The clone holds the value of the original *)

Lemma hbind_ok {A B : Type} (m : HM A) (k : A -> HM B) (h h1 : heap) (a : A) :
  m h = (Ok a, h1) -> hbind m k h = k a h1.
Proof.
  intros Hm. unfold hbind. now rewrite Hm.
Qed.

Lemma load_node_ok (h : heap) (a : addr) (n : NodeObj) :
  nth_error h a = Some (ONode n) -> load_node a h = (Ok n, h).
Proof.
  intros Hn. unfold load_node, hbind, load. now rewrite Hn.
Qed.

Lemma load_edge_ok (h : heap) (a : addr) (e : EdgeObj) :
  nth_error h a = Some (OEdge e) -> load_edge a h = (Ok e, h).
Proof.
  intros Hn. unfold load_edge, hbind, load. now rewrite Hn.
Qed.

Lemma load_meta_ok (h : heap) (a : addr) (md : dict pyval) :
  nth_error h a = Some (OMeta md) -> load_meta a h = (Ok md, h).
Proof.
  intros Hn. unfold load_meta, hbind, load. now rewrite Hn.
Qed.

Lemma load_set_ok (h : heap) (a : addr) (s : pyset) :
  nth_error h a = Some (OSet s) -> load_set a h = (Ok s, h).
Proof.
  intros Hn. unfold load_set, hbind, load. now rewrite Hn.
Qed.

Lemma load_graph_ok (h : heap) (a : addr) (go : GraphObj) :
  nth_error h a = Some (OGraph go) -> load_graph a h = (Ok go, h).
Proof.
  intros Hn. unfold load_graph, hbind, load. now rewrite Hn.
Qed.

Lemma nth_error_app_old (h l : heap) (a : addr) (o : obj) :
  nth_error h a = Some o -> nth_error (h ++ l)%list a = Some o.
Proof.
  intros Hn. rewrite nth_error_app1; [assumption|].
  apply nth_error_Some. congruence.
Qed.

Lemma nth_error_app_new (h : heap) (o : obj) (l : heap) :
  nth_error (h ++ o :: l)%list (List.length h) = Some o.
Proof.
  rewrite nth_error_app2 by lia. now rewrite Nat.sub_diag.
Qed.

Lemma set_nth_hit (a : addr) (o : obj) (h : heap) :
  a < List.length h -> nth_error (set_nth a o h) a = Some o.
Proof.
  revert a. induction h as [|x h IH]; intros [|a] Hlt; simpl in *; try lia.
  - reflexivity.
  - apply IH. lia.
Qed.

Lemma keeps_refl (h : heap) : keeps h h.
Proof.
  intros a [n|e|md|s|go] Hn; eauto.
Qed.

Lemma keeps_trans (h1 h2 h3 : heap) : keeps h1 h2 -> keeps h2 h3 -> keeps h1 h3.
Proof.
  intros H12 H23 a o Hn. specialize (H12 a o Hn).
  destruct o as [n|e|md|s|go].
  - exact (H23 a _ H12).
  - exact (H23 a _ H12).
  - exact (H23 a _ H12).
  - destruct H12 as [s' Hs']. exact (H23 a _ Hs').
  - destruct H12 as [go' Hgo']. exact (H23 a _ Hgo').
Qed.

Lemma keeps_app (h l : heap) : keeps h (h ++ l)%list.
Proof.
  intros a o Hn. pose proof (nth_error_app_old h l a o Hn) as Hn'.
  destruct o; eauto.
Qed.

Lemma keeps_store_set (h : heap) (a : addr) (s s' : pyset) :
  nth_error h a = Some (OSet s) -> keeps h (set_nth a (OSet s') h).
Proof.
  intros Ha b o Hb. destruct (Nat.eq_dec a b) as [->|Hne].
  - rewrite Ha in Hb. injection Hb as <-. exists s'. apply set_nth_hit.
    apply nth_error_Some. congruence.
  - rewrite set_nth_other by assumption. destruct o; eauto.
Qed.

Lemma keeps_store_graph (h : heap) (a : addr) (go go' : GraphObj) :
  nth_error h a = Some (OGraph go) -> keeps h (set_nth a (OGraph go') h).
Proof.
  intros Ha b o Hb. destruct (Nat.eq_dec a b) as [->|Hne].
  - rewrite Ha in Hb. injection Hb as <-. exists go'. apply set_nth_hit.
    apply nth_error_Some. congruence.
  - rewrite set_nth_other by assumption. destruct o; eauto.
Qed.

Lemma keeps_read_node (h h' : heap) (a : addr) (n : Node) :
  keeps h h' -> read_node h a = Some n -> read_node h' a = Some n.
Proof.
  intros Hk. unfold read_node.
  destruct (nth_error h a) as [[no| | | |]|] eqn:Ha; try discriminate.
  destruct (nth_error h (no_metadata no)) as [[| |md| |]|] eqn:Hm; try discriminate.
  intros Hn. now rewrite (Hk _ _ Ha), (Hk _ _ Hm).
Qed.

Lemma keeps_read_edge (h h' : heap) (a : addr) (e : Edge) :
  keeps h h' -> read_edge h a = Some e -> read_edge h' a = Some e.
Proof.
  intros Hk. unfold read_edge.
  destruct (nth_error h a) as [[|eo| | |]|] eqn:Ha; try discriminate.
  destruct (nth_error h (eo_metadata eo)) as [[| |md| |]|] eqn:Hm; try discriminate.
  intros He. now rewrite (Hk _ _ Ha), (Hk _ _ Hm).
Qed.

Lemma read_set_app (h l : heap) (a : addr) (s : pyset) :
  read_set h a = Some s -> read_set (h ++ l)%list a = Some s.
Proof.
  unfold read_set. destruct (nth_error h a) as [[| | |s'|]|] eqn:Ha; try discriminate.
  intros Hs. now rewrite (nth_error_app_old h l a _ Ha).
Qed.

Lemma read_set_store_other (h : heap) (a sa : addr) (o : obj) :
  a <> sa -> read_set (set_nth sa o h) a = read_set h a.
Proof.
  intros Hne. unfold read_set. rewrite set_nth_other; [reflexivity | congruence].
Qed.

Lemma read_set_store_graph (h : heap) (a c : addr) (go go' : GraphObj) (s : pyset) :
  nth_error h c = Some (OGraph go) -> read_set h a = Some s ->
  read_set (set_nth c (OGraph go') h) a = Some s.
Proof.
  intros Hc Hs. rewrite read_set_store_other; [assumption|].
  intros ->. unfold read_set in Hs. rewrite Hc in Hs. discriminate.
Qed.

Lemma read_set_store_hit (h : heap) (sa : addr) (s' : pyset) :
  sa < List.length h -> read_set (set_nth sa (OSet s') h) sa = Some s'.
Proof.
  intros Hlt. unfold read_set. now rewrite set_nth_hit.
Qed.

Lemma read_set_bound (h : heap) (a : addr) (s : pyset) :
  read_set h a = Some s -> nth_error h a = Some (OSet s).
Proof.
  unfold read_set. destruct (nth_error h a) as [[| | |s'|]|]; try discriminate.
  congruence.
Qed.

Lemma read_dict_set {V : Type} (rd : addr -> option V) (d : dict addr) (vs : dict V)
    (k : string) (a : addr) (v : V) :
  rd a = Some v -> read_dict rd d = Some vs ->
  read_dict rd (dict_set k a d) = Some (dict_set k v vs).
Proof.
  intros Ha. revert vs. induction d as [|[k0 a0] d IH]; simpl; intros vs Hvs.
  - injection Hvs as <-. simpl. now rewrite Ha.
  - destruct (rd a0) as [v0|] eqn:Ha0; [|discriminate].
    destruct (read_dict rd d) as [ws|] eqn:Hd; [|discriminate].
    injection Hvs as <-. simpl. destruct (String.eqb k k0); simpl.
    + now rewrite Ha, Hd.
    + now rewrite Ha0, (IH ws eq_refl).
Qed.

Lemma read_dict_get {V : Type} (rd : addr -> option V) (d : dict addr) (vs : dict V)
    (k : string) :
  read_dict rd d = Some vs ->
  dict_get k vs = match dict_get k d with Some a => rd a | None => None end.
Proof.
  revert vs. induction d as [|[k0 a0] d IH]; simpl; intros vs Hvs.
  - now injection Hvs as <-.
  - destruct (rd a0) as [v0|] eqn:Ha0; [|discriminate].
    destruct (read_dict rd d) as [ws|] eqn:Hd; [|discriminate].
    injection Hvs as <-. simpl. destruct (String.eqb k k0); [now rewrite Ha0|].
    now apply IH.
Qed.

Lemma read_dict_forall2 {V : Type} (rd : addr -> option V) (d : dict addr) (vs : dict V) :
  read_dict rd d = Some vs ->
  Forall2 (fun a v => rd a = Some v) (dict_values d) (dict_values vs).
Proof.
  revert vs. induction d as [|[k0 a0] d IH]; simpl; intros vs Hvs.
  - injection Hvs as <-. constructor.
  - destruct (rd a0) as [v0|] eqn:Ha0; [|discriminate].
    destruct (read_dict rd d) as [ws|] eqn:Hd; [|discriminate].
    injection Hvs as <-. simpl. constructor; [assumption | now apply IH].
Qed.

Lemma read_dict_values_bound (h : heap) (d : dict addr) (vs : dict pyset) (a : addr) :
  read_dict (read_set h) d = Some vs -> In a (dict_values d) -> a < List.length h.
Proof.
  intros Hd Hin. apply read_dict_forall2 in Hd.
  revert Hin. induction Hd as [|a0 v0 l l' Ha0 _ IH]; intros Hin; [destruct Hin|].
  destruct Hin as [<-|Hin]; [|now apply IH].
  apply nth_error_Some. apply read_set_bound in Ha0. congruence.
Qed.

Lemma read_dict_untouched (h : heap) (d : dict addr) (vs : dict pyset)
    (sa : addr) (o : obj) :
  ~ In sa (dict_values d) -> read_dict (read_set h) d = Some vs ->
  read_dict (read_set (set_nth sa o h)) d = Some vs.
Proof.
  revert vs. induction d as [|[k0 a0] d IH]; simpl; intros vs Hnotin Hvs; [assumption|].
  destruct (read_set h a0) as [v0|] eqn:Ha0; [|discriminate].
  destruct (read_dict (read_set h) d) as [ws|] eqn:Hd; [|discriminate].
  injection Hvs as <-.
  rewrite read_set_store_other by (intros ->; apply Hnotin; now left).
  rewrite Ha0, (IH ws); [reflexivity | | reflexivity].
  intros Hin. apply Hnotin. now right.
Qed.

Lemma read_dict_update (h : heap) (d : dict addr) (vs : dict pyset)
    (k : string) (sa : addr) (s' : pyset) :
  NoDup (dict_values d) -> read_dict (read_set h) d = Some vs ->
  dict_get k d = Some sa ->
  read_dict (read_set (set_nth sa (OSet s') h)) d = Some (dict_set k s' vs).
Proof.
  revert vs. induction d as [|[k0 a0] d IH]; simpl; intros vs Hnd Hvs Hget; [discriminate|].
  destruct (read_set h a0) as [v0|] eqn:Ha0; [|discriminate].
  destruct (read_dict (read_set h) d) as [ws|] eqn:Hd; [|discriminate].
  injection Hvs as <-. inversion Hnd as [|? ? Hnotin Hnd']; subst.
  simpl. destruct (String.eqb k k0) eqn:E.
  - injection Hget as ->.
    rewrite read_set_store_hit
      by (apply nth_error_Some; apply read_set_bound in Ha0; congruence).
    now rewrite (read_dict_untouched h d ws sa _ Hnotin Hd).
  - assert (Hne : a0 <> sa).
    { intros ->. apply Hnotin. apply dict_get_in in Hget.
      unfold dict_values. apply in_map_iff. now exists (k, sa). }
    rewrite read_set_store_other by assumption.
    now rewrite Ha0, (IH ws Hnd' eq_refl Hget).
Qed.

Lemma in_values_dict_set (d : dict addr) (k : string) (a x : addr) :
  In x (dict_values (dict_set k a d)) -> x = a \/ In x (dict_values d).
Proof.
  unfold dict_values. intros Hin. apply in_map_iff in Hin.
  destruct Hin as [[k' x'] [Heq Hin]]. simpl in Heq. subst x'.
  apply in_dict_set in Hin. destruct Hin as [[_ ->]|Hin]; [now left|].
  right. apply in_map_iff. now exists (k', x).
Qed.

Lemma nodup_values_set_fresh (d : dict addr) (rest : list addr) (k : string) (a : addr) :
  NoDup (dict_values d ++ rest)%list -> ~ In a (dict_values d ++ rest)%list ->
  NoDup (dict_values (dict_set k a d) ++ rest)%list.
Proof.
  induction d as [|[k0 a0] d IH]; simpl; intros Hnd Hfresh.
  - now constructor.
  - inversion Hnd as [|? ? Hnotin Hnd']; subst.
    destruct (String.eqb k k0); simpl.
    + constructor; [|assumption]. intros Hin. apply Hfresh. now right.
    + constructor.
      * intros Hin. apply in_app_or in Hin. destruct Hin as [Hin|Hin].
        -- apply in_values_dict_set in Hin. destruct Hin as [->|Hin].
           ++ apply Hfresh. now left.
           ++ apply Hnotin. apply in_or_app. now left.
        -- apply Hnotin. apply in_or_app. now right.
      * apply IH; [assumption|]. intros Hin. apply Hfresh. now right.
Qed.

Lemma deepcopy_node_ok (h : heap) (a : addr) (no : NodeObj) (md : dict pyval) :
  nth_error h a = Some (ONode no) -> nth_error h (no_metadata no) = Some (OMeta md) ->
  deepcopy_node a h
  = (Ok (S (List.length h)),
     (h ++ [OMeta md;
            ONode (mkNodeObj (no_id no) (no_type no) (no_name no) (no_description no)
                     (List.length h) (no_criticality no))])%list).
Proof.
  intros Ha Hm. unfold deepcopy_node.
  rewrite (hbind_ok _ _ _ _ _ (load_node_ok h a no Ha)).
  rewrite (hbind_ok _ _ _ _ _ (load_meta_ok h _ md Hm)).
  unfold hbind, alloc, alloc_at. simpl.
  rewrite length_app. simpl. rewrite Nat.add_1_r, <- app_assoc. reflexivity.
Qed.

Lemma deepcopy_edge_ok (h : heap) (a : addr) (eo : EdgeObj) (md : dict pyval) :
  nth_error h a = Some (OEdge eo) -> nth_error h (eo_metadata eo) = Some (OMeta md) ->
  deepcopy_edge a h
  = (Ok (S (List.length h)),
     (h ++ [OMeta md;
            OEdge (mkEdgeObj (eo_id eo) (eo_source eo) (eo_target eo) (eo_type eo)
                     (eo_weight eo) (eo_confidence eo) (List.length h))])%list).
Proof.
  intros Ha Hm. unfold deepcopy_edge.
  rewrite (hbind_ok _ _ _ _ _ (load_edge_ok h a eo Ha)).
  rewrite (hbind_ok _ _ _ _ _ (load_meta_ok h _ md Hm)).
  unfold hbind, alloc, alloc_at. simpl.
  rewrite length_app. simpl. rewrite Nat.add_1_r, <- app_assoc. reflexivity.
Qed.

Lemma read_node_inv (h : heap) (a : addr) (n : Node) :
  read_node h a = Some n ->
  exists no, nth_error h a = Some (ONode no)
             /\ nth_error h (no_metadata no) = Some (OMeta (n_metadata n))
             /\ n = mkNode (no_id no) (no_type no) (no_name no) (no_description no)
                      (n_metadata n) (no_criticality no).
Proof.
  unfold read_node. intros Hn.
  destruct (nth_error h a) as [[no| | | |]|]; try discriminate.
  exists no. split; [reflexivity|].
  destruct (nth_error h (no_metadata no)) as [[| |md| |]|]; try discriminate.
  injection Hn as <-. split; reflexivity.
Qed.

Lemma read_edge_inv (h : heap) (a : addr) (e : Edge) :
  read_edge h a = Some e ->
  exists eo, nth_error h a = Some (OEdge eo)
             /\ nth_error h (eo_metadata eo) = Some (OMeta (e_metadata e))
             /\ e = mkEdge (eo_id eo) (eo_source eo) (eo_target eo) (eo_type eo)
                      (eo_weight eo) (eo_confidence eo) (e_metadata e).
Proof.
  unfold read_edge. intros He.
  destruct (nth_error h a) as [[|eo| | |]|]; try discriminate.
  exists eo. split; [reflexivity|].
  destruct (nth_error h (eo_metadata eo)) as [[| |md| |]|]; try discriminate.
  injection He as <-. split; reflexivity.
Qed.

Lemma read_dict_keeps_node (h h' : heap) (d : dict addr) (vs : dict Node) :
  keeps h h' -> read_dict (read_node h) d = Some vs ->
  read_dict (read_node h') d = Some vs.
Proof.
  intros Hk. apply read_dict_stable. intros a v. now apply keeps_read_node.
Qed.

Lemma read_dict_keeps_edge (h h' : heap) (d : dict addr) (vs : dict Edge) :
  keeps h h' -> read_dict (read_edge h) d = Some vs ->
  read_dict (read_edge h') d = Some vs.
Proof.
  intros Hk. apply read_dict_stable. intros a v. now apply keeps_read_edge.
Qed.

Lemma read_dict_sets_app_store (h l : heap) (c : addr) (go go' : GraphObj)
    (d : dict addr) (vs : dict pyset) :
  nth_error h c = Some (OGraph go) -> read_dict (read_set h) d = Some vs ->
  read_dict (read_set (set_nth c (OGraph go') (h ++ l)%list)) d = Some vs.
Proof.
  intros Hc. apply read_dict_stable. intros a s Hs.
  apply (read_set_store_graph _ a c go go' s).
  - now apply nth_error_app_old.
  - now apply read_set_app.
Qed.

Lemma read_dict_in {V : Type} (rd : addr -> option V) (d : dict addr) (vs : dict V)
    (k : string) (a : addr) :
  read_dict rd d = Some vs -> In (k, a) d -> exists v, rd a = Some v.
Proof.
  revert vs. induction d as [|[k0 a0] d IH]; intros vs Hd Hin; [destruct Hin|].
  cbn [read_dict] in Hd. destruct (rd a0) as [v0|] eqn:E; [|discriminate].
  destruct (read_dict rd d) as [vs0|] eqn:E2; [|discriminate].
  destruct Hin as [Heq|Hin].
  - inversion Heq; subst. now exists v0.
  - now apply (IH vs0).
Qed.

Lemma kept_node_entry (h h' : heap) (d : dict addr) (vs : dict Node) (k : string)
    (a : addr) :
  read_dict (read_node h) d = Some vs -> keeps h h' -> In (k, a) d ->
  exists no, nth_error h a = Some (ONode no) /\ nth_error h' a = Some (ONode no)
             /\ no_metadata no < List.length h.
Proof.
  intros Hd Hk Hin. destruct (read_dict_in _ _ _ _ _ Hd Hin) as [n Hn].
  destruct (read_node_inv h a n Hn) as [no [Hno [Hmd _]]].
  exists no. split; [exact Hno|]. split; [exact (Hk a (ONode no) Hno)|].
  apply nth_error_Some. congruence.
Qed.

Lemma kept_edge_entry (h h' : heap) (d : dict addr) (vs : dict Edge) (k : string)
    (a : addr) :
  read_dict (read_edge h) d = Some vs -> keeps h h' -> In (k, a) d ->
  exists eo, nth_error h a = Some (OEdge eo) /\ nth_error h' a = Some (OEdge eo)
             /\ eo_metadata eo < List.length h.
Proof.
  intros Hd Hk Hin. destruct (read_dict_in _ _ _ _ _ Hd Hin) as [e He].
  destruct (read_edge_inv h a e He) as [eo [Heo [Hmd _]]].
  exists eo. split; [exact Heo|]. split; [exact (Hk a (OEdge eo) Heo)|].
  apply nth_error_Some. congruence.
Qed.

(** A node or an edge that comes with a metadata dict allocated for it
    shares it with nothing the graph object had. *)
Lemma separate_add_node (h h' : heap) (go : GraphObj) (id : string) (a0 : addr)
    (no0 : NodeObj) (adj radj : dict addr) :
  separate h go ->
  (forall k a, In (k, a) (go_nodes go) ->
     exists no, nth_error h a = Some (ONode no) /\ nth_error h' a = Some (ONode no)
                /\ no_metadata no < List.length h) ->
  (forall k a, In (k, a) (go_edges go) ->
     exists eo, nth_error h a = Some (OEdge eo) /\ nth_error h' a = Some (OEdge eo)
                /\ eo_metadata eo < List.length h) ->
  nth_error h' a0 = Some (ONode no0) -> List.length h <= no_metadata no0 ->
  separate h' (mkGraphObj (dict_set id a0 (go_nodes go)) (go_edges go) adj radj).
Proof.
  intros [Hs1 Hs2] Hns Hes Hnew Hfresh. split; cbn [go_nodes go_edges].
  - intros k a no k' a' no' Hin Hin' Ha Ha' Hm.
    apply in_dict_set in Hin. apply in_dict_set in Hin'.
    destruct Hin as [[-> ->]|Hin]; destruct Hin' as [[-> ->]|Hin'].
    + reflexivity.
    + destruct (Hns k' a' Hin') as [x [_ [Hx Hlt]]].
      assert (no = no0) by congruence. assert (no' = x) by congruence. subst. lia.
    + destruct (Hns k a Hin) as [x [_ [Hx Hlt]]].
      assert (no' = no0) by congruence. assert (no = x) by congruence. subst. lia.
    + destruct (Hns k a Hin) as [x [Hx0 [Hx _]]].
      destruct (Hns k' a' Hin') as [y [Hy0 [Hy _]]].
      assert (no = x) by congruence. assert (no' = y) by congruence. subst.
      exact (Hs1 k a x k' a' y Hin Hin' Hx0 Hy0 Hm).
  - intros k a no k' a' eo Hin Hin' Ha Ha' Hm.
    apply in_dict_set in Hin.
    destruct (Hes k' a' Hin') as [y [Hy0 [Hy Hlt]]].
    assert (eo = y) by congruence. subst eo.
    destruct Hin as [[-> ->]|Hin].
    + assert (no = no0) by congruence. subst. lia.
    + destruct (Hns k a Hin) as [x [Hx0 [Hx _]]].
      assert (no = x) by congruence. subst.
      exact (Hs2 k a x k' a' y Hin Hin' Hx0 Hy0 Hm).
Qed.

Lemma separate_add_edge (h h' : heap) (go : GraphObj) (id : string) (a0 : addr)
    (eo0 : EdgeObj) (adj radj : dict addr) :
  separate h go ->
  (forall k a, In (k, a) (go_nodes go) ->
     exists no, nth_error h a = Some (ONode no) /\ nth_error h' a = Some (ONode no)
                /\ no_metadata no < List.length h) ->
  (forall k a, In (k, a) (go_edges go) ->
     exists eo, nth_error h a = Some (OEdge eo) /\ nth_error h' a = Some (OEdge eo)
                /\ eo_metadata eo < List.length h) ->
  nth_error h' a0 = Some (OEdge eo0) -> List.length h <= eo_metadata eo0 ->
  separate h' (mkGraphObj (go_nodes go) (dict_set id a0 (go_edges go)) adj radj).
Proof.
  intros [Hs1 Hs2] Hns Hes Hnew Hfresh. split; cbn [go_nodes go_edges].
  - intros k a no k' a' no' Hin Hin' Ha Ha' Hm.
    destruct (Hns k a Hin) as [x [Hx0 [Hx _]]].
    destruct (Hns k' a' Hin') as [y [Hy0 [Hy _]]].
    assert (no = x) by congruence. assert (no' = y) by congruence. subst.
    exact (Hs1 k a x k' a' y Hin Hin' Hx0 Hy0 Hm).
  - intros k a no k' a' eo Hin Hin' Ha Ha' Hm.
    apply in_dict_set in Hin'.
    destruct (Hns k a Hin) as [x [Hx0 [Hx Hlt]]].
    assert (no = x) by congruence. subst no.
    destruct Hin' as [[-> ->]|Hin'].
    + assert (eo = eo0) by congruence. subst. lia.
    + destruct (Hes k' a' Hin') as [y [Hy0 [Hy _]]].
      assert (eo = y) by congruence. subst.
      exact (Hs2 k a x k' a' y Hin Hin' Hx0 Hy0 Hm).
Qed.

Lemma clone_node_holds (h : heap) (c a : addr) (acc : RealityGraph) (n : Node) :
  holds h c acc -> read_node h a = Some n ->
  exists h', clone_node c a h = (Ok tt, h')
             /\ holds h' c (clone_node_value acc n) /\ keeps h h'.
Proof.
  intros [go [Hc [Hn [He [Ha [Hr [Hnd Hsep]]]]]]] Hread.
  destruct (read_node_inv h a n Hread) as [no [Hno [Hmd Heq]]].
  set (L := List.length h).
  set (no' := mkNodeObj (no_id no) (no_type no) (no_name no) (no_description no)
                L (no_criticality no)).
  set (h4 := (h ++ [OMeta (n_metadata n); ONode no'; OSet []; OSet []])%list).
  set (go' := mkGraphObj (dict_set (no_id no) (S L) (go_nodes go)) (go_edges go)
                (dict_set (no_id no) (S (S L)) (go_adjacency go))
                (dict_set (no_id no) (S (S (S L))) (go_reverse_adjacency go))).
  assert (HcL : c < L) by (apply nth_error_Some; congruence).
  assert (Hlen4 : List.length h4 = L + 4) by (unfold h4; rewrite length_app; reflexivity).
  assert (Hrun : clone_node c a h = (Ok tt, set_nth c (OGraph go') h4)).
  { unfold clone_node.
    rewrite (hbind_ok _ _ _ _ _ (deepcopy_node_ok h a no _ Hno Hmd)).
    fold L. fold no'.
    assert (Hnew : nth_error (h ++ [OMeta (n_metadata n); ONode no'])%list (S L)
                   = Some (ONode no')).
    { rewrite nth_error_app2 by (unfold L; lia).
      replace (S L - List.length h) with 1 by (unfold L; lia). reflexivity. }
    rewrite (hbind_ok _ _ _ _ _ (load_node_ok _ _ _ Hnew)).
    unfold hbind at 1, alloc, alloc_at. unfold hbind at 1.
    rewrite !length_app. simpl List.length. rewrite <- !app_assoc. simpl app.
    fold L. replace (L + 2) with (S (S L)) by lia.
    replace (L + 2 + 1) with (S (S (S L))) by lia.
    assert (Hg : nth_error
                   (h ++ [OMeta (n_metadata n); ONode no'; OSet []; OSet []])%list c
                 = Some (OGraph go)) by (now apply nth_error_app_old).
    rewrite (hbind_ok _ _ _ _ _ (load_graph_ok _ _ _ Hg)).
    replace (S (S L) + 1) with (S (S (S L))) by lia.
    reflexivity. }
  assert (Hc4 : nth_error h4 c = Some (OGraph go)) by (now apply nth_error_app_old).
  assert (Hkeep : keeps h (set_nth c (OGraph go') h4)).
  { eapply keeps_trans; [apply keeps_app | now apply (keeps_store_graph h4 c go go')]. }
  assert (Hat : forall i o, nth_error [OMeta (n_metadata n); ONode no'; OSet []; OSet []] i
                            = Some o ->
                nth_error (set_nth c (OGraph go') h4) (L + i) = Some o).
  { intros i o Hi. rewrite set_nth_other by lia. unfold h4.
    rewrite nth_error_app2 by (unfold L; lia).
    now replace (L + i - List.length h) with i by (unfold L; lia). }
  exists (set_nth c (OGraph go') h4). split; [exact Hrun|]. split; [|exact Hkeep].
  exists go'. split; [apply set_nth_hit; lia|].
  assert (Hid : n_id n = no_id no) by (rewrite Heq; reflexivity).
  unfold clone_node_value. simpl. rewrite Hid.
  split; [|split; [|split; [|split; [|split]]]]; cycle 5.
  - apply (separate_add_node h _ go (no_id no) (S L) no'); [exact Hsep | | | |].
    + intros k0 a0 Hin. now apply (kept_node_entry h _ _ _ k0 a0 Hn Hkeep).
    + intros k0 a0 Hin. now apply (kept_edge_entry h _ _ _ k0 a0 He Hkeep).
    + replace (S L) with (L + 1) by lia. now apply (Hat 1).
    + unfold no', L. cbn [no_metadata]. lia.
  - apply read_dict_set; [|now apply (read_dict_keeps_node h)].
    unfold read_node.
    replace (S L) with (L + 1) by lia. rewrite (Hat 1 _ eq_refl). simpl.
    replace L with (L + 0) at 1 by lia. rewrite (Hat 0 _ eq_refl).
    now rewrite Heq.
  - now apply (read_dict_keeps_edge h).
  - apply read_dict_set; [|now apply (read_dict_sets_app_store h _ c go go')].
    unfold read_set. replace (S (S L)) with (L + 2) by lia. now rewrite (Hat 2 _ eq_refl).
  - apply read_dict_set; [|now apply (read_dict_sets_app_store h _ c go go')].
    unfold read_set. replace (S (S (S L))) with (L + 3) by lia.
    now rewrite (Hat 3 _ eq_refl).
  - assert (Hb : forall x, In x (dict_values (go_adjacency go)
                                 ++ dict_values (go_reverse_adjacency go))%list -> x < L).
    { intros x Hx. apply in_app_or in Hx. destruct Hx as [Hx|Hx].
      - now apply (read_dict_values_bound h _ _ x Ha).
      - now apply (read_dict_values_bound h _ _ x Hr). }
    apply nodup_values_set_fresh.
    + apply (Permutation_NoDup
               (l := (dict_values (dict_set (no_id no) (S (S (S L)))
                                     (go_reverse_adjacency go))
                      ++ dict_values (go_adjacency go))%list)).
      * apply Permutation_app_comm.
      * apply nodup_values_set_fresh.
        -- apply (Permutation_NoDup (l := (dict_values (go_adjacency go)
                      ++ dict_values (go_reverse_adjacency go))%list));
             [apply Permutation_app_comm | assumption].
        -- intros Hin. apply in_app_or in Hin.
           assert (S (S (S L)) < L); [|lia].
           apply Hb. apply in_or_app. tauto.
    + intros Hin. apply in_app_or in Hin. destruct Hin as [Hin|Hin].
      * assert (S (S L) < L); [|lia]. apply Hb. apply in_or_app. now left.
      * apply in_values_dict_set in Hin. destruct Hin as [Hin|Hin]; [lia|].
        assert (S (S L) < L); [|lia]. apply Hb. apply in_or_app. now right.
Qed.

Lemma dict_index_ok {V : Type} (k : string) (d : dict V) (v : V) :
  dict_index k d = Ok v -> dict_get k d = Some v.
Proof.
  unfold dict_index, from_option. destruct (dict_get k d); [congruence | discriminate].
Qed.

Lemma dict_get_index {V : Type} (k : string) (d : dict V) (v : V) :
  dict_get k d = Some v -> dict_index k d = Ok v.
Proof.
  unfold dict_index, from_option. now intros ->.
Qed.

Lemma dict_get_in_values {V : Type} (k : string) (d : dict V) (v : V) :
  dict_get k d = Some v -> In v (dict_values d).
Proof.
  intros Hget. apply dict_get_in in Hget. unfold dict_values.
  apply in_map_iff. now exists (k, v).
Qed.

Lemma heap_set_add_ok (h : heap) (sa : addr) (s : pyset) (x : string) :
  nth_error h sa = Some (OSet s) ->
  heap_set_add sa x h = (Ok tt, set_nth sa (OSet (set_add x s)) h).
Proof.
  intros Hs. unfold heap_set_add.
  now rewrite (hbind_ok _ _ _ _ _ (load_set_ok h sa s Hs)).
Qed.

Lemma read_dict_bucket (h : heap) (d : dict addr) (vs : dict pyset) (k : string)
    (s : pyset) :
  read_dict (read_set h) d = Some vs -> dict_index k vs = Ok s ->
  exists sa, dict_get k d = Some sa /\ nth_error h sa = Some (OSet s).
Proof.
  intros Hd Hidx. apply dict_index_ok in Hidx.
  rewrite (read_dict_get _ _ _ k Hd) in Hidx.
  destruct (dict_get k d) as [sa|]; [|discriminate].
  exists sa. split; [reflexivity | now apply read_set_bound].
Qed.

Lemma clone_edge_holds (h : heap) (c a : addr) (acc acc' : RealityGraph) (e : Edge) :
  holds h c acc -> read_edge h a = Some e -> clone_edge_value acc e = Ok acc' ->
  exists h', clone_edge c a h = (Ok tt, h') /\ holds h' c acc' /\ keeps h h'.
Proof.
  intros [go [Hc [Hn [He [Ha [Hr [Hnd Hsep]]]]]]] Hread Hval.
  destruct (read_edge_inv h a e Hread) as [eo [Heo [Hmd Heq]]].
  unfold clone_edge_value in Hval.
  destruct (dict_index (e_source e) (_adjacency acc)) as [out| |] eqn:Hout;
    try discriminate.
  destruct (dict_index (e_target e) (_reverse_adjacency acc)) as [inc| |] eqn:Hinc;
    try discriminate.
  cbn [bind] in Hval. injection Hval as <-.
  destruct (read_dict_bucket h _ _ _ _ Ha Hout) as [so [Hso Hsoh]].
  destruct (read_dict_bucket h _ _ _ _ Hr Hinc) as [si [Hsi Hsih]].
  assert (Hsrc : e_source e = eo_source eo) by (rewrite Heq; reflexivity).
  assert (Htgt : e_target e = eo_target eo) by (rewrite Heq; reflexivity).
  assert (Hid : e_id e = eo_id eo) by (rewrite Heq; reflexivity).
  set (L := List.length h).
  set (eo' := mkEdgeObj (eo_id eo) (eo_source eo) (eo_target eo) (eo_type eo)
                (eo_weight eo) (eo_confidence eo) L).
  set (h2 := (h ++ [OMeta (e_metadata e); OEdge eo'])%list).
  set (go1 := mkGraphObj (go_nodes go) (dict_set (eo_id eo) (S L) (go_edges go))
                (go_adjacency go) (go_reverse_adjacency go)).
  set (h3 := set_nth c (OGraph go1) h2).
  set (h4 := set_nth so (OSet (set_add (eo_id eo) out)) h3).
  set (h5 := set_nth si (OSet (set_add (eo_id eo) inc)) h4).
  assert (HcL : c < L) by (apply nth_error_Some; congruence).
  assert (HsoL : so < L) by (apply nth_error_Some; congruence).
  assert (HsiL : si < L) by (apply nth_error_Some; congruence).
  assert (Hcso : c <> so) by (intros ->; congruence).
  assert (Hcsi : c <> si) by (intros ->; congruence).
  assert (Hin_so : In so (dict_values (go_adjacency go)))
    by (now apply (dict_get_in_values (e_source e))).
  assert (Hin_si : In si (dict_values (go_reverse_adjacency go)))
    by (now apply (dict_get_in_values (e_target e))).
  assert (Hnd_a : NoDup (dict_values (go_adjacency go)))
    by (now apply NoDup_app_remove_r in Hnd).
  assert (Hnd_r : NoDup (dict_values (go_reverse_adjacency go)))
    by (now apply NoDup_app_remove_l in Hnd).
  assert (Hdisj : forall x, In x (dict_values (go_adjacency go)) ->
                            ~ In x (dict_values (go_reverse_adjacency go))).
  { intros x Hx Hx'. apply in_split in Hx. destruct Hx as [l1 [l2 Hx]].
    rewrite Hx, <- app_assoc in Hnd. simpl in Hnd.
    apply NoDup_remove_2 in Hnd. apply Hnd.
    apply in_or_app. right. apply in_or_app. now right. }
  assert (Hsosi : so <> si) by (intros ->; now apply (Hdisj si)).
  assert (Hc2 : nth_error h2 c = Some (OGraph go)) by (now apply nth_error_app_old).
  assert (Hso3 : nth_error h3 so = Some (OSet out)).
  { unfold h3. rewrite set_nth_other by assumption. now apply nth_error_app_old. }
  assert (Hsi4 : nth_error h4 si = Some (OSet inc)).
  { unfold h4, h3. rewrite !set_nth_other by assumption. now apply nth_error_app_old. }
  assert (Hrun : clone_edge c a h = (Ok tt, h5)).
  { unfold clone_edge.
    rewrite (hbind_ok _ _ _ _ _ (deepcopy_edge_ok h a eo _ Heo Hmd)).
    fold L. fold eo'. fold h2.
    assert (Hnew : nth_error h2 (S L) = Some (OEdge eo')).
    { unfold h2. rewrite nth_error_app2 by (unfold L; lia).
      replace (S L - List.length h) with 1 by (unfold L; lia). reflexivity. }
    rewrite (hbind_ok _ _ _ _ _ (load_edge_ok _ _ _ Hnew)).
    rewrite (hbind_ok _ _ _ _ _ (load_graph_ok _ _ _ Hc2)).
    unfold hbind at 1, store. fold go1. fold h3.
    cbn [eo_source eo_target eo_id eo'].
    rewrite <- Hsrc, <- Htgt.
    unfold href.
    rewrite (hbind_ok (hlift (dict_index (e_source e) (go_adjacency go))) _ h3 h3 so)
      by (unfold hlift; now rewrite (dict_get_index _ _ _ Hso)).
    rewrite (hbind_ok _ _ _ _ _ (heap_set_add_ok h3 so out (eo_id eo) Hso3)).
    fold h4.
    rewrite (hbind_ok (hlift (dict_index (e_target e) (go_reverse_adjacency go))) _ h4 h4 si)
      by (unfold hlift; now rewrite (dict_get_index _ _ _ Hsi)).
    rewrite (heap_set_add_ok h4 si inc (eo_id eo) Hsi4). reflexivity. }
  assert (Hk2 : keeps h h2) by apply keeps_app.
  assert (Hk3 : keeps h2 h3) by (now apply (keeps_store_graph h2 c go go1)).
  assert (Hk4 : keeps h3 h4) by (now apply (keeps_store_set h3 so out)).
  assert (Hk5 : keeps h4 h5) by (now apply (keeps_store_set h4 si inc)).
  assert (Hkeep : keeps h h5).
  { eapply keeps_trans; [exact Hk2|]. eapply keeps_trans; [exact Hk3|].
    eapply keeps_trans; [exact Hk4 | exact Hk5]. }
  assert (Hlen2 : List.length h2 = L + 2) by (unfold h2; rewrite length_app; reflexivity).
  exists h5. split; [exact Hrun|]. split; [|exact Hkeep].
  exists go1. split.
  { unfold h5, h4. rewrite !set_nth_other by congruence.
    unfold h3. apply set_nth_hit. lia. }
  cbn [nodes edges _adjacency _reverse_adjacency go_nodes go_edges go_adjacency
       go_reverse_adjacency go1].
  rewrite Hid, Hsrc, Htgt.
  split; [|split; [|split; [|split; [|split]]]]; cycle 5.
  - apply (separate_add_edge h h5 go (eo_id eo) (S L) eo'); [exact Hsep | | | |].
    + intros k0 a0 Hin. now apply (kept_node_entry h _ _ _ k0 a0 Hn Hkeep).
    + intros k0 a0 Hin. now apply (kept_edge_entry h _ _ _ k0 a0 He Hkeep).
    + assert (Hk25 : keeps h2 h5).
      { eapply keeps_trans; [exact Hk3|]. eapply keeps_trans; [exact Hk4 | exact Hk5]. }
      apply (Hk25 (S L) (OEdge eo')). unfold h2.
      rewrite nth_error_app2 by (unfold L; lia).
      now replace (S L - List.length h) with 1 by (unfold L; lia).
    + unfold eo', L. cbn [eo_metadata]. lia.
  - now apply (read_dict_keeps_node h).
  - apply read_dict_set; [|now apply (read_dict_keeps_edge h)].
    assert (Hk25 : keeps h2 h5).
    { eapply keeps_trans; [exact Hk3|]. eapply keeps_trans; [exact Hk4 | exact Hk5]. }
    apply (keeps_read_edge h2 h5 _ _ Hk25).
    unfold read_edge, h2.
    rewrite nth_error_app2 by (unfold L; lia).
    replace (S L - List.length h) with 1 by (unfold L; lia). cbn [nth_error eo_metadata eo'].
    rewrite nth_error_app2 by (unfold L; lia).
    replace (L - List.length h) with 0 by (unfold L; lia). cbn [nth_error].
    now rewrite Heq.
  - unfold h5. apply read_dict_untouched; [intros Hx; now apply (Hdisj si)|].
    unfold h4. rewrite <- Hsrc. apply read_dict_update; [assumption | | assumption].
    now apply (read_dict_sets_app_store h _ c go go1).
  - unfold h5. rewrite <- Htgt. apply read_dict_update; [assumption | | assumption].
    unfold h4. apply read_dict_untouched; [now apply Hdisj|].
    now apply (read_dict_sets_app_store h _ c go go1).
  - exact Hnd.
Qed.

Lemma clone_nodes_holds (c : addr) (addrs : list addr) (ns : list Node) :
  forall (h : heap) (acc : RealityGraph),
    Forall2 (fun a n => read_node h a = Some n) addrs ns -> holds h c acc ->
    exists h', hfor addrs (clone_node c) h = (Ok tt, h')
               /\ holds h' c (fold_left clone_node_value ns acc) /\ keeps h h'.
Proof.
  revert ns. induction addrs as [|a addrs IH]; intros ns h acc Hall Hacc;
    inversion Hall as [|? n ? ns' Ha Hall0]; subst.
  - exists h. split; [reflexivity|]. split; [exact Hacc | apply keeps_refl].
  - destruct (clone_node_holds h c a acc n Hacc Ha) as [h1 [Hrun [Hacc1 Hk1]]].
    assert (Hall1 : Forall2 (fun a n => read_node h1 a = Some n) addrs ns').
    { eapply Forall2_impl; [|exact Hall0]. intros a0 n0. now apply keeps_read_node. }
    destruct (IH ns' h1 _ Hall1 Hacc1) as [h2 [Hrun2 [Hacc2 Hk2]]].
    exists h2. split; [|split; [exact Hacc2 | now apply (keeps_trans h h1 h2)]].
    cbn [hfor]. now rewrite (hbind_ok _ _ _ _ _ Hrun).
Qed.

Lemma clone_edges_holds (c : addr) (addrs : list addr) (es : list Edge) :
  forall (h : heap) (acc acc' : RealityGraph),
    Forall2 (fun a e => read_edge h a = Some e) addrs es -> holds h c acc ->
    clone_edges_value es acc = Ok acc' ->
    exists h', hfor addrs (clone_edge c) h = (Ok tt, h')
               /\ holds h' c acc' /\ keeps h h'.
Proof.
  revert es. induction addrs as [|a addrs IH]; intros es h acc acc' Hall Hacc Hval;
    inversion Hall as [|? e ? es' Ha Hall0]; subst.
  - injection Hval as <-. exists h. split; [reflexivity|].
    split; [exact Hacc | apply keeps_refl].
  - cbn [clone_edges_value] in Hval.
    destruct (clone_edge_value acc e) as [acc1| |] eqn:Hstep; try discriminate.
    cbn [bind] in Hval.
    destruct (clone_edge_holds h c a acc acc1 e Hacc Ha Hstep) as [h1 [Hrun [Hacc1 Hk1]]].
    assert (Hall1 : Forall2 (fun a e => read_edge h1 a = Some e) addrs es').
    { eapply Forall2_impl; [|exact Hall0]. intros a0 e0. now apply keeps_read_edge. }
    destruct (IH es' h1 _ _ Hall1 Hacc1 Hval) as [h2 [Hrun2 [Hacc2 Hk2]]].
    exists h2. split; [|split; [exact Hacc2 | now apply (keeps_trans h h1 h2)]].
    cbn [hfor]. now rewrite (hbind_ok _ _ _ _ _ Hrun).
Qed.

Lemma holds_read_graph (h : heap) (c : addr) (g : RealityGraph) :
  holds h c g -> read_graph h c = Some g.
Proof.
  intros [go [Hc [Hn [He [Ha [Hr _]]]]]]. unfold read_graph.
  rewrite Hc, Hn, He, Ha, Hr. now destruct g.
Qed.

Lemma read_graph_inv (h : heap) (a : addr) (g : RealityGraph) :
  read_graph h a = Some g ->
  exists go, nth_error h a = Some (OGraph go)
             /\ read_dict (read_node h) (go_nodes go) = Some (nodes g)
             /\ read_dict (read_edge h) (go_edges go) = Some (edges g).
Proof.
  unfold read_graph. intros Hg.
  destruct (nth_error h a) as [[| | | |go]|]; try discriminate.
  exists go. split; [reflexivity|].
  destruct (read_dict (read_node h) (go_nodes go)) as [ns|]; [|discriminate].
  destruct (read_dict (read_edge h) (go_edges go)) as [es|]; [|discriminate].
  destruct (read_dict (read_set h) (go_adjacency go)) as [adj|]; [|discriminate].
  destruct (read_dict (read_set h) (go_reverse_adjacency go)) as [radj|]; [|discriminate].
  injection Hg as <-. split; reflexivity.
Qed.

(** [_clone_graph] on the heap builds what [clone_value] computes: where
    the latter returns a graph, the former returns a new address at which
    that graph reads back. *)
Lemma clone_graph_builds (h : heap) (base : addr) (G G' : RealityGraph) :
  read_graph h base = Some G -> clone_value G = Ok G' ->
  exists h', _clone_graph base h = (Ok (List.length h), h')
             /\ holds h' (List.length h) G' /\ keeps h h'.
Proof.
  intros HG Hval. destruct (read_graph_inv h base G HG) as [go [Hb [Hn He]]].
  set (c := List.length h). set (h0 := (h ++ [OGraph (mkGraphObj [] [] [] [])])%list).
  assert (Hk0 : keeps h h0) by apply keeps_app.
  assert (Hinit : holds h0 c empty_graph).
  { exists (mkGraphObj [] [] [] []). split; [apply nth_error_app_new|].
    split; [reflexivity|]. split; [reflexivity|]. split; [reflexivity|].
    split; [reflexivity|]. split; [constructor|].
    split; cbn [go_nodes]; intros k a no k' a' x []. }
  assert (Hns : Forall2 (fun a n => read_node h0 a = Some n)
                  (dict_values (go_nodes go)) (dict_values (nodes G))).
  { eapply Forall2_impl; [|exact (read_dict_forall2 _ _ _ Hn)].
    intros a0 n0. now apply keeps_read_node. }
  destruct (clone_nodes_holds c _ _ h0 empty_graph Hns Hinit) as [h1 [Hrun1 [Hacc1 Hk1]]].
  assert (Hes : Forall2 (fun a e => read_edge h1 a = Some e)
                  (dict_values (go_edges go)) (dict_values (edges G))).
  { eapply Forall2_impl; [|exact (read_dict_forall2 _ _ _ He)].
    intros a0 e0 Hr. apply (keeps_read_edge h0 h1 _ _ Hk1).
    now apply (keeps_read_edge h h0). }
  destruct (clone_edges_holds c _ _ h1 _ G' Hes Hacc1 Hval) as [h2 [Hrun2 [Hacc2 Hk2]]].
  exists h2. split; [|split; [exact Hacc2|]].
  - unfold _clone_graph, hbind at 1, alloc, alloc_at. fold c. fold h0.
    rewrite (hbind_ok _ _ _ _ _ (load_graph_ok h0 base go (nth_error_app_old _ _ _ _ Hb))).
    rewrite (hbind_ok _ _ _ _ _ Hrun1). now rewrite (hbind_ok _ _ _ _ _ Hrun2).
  - eapply keeps_trans; [exact Hk0|]. eapply keeps_trans; [exact Hk1 | exact Hk2].
Qed.

Lemma clone_graph_holds (h : heap) (base : addr) (G G' : RealityGraph) :
  read_graph h base = Some G -> clone_value G = Ok G' ->
  exists h', _clone_graph base h = (Ok (List.length h), h')
             /\ read_graph h' (List.length h) = Some G'.
Proof.
  intros HG Hval.
  destruct (clone_graph_builds h base G G' HG Hval) as [h' [Hrun [Hholds _]]].
  exists h'. split; [exact Hrun | now apply holds_read_graph].
Qed.

(* ------------------------------------------------------------------ *)
(** ** What [clone_value] builds from a well-formed graph *)

Lemma in_set_add_iff (x y : string) (s : pyset) :
  In y (set_add x s) <-> y = x \/ In y s.
Proof.
  rewrite <- !set_mem_in, set_mem_add, orb_true_iff, String.eqb_eq. tauto.
Qed.

Lemma bucket_set (idx : dict pyset) (k0 k : string) (s : pyset) :
  bucket (dict_set k0 s idx) k = if String.eqb k k0 then s else bucket idx k.
Proof.
  unfold bucket. destruct (String.eqb k k0) eqn:E.
  - apply String.eqb_eq in E. subst k. now rewrite dict_get_set_same.
  - apply String.eqb_neq in E. now rewrite dict_get_set_other.
Qed.

Lemma dict_keys_app {V : Type} (d1 d2 : dict V) :
  dict_keys (d1 ++ d2)%list = (dict_keys d1 ++ dict_keys d2)%list.
Proof.
  unfold dict_keys. apply map_app.
Qed.

Lemma dict_mem_not_in_keys {V : Type} (k : string) (d : dict V) :
  ~ In k (dict_keys d) -> dict_mem k d = false.
Proof.
  intros Hnotin. destruct (dict_mem k d) eqn:Hm; [|reflexivity].
  exfalso. apply Hnotin. now apply dict_mem_in_keys.
Qed.

Lemma nodup_app_head (l1 l2 : list string) (k : string) :
  NoDup (l1 ++ k :: l2)%list -> ~ In k l1 /\ NoDup ((l1 ++ [k]) ++ l2)%list.
Proof.
  intros Hnd. split.
  - intros Hin. apply NoDup_remove_2 in Hnd. apply Hnd. apply in_or_app. now left.
  - now rewrite <- app_assoc.
Qed.

(** The first loop files the nodes in their order, each with two empty
    buckets. *)
Lemma clone_nodes_value_spec (d : dict Node) :
  forall acc : RealityGraph,
    NoDup (dict_keys (nodes acc) ++ dict_keys d)%list ->
    (forall k n, In (k, n) d -> n_id n = k) ->
    dict_keys (_adjacency acc) = dict_keys (nodes acc) ->
    dict_keys (_reverse_adjacency acc) = dict_keys (nodes acc) ->
    (forall k, bucket (_adjacency acc) k = []) ->
    (forall k, bucket (_reverse_adjacency acc) k = []) ->
    let g := fold_left clone_node_value (dict_values d) acc in
    nodes g = (nodes acc ++ d)%list /\ edges g = edges acc
    /\ dict_keys (_adjacency g) = dict_keys (nodes g)
    /\ dict_keys (_reverse_adjacency g) = dict_keys (nodes g)
    /\ (forall k, bucket (_adjacency g) k = [])
    /\ (forall k, bucket (_reverse_adjacency g) k = []).
Proof.
  induction d as [|[k0 n0] d IH]; intros acc Hnd Hkey Hka Hkr Hba Hbr; cbn zeta.
  - cbn [dict_values map fold_left]. rewrite app_nil_r. tauto.
  - change (dict_values ((k0, n0) :: d)) with (n0 :: dict_values d). cbn [fold_left].
    change (dict_keys ((k0, n0) :: d)) with (k0 :: dict_keys d) in Hnd.
    destruct (nodup_app_head _ _ _ Hnd) as [Hfresh Hnd'].
    assert (Hid : n_id n0 = k0) by (apply (Hkey k0 n0); now left).
    assert (Hmn : dict_mem k0 (nodes acc) = false) by (now apply dict_mem_not_in_keys).
    assert (Hma : dict_mem k0 (_adjacency acc) = false)
      by (apply dict_mem_not_in_keys; now rewrite Hka).
    assert (Hmr : dict_mem k0 (_reverse_adjacency acc) = false)
      by (apply dict_mem_not_in_keys; now rewrite Hkr).
    assert (Hn1 : nodes (clone_node_value acc n0) = (nodes acc ++ [(k0, n0)])%list)
      by (cbn [clone_node_value nodes]; rewrite Hid; now apply dict_set_absent).
    assert (Ha1 : _adjacency (clone_node_value acc n0) = dict_set k0 [] (_adjacency acc))
      by (cbn [clone_node_value _adjacency]; now rewrite Hid).
    assert (Hr1 : _reverse_adjacency (clone_node_value acc n0)
                  = dict_set k0 [] (_reverse_adjacency acc))
      by (cbn [clone_node_value _reverse_adjacency]; now rewrite Hid).
    destruct (IH (clone_node_value acc n0)) as [H1 [H2 [H3 [H4 [H5 H6]]]]].
    + now rewrite Hn1, dict_keys_app.
    + intros k n Hin. apply Hkey. now right.
    + rewrite Ha1, Hn1, (dict_set_absent k0 [] _ Hma), !dict_keys_app. now rewrite Hka.
    + rewrite Hr1, Hn1, (dict_set_absent k0 [] _ Hmr), !dict_keys_app. now rewrite Hkr.
    + intros k. rewrite Ha1. now rewrite bucket_set_empty.
    + intros k. rewrite Hr1. now rewrite bucket_set_empty.
    + rewrite Hn1, <- app_assoc in H1. cbn [app] in H1. rewrite H1 in H3, H4.
      rewrite H1. split; [reflexivity|]. split; [exact H2|]. tauto.
Qed.

(** The second loop files the edges in their order and lists each one in the
    forward bucket of its source and the reverse bucket of its target. *)
Lemma clone_edges_value_spec (ks : list string) (r : dict Edge) :
  forall acc : RealityGraph,
    NoDup (dict_keys (edges acc) ++ dict_keys r)%list ->
    (forall k e, In (k, e) r -> e_id e = k /\ In (e_source e) ks /\ In (e_target e) ks) ->
    dict_keys (_adjacency acc) = ks ->
    dict_keys (_reverse_adjacency acc) = ks ->
    (forall k eid, In eid (bucket (_adjacency acc) k) <->
                   exists e, In (eid, e) (edges acc) /\ e_source e = k) ->
    (forall k eid, In eid (bucket (_reverse_adjacency acc) k) <->
                   exists e, In (eid, e) (edges acc) /\ e_target e = k) ->
    exists g, clone_edges_value (dict_values r) acc = Ok g
      /\ nodes g = nodes acc /\ edges g = (edges acc ++ r)%list
      /\ dict_keys (_adjacency g) = ks /\ dict_keys (_reverse_adjacency g) = ks
      /\ (forall k eid, In eid (bucket (_adjacency g) k) <->
                        exists e, In (eid, e) (edges g) /\ e_source e = k)
      /\ (forall k eid, In eid (bucket (_reverse_adjacency g) k) <->
                        exists e, In (eid, e) (edges g) /\ e_target e = k).
Proof.
  induction r as [|[k0 e0] r IH]; intros acc Hnd Hkey Hka Hkr Hba Hbr.
  - exists acc. split; [reflexivity|]. split; [reflexivity|].
    split; [now rewrite app_nil_r|]. tauto.
  - change (dict_values ((k0, e0) :: r)) with (e0 :: dict_values r).
    cbn [clone_edges_value].
    change (dict_keys ((k0, e0) :: r)) with (k0 :: dict_keys r) in Hnd.
    destruct (nodup_app_head _ _ _ Hnd) as [Hfresh Hnd'].
    destruct (Hkey k0 e0 (or_introl eq_refl)) as [Hid [Hsrc Htgt]].
    assert (Hme : dict_mem k0 (edges acc) = false) by (now apply dict_mem_not_in_keys).
    assert (Hmo : dict_mem (e_source e0) (_adjacency acc) = true)
      by (apply dict_mem_in_keys; now rewrite Hka).
    assert (Hmi : dict_mem (e_target e0) (_reverse_adjacency acc) = true)
      by (apply dict_mem_in_keys; now rewrite Hkr).
    destruct (proj1 (dict_mem_get _ _) Hmo) as [out Hout].
    destruct (proj1 (dict_mem_get _ _) Hmi) as [inc Hinc].
    pose (acc1 := mkGraph (nodes acc) (edges acc ++ [(k0, e0)])%list
                    (dict_set (e_source e0) (set_add k0 out) (_adjacency acc))
                    (dict_set (e_target e0) (set_add k0 inc) (_reverse_adjacency acc))).
    assert (Hstep : clone_edge_value acc e0 = Ok acc1).
    { unfold clone_edge_value.
      rewrite (dict_get_index _ _ _ Hout), (dict_get_index _ _ _ Hinc). cbn [bind].
      rewrite Hid, (dict_set_absent k0 e0 _ Hme). reflexivity. }
    rewrite Hstep. cbn [bind].
    assert (Hbo : bucket (_adjacency acc) (e_source e0) = out)
      by (unfold bucket; now rewrite Hout).
    assert (Hbi : bucket (_reverse_adjacency acc) (e_target e0) = inc)
      by (unfold bucket; now rewrite Hinc).
    destruct (IH acc1) as [g [Hg [Hn [He [Ha [Hr [Hba' Hbr']]]]]]].
    + unfold acc1. cbn [edges]. rewrite dict_keys_app. exact Hnd'.
    + intros k e Hin. apply Hkey. now right.
    + unfold acc1. cbn [_adjacency]. now rewrite dict_keys_set_present.
    + unfold acc1. cbn [_reverse_adjacency]. now rewrite dict_keys_set_present.
    + intros k eid. unfold acc1. cbn [_adjacency edges]. rewrite bucket_set.
      destruct (String.eqb k (e_source e0)) eqn:E.
      * apply String.eqb_eq in E. subst k. rewrite in_set_add_iff.
        rewrite <- Hbo, Hba. split.
        -- intros [Heq|[e [Hin Hs]]].
           ++ subst eid. exists e0. split; [|reflexivity].
              apply in_or_app. right. now left.
           ++ exists e. split; [|assumption]. apply in_or_app. now left.
        -- intros [e [Hin Hs]]. apply in_app_or in Hin.
           destruct Hin as [Hin|[Heq|[]]].
           ++ right. now exists e.
           ++ left. now injection Heq as <- _.
      * apply String.eqb_neq in E. rewrite Hba. split.
        -- intros [e [Hin Hs]]. exists e. split; [|assumption].
           apply in_or_app. now left.
        -- intros [e [Hin Hs]]. apply in_app_or in Hin.
           destruct Hin as [Hin|[Heq|[]]].
           ++ now exists e.
           ++ injection Heq as <- <-. congruence.
    + intros k eid. unfold acc1. cbn [_reverse_adjacency edges]. rewrite bucket_set.
      destruct (String.eqb k (e_target e0)) eqn:E.
      * apply String.eqb_eq in E. subst k. rewrite in_set_add_iff.
        rewrite <- Hbi, Hbr. split.
        -- intros [Heq|[e [Hin Hs]]].
           ++ subst eid. exists e0. split; [|reflexivity].
              apply in_or_app. right. now left.
           ++ exists e. split; [|assumption]. apply in_or_app. now left.
        -- intros [e [Hin Hs]]. apply in_app_or in Hin.
           destruct Hin as [Hin|[Heq|[]]].
           ++ right. now exists e.
           ++ left. now injection Heq as <- _.
      * apply String.eqb_neq in E. rewrite Hbr. split.
        -- intros [e [Hin Hs]]. exists e. split; [|assumption].
           apply in_or_app. now left.
        -- intros [e [Hin Hs]]. apply in_app_or in Hin.
           destruct Hin as [Hin|[Heq|[]]].
           ++ now exists e.
           ++ injection Heq as <- <-. congruence.
    + exists g. split; [exact Hg|]. split; [exact Hn|].
      split; [|tauto]. rewrite He. unfold acc1. cbn [edges].
      now rewrite <- app_assoc.
Qed.

(** On a well-formed graph [clone_value] raises nothing.  The graph it
    returns has the nodes and the edges of the original, in their order,
    one bucket per node in either index, and in every bucket the edge ids
    of the original's bucket. *)
Lemma clone_value_total (G : RealityGraph) :
  well_formed G ->
  exists G', clone_value G = Ok G'
    /\ nodes G' = nodes G /\ edges G' = edges G
    /\ dict_keys (_adjacency G') = dict_keys (nodes G)
    /\ dict_keys (_reverse_adjacency G') = dict_keys (nodes G)
    /\ (forall k eid, In eid (bucket (_adjacency G') k)
                      <-> In eid (bucket (_adjacency G) k))
    /\ (forall k eid, In eid (bucket (_reverse_adjacency G') k)
                      <-> In eid (bucket (_reverse_adjacency G) k)).
Proof.
  intros [Hkeyed Hlock].
  apply keyedb_spec in Hkeyed. destruct Hkeyed as [Nn [Ne [Na [Nr [Kn Ke]]]]].
  apply lockstepb_spec in Hlock. destruct Hlock as [L1 [L2 [L3 [L4 [L5 L6]]]]].
  destruct (clone_nodes_value_spec (nodes G) empty_graph) as [H1 [H2 [H3 [H4 [H5 H6]]]]].
  - exact Nn.
  - exact Kn.
  - reflexivity.
  - reflexivity.
  - intros k. reflexivity.
  - intros k. reflexivity.
  - set (acc0 := fold_left clone_node_value (dict_values (nodes G)) empty_graph) in *.
    cbn [nodes edges empty_graph app] in H1, H2.
    destruct (clone_edges_value_spec (dict_keys (nodes G)) (edges G) acc0)
      as [g [Hg [Hn [He [Ha [Hr [Hba Hbr]]]]]]].
    + rewrite H2. exact Ne.
    + intros k e Hin. split; [now apply Ke|].
      destruct (L4 k e Hin) as [_ [_ [Hs Ht]]]. split; now apply dict_mem_in_keys.
    + now rewrite H3, H1.
    + now rewrite H4, H1.
    + intros k eid. rewrite H5, H2. split; [intros [] | intros [e [[] _]]].
    + intros k eid. rewrite H6, H2. split; [intros [] | intros [e [[] _]]].
    + rewrite H2 in He. cbn [app] in He.
      exists g. unfold clone_value. fold acc0.
      split; [exact Hg|]. split; [now rewrite Hn, H1|]. split; [exact He|].
      split; [exact Ha|]. split; [exact Hr|]. split.
      * intros k eid. rewrite Hba, He. split.
        -- intros [e [Hin Hs]]. subst k. destruct (L4 eid e Hin) as [Hx _]. exact Hx.
        -- intros Hin. destruct (bucket_in_entry _ _ _ Hin) as [s [Hks Hes]].
           destruct (L5 k s eid Hks Hes) as [e [Hget Hs]].
           exists e. split; [now apply dict_get_in | assumption].
      * intros k eid. rewrite Hbr, He. split.
        -- intros [e [Hin Hs]]. subst k. destruct (L4 eid e Hin) as [_ [Hx _]]. exact Hx.
        -- intros Hin. destruct (bucket_in_entry _ _ _ Hin) as [s [Hks Hes]].
           destruct (L6 k s eid Hks Hes) as [e [Hget Hs]].
           exists e. split; [now apply dict_get_in | assumption].
Qed.


Lemma bucket_of_entry (idx : dict pyset) (k : string) (s : pyset) :
  NoDup (dict_keys idx) -> In (k, s) idx -> bucket idx k = s.
Proof.
  intros Hnd Hin. unfold bucket. now rewrite (in_dict_get k s idx Hnd Hin).
Qed.

(** A graph that has the stores of a well-formed graph, one bucket per node
    and the bucket contents of that graph is well-formed. *)
Lemma well_formed_same_content (G G' : RealityGraph) :
  well_formed G ->
  nodes G' = nodes G -> edges G' = edges G ->
  dict_keys (_adjacency G') = dict_keys (nodes G) ->
  dict_keys (_reverse_adjacency G') = dict_keys (nodes G) ->
  (forall k eid, In eid (bucket (_adjacency G') k) <-> In eid (bucket (_adjacency G) k)) ->
  (forall k eid, In eid (bucket (_reverse_adjacency G') k)
                 <-> In eid (bucket (_reverse_adjacency G) k)) ->
  well_formed G'.
Proof.
  intros [Hkeyed Hlock] Hn He Ha Hr Hba Hbr.
  apply keyedb_spec in Hkeyed. destruct Hkeyed as [Nn [Ne [Na [Nr [Kn Ke]]]]].
  apply lockstepb_spec in Hlock. destruct Hlock as [L1 [L2 [L3 [L4 [L5 L6]]]]].
  split.
  - apply keyedb_spec. rewrite Hn, He, Ha, Hr. tauto.
  - apply lockstepb_spec. rewrite Hn, He, Ha, Hr.
    split; [intros k Hk; now apply dict_mem_in_keys|].
    split; [intros k Hk; now apply dict_mem_in_keys|].
    split; [intros k Hk; split; apply dict_mem_in_keys; congruence|].
    split.
    { intros eid e Hin. destruct (L4 eid e Hin) as [H1 [H2 [H3 H4]]].
      split; [now apply Hba|]. split; [now apply Hbr|]. tauto. }
    split.
    + intros k s eid Hks Hes. destruct (L5 k (bucket (_adjacency G) k) eid) as [e He'].
      * assert (Hb : In eid (bucket (_adjacency G) k)).
        { apply Hba. rewrite (bucket_of_entry _ k s); [assumption | now rewrite Ha | assumption]. }
        destruct (bucket_in_entry _ _ _ Hb) as [s0 [Hks0 _]].
        now rewrite (bucket_of_entry _ k s0 Na Hks0).
      * apply Hba. rewrite (bucket_of_entry _ k s); [assumption | now rewrite Ha | assumption].
      * now exists e.
    + intros k s eid Hks Hes.
      destruct (L6 k (bucket (_reverse_adjacency G) k) eid) as [e He'].
      * assert (Hb : In eid (bucket (_reverse_adjacency G) k)).
        { apply Hbr. rewrite (bucket_of_entry _ k s); [assumption | now rewrite Hr | assumption]. }
        destruct (bucket_in_entry _ _ _ Hb) as [s0 [Hks0 _]].
        now rewrite (bucket_of_entry _ k s0 Nr Hks0).
      * apply Hbr. rewrite (bucket_of_entry _ k s); [assumption | now rewrite Hr | assumption].
      * now exists e.
Qed.

(** X1.  [_clone_graph] of a well-formed graph raises nothing.  It returns
    a new graph object (the first address past the heap it started from)
    that reads back with the nodes and the edges of the original, in their
    order and with their metadata, one forward and one reverse bucket per
    node, and in every bucket the edge ids the original lists there; the
    clone is well-formed, and the original reads back as before. *)
Theorem clone_graph_correct (h : heap) (base : addr) (G : RealityGraph) :
  read_graph h base = Some G -> well_formed G ->
  exists G',
    fst (_clone_graph base h) = Ok (List.length h)
    /\ read_graph (snd (_clone_graph base h)) (List.length h) = Some G'
    /\ read_graph (snd (_clone_graph base h)) base = Some G
    /\ nodes G' = nodes G /\ edges G' = edges G
    /\ dict_keys (_adjacency G') = dict_keys (nodes G)
    /\ dict_keys (_reverse_adjacency G') = dict_keys (nodes G)
    /\ (forall k eid, In eid (bucket (_adjacency G') k)
                      <-> In eid (bucket (_adjacency G) k))
    /\ (forall k eid, In eid (bucket (_reverse_adjacency G') k)
                      <-> In eid (bucket (_reverse_adjacency G) k))
    /\ well_formed G'.
Proof.
  intros HG Hwf.
  destruct (clone_value_total G Hwf) as [G' [Hval [Hn [He [Ha [Hr [Hba Hbr]]]]]]].
  destruct (clone_graph_holds h base G G' HG Hval) as [h' [Hrun Hread]].
  exists G'. rewrite Hrun. cbn [fst snd].
  split; [reflexivity|]. split; [exact Hread|].
  split.
  { destruct (safe_frame _ _ h (safe_clone_graph (List.length h) base)) as [Hpre _].
    rewrite Hrun in Hpre. cbn [snd] in Hpre. now apply (read_graph_stable h). }
  repeat (split; [assumption|]).
  now apply (well_formed_same_content G G').
Qed.

Lemma clone_graph_correct_witness :
  read_graph heap_base 6 = Some graph_base /\ well_formed graph_base
  /\ exists G',
       fst (_clone_graph 6 heap_base) = Ok 11
       /\ read_graph (snd (_clone_graph 6 heap_base)) 11 = Some G'
       /\ nodes G' = nodes graph_base /\ edges G' = edges graph_base
       /\ well_formed G'.
Proof.
  assert (HG : read_graph heap_base 6 = Some graph_base) by reflexivity.
  assert (Hwf : well_formed graph_base) by (split; reflexivity).
  split; [exact HG|]. split; [exact Hwf|].
  destruct (clone_graph_correct heap_base 6 graph_base HG Hwf)
    as [G' [H1 [H2 [_ [H4 [H5 [_ [_ [_ [_ H10]]]]]]]]]].
  exists G'. split; [exact H1|]. split; [exact H2|]. split; [exact H4|].
  split; [exact H5 | exact H10].
Defined.


(* ------------------------------------------------------------------ *)
(** ** The arithmetic of the index *)

Lemma py_min_spec (a b : Q) :
  (py_min a b <= a)%Q /\ (py_min a b <= b)%Q
  /\ forall c, (c <= a)%Q -> (c <= b)%Q -> (c <= py_min a b)%Q.
Proof.
  unfold py_min. destruct (Qgtb a b) eqn:E.
  - apply Qgtb_lt in E. repeat split; try lra. intros c; lra.
  - apply Qgtb_nlt in E. repeat split; try lra. intros c; lra.
Qed.

Lemma py_max_spec (a b : Q) :
  (a <= py_max a b)%Q /\ (b <= py_max a b)%Q
  /\ forall c, (a <= c)%Q -> (b <= c)%Q -> (py_max a b <= c)%Q.
Proof.
  unfold py_max. destruct (Qgtb b a) eqn:E.
  - apply Qgtb_lt in E. repeat split; try lra. intros c; lra.
  - apply Qgtb_nlt in E. repeat split; try lra. intros c; lra.
Qed.

Lemma prob_or_bounds (a p : Q) :
  (0 <= a <= 1)%Q -> (0 <= p <= 1)%Q ->
  (0 <= prob_or a p <= 1)%Q /\ (a <= prob_or a p)%Q /\ (p <= prob_or a p)%Q.
Proof.
  unfold prob_or. intros Ha Hp. repeat split; nra.
Qed.

Lemma fold_prob_or_closed_form (cs : list Q) :
  forall acc : Q,
    (fold_left prob_or cs acc == 1 - (1 - acc) * survival cs)%Q.
Proof.
  induction cs as [|c cs IH]; intros acc; cbn [fold_left survival fold_right].
  - ring.
  - rewrite IH. fold (survival cs). unfold prob_or. ring.
Qed.

Lemma fold_certainty_map (ps : list CollapsePath) :
  forall acc : Q,
    fold_left (fun combined path => prob_or combined (certainty path)) ps acc
    = fold_left prob_or (map certainty ps) acc.
Proof.
  induction ps as [|p ps IH]; intros acc; [reflexivity|]. cbn [fold_left map]. apply IH.
Qed.

Lemma base_fii_closed_form (ps : list CollapsePath) :
  (_compute_base_fii ps == 1 - survival (map certainty ps))%Q.
Proof.
  unfold _compute_base_fii. destruct ps as [|p ps].
  - cbn. ring.
  - rewrite fold_certainty_map, fold_prob_or_closed_form. ring.
Qed.

Lemma survival_permutation (cs ds : list Q) :
  Permutation cs ds -> (survival cs == survival ds)%Q.
Proof.
  induction 1 as [|c cs ds _ IH|c d cs|cs ds es _ IH1 _ IH2]; cbn [survival fold_right].
  - reflexivity.
  - fold (survival cs). fold (survival ds). now rewrite IH.
  - ring.
  - now rewrite IH1.
Qed.

(** X2.  The base index of [_compute_base_fii] is one minus the product of
    the [1 - certainty] of the collapse paths; it does not depend on the
    order in which the paths were found. *)
Theorem base_fii_order_independent (ps : list CollapsePath) :
  (_compute_base_fii ps == 1 - survival (map certainty ps))%Q
  /\ forall qs, Permutation ps qs -> (_compute_base_fii qs == _compute_base_fii ps)%Q.
Proof.
  split; [apply base_fii_closed_form|].
  intros qs Hperm. rewrite !base_fii_closed_form.
  rewrite (survival_permutation (map certainty ps) (map certainty qs)); [reflexivity|].
  now apply Permutation_map.
Qed.

Lemma fold_prob_or_bounds (cs : list Q) :
  (forall c, In c cs -> (0 <= c <= 1)%Q) ->
  forall acc : Q, (0 <= acc <= 1)%Q ->
    (0 <= fold_left prob_or cs acc <= 1)%Q
    /\ (acc <= fold_left prob_or cs acc)%Q
    /\ forall c, In c cs -> (c <= fold_left prob_or cs acc)%Q.
Proof.
  induction cs as [|c cs IH]; intros Hcs acc Hacc; cbn [fold_left].
  - split; [exact Hacc|]. split; [lra|]. intros c [].
  - assert (Hc : (0 <= c <= 1)%Q) by (apply Hcs; now left).
    destruct (prob_or_bounds acc c Hacc Hc) as [Hb [Hle1 Hle2]].
    destruct (IH (fun d Hd => Hcs d (or_intror Hd)) (prob_or acc c) Hb) as [H1 [H2 H3]].
    split; [exact H1|]. split; [lra|].
    intros d [<-|Hd]; [lra | now apply H3].
Qed.

Lemma base_fii_bounds (ps : list CollapsePath) :
  (forall p, In p ps -> (0 <= certainty p <= 1)%Q) ->
  (0 <= _compute_base_fii ps <= 1)%Q
  /\ forall p, In p ps -> (certainty p <= _compute_base_fii ps)%Q.
Proof.
  intros Hps. unfold _compute_base_fii. destruct ps as [|p0 ps0].
  - split; [lra | intros p []].
  - rewrite fold_certainty_map.
    destruct (fold_prob_or_bounds (map certainty (p0 :: ps0))) with (acc := 0%Q)
      as [H1 [_ H3]].
    + intros c Hc. apply in_map_iff in Hc. destruct Hc as [p [<- Hp]]. now apply Hps.
    + lra.
    + split; [exact H1|]. intros p Hp. apply H3. now apply in_map.
Qed.

(** X3.  When every collapse path has a certainty between 0 and 1, the base
    index lies between 0 and 1 and is at least the certainty of every
    path: no path is averaged away. *)
Theorem base_fii_dominates_paths (ps : list CollapsePath) :
  (forall p, In p ps -> (0 <= certainty p <= 1)%Q) ->
  (0 <= _compute_base_fii ps <= 1)%Q
  /\ forall p, In p ps -> (certainty p <= _compute_base_fii ps)%Q.
Proof.
  exact (base_fii_bounds ps).
Qed.

Lemma base_fii_dominates_paths_witness :
  (forall p, In p [mkPath CP_DEADLOCK [] (8 # 10) (VStr "") [];
                   mkPath CP_CONTRADICTION [] (85 # 100) (VStr "") []] ->
             (0 <= certainty p <= 1)%Q)
  /\ (0 <= _compute_base_fii [mkPath CP_DEADLOCK [] (8 # 10) (VStr "") [];
                               mkPath CP_CONTRADICTION [] (85 # 100) (VStr "") []] <= 1)%Q.
Proof.
  assert (Hps : forall p, In p [mkPath CP_DEADLOCK [] (8 # 10) (VStr "") [];
                                mkPath CP_CONTRADICTION [] (85 # 100) (VStr "") []] ->
                          (0 <= certainty p <= 1)%Q).
  { intros p [<-|[<-|[]]]; cbn [certainty]; lra. }
  split; [exact Hps|].
  exact (proj1 (base_fii_dominates_paths _ Hps)).
Defined.


Lemma Qnat_le (a b : nat) : a <= b -> (Qnat a <= Qnat b)%Q.
Proof.
  intros Hab. unfold Qnat. rewrite <- Zle_Qle. lia.
Qed.

Lemma Qnat_pos (n : nat) : n <> 0 -> (0 < Qnat n)%Q.
Proof.
  intros Hn. unfold Qnat. change 0%Q with (inject_Z 0). rewrite <- Zlt_Qlt. lia.
Qed.

Lemma Qnat_nonneg (n : nat) : (0 <= Qnat n)%Q.
Proof.
  unfold Qnat. change 0%Q with (inject_Z 0). rewrite <- Zle_Qle. lia.
Qed.

Lemma ratio_nonneg (a n : nat) :
  n <> 0 -> exists r, py_div (Qnat a) (Qnat n) = Ok r /\ (0 <= r)%Q.
Proof.
  intros Hn. pose proof (Qnat_pos n Hn) as Hpos.
  rewrite (py_div_positive _ _ Hpos). eexists. split; [reflexivity|].
  apply Qle_shift_div_l; [assumption|]. pose proof (Qnat_nonneg a). lra.
Qed.

Lemma ratio_unit (a n : nat) :
  a <= n -> n <> 0 -> exists r, py_div (Qnat a) (Qnat n) = Ok r /\ (0 <= r <= 1)%Q.
Proof.
  intros Han Hn. pose proof (Qnat_pos n Hn) as Hpos.
  rewrite (py_div_positive _ _ Hpos). eexists. split; [reflexivity|]. split.
  - apply Qle_shift_div_l; [assumption|]. pose proof (Qnat_nonneg a). lra.
  - apply Qle_shift_div_r; [assumption|]. pose proof (Qnat_le a n Han). lra.
Qed.

Lemma filter_length_bound {A : Type} (p : A -> bool) (l : list A) :
  List.length (filter p l) <= List.length l.
Proof.
  induction l as [|x l IH]; cbn [filter List.length]; [lia|].
  destruct (p x); cbn [List.length]; lia.
Qed.

Lemma structure_adjustment_half (g : RealityGraph) :
  exists s, _compute_structure_adjustment g = Ok s /\ (0 <= s <= 1 # 2)%Q.
Proof.
  unfold _compute_structure_adjustment.
  destruct (Nat.eqb (total_nodes (get_stats g)) 0) eqn:Hz.
  - exists 0%Q. split; [reflexivity | lra].
  - apply Nat.eqb_neq in Hz.
    destruct (ratio_unit (critical_nodes (get_stats g)) (total_nodes (get_stats g)))
      as [r1 [Hr1 Hb1]]; [|assumption|].
    { cbn [critical_nodes total_nodes get_stats]. unfold get_critical_nodes.
      etransitivity; [apply filter_length_bound|].
      unfold dict_values. now rewrite length_map. }
    destruct (ratio_nonneg (assumptions (get_stats g))
                (Nat.max (decisions (get_stats g)) 1)) as [r2 [Hr2 Hb2]]; [lia|].
    rewrite Hr1, Hr2. cbn [bind]. eexists. split; [reflexivity|].
    destruct (py_min_spec 1 r2) as [Hm1 [_ Hm3]].
    assert (Hm0 : (0 <= py_min 1 r2)%Q) by (apply Hm3; lra).
    lra.
Qed.

Lemma structure_adjustment_unit (g : RealityGraph) :
  exists s, _compute_structure_adjustment g = Ok s /\ (0 <= s <= 1)%Q.
Proof.
  destruct (structure_adjustment_half g) as [s [Hs Hb]]. exists s. split; [exact Hs | lra].
Qed.

(** X4.  [_compute_structure_adjustment] never raises (no division by zero,
    whatever the graph) and its result lies between 0 and 0.5: at most 0.3
    for the share of critical nodes plus at most 0.2 for the ratio of
    assumptions to decisions. *)
Theorem structure_adjustment_bounds (g : RealityGraph) :
  exists s, _compute_structure_adjustment g = Ok s /\ (0 <= s <= 1 # 2)%Q.
Proof.
  exact (structure_adjustment_half g).
Qed.

Lemma fold_max_ge (xs : list Q) :
  forall x0 : Q,
    (x0 <= fold_left (fun m y => if Qgtb y m then y else m) xs x0)%Q
    /\ forall x, In x xs ->
         (x <= fold_left (fun m y => if Qgtb y m then y else m) xs x0)%Q.
Proof.
  induction xs as [|y ys IH]; intros x0; cbn [fold_left].
  - split; [lra | intros x []].
  - destruct (IH (if Qgtb y x0 then y else x0)) as [H1 H2].
    destruct (Qgtb y x0) eqn:E.
    + apply Qgtb_lt in E. split; [lra|]. intros x [<-|Hx]; [lra | now apply H2].
    + apply Qgtb_nlt in E. split; [lra|]. intros x [<-|Hx]; [lra | now apply H2].
Qed.

Lemma py_max_list_ge (xs : list Q) (m x : Q) :
  py_max_list xs = Ok m -> In x xs -> (x <= m)%Q.
Proof.
  destruct xs as [|x0 xs]; [discriminate|]. cbn [py_max_list].
  intros Hm Hin. injection Hm as <-.
  destruct (fold_max_ge xs x0) as [H1 H2].
  destruct Hin as [<-|Hin]; [exact H1 | now apply H2].
Qed.

(** X5.  The violation adjustment is at most 1, and it is at least the
    severity (capped at 1) of every violation that was passed in, provided
    that severity is not negative: a fatal violation alone brings the
    adjustment to 0.95 or more. *)
Theorem violation_adjustment_dominates (violations : list AxiomViolation)
    (v : AxiomViolation) :
  In v violations -> (0 <= severity v)%Q ->
  exists a, _compute_violation_adjustment violations = Ok a
            /\ (a <= 1)%Q /\ (py_min 1 (severity v) <= a)%Q.
Proof.
  intros Hin Hsev. unfold _compute_violation_adjustment.
  destruct violations as [|v0 vs]; [destruct Hin|].
  destruct (py_max_list_in (map severity (v0 :: vs))) as [m [Hm _]]; [discriminate|].
  rewrite Hm. cbn [bind]. eexists. split; [reflexivity|].
  assert (Hvm : (severity v <= m)%Q).
  { apply (py_max_list_ge _ _ _ Hm). now apply in_map. }
  assert (Hn : (1 <= Qnat (List.length (v0 :: vs)))%Q).
  { change 1%Q with (Qnat 1). apply Qnat_le. cbn [List.length]. lia. }
  set (n := Qnat (List.length (v0 :: vs))) in *.
  destruct (py_min_spec 1 (m * (1 + (5 # 100) * (n - 1)))) as [H1 [_ H3]].
  destruct (py_min_spec 1 (severity v)) as [H4 [H5 _]].
  split; [exact H1|]. apply H3; [exact H4|]. nra.
Qed.

Lemma violation_adjustment_dominates_witness :
  In violation_fatal [violation_fatal] /\ (0 <= severity violation_fatal)%Q
  /\ exists a, _compute_violation_adjustment [violation_fatal] = Ok a
               /\ (a <= 1)%Q /\ (py_min 1 (severity violation_fatal) <= a)%Q.
Proof.
  assert (Hin : In violation_fatal [violation_fatal]) by (now left).
  assert (Hsev : (0 <= severity violation_fatal)%Q) by (vm_compute; discriminate).
  split; [exact Hin|]. split; [exact Hsev|].
  exact (violation_adjustment_dominates [violation_fatal] violation_fatal Hin Hsev).
Defined.


(* ------------------------------------------------------------------ *)
(** ** The certainties of the collapse paths *)

Ltac bind_inv H :=
  repeat match type of H with
         | bind ?r _ = Ok _ =>
             let E := fresh "E" in
             let v := fresh "v" in
             destruct r as [v| |] eqn:E; cbn [bind] in H; try discriminate H
         end.

Lemma concatM_forall {A B : Type} (P : B -> Prop) (f : A -> result (list B))
    (l : list A) (ys : list B) :
  (forall a bs b, In a l -> f a = Ok bs -> In b bs -> P b) ->
  concatM f l = Ok ys -> forall b, In b ys -> P b.
Proof.
  intros Hf Hc b Hb. unfold concatM in Hc. bind_inv Hc. injection Hc as <-.
  apply in_concat in Hb. destruct Hb as [bs [Hbs Hb]].
  destruct (mapM_ok_inv f l _ bs E Hbs) as [a [Ha Hfa]].
  exact (Hf a bs b Ha Hfa Hb).
Qed.

Lemma exhaustion_certainty_bounds (total cap c : Q) :
  Qgtb total cap = true -> exhaustion_certainty total cap = Ok c -> (0 <= c <= 1)%Q.
Proof.
  intros Hgt. apply Qgtb_lt in Hgt. unfold exhaustion_certainty.
  destruct (Qgtb cap 0) eqn:Hcap.
  - apply Qgtb_lt in Hcap. rewrite (py_div_positive _ _ Hcap). cbn [bind].
    intros Hc. injection Hc as <-.
    assert (Hratio : (1 < total / cap)%Q) by (apply Qlt_shift_div_l; [assumption | lra]).
    destruct (py_min_spec 1 (total / cap - 1)) as [H1 [_ H3]].
    split; [apply H3; lra | exact H1].
  - intros Hc. injection Hc as <-. lra.
Qed.

Lemma resource_exhaustion_path_certainty `{Formatter} (g : RealityGraph) (resource : Node)
    (ps : list CollapsePath) (p : CollapsePath) :
  resource_exhaustion_path g resource = Ok ps -> In p ps -> (0 <= certainty p <= 1)%Q.
Proof.
  unfold resource_exhaustion_path. intros Hps Hp. bind_inv Hps.
  destruct (requires_edges_of v) as [|e0 es]; [injection Hps as <-; destruct Hp|].
  bind_inv Hps.
  destruct (dict_get "capacity" (n_metadata resource)) as [capv|];
    [|injection Hps as <-; destruct Hp].
  bind_inv Hps.
  destruct (Qgtb v1 v2) eqn:Hgt; [|injection Hps as <-; destruct Hp].
  bind_inv Hps. injection Hps as <-. destruct Hp as [<-|[]]. cbn [certainty].
  now apply (exhaustion_certainty_bounds v1 v2).
Qed.

Lemma cascading_paths_certainty `{Formatter} (g : RealityGraph) (ps : list CollapsePath)
    (p : CollapsePath) :
  _find_cascading_failure_paths g = Ok ps -> In p ps -> (0 <= certainty p <= 1)%Q.
Proof.
  unfold _find_cascading_failure_paths. intros Hps. revert p.
  refine (concatM_forall (fun p => (0 <= certainty p <= 1)%Q) _ _ _ _ Hps).
  intros node bs b Hnode Hf Hb. cbv beta in Hf. bind_inv Hf.
  destruct (Nat.ltb 3 (List.length v)); [|injection Hf as <-; destruct Hb].
  bind_inv Hf. injection Hf as <-. destruct Hb as [<-|[]]. cbn [certainty].
  assert (Hr : (0 <= v0)%Q).
  { unfold py_div in E0. destruct (Qeq_bool 10 0); [discriminate|].
    injection E0 as <-. apply Qle_shift_div_l; [lra|].
    pose proof (Qnat_nonneg (List.length v)). lra. }
  destruct (py_min_spec (9 # 10) v0) as [H1 [_ H3]].
  split; [apply H3; lra | lra].
Qed.

Lemma spof_paths_certainty `{Formatter} (g : RealityGraph) (ps : list CollapsePath)
    (p : CollapsePath) :
  _find_spof_paths g = Ok ps -> In p ps -> (0 <= certainty p <= 1)%Q.
Proof.
  unfold _find_spof_paths. intros Hps. revert p.
  refine (concatM_forall (fun p => (0 <= certainty p <= 1)%Q) _ _ _ _ Hps).
  intros node bs b Hnode Hf Hb. cbv beta in Hf. bind_inv Hf.
  match type of Hf with (if ?c then _ else _) = _ => destruct c end;
    [|injection Hf as <-; destruct Hb].
  injection Hf as <-. destruct Hb as [<-|[]]. cbn [certainty].
  match goal with |- (0 <= py_min _ (_ + Qnat ?n * _) <= 1)%Q =>
    pose proof (Qnat_nonneg n) as Hn;
    destruct (py_min_spec (95 # 100) ((7 # 10) + Qnat n * (5 # 100))) as [H1 [_ H3]]
  end.
  split; [apply H3; lra | lra].
Qed.

Lemma deadlock_path_certainty (g : RealityGraph) (st : DeadlockState) (target : string)
    (p : CollapsePath) :
  deadlock_path g st target = Ok p -> certainty p = (8 # 10)%Q.
Proof.
  unfold deadlock_path. intros Hp. bind_inv Hp. now injection Hp as <-.
Qed.

Lemma cycle_edges_certainty
    (recurse : string -> DeadlockState -> result (bool * DeadlockState))
    (g : RealityGraph) (node_id : string) :
  (forall target st r, recurse target st = Ok r ->
     Forall (fun p => certainty p = (8 # 10)%Q) (dl_paths st) ->
     Forall (fun p => certainty p = (8 # 10)%Q) (dl_paths (snd r))) ->
  forall es st r, cycle_edges recurse g node_id es st = Ok r ->
    Forall (fun p => certainty p = (8 # 10)%Q) (dl_paths st) ->
    Forall (fun p => certainty p = (8 # 10)%Q) (dl_paths (snd r)).
Proof.
  intros Hrec. induction es as [|edge es IH]; intros st r Hr Hst; cbn [cycle_edges] in Hr.
  - bind_inv Hr. injection Hr as <-. exact Hst.
  - destruct (orb _ _); [|now apply (IH st)].
    destruct (negb (set_mem (e_target edge) (dl_visited st))).
    + bind_inv Hr. pose proof (Hrec _ _ _ E Hst) as Hst'.
      destruct (fst v); [injection Hr as <-; exact Hst' | now apply (IH (snd v))].
    + destruct (set_mem (e_target edge) (dl_rec_stack st)); [|now apply (IH st)].
      bind_inv Hr. injection Hr as <-. cbn [snd dl_paths].
      apply Forall_app. split; [exact Hst|]. constructor; [|constructor].
      now apply (deadlock_path_certainty g st (e_target edge)).
Qed.

Lemma has_cycle_certainty (g : RealityGraph) (fuel : nat) :
  forall node st r, has_cycle g fuel node st = Ok r ->
    Forall (fun p => certainty p = (8 # 10)%Q) (dl_paths st) ->
    Forall (fun p => certainty p = (8 # 10)%Q) (dl_paths (snd r)).
Proof.
  induction fuel as [|fuel IH]; intros node st r Hr Hst; [discriminate|].
  cbn [has_cycle] in Hr. bind_inv Hr.
  exact (cycle_edges_certainty (has_cycle g fuel) g node IH v _ r Hr Hst).
Qed.

Lemma deadlock_roots_certainty `{Interpreter} (g : RealityGraph) (roots : list string) :
  forall st st', deadlock_roots g roots st = Ok st' ->
    Forall (fun p => certainty p = (8 # 10)%Q) (dl_paths st) ->
    Forall (fun p => certainty p = (8 # 10)%Q) (dl_paths st').
Proof.
  induction roots as [|node roots IH]; intros st st' Hr Hst; cbn [deadlock_roots] in Hr.
  - now injection Hr as <-.
  - destruct (negb (set_mem node (dl_visited st))); [|now apply (IH st)].
    bind_inv Hr. apply (IH (snd v)); [assumption|].
    now apply (has_cycle_certainty g recursion_room node st).
Qed.

Lemma deadlock_paths_certainty `{Interpreter} (g : RealityGraph) (ps : list CollapsePath)
    (p : CollapsePath) :
  _find_deadlock_paths g = Ok ps -> In p ps -> certainty p = (8 # 10)%Q.
Proof.
  unfold _find_deadlock_paths. intros Hps Hp. bind_inv Hps. injection Hps as <-.
  pose proof (deadlock_roots_certainty g _ _ _ E (Forall_nil _)) as Hall.
  rewrite Forall_forall in Hall. now apply Hall.
Qed.


Lemma explicit_contradiction_severity (g : RealityGraph) (e : Edge)
    (cs : list Contradiction) (c : Contradiction) :
  (forall q, dict_get "severity" (e_metadata e) = Some (VNum q) -> (0 <= q <= 1)%Q) ->
  explicit_contradiction g e = Ok cs -> In c cs -> (0 <= c_severity c <= 1)%Q.
Proof.
  intros Hsev Hcs Hc. unfold explicit_contradiction in Hcs.
  destruct (EdgeType_eqb (e_type e) CONTRADICTS); [|injection Hcs as <-; destruct Hc].
  bind_inv Hcs. injection Hcs as <-. destruct Hc as [<-|[]]. cbn [c_severity].
  destruct (dict_get "severity" (e_metadata e)) as [[q|[|]|s]|]; cbn [as_num] in E1;
    try discriminate; injection E1 as <-; try lra.
  now apply Hsev.
Qed.

Lemma resource_contradiction_severity `{Formatter} (g : RealityGraph) (resource : Node)
    (cs : list Contradiction) (c : Contradiction) :
  resource_contradiction g resource = Ok cs -> In c cs -> c_severity c = (85 # 100)%Q.
Proof.
  unfold resource_contradiction. intros Hcs Hc. bind_inv Hcs.
  destruct v as [|c0 [|c1 rest]]; try (injection Hcs as <-; destruct Hc).
  bind_inv Hcs.
  destruct (Qgtb v v0); injection Hcs as <-; [|destruct Hc].
  now destruct Hc as [<-|[]].
Qed.

Lemma logical_contradictions_severity (g : RealityGraph) (c : Contradiction) :
  In c (_find_logical_contradictions g) ->
  c_severity c = (95 # 100)%Q \/ c_severity c = (7 # 10)%Q.
Proof.
  unfold _find_logical_contradictions. intros Hc.
  apply in_app_or in Hc. destruct Hc as [Hc|Hc]; apply in_concat in Hc;
    destruct Hc as [l [Hl Hc]]; apply in_map_iff in Hl; destruct Hl as [d [<- _]];
    apply in_map_iff in Hc; destruct Hc as [d' [<- _]]; [now left | now right].
Qed.

Lemma find_contradictions_severity `{Formatter} (g : RealityGraph)
    (cs : list Contradiction) (c : Contradiction) :
  (forall k e q, In (k, e) (edges g) ->
     dict_get "severity" (e_metadata e) = Some (VNum q) -> (0 <= q <= 1)%Q) ->
  find_contradictions g = Ok cs -> In c cs -> (0 <= c_severity c <= 1)%Q.
Proof.
  intros Hsev Hcs Hc. unfold find_contradictions in Hcs. bind_inv Hcs.
  injection Hcs as <-. apply in_app_or in Hc. destruct Hc as [Hc|Hc].
  - revert c Hc. unfold _find_explicit_contradictions in E.
    refine (concatM_forall (fun c => (0 <= c_severity c <= 1)%Q) _ _ _ _ E).
    intros e bs b He Hf Hb. apply (explicit_contradiction_severity g e bs b); try assumption.
    intros q Hq. unfold dict_values in He. apply in_map_iff in He.
    destruct He as [[k e'] [Heq Hin]]. cbn [snd] in Heq. subst e'.
    now apply (Hsev k e q).
  - apply in_app_or in Hc. destruct Hc as [Hc|Hc].
    + assert (Hs : c_severity c = (85 # 100)%Q).
      { revert c Hc. unfold _find_resource_contradictions in E0.
        refine (concatM_forall (fun c => c_severity c = (85 # 100)%Q) _ _ _ _ E0).
        intros r bs b _ Hf Hb. now apply (resource_contradiction_severity g r bs). }
      rewrite Hs. lra.
    + destruct (logical_contradictions_severity g c Hc) as [Hs|Hs]; rewrite Hs; lra.
Qed.

Lemma identify_collapse_paths_certainty `{Formatter} `{Interpreter} (g : RealityGraph)
    (ps : list CollapsePath) (p : CollapsePath) :
  (forall k e q, In (k, e) (edges g) ->
     dict_get "severity" (e_metadata e) = Some (VNum q) -> (0 <= q <= 1)%Q) ->
  _identify_collapse_paths g = Ok ps -> In p ps -> (0 <= certainty p <= 1)%Q.
Proof.
  intros Hsev Hps Hp. unfold _identify_collapse_paths in Hps. bind_inv Hps.
  injection Hps as <-.
  apply in_app_or in Hp. destruct Hp as [Hp|Hp].
  { apply in_map_iff in Hp. destruct Hp as [c [<- Hc]]. cbn [certainty].
    now apply (find_contradictions_severity g v c). }
  apply in_app_or in Hp. destruct Hp as [Hp|Hp].
  { revert p Hp. unfold _find_resource_exhaustion_paths in E0.
    refine (concatM_forall (fun p => (0 <= certainty p <= 1)%Q) _ _ _ _ E0).
    intros r bs b _ Hf Hb. now apply (resource_exhaustion_path_certainty g r bs). }
  apply in_app_or in Hp. destruct Hp as [Hp|Hp].
  { now apply (cascading_paths_certainty g v1). }
  apply in_app_or in Hp. destruct Hp as [Hp|Hp].
  { now apply (spof_paths_certainty g v2). }
  rewrite (deadlock_paths_certainty g v3 p E3 Hp). lra.
Qed.

Lemma violation_adjustment_unit (violations : list AxiomViolation) :
  (forall v, In v violations -> (0 <= severity v)%Q) ->
  exists a, _compute_violation_adjustment violations = Ok a
            /\ (0 <= a <= 1)%Q
            /\ forall v, In v violations -> (py_min 1 (severity v) <= a)%Q.
Proof.
  intros Hsev. unfold _compute_violation_adjustment.
  destruct violations as [|v0 vs].
  - exists 0%Q. split; [reflexivity|]. split; [lra | intros v []].
  - destruct (py_max_list_in (map severity (v0 :: vs))) as [m [Hm Hin]]; [discriminate|].
    rewrite Hm. cbn [bind]. eexists. split; [reflexivity|].
    assert (Hm0 : (0 <= m)%Q).
    { apply in_map_iff in Hin. destruct Hin as [v [<- Hv]]. now apply Hsev. }
    assert (Hn : (1 <= Qnat (List.length (v0 :: vs)))%Q).
    { change 1%Q with (Qnat 1). apply Qnat_le. cbn [List.length]. lia. }
    set (n := Qnat (List.length (v0 :: vs))) in *.
    destruct (py_min_spec 1 (m * (1 + (5 # 100) * (n - 1)))) as [H1 [_ H3]].
    split; [split; [apply H3; nra | exact H1]|].
    intros v Hv. destruct (py_min_spec 1 (severity v)) as [H4 [H5 _]].
    assert (Hvm : (severity v <= m)%Q).
    { apply (py_max_list_ge _ _ _ Hm). now apply in_map. }
    apply H3; [exact H4 | nra].
Qed.

(** X6.  Whenever [compute] returns, on a graph whose edges carry
    severities between 0 and 1 and for violations with severities that are
    not negative, the index it returns lies between 0 and 1, is at least the
    certainty of every collapse path that [_identify_collapse_paths] found
    and at least the severity (capped at 1) of every violation, in exact
    arithmetic: a fatal violation among the inputs gives an index of 0.95 or
    more. *)
Theorem fii_dominates_paths_and_violations `{Formatter} `{Interpreter}
    (g : RealityGraph) (violations : list AxiomViolation) (fii : Q) :
  (forall k e q, In (k, e) (edges g) ->
     dict_get "severity" (e_metadata e) = Some (VNum q) -> (0 <= q <= 1)%Q) ->
  (forall v, In v violations -> (0 <= severity v)%Q) ->
  compute g violations = Ok fii ->
  (0 <= fii <= 1)%Q
  /\ (exists ps, _identify_collapse_paths g = Ok ps
                 /\ forall p, In p ps -> (certainty p <= fii)%Q)
  /\ (forall v, In v violations -> (py_min 1 (severity v) <= fii)%Q)
  /\ (forall v, In v violations -> is_fatal v = true -> (95 # 100 <= fii)%Q).
Proof.
  intros Hsev Hvs Hfii.
  destruct (_identify_collapse_paths g) as [ps| |] eqn:Hps;
    try (unfold compute in Hfii; rewrite Hps in Hfii; discriminate Hfii).
  destruct (violation_adjustment_unit violations Hvs) as [a [Ha [Ha01 Hav]]].
  destruct (structure_adjustment_unit g) as [s [Hs Hs01]].
  unfold compute in Hfii. rewrite Hps, Ha, Hs in Hfii. cbn [bind] in Hfii.
  injection Hfii as <-.
  destruct (base_fii_bounds ps) as [Hb01 Hbp].
  { intros p Hp. now apply (identify_collapse_paths_certainty g ps). }
  unfold _combine_factors.
  destruct (prob_or_bounds (_compute_base_fii ps) a Hb01 Ha01) as [Hc01 [Hcb Hca]].
  destruct (prob_or_bounds (prob_or (_compute_base_fii ps) a) s Hc01 Hs01)
    as [Hd01 [Hdc _]].
  set (fii := prob_or (prob_or (_compute_base_fii ps) a) s) in *.
  destruct (py_max_spec 0 fii) as [M1 [M2 M3]].
  destruct (py_min_spec 1 (py_max 0 fii)) as [N1 [N2 N3]].
  assert (Hge : (fii <= py_min 1 (py_max 0 fii))%Q) by (apply N3; lra).
  assert (Hdom : forall v, In v violations ->
                   (py_min 1 (severity v) <= py_min 1 (py_max 0 fii))%Q).
  { intros v Hv. specialize (Hav v Hv). lra. }
  split; [split; [apply N3; lra | exact N1]|].
  split; [|split].
  - exists ps. split; [reflexivity|]. intros p Hp. specialize (Hbp p Hp). lra.
  - exact Hdom.
  - intros v Hv Hf. apply is_fatal_iff in Hf. specialize (Hdom v Hv).
    destruct (py_min_spec 1 (severity v)) as [_ [_ P3]].
    assert (95 # 100 <= py_min 1 (severity v))%Q by (apply P3; lra).
    lra.
Qed.


Lemma scenario_resource_no_severity (k : string) (e : Edge) (q : Q) :
  In (k, e) (edges scenario_resource) ->
  dict_get "severity" (e_metadata e) = Some (VNum q) -> (0 <= q <= 1)%Q.
Proof.
  intros Hin Hq. cbn in Hin.
  destruct Hin as [Hin|[Hin|[]]]; injection Hin as <- <-; discriminate Hq.
Qed.

Lemma violation_fatal_nonnegative (v : AxiomViolation) :
  In v [violation_fatal] -> (0 <= severity v)%Q.
Proof.
  intros [<-|[]]. vm_compute. discriminate.
Qed.

Lemma fii_dominates_paths_and_violations_witness :
  exists fii,
    compute scenario_resource [violation_fatal] = Ok fii
    /\ (0 <= fii <= 1)%Q
    /\ (exists ps, _identify_collapse_paths scenario_resource = Ok ps
                   /\ forall p, In p ps -> (certainty p <= fii)%Q)
    /\ (forall v, In v [violation_fatal] -> (py_min 1 (severity v) <= fii)%Q)
    /\ (forall v, In v [violation_fatal] -> is_fatal v = true -> (95 # 100 <= fii)%Q).
Proof.
  assert (E : exists fii, compute scenario_resource [violation_fatal] = Ok fii)
    by (vm_compute; eexists; reflexivity).
  destruct E as [fii E]. exists fii. split; [exact E|].
  exact (@fii_dominates_paths_and_violations fraction_formatter roomy_interpreter
           scenario_resource [violation_fatal] fii
           scenario_resource_no_severity violation_fatal_nonnegative E).
Defined.


(* ------------------------------------------------------------------ *)
(** ** The axiom registry *)

Lemma verify_each_reported
    (axs : list (RealityGraph -> Context -> result (option AxiomViolation)))
    (g : RealityGraph) (context : Context) :
  forall acc vs,
    verify_each axs g context acc = Ok vs ->
    exists os, Forall2 (fun verify o => verify g context = Ok o) axs os
               /\ vs = (acc ++ List.concat (map reported os))%list.
Proof.
  induction axs as [|verify axs IH]; intros acc vs Hvs; cbn [verify_each] in Hvs.
  - injection Hvs as <-. exists []. split; [constructor|]. cbn. now rewrite app_nil_r.
  - bind_inv Hvs. destruct (IH _ _ Hvs) as [os [Hos Heq]].
    exists (v :: os). split; [now constructor|].
    rewrite Heq. cbn [map List.concat]. destruct v as [x|]; cbn [reported].
    + now rewrite <- app_assoc.
    + reflexivity.
Qed.

Lemma ExistenceAxiom_reports (g : RealityGraph) (context : Context) (v : AxiomViolation) :
  ExistenceAxiom_verify g context = Ok (Some v) ->
  axiom_name v = "EXISTENCE_AXIOM" /\ severity v = (8 # 10)%Q.
Proof.
  unfold ExistenceAxiom_verify. intros Hv. bind_inv Hv.
  destruct (map _ _); [discriminate|]. injection Hv as <-. now split.
Qed.

Lemma ContradictionLaw_reports `{Formatter} (g : RealityGraph) (context : Context)
    (v : AxiomViolation) :
  ContradictionLaw_verify g context = Ok (Some v) -> axiom_name v = "CONTRADICTION_LAW".
Proof.
  unfold ContradictionLaw_verify. intros Hv. bind_inv Hv.
  destruct v0; [discriminate|]. bind_inv Hv. now injection Hv as <-.
Qed.

Lemma InevitabilityAxiom_reports `{Formatter} (g : RealityGraph) (context : Context)
    (v : AxiomViolation) :
  InevitabilityAxiom_verify g context = Ok (Some v) ->
  axiom_name v = "INEVITABILITY_AXIOM"
  /\ failure_inevitability_index context = Some (severity v)
  /\ is_fatal v = true.
Proof.
  unfold InevitabilityAxiom_verify. intros Hv.
  destruct (Qgeb (get_or (failure_inevitability_index context) 0%Q) (95 # 100)) eqn:Hf;
    [|discriminate].
  injection Hv as <-. cbn [axiom_name severity]. split; [reflexivity|].
  destruct (failure_inevitability_index context) as [fii|]; cbn [get_or] in *.
  - split; [reflexivity | exact Hf].
  - discriminate Hf.
Qed.

Lemma CounterfactualValidityAxiom_reports (g : RealityGraph) (context : Context)
    (v : AxiomViolation) :
  CounterfactualValidityAxiom_verify g context = Ok (Some v) ->
  axiom_name v = "COUNTERFACTUAL_VALIDITY" /\ (severity v <= 9 # 10)%Q
  /\ counterfactual_results context <> None.
Proof.
  unfold CounterfactualValidityAxiom_verify. intros Hv.
  destruct (counterfactual_results context) as [rs|]; cbn [get_or] in Hv;
    [|discriminate].
  destruct (filter _ (filter _ rs)); [discriminate|].
  bind_inv Hv. injection Hv as <-. cbn [axiom_name severity].
  split; [reflexivity|]. split; [apply py_min_spec | discriminate].
Qed.

Lemma HumanDependencyParadox_reports (g : RealityGraph) (context : Context)
    (v : AxiomViolation) :
  HumanDependencyParadox_verify g context = Ok (Some v) ->
  axiom_name v = "HUMAN_DEPENDENCY_PARADOX" /\ severity v = (85 # 100)%Q
  /\ human_dependencies context <> None.
Proof.
  unfold HumanDependencyParadox_verify. intros Hv.
  destruct (human_dependencies context) as [hs|]; cbn [get_or] in Hv; [|discriminate].
  destruct (filter _ hs); [discriminate|]. injection Hv as <-.
  split; [reflexivity|]. split; [reflexivity | discriminate].
Qed.

Lemma SilentAssumptionLaw_reports (g : RealityGraph) (context : Context)
    (v : AxiomViolation) :
  SilentAssumptionLaw_verify g context = Ok (Some v) ->
  axiom_name v = "SILENT_ASSUMPTION_LAW" /\ severity v = (75 # 100)%Q
  /\ hostile_assumptions context <> None.
Proof.
  unfold SilentAssumptionLaw_verify. intros Hv.
  destruct (hostile_assumptions context) as [hs|]; cbn [get_or] in Hv; [|discriminate].
  destruct (filter _ hs); [discriminate|]. injection Hv as <-.
  split; [reflexivity|]. split; [reflexivity | discriminate].
Qed.

Lemma subseq_reported (names : list string) (os : list (option AxiomViolation)) :
  Forall2 (fun name o => forall v, o = Some v -> axiom_name v = name) names os ->
  subseq (map axiom_name (List.concat (map reported os))) names.
Proof.
  induction 1 as [|name o names os Ho _ IH]; cbn [map List.concat].
  - constructor.
  - destruct o as [v|]; cbn [reported app map].
    + rewrite (Ho v eq_refl). now constructor.
    + now constructor.
Qed.

(** The list [verify_all] returns, axiom by axiom. *)
Lemma verify_all_reported `{Formatter} (g : RealityGraph) (context : Context)
    (vs : list AxiomViolation) :
  verify_all g context = Ok vs ->
  exists o1 o2 o3 o4 o5 o6,
    ExistenceAxiom_verify g context = Ok o1
    /\ ContradictionLaw_verify g context = Ok o2
    /\ InevitabilityAxiom_verify g context = Ok o3
    /\ CounterfactualValidityAxiom_verify g context = Ok o4
    /\ HumanDependencyParadox_verify g context = Ok o5
    /\ SilentAssumptionLaw_verify g context = Ok o6
    /\ vs = (reported o1 ++ reported o2 ++ reported o3 ++ reported o4
             ++ reported o5 ++ reported o6)%list.
Proof.
  intros Hvs. unfold verify_all, axioms in Hvs.
  destruct (verify_each_reported _ g context [] vs Hvs) as [os [Hos Heq]].
  inversion Hos as [|? o1 ? os1 H1 Hos1]; subst.
  inversion Hos1 as [|? o2 ? os2 H2 Hos2]; subst.
  inversion Hos2 as [|? o3 ? os3 H3 Hos3]; subst.
  inversion Hos3 as [|? o4 ? os4 H4 Hos4]; subst.
  inversion Hos4 as [|? o5 ? os5 H5 Hos5]; subst.
  inversion Hos5 as [|? o6 ? os6 H6 Hos6]; subst.
  inversion Hos6; subst.
  exists o1, o2, o3, o4, o5, o6. repeat (split; [assumption|]).
  cbn [app map List.concat]. now rewrite app_nil_r.
Qed.

(** X7.  Whenever [verify_all] returns, whatever the graph and the context,
    the list it returns holds at most one violation per axiom of the
    registry, in registration order: the axiom names of the list are the
    six registered names with some left out. *)
Theorem verify_all_one_per_axiom `{Formatter} (g : RealityGraph) (context : Context)
    (vs : list AxiomViolation) :
  verify_all g context = Ok vs ->
  subseq (map axiom_name vs) axiom_names /\ List.length vs <= 6.
Proof.
  intros Hvs.
  destruct (verify_all_reported g context vs Hvs)
    as [o1 [o2 [o3 [o4 [o5 [o6 [H1 [H2 [H3 [H4 [H5 [H6 Heq]]]]]]]]]]]].
  assert (Hsub : subseq (map axiom_name vs) axiom_names).
  { subst vs.
    replace (reported o1 ++ reported o2 ++ reported o3 ++ reported o4 ++ reported o5
             ++ reported o6)%list
      with (List.concat (map reported [o1; o2; o3; o4; o5; o6]))
      by (cbn [map List.concat]; now rewrite app_nil_r).
    apply subseq_reported. unfold axiom_names.
    repeat constructor; intros v ->.
    - now apply (ExistenceAxiom_reports g context).
    - now apply (ContradictionLaw_reports g context).
    - now apply (InevitabilityAxiom_reports g context).
    - now apply (CounterfactualValidityAxiom_reports g context).
    - now apply (HumanDependencyParadox_reports g context).
    - now apply (SilentAssumptionLaw_reports g context). }
  split; [exact Hsub|].
  subst vs. rewrite !length_app.
  destruct o1, o2, o3, o4, o5, o6; cbn [reported List.length]; lia.
Qed.

(** The two decisions joined by a CONTRADICTS edge. *)
Lemma verify_all_one_per_axiom_witness :
  exists vs, verify_all scenario_contradicts empty_context = Ok vs
             /\ subseq (map axiom_name vs) axiom_names
             /\ List.length vs <= 6.
Proof.
  assert (E : exists vs, verify_all scenario_contradicts empty_context = Ok vs)
    by (vm_compute; eexists; reflexivity).
  destruct E as [vs E]. exists vs. split; [exact E|].
  exact (@verify_all_one_per_axiom fraction_formatter scenario_contradicts
           empty_context vs E).
Defined.


Lemma not_fatal_below (v : AxiomViolation) :
  (severity v <= 9 # 10)%Q -> is_fatal v = true -> False.
Proof.
  intros Hle Hf. apply is_fatal_iff in Hf. lra.
Qed.

Lemma in_reported (o : option AxiomViolation) (v : AxiomViolation) :
  In v (reported o) -> o = Some v.
Proof.
  destruct o as [x|]; cbn [reported]; [|intros []]. now intros [->|[]].
Qed.

Lemma fatal_origin `{Formatter} (g : RealityGraph) (context : Context)
    (vs : list AxiomViolation) (v : AxiomViolation) :
  verify_all g context = Ok vs -> In v vs -> is_fatal v = true ->
  axiom_name v = "CONTRADICTION_LAW"
  \/ (axiom_name v = "INEVITABILITY_AXIOM"
      /\ failure_inevitability_index context = Some (severity v)).
Proof.
  intros Hvs Hin Hf.
  destruct (verify_all_reported g context vs Hvs)
    as [o1 [o2 [o3 [o4 [o5 [o6 [H1 [H2 [H3 [H4 [H5 [H6 Heq]]]]]]]]]]]].
  subst vs.
  repeat (apply in_app_or in Hin; destruct Hin as [Hin|Hin]);
    apply in_reported in Hin; subst.
  - destruct (ExistenceAxiom_reports g context v H1) as [_ Hs].
    exfalso. apply (not_fatal_below v); [rewrite Hs; lra | exact Hf].
  - left. now apply (ContradictionLaw_reports g context).
  - right. destruct (InevitabilityAxiom_reports g context v H3) as [Hn [Hc _]]. now split.
  - destruct (CounterfactualValidityAxiom_reports g context v H4) as [_ [Hs _]].
    exfalso. now apply (not_fatal_below v).
  - destruct (HumanDependencyParadox_reports g context v H5) as [_ [Hs _]].
    exfalso. apply (not_fatal_below v); [rewrite Hs; lra | exact Hf].
  - destruct (SilentAssumptionLaw_reports g context v H6) as [_ [Hs _]].
    exfalso. apply (not_fatal_below v); [rewrite Hs; lra | exact Hf].
Qed.

(** X8.  Of the violations [verify_all] returns, only two kinds can be
    fatal: the one of the contradiction law, and the one of the
    inevitability axiom, whose severity is the index found in the context.
    The violations of the other four axioms have severities of at most
    0.9. *)
Theorem fatal_violations_origin `{Formatter} (g : RealityGraph) (context : Context)
    (vs : list AxiomViolation) :
  verify_all g context = Ok vs ->
  forall v, In v vs ->
    (is_fatal v = true ->
     axiom_name v = "CONTRADICTION_LAW"
     \/ (axiom_name v = "INEVITABILITY_AXIOM"
         /\ failure_inevitability_index context = Some (severity v)))
    /\ (axiom_name v <> "CONTRADICTION_LAW" ->
        axiom_name v <> "INEVITABILITY_AXIOM" -> (severity v <= 9 # 10)%Q).
Proof.
  intros Hvs v Hin. split; [now apply (fatal_origin g context vs)|].
  intros Hn1 Hn2.
  destruct (verify_all_reported g context vs Hvs)
    as [o1 [o2 [o3 [o4 [o5 [o6 [H1 [H2 [H3 [H4 [H5 [H6 Heq]]]]]]]]]]]].
  subst vs.
  repeat (apply in_app_or in Hin; destruct Hin as [Hin|Hin]);
    apply in_reported in Hin; subst.
  - destruct (ExistenceAxiom_reports g context v H1) as [_ Hs]. rewrite Hs. lra.
  - exfalso. apply Hn1. now apply (ContradictionLaw_reports g context).
  - exfalso. apply Hn2.
    now destruct (InevitabilityAxiom_reports g context v H3) as [Hn _].
  - now destruct (CounterfactualValidityAxiom_reports g context v H4) as [_ [Hs _]].
  - destruct (HumanDependencyParadox_reports g context v H5) as [_ [Hs _]].
    rewrite Hs. lra.
  - destruct (SilentAssumptionLaw_reports g context v H6) as [_ [Hs _]].
    rewrite Hs. lra.
Qed.

Lemma fatal_violations_origin_witness :
  exists vs, verify_all scenario_contradicts empty_context = Ok vs
    /\ forall v, In v vs ->
         (is_fatal v = true ->
          axiom_name v = "CONTRADICTION_LAW"
          \/ (axiom_name v = "INEVITABILITY_AXIOM"
              /\ failure_inevitability_index empty_context = Some (severity v)))
         /\ (axiom_name v <> "CONTRADICTION_LAW" ->
             axiom_name v <> "INEVITABILITY_AXIOM" -> (severity v <= 9 # 10)%Q).
Proof.
  assert (E : exists vs, verify_all scenario_contradicts empty_context = Ok vs)
    by (vm_compute; eexists; reflexivity).
  destruct E as [vs E]. exists vs. split; [exact E|].
  exact (@fatal_violations_origin fraction_formatter scenario_contradicts
           empty_context vs E).
Defined.

(** X9.  The context [_test_scenario] builds holds no key that an axiom
    reads.  With such a context, whenever [verify_all] returns it reports
    only the existence axiom and the contradiction law, in this order, and
    only the contradiction law can be fatal: inside a simulation the other
    four axioms are silent. *)
Theorem scenario_context_two_axioms `{Formatter} (g : RealityGraph)
    (vs : list AxiomViolation) :
  verify_all g empty_context = Ok vs ->
  subseq (map axiom_name vs) ["EXISTENCE_AXIOM"; "CONTRADICTION_LAW"]
  /\ forall v, In v vs -> is_fatal v = true -> axiom_name v = "CONTRADICTION_LAW".
Proof.
  intros Hvs. split.
  - destruct (verify_all_reported g empty_context vs Hvs)
      as [o1 [o2 [o3 [o4 [o5 [o6 [H1 [H2 [H3 [H4 [H5 [H6 Heq]]]]]]]]]]]].
    cbv in H3, H4, H5, H6.
    injection H3 as <-. injection H4 as <-. injection H5 as <-. injection H6 as <-.
    subst vs. cbn [reported]. rewrite !app_nil_r.
    replace (reported o1 ++ reported o2)%list
      with (List.concat (map reported [o1; o2]))
      by (cbn [map List.concat]; now rewrite app_nil_r).
    apply subseq_reported. repeat constructor; intros v ->.
    + now apply (ExistenceAxiom_reports g empty_context).
    + now apply (ContradictionLaw_reports g empty_context).
  - intros v Hin Hf.
    destruct (fatal_origin g empty_context vs v Hvs Hin Hf) as [Hn|[_ Hc]];
      [exact Hn | discriminate Hc].
Qed.

Lemma scenario_context_two_axioms_witness :
  exists vs, verify_all scenario_contradicts empty_context = Ok vs
    /\ subseq (map axiom_name vs) ["EXISTENCE_AXIOM"; "CONTRADICTION_LAW"]
    /\ forall v, In v vs -> is_fatal v = true -> axiom_name v = "CONTRADICTION_LAW".
Proof.
  assert (E : exists vs, verify_all scenario_contradicts empty_context = Ok vs)
    by (vm_compute; eexists; reflexivity).
  destruct E as [vs E]. exists vs. split; [exact E|].
  exact (@scenario_context_two_axioms fraction_formatter scenario_contradicts vs E).
Defined.

Lemma find_split {A : Type} (p : A -> bool) (l : list A) (x : A) :
  find p l = Some x ->
  exists pre post, l = (pre ++ x :: post)%list
                   /\ Forall (fun y => p y = false) pre /\ p x = true.
Proof.
  induction l as [|a l IH]; cbn [find]; [discriminate|].
  destruct (p a) eqn:Hpa.
  - intros Hx. injection Hx as <-. exists [], l. repeat split; [constructor | exact Hpa].
  - intros Hx. destruct (IH Hx) as [pre [post [-> [Hpre Hpx]]]].
    exists (a :: pre), post. repeat split; [now constructor | exact Hpx].
Qed.

(** X10.  Whenever the contradiction law returns, on a graph whose
    [severity] entries are finite numbers, it is silent exactly when
    [find_contradictions] found nothing.  Otherwise its violation has the
    largest severity among the contradictions found, and carries the
    explanation and the causal chain of the first contradiction of that
    severity: every contradiction listed before it is strictly less
    severe. *)
Theorem contradiction_law_reports_maximum `{Formatter} (g : RealityGraph)
    (context : Context) (cs : list Contradiction) (o : option AxiomViolation) :
  find_contradictions g = Ok cs -> ContradictionLaw_verify g context = Ok o ->
  (cs = [] <-> o = None)
  /\ forall v, o = Some v ->
       exists pre c post,
         cs = (pre ++ c :: post)%list
         /\ (c_severity c == severity v)%Q
         /\ explanation v = c_explanation c
         /\ causal_chain v = c_causal_chain c
         /\ (forall c', In c' pre -> (c_severity c' < severity v)%Q)
         /\ (forall c', In c' cs -> (c_severity c' <= severity v)%Q).
Proof.
  intros Hcs Ho. unfold ContradictionLaw_verify in Ho. rewrite Hcs in Ho.
  cbn [bind] in Ho. destruct cs as [|c0 cs0].
  - injection Ho as <-. split; [tauto | discriminate].
  - destruct (py_max_list (map c_severity (c0 :: cs0))) as [m| |] eqn:Hm;
      cbn [bind] in Ho; try discriminate Ho.
    unfold first_with_severity in Ho.
    destruct (find (fun c => Qeq_bool (c_severity c) m) (c0 :: cs0)) as [c|] eqn:Hfind;
      cbn [from_option bind] in Ho; [|discriminate Ho].
    injection Ho as <-. split; [split; discriminate|].
    intros v Hv. injection Hv as <-. cbn [severity explanation causal_chain].
    destruct (find_split _ _ _ Hfind) as [pre [post [Heq [Hpre Hc]]]].
    assert (Hmax : forall c', In c' (c0 :: cs0) -> (c_severity c' <= m)%Q).
    { intros c' Hc'. apply (py_max_list_ge _ _ _ Hm). now apply in_map. }
    exists pre, c, post. split; [exact Heq|].
    split; [now apply Qeq_bool_iff|]. split; [reflexivity|]. split; [reflexivity|].
    split; [|exact Hmax].
    intros c' Hc'. rewrite Forall_forall in Hpre. specialize (Hpre c' Hc').
    assert (Hle : (c_severity c' <= m)%Q).
    { apply Hmax. rewrite Heq. apply in_or_app. now left. }
    destruct (Qlt_le_dec (c_severity c') m) as [Hlt|Hge]; [exact Hlt|].
    assert (Heqm : (c_severity c' == m)%Q) by (now apply Qle_antisym).
    apply Qeq_bool_iff in Heqm. congruence.
Qed.

Lemma contradiction_law_reports_maximum_witness :
  exists cs o,
    find_contradictions scenario_contradicts = Ok cs
    /\ ContradictionLaw_verify scenario_contradicts empty_context = Ok o
    /\ (cs = [] <-> o = None).
Proof.
  assert (E1 : exists cs, find_contradictions scenario_contradicts = Ok cs)
    by (vm_compute; eexists; reflexivity).
  destruct E1 as [cs E1].
  assert (E2 : exists o, ContradictionLaw_verify scenario_contradicts empty_context
                         = Ok o)
    by (vm_compute; eexists; reflexivity).
  destruct E2 as [o E2].
  exists cs, o. split; [exact E1|]. split; [exact E2|].
  exact (proj1 (@contradiction_law_reports_maximum fraction_formatter
                  scenario_contradicts empty_context cs o E1 E2)).
Defined.


(* ------------------------------------------------------------------ *)
(** ** The decisions of the judge *)

(** The six ways [render_verdict] returns. *)
Lemma render_verdict_cases `{Formatter} (j : ExistenceJudge) (v : ExistenceVerdict) :
  render_verdict j = Ok v ->
  (exists x rest, filter is_fatal (j_violations j) = x :: rest
                  /\ v = _verdict_fatal_axiom j x)
  \/ (filter is_fatal (j_violations j) = [] /\ Qgeb (j_fii j) (90 # 100) = true
      /\ v = _verdict_inevitable_failure j)
  \/ (filter is_fatal (j_violations j) = [] /\ Qgeb (j_fii j) (90 # 100) = false
      /\ exists r1 r2 rs, get_critical_failures (j_cf_results j) = r1 :: r2 :: rs
                          /\ v = _verdict_counterfactual_failure j r1 (r1 :: r2 :: rs))
  \/ (filter is_fatal (j_violations j) = [] /\ Qgeb (j_fii j) (90 # 100) = false
      /\ List.length (get_critical_failures (j_cf_results j)) < 2
      /\ ((_has_sufficient_data j = Ok false /\ v = _verdict_unverified j)
          \/ (_has_sufficient_data j = Ok true
              /\ (v = _verdict_permissible_fragile j
                  \/ v = _verdict_permissible_robust j)))).
Proof.
  unfold render_verdict. fold (get_critical_failures (j_cf_results j)).
  destruct (filter is_fatal (j_violations j)) as [|x rest] eqn:Hfatal.
  - destruct (Qgeb (j_fii j) (90 # 100)) eqn:Hfii.
    + intros Hv. injection Hv as <-. right. left. now repeat split.
    + assert (Hlate : forall n, List.length (get_critical_failures (j_cf_results j)) < 2 ->
                (sufficient <- _has_sufficient_data j ;;
                 if negb sufficient then Ok (_verdict_unverified j)
                 else if orb (Qgeb (j_fii j) (70 # 100))
                             (Nat.ltb 3 (List.length (j_violations j)))
                 then Ok (_verdict_permissible_fragile j)
                 else Ok (_verdict_permissible_robust j)) = Ok v ->
                n = 0 ->
                [] = @nil AxiomViolation /\ false = false
                /\ List.length (get_critical_failures (j_cf_results j)) < 2
                /\ ((_has_sufficient_data j = Ok false /\ v = _verdict_unverified j)
                    \/ (_has_sufficient_data j = Ok true
                        /\ (v = _verdict_permissible_fragile j
                            \/ v = _verdict_permissible_robust j)))).
      { intros n Hlen Hv _. split; [reflexivity|]. split; [reflexivity|].
        split; [exact Hlen|]. bind_inv Hv. destruct v0; cbn [negb] in Hv.
        - right. split; [reflexivity|].
          destruct (orb _ _); injection Hv as <-; [now left | now right].
        - left. injection Hv as <-. now split. }
      destruct (get_critical_failures (j_cf_results j)) as [|r1 [|r2 rs]] eqn:Hcrit.
      * intros Hv. right. right. right. apply (Hlate 0); [cbn; lia | exact Hv | reflexivity].
      * intros Hv. right. right. right. apply (Hlate 0); [cbn; lia | exact Hv | reflexivity].
      * intros Hv. injection Hv as <-. right. right. left.
        split; [reflexivity|]. split; [reflexivity|]. now exists r1, r2, rs.
  - intros Hv. injection Hv as <-. left. now exists x, rest.
Qed.

Lemma render_verdict_returns `{Formatter} (j : ExistenceJudge) :
  well_formed (j_graph j) -> is_ok (render_verdict j).
Proof.
  destruct j as [g vs fii cf]. cbn [j_graph]. intros Hwf.
  exact (render_verdict_total g Hwf vs fii cf).
Qed.

Lemma filter_is_fatal_nil (vs : list AxiomViolation) :
  filter is_fatal vs = [] <-> forall x, In x vs -> is_fatal x = false.
Proof.
  split.
  - intros Hnil x Hin. destruct (is_fatal x) eqn:Hf; [|reflexivity].
    assert (Hx : In x (filter is_fatal vs)) by (apply filter_In; now split).
    rewrite Hnil in Hx. destruct Hx.
  - intros Hall. destruct (filter is_fatal vs) as [|x rest] eqn:Hf; [reflexivity|].
    assert (Hx : In x (filter is_fatal vs)) by (rewrite Hf; now left).
    apply filter_In in Hx. destruct Hx as [Hin Hfx]. rewrite (Hall x Hin) in Hfx.
    discriminate.
Qed.

(** X11.  The decision table of [render_verdict] on a well-formed graph.
    The verdict is NOT PERMISSIBLE exactly when some violation is fatal, or
    the index is 0.9 or more, or two or more critical scenarios failed (the
    scenarios [get_critical_failures] selects).  Otherwise it is UNVERIFIED
    when [_has_sufficient_data] says no and PERMISSIBLE when it says yes. *)
Theorem render_verdict_decision_table `{Formatter} (j : ExistenceJudge) :
  well_formed (j_graph j) ->
  exists v, render_verdict j = Ok v
    /\ (verdict v = NOT_PERMISSIBLE <->
          (exists x, In x (j_violations j) /\ is_fatal x = true)
          \/ (9 # 10 <= j_fii j)%Q
          \/ 2 <= List.length (get_critical_failures (j_cf_results j)))
    /\ (verdict v = UNVERIFIED -> _has_sufficient_data j = Ok false)
    /\ (verdict v = PERMISSIBLE -> _has_sufficient_data j = Ok true).
Proof.
  intros Hwf. destruct (render_verdict_returns j Hwf) as [v Hv].
  exists v. split; [exact Hv|].
  assert (Hno : forall x rest, filter is_fatal (j_violations j) = x :: rest ->
                  exists y, In y (j_violations j) /\ is_fatal y = true).
  { intros x rest Hf. exists x. apply filter_In. rewrite Hf. now left. }
  destruct (render_verdict_cases j v Hv)
    as [[x [rest [Hf ->]]]|[[Hf [Hfii ->]]|[[Hf [Hfii [r1 [r2 [rs [Hc ->]]]]]]
       |[Hf [Hfii [Hlen [[Hs ->]|[Hs [->| ->]]]]]]]]];
    cbn [verdict _verdict_fatal_axiom _verdict_inevitable_failure
         _verdict_counterfactual_failure _verdict_unverified
         _verdict_permissible_fragile _verdict_permissible_robust].
  - split; [|split; discriminate]. split; [|reflexivity]. intros _. left. now apply (Hno x rest).
  - split; [|split; discriminate]. split; [|reflexivity]. intros _. right. left.
    unfold Qgeb in Hfii. apply Qle_bool_iff in Hfii. lra.
  - split; [|split; discriminate]. split; [|reflexivity]. intros _. right. right.
    rewrite Hc. cbn [List.length]. lia.
  - split; [|split; [intros _; exact Hs | discriminate]].
    split; [discriminate|]. intros [[y [Hy Hfy]]|[Hge|Hge]].
    + rewrite (proj1 (filter_is_fatal_nil _) Hf y Hy) in Hfy. discriminate.
    + assert (Hge' : (90 # 100 <= j_fii j)%Q) by lra.
      apply Qle_bool_iff in Hge'. unfold Qgeb in Hfii. congruence.
    + lia.
  - split; [|split; [discriminate | intros _; exact Hs]].
    split; [discriminate|]. intros [[y [Hy Hfy]]|[Hge|Hge]].
    + rewrite (proj1 (filter_is_fatal_nil _) Hf y Hy) in Hfy. discriminate.
    + assert (Hge' : (90 # 100 <= j_fii j)%Q) by lra.
      apply Qle_bool_iff in Hge'. unfold Qgeb in Hfii. congruence.
    + lia.
  - split; [|split; [discriminate | intros _; exact Hs]].
    split; [discriminate|]. intros [[y [Hy Hfy]]|[Hge|Hge]].
    + rewrite (proj1 (filter_is_fatal_nil _) Hf y Hy) in Hfy. discriminate.
    + assert (Hge' : (90 # 100 <= j_fii j)%Q) by lra.
      apply Qle_bool_iff in Hge'. unfold Qgeb in Hfii. congruence.
    + lia.
Qed.

Lemma render_verdict_decision_table_witness :
  well_formed (j_graph judge_fatal)
  /\ exists v, render_verdict judge_fatal = Ok v
       /\ (verdict v = NOT_PERMISSIBLE <->
             (exists x, In x (j_violations judge_fatal) /\ is_fatal x = true)
             \/ (9 # 10 <= j_fii judge_fatal)%Q
             \/ 2 <= List.length (get_critical_failures (j_cf_results judge_fatal)))
       /\ (verdict v = UNVERIFIED -> _has_sufficient_data judge_fatal = Ok false)
       /\ (verdict v = PERMISSIBLE -> _has_sufficient_data judge_fatal = Ok true).
Proof.
  assert (Hwf : well_formed (j_graph judge_fatal)) by (split; reflexivity).
  split; [exact Hwf|].
  exact (@render_verdict_decision_table fraction_formatter judge_fatal Hwf).
Defined.


Lemma critical_failures_le_failures (results : list CounterfactualResult) :
  List.length (get_critical_failures results)
  <= List.length (filter (fun r => negb (survived r)) results).
Proof.
  unfold get_critical_failures. apply filter_length_le.
  intros x _ Hx. now apply andb_true_iff in Hx.
Qed.

(** X12.  Whatever branch [render_verdict] takes on a well-formed graph,
    the verdict passes the judge's index and violation list through
    unchanged, its counterfactual failure count never exceeds the number of
    scenarios that did not survive, and its certainty is fixed by the kind
    of verdict: 0.5 for UNVERIFIED, 1 or 0.75 for PERMISSIBLE, 1 or 0.95
    for NOT PERMISSIBLE. *)
Theorem render_verdict_fields `{Formatter} (j : ExistenceJudge) :
  well_formed (j_graph j) ->
  exists v, render_verdict j = Ok v
    /\ v_failure_inevitability_index v = j_fii j
    /\ axiom_violations v = j_violations j
    /\ counterfactual_failures v <= _count_cf_failures j
    /\ match verdict v with
       | UNVERIFIED => v_certainty v = (5 # 10)%Q
       | PERMISSIBLE => v_certainty v = 1%Q \/ v_certainty v = (75 # 100)%Q
       | NOT_PERMISSIBLE => v_certainty v = 1%Q \/ v_certainty v = (95 # 100)%Q
       end.
Proof.
  intros Hwf. destruct (render_verdict_returns j Hwf) as [v Hv].
  exists v. split; [exact Hv|].
  destruct (render_verdict_cases j v Hv)
    as [[x [rest [Hf ->]]]|[[Hf [Hfii ->]]|[[Hf [Hfii [r1 [r2 [rs [Hc ->]]]]]]
       |[Hf [Hfii [Hlen [[Hs ->]|[Hs [->| ->]]]]]]]]];
    cbn [verdict v_certainty v_failure_inevitability_index axiom_violations
         counterfactual_failures
         _verdict_fatal_axiom _verdict_inevitable_failure
         _verdict_counterfactual_failure _verdict_unverified
         _verdict_permissible_fragile _verdict_permissible_robust];
    repeat (split; [reflexivity|]); try (split; [apply Nat.le_refl|]); auto.
  split; [|now right].
  rewrite <- Hc. apply critical_failures_le_failures.
Qed.

Lemma render_verdict_fields_witness :
  well_formed (j_graph judge_fatal)
  /\ exists v, render_verdict judge_fatal = Ok v
       /\ v_failure_inevitability_index v = j_fii judge_fatal
       /\ axiom_violations v = j_violations judge_fatal
       /\ counterfactual_failures v <= _count_cf_failures judge_fatal
       /\ match verdict v with
          | UNVERIFIED => v_certainty v = (5 # 10)%Q
          | PERMISSIBLE => v_certainty v = 1%Q \/ v_certainty v = (75 # 100)%Q
          | NOT_PERMISSIBLE => v_certainty v = 1%Q \/ v_certainty v = (95 # 100)%Q
          end.
Proof.
  assert (Hwf : well_formed (j_graph judge_fatal)) by (split; reflexivity).
  split; [exact Hwf|].
  exact (@render_verdict_fields fraction_formatter judge_fatal Hwf).
Defined.

Lemma all_have_ancestry_false (g : RealityGraph) (behaviors : list Node) :
  all_have_ancestry g behaviors = Ok false ->
  exists b, In b behaviors /\ has_decision_ancestry g b = Ok false.
Proof.
  induction behaviors as [|b bs IH]; cbn [all_have_ancestry]; [discriminate|].
  intros Hb. bind_inv Hb. destruct v; cbn [negb] in Hb.
  - destruct (IH Hb) as [b' [Hin Hb']]. exists b'. split; [now right | exact Hb'].
  - exists b. split; [now left | exact E].
Qed.

Lemma all_have_ancestry_true (g : RealityGraph) (behaviors : list Node) :
  all_have_ancestry g behaviors = Ok true ->
  forall b, In b behaviors -> has_decision_ancestry g b = Ok true.
Proof.
  induction behaviors as [|b bs IH]; cbn [all_have_ancestry]; intros Hb b' Hin;
    [destruct Hin|].
  bind_inv Hb. destruct v; cbn [negb] in Hb; [|discriminate].
  destruct Hin as [<-|Hin]; [exact E | now apply IH].
Qed.

(** X13.  [_has_sufficient_data] and [_identify_missing_data] test different
    things.  When the first says the data is insufficient and the second
    finds nothing missing (there are decisions, behaviours, edges and
    assumptions), the cause is a behaviour node without decision ancestry:
    the UNVERIFIED verdict then reports "Missing: " followed by nothing.
    When the first says the data is sufficient, there is at least one
    decision and one edge and every behaviour has decision ancestry. *)
Theorem insufficient_data_cause (j : ExistenceJudge) :
  (_has_sufficient_data j = Ok false -> _identify_missing_data j = [] ->
   exists b, In b (get_behavior_nodes (j_graph j))
             /\ has_decision_ancestry (j_graph j) b = Ok false)
  /\ (_has_sufficient_data j = Ok true ->
      decisions (get_stats (j_graph j)) <> 0
      /\ total_edges (get_stats (j_graph j)) <> 0
      /\ forall b, In b (get_behavior_nodes (j_graph j)) ->
                   has_decision_ancestry (j_graph j) b = Ok true).
Proof.
  unfold _has_sufficient_data, _identify_missing_data. split.
  - intros Hs Hm.
    destruct (Nat.eqb (decisions (get_stats (j_graph j))) 0); [discriminate Hm|].
    destruct (Nat.eqb (total_edges (get_stats (j_graph j))) 0).
    + destruct (Nat.eqb (behaviors (get_stats (j_graph j))) 0); discriminate Hm.
    + now apply all_have_ancestry_false.
  - intros Hs.
    destruct (Nat.eqb (decisions (get_stats (j_graph j))) 0) eqn:Hd; [discriminate|].
    destruct (Nat.eqb (total_edges (get_stats (j_graph j))) 0) eqn:He; [discriminate|].
    apply Nat.eqb_neq in Hd. apply Nat.eqb_neq in He.
    split; [exact Hd|]. split; [exact He|]. now apply all_have_ancestry_true.
Qed.

(** The judge of [scenario_orphan]: nothing is missing, the data is
    insufficient, the verdict is UNVERIFIED and lists nothing. *)
Lemma insufficient_data_cause_example :
  _identify_missing_data (mkJudge scenario_orphan [] 0 []) = []
  /\ _has_sufficient_data (mkJudge scenario_orphan [] 0 []) = Ok false
  /\ (exists b, In b (get_behavior_nodes scenario_orphan)
                /\ has_decision_ancestry scenario_orphan b = Ok false)
  /\ exists v, @render_verdict fraction_formatter (mkJudge scenario_orphan [] 0 []) = Ok v
               /\ verdict v = UNVERIFIED
               /\ nth_error (supporting_evidence v) 0 = Some (VStr "Missing: ").
Proof.
  assert (Hm : _identify_missing_data (mkJudge scenario_orphan [] 0 []) = [])
    by reflexivity.
  assert (Hs : _has_sufficient_data (mkJudge scenario_orphan [] 0 []) = Ok false)
    by reflexivity.
  split; [exact Hm|]. split; [exact Hs|].
  split; [exact (proj1 (insufficient_data_cause (mkJudge scenario_orphan [] 0 [])) Hs Hm)|].
  eexists. split; [vm_compute; reflexivity|]. split; reflexivity.
Defined.

(** X14.  [get_failure_rate] never raises: it is 0 for an empty result list
    and otherwise the share of scenarios that did not survive, a number
    between 0 and 1 that is 0 exactly when every scenario survived.  The
    critical failures are never more than the failures. *)
Theorem failure_rate_bounds (results : list CounterfactualResult) :
  exists r, get_failure_rate results = Ok r
    /\ (0 <= r <= 1)%Q
    /\ ((r == 0)%Q <-> forall x, In x results -> survived x = true)
    /\ List.length (get_critical_failures results)
       <= List.length (filter (fun x => negb (survived x)) results).
Proof.
  unfold get_failure_rate. destruct results as [|r0 rs].
  - exists 0%Q. split; [reflexivity|]. split; [lra|]. split; [|cbn; lia].
    split; [intros _ x [] | reflexivity].
  - set (results := r0 :: rs).
    set (failed := List.length (filter (fun x => negb (survived x)) results)).
    assert (Hlen : List.length results <> 0) by (cbn; lia).
    assert (Hle : failed <= List.length results) by apply filter_length_bound.
    pose proof (Qnat_pos _ Hlen) as Hpos.
    rewrite (py_div_positive _ _ Hpos). eexists. split; [reflexivity|].
    split.
    { split.
      - apply Qle_shift_div_l; [assumption|]. pose proof (Qnat_nonneg failed). lra.
      - apply Qle_shift_div_r; [assumption|]. pose proof (Qnat_le _ _ Hle). lra. }
    split; [|apply critical_failures_le_failures].
    assert (Hzero : failed = 0 <-> forall x, In x results -> survived x = true).
    { unfold failed. split.
      - intros Hz x Hx. destruct (survived x) eqn:Hsx; [reflexivity|].
        assert (Hin : In x (filter (fun x => negb (survived x)) results))
          by (apply filter_In; split; [assumption | now rewrite Hsx]).
        destruct (filter (fun x => negb (survived x)) results); [destruct Hin | discriminate].
      - intros Hall.
        destruct (filter (fun x => negb (survived x)) results) as [|y ys] eqn:Hf;
          [reflexivity|].
        assert (Hy : In y (filter (fun x => negb (survived x)) results))
          by (rewrite Hf; now left).
        apply filter_In in Hy. destruct Hy as [Hin Hsy].
        rewrite (Hall y Hin) in Hsy. discriminate. }
    rewrite <- Hzero. split.
    + intros Hr.
      assert (Hq : (Qnat failed == 0)%Q).
      { rewrite <- (Qmult_div_r (Qnat failed) (Qnat (List.length results)));
          [|lra]. rewrite Hr. ring. }
      unfold Qnat in Hq. change 0%Q with (inject_Z 0) in Hq.
      apply (proj1 (inject_Z_injective _ _)) in Hq. lia.
    + intros ->. unfold Qdiv. change (Qnat 0) with 0%Q. ring.
Qed.


(* ------------------------------------------------------------------ *)
(** ** [add_edge] between two nodes *)

(** What [add_edge] leaves when both endpoints are nodes of a well-formed
    graph. *)
Lemma add_edge_ok (g : RealityGraph) (edge : Edge) :
  well_formed g ->
  dict_mem (e_source edge) (nodes g) = true ->
  dict_mem (e_target edge) (nodes g) = true ->
  exists out inc,
    dict_get (e_source edge) (_adjacency g) = Some out
    /\ dict_get (e_target edge) (_reverse_adjacency g) = Some inc
    /\ add_edge edge g
       = (Ok edge,
          mkGraph (nodes g) (dict_set (e_id edge) edge (edges g))
            (dict_set (e_source edge) (set_add (e_id edge) out) (_adjacency g))
            (dict_set (e_target edge) (set_add (e_id edge) inc) (_reverse_adjacency g))).
Proof.
  intros [_ Hl] Hs Ht. apply lockstepb_spec in Hl. destruct Hl as [_ [_ [L3 _]]].
  destruct (L3 (e_source edge)) as [Ha _]; [now apply dict_mem_in_keys|].
  destruct (L3 (e_target edge)) as [_ Hr]; [now apply dict_mem_in_keys|].
  apply dict_mem_get in Ha. destruct Ha as [out Hout].
  apply dict_mem_get in Hr. destruct Hr as [inc Hinc].
  exists out, inc. split; [exact Hout|]. split; [exact Hinc|].
  unfold add_edge. rewrite Hs, Ht. cbn [negb _adjacency _reverse_adjacency nodes edges].
  now rewrite Hout, Hinc.
Qed.

Lemma bucket_get (idx : dict pyset) (k : string) (s : pyset) :
  dict_get k idx = Some s -> bucket idx k = s.
Proof.
  intros Hg. unfold bucket. now rewrite Hg.
Qed.

Lemma add_edge_well_formed (g : RealityGraph) (edge : Edge) :
  well_formed g ->
  dict_mem (e_source edge) (nodes g) = true ->
  dict_mem (e_target edge) (nodes g) = true ->
  dict_mem (e_id edge) (edges g) = false ->
  well_formed (exec (add_edge edge) g).
Proof.
  intros Hwf Hs Ht Hfresh.
  destruct (add_edge_ok g edge Hwf Hs Ht) as [out [inc [Hout [Hinc Hadd]]]].
  unfold exec. rewrite Hadd. cbn [snd].
  destruct Hwf as [Hk Hl]. apply keyedb_spec in Hk. apply lockstepb_spec in Hl.
  destruct Hk as [K1 [K2 [K3 [K4 [K5 K6]]]]].
  destruct Hl as [L1 [L2 [L3 [L4 [L5 L6]]]]].
  assert (Hma : dict_mem (e_source edge) (_adjacency g) = true)
    by (apply dict_mem_get; now exists out).
  assert (Hmr : dict_mem (e_target edge) (_reverse_adjacency g) = true)
    by (apply dict_mem_get; now exists inc).
  assert (Hold : forall eid e, dict_get eid (edges g) = Some e ->
                   dict_get eid (dict_set (e_id edge) edge (edges g)) = Some e).
  { intros eid e He. rewrite dict_get_set_other; [exact He|].
    intros ->. unfold dict_mem in Hfresh. now rewrite He in Hfresh. }
  split.
  - apply keyedb_spec. cbn [nodes edges _adjacency _reverse_adjacency].
    rewrite (dict_keys_set_present _ _ _ Hma), (dict_keys_set_present _ _ _ Hmr).
    split; [exact K1|]. split; [now apply nodup_keys_dict_set|].
    split; [exact K3|]. split; [exact K4|]. split; [exact K5|].
    intros k e Hin. apply in_dict_set in Hin.
    destruct Hin as [[-> ->]|Hin]; [reflexivity | now apply K6].
  - apply lockstepb_spec. cbn [nodes edges _adjacency _reverse_adjacency].
    rewrite (dict_keys_set_present _ _ _ Hma), (dict_keys_set_present _ _ _ Hmr).
    split; [exact L1|]. split; [exact L2|].
    split.
    { intros k Hk. destruct (L3 k Hk) as [Ha Hr].
      rewrite !dict_mem_set, Ha, Hr, !orb_true_r. now split. }
    split.
    { intros eid e Hin. rewrite !bucket_set. apply in_dict_set in Hin.
      destruct Hin as [[-> ->]|Hin].
      - rewrite !String.eqb_refl. repeat split; try assumption; apply in_set_add.
      - destruct (L4 eid e Hin) as [H1 [H2 [H3 H4]]].
        split; [|split; [|now split]].
        + destruct (String.eqb (e_source e) (e_source edge)) eqn:E; [|exact H1].
          apply String.eqb_eq in E. rewrite E in H1.
          rewrite (bucket_get _ _ _ Hout) in H1. apply in_set_add_iff. now right.
        + destruct (String.eqb (e_target e) (e_target edge)) eqn:E; [|exact H2].
          apply String.eqb_eq in E. rewrite E in H2.
          rewrite (bucket_get _ _ _ Hinc) in H2. apply in_set_add_iff. now right. }
    split.
    + intros k s eid Hks Hes. apply in_dict_set in Hks.
      destruct Hks as [[-> ->]|Hks].
      * apply in_set_add_iff in Hes. destruct Hes as [->|Hes].
        -- exists edge. split; [apply dict_get_set_same | reflexivity].
        -- destruct (L5 (e_source edge) out eid) as [e [He Hse]];
             [now apply dict_get_in | exact Hes|].
           exists e. split; [now apply Hold | exact Hse].
      * destruct (L5 k s eid Hks Hes) as [e [He Hse]].
        exists e. split; [now apply Hold | exact Hse].
    + intros k s eid Hks Hes. apply in_dict_set in Hks.
      destruct Hks as [[-> ->]|Hks].
      * apply in_set_add_iff in Hes. destruct Hes as [->|Hes].
        -- exists edge. split; [apply dict_get_set_same | reflexivity].
        -- destruct (L6 (e_target edge) inc eid) as [e [He Hte]];
             [now apply dict_get_in | exact Hes|].
           exists e. split; [now apply Hold | exact Hte].
      * destruct (L6 k s eid Hks Hes) as [e [He Hte]].
        exists e. split; [now apply Hold | exact Hte].
Qed.

Lemma mapM_index_in (edges0 : dict Edge) (ids : list string) (es : list Edge)
    (eid : string) (e : Edge) :
  mapM (fun i => dict_index i edges0) ids = Ok es ->
  In eid ids -> dict_get eid edges0 = Some e -> In e es.
Proof.
  intros Hm Hin Hget.
  destruct (mapM_ok_in _ _ _ eid Hm Hin) as [y [Hy Hiny]].
  rewrite (dict_get_index _ _ _ Hget) in Hy. now injection Hy as <-.
Qed.

(** X15.  [add_edge] of an edge with a new id between two nodes of a
    well-formed graph returns the edge and leaves a well-formed graph: the
    nodes are untouched, the edge is appended to the edge store and is what
    [get_edge] returns for its id, [get_outgoing_edges] of its source and
    [get_incoming_edges] of its target list it, and the buckets of all
    other nodes are unchanged. *)
Theorem add_edge_round_trip (g : RealityGraph) (edge : Edge) :
  well_formed g ->
  dict_mem (e_source edge) (nodes g) = true ->
  dict_mem (e_target edge) (nodes g) = true ->
  dict_mem (e_id edge) (edges g) = false ->
  fst (add_edge edge g) = Ok edge
  /\ well_formed (exec (add_edge edge) g)
  /\ nodes (exec (add_edge edge) g) = nodes g
  /\ edges (exec (add_edge edge) g) = (edges g ++ [(e_id edge, edge)])%list
  /\ get_edge (exec (add_edge edge) g) (e_id edge) = Some edge
  /\ (exists es, get_outgoing_edges (exec (add_edge edge) g) (e_source edge) = Ok es
                 /\ In edge es)
  /\ (exists es, get_incoming_edges (exec (add_edge edge) g) (e_target edge) = Ok es
                 /\ In edge es)
  /\ (forall k, k <> e_source edge ->
        bucket (_adjacency (exec (add_edge edge) g)) k = bucket (_adjacency g) k)
  /\ (forall k, k <> e_target edge ->
        bucket (_reverse_adjacency (exec (add_edge edge) g)) k
        = bucket (_reverse_adjacency g) k).
Proof.
  intros Hwf Hs Ht Hfresh.
  pose proof (add_edge_well_formed g edge Hwf Hs Ht Hfresh) as Hwf'.
  destruct (add_edge_ok g edge Hwf Hs Ht) as [out [inc [Hout [Hinc Hadd]]]].
  destruct (wf_outgoing _ Hwf' (e_source edge)) as [eso [Heso _]].
  destruct (wf_incoming _ Hwf' (e_target edge)) as [esi [Hesi _]].
  revert Hwf' Heso Hesi. unfold exec. rewrite Hadd. cbn [fst snd]. intros Hwf' Heso Hesi.
  split; [reflexivity|]. split; [exact Hwf'|].
  cbn [nodes edges _adjacency _reverse_adjacency].
  split; [reflexivity|]. split; [now apply dict_set_absent|].
  split; [apply dict_get_set_same|].
  split.
  { exists eso. split; [exact Heso|].
    unfold get_outgoing_edges in Heso. cbn [edges _adjacency] in Heso.
    apply (mapM_index_in _ _ _ (e_id edge) edge Heso); [|apply dict_get_set_same].
    rewrite bucket_set, String.eqb_refl. apply in_set_add. }
  split.
  { exists esi. split; [exact Hesi|].
    unfold get_incoming_edges in Hesi. cbn [edges _reverse_adjacency] in Hesi.
    apply (mapM_index_in _ _ _ (e_id edge) edge Hesi); [|apply dict_get_set_same].
    rewrite bucket_set, String.eqb_refl. apply in_set_add. }
  split.
  - intros k Hk. rewrite bucket_set. apply String.eqb_neq in Hk. now rewrite Hk.
  - intros k Hk. rewrite bucket_set. apply String.eqb_neq in Hk. now rewrite Hk.
Qed.

Lemma add_edge_round_trip_witness :
  well_formed scenario_orphan
  /\ fst (add_edge (edge_of "E2" "D1" "B1" CAUSES []) scenario_orphan)
     = Ok (edge_of "E2" "D1" "B1" CAUSES [])
  /\ well_formed (exec (add_edge (edge_of "E2" "D1" "B1" CAUSES [])) scenario_orphan)
  /\ get_edge (exec (add_edge (edge_of "E2" "D1" "B1" CAUSES [])) scenario_orphan) "E2"
     = Some (edge_of "E2" "D1" "B1" CAUSES []).
Proof.
  assert (Hwf : well_formed scenario_orphan) by (split; reflexivity).
  split; [exact Hwf|].
  destruct (add_edge_round_trip scenario_orphan (edge_of "E2" "D1" "B1" CAUSES [])
              Hwf eq_refl eq_refl eq_refl) as [H1 [H2 [_ [_ [H5 _]]]]].
  split; [exact H1|]. split; [exact H2 | exact H5].
Defined.


(* ------------------------------------------------------------------ *)
(** ** [has_decision_ancestry] is backward reachability of a decision *)

Lemma NodeType_eqb_eq (a b : NodeType) : NodeType_eqb a b = true <-> a = b.
Proof.
  destruct a, b; cbn; split; intros Hx; try reflexivity; discriminate Hx.
Qed.

Lemma incoming_sources_pushed (g : RealityGraph) (v : string) (es : list Edge) :
  get_incoming_edges g v = Ok es ->
  forall s, In s (map e_source es) <-> incoming_source g v s.
Proof.
  unfold get_incoming_edges. intros Hes s. split.
  - intros Hs. apply in_map_iff in Hs. destruct Hs as [e [<- He]].
    destruct (mapM_ok_inv _ _ _ e Hes He) as [eid [Heid Hidx]].
    exists eid, e. split; [exact Heid|]. split; [now apply dict_index_ok | reflexivity].
  - intros [eid [e [Heid [Hget <-]]]]. apply in_map.
    exact (mapM_index_in (edges g) _ es eid e Hes Heid Hget).
Qed.

(** When the loop answers [True], a decision is reached from the stack. *)
Lemma ancestry_loop_true (g : RealityGraph) (fuel : nat) :
  forall visited stack,
    ancestry_loop g fuel visited stack = Ok true ->
    exists s d, In s stack /\ reaches_back g s d /\ is_decision g d.
Proof.
  induction fuel as [|fuel IH]; intros visited stack Hloop;
    destruct stack as [|c rest]; cbn [ancestry_loop] in Hloop; try discriminate.
  destruct (set_mem c visited).
  - destruct (IH _ _ Hloop) as [s [d [Hs Hd]]]. exists s, d. split; [now right | exact Hd].
  - bind_inv Hloop. destruct (NodeType_eqb (n_type v) DECISION) eqn:Hdec.
    + exists c, c. split; [now left|]. split; [constructor|].
      exists v. split; [now apply dict_index_ok | now apply NodeType_eqb_eq].
    + bind_inv Hloop. rewrite fold_left_push in Hloop.
      destruct (IH _ _ Hloop) as [s [d [Hs [Hreach Hd]]]].
      apply in_app_or in Hs. destruct Hs as [Hs|Hs].
      * apply in_rev in Hs. apply (incoming_sources_pushed g c v0 E0) in Hs.
        exists c, d. split; [now left|]. split; [|exact Hd].
        now apply (reaches_back_step g c s d).
      * exists s, d. split; [now right|]. now split.
Qed.

(** When the loop answers [False], it has visited a set that holds the
    stack, is closed under incoming edges (from what it visited itself) and
    holds no decision it visited itself. *)
Lemma ancestry_loop_false (g : RealityGraph) (fuel : nat) :
  forall visited stack,
    ancestry_loop g fuel visited stack = Ok false ->
    exists V : list string,
      incl visited V /\ incl stack V
      /\ forall v, In v V ->
           In v visited
           \/ (~ is_decision g v /\ forall s, incoming_source g v s -> In s V).
Proof.
  induction fuel as [|fuel IH]; intros visited stack Hloop;
    destruct stack as [|c rest]; cbn [ancestry_loop] in Hloop; try discriminate.
  - exists visited. split; [apply incl_refl|]. split; [intros x []|]. intros v Hv. now left.
  - exists visited. split; [apply incl_refl|]. split; [intros x []|]. intros v Hv. now left.
  - destruct (set_mem c visited) eqn:Hc.
    + destruct (IH _ _ Hloop) as [V [Hvis [Hst HV]]].
      exists V. split; [exact Hvis|]. split; [|exact HV].
      intros x [<-|Hx]; [apply Hvis; now apply set_mem_in | now apply Hst].
    + bind_inv Hloop. destruct (NodeType_eqb (n_type v) DECISION) eqn:Hdec; [discriminate|].
      bind_inv Hloop. rewrite fold_left_push in Hloop.
      destruct (IH _ _ Hloop) as [V [Hvis [Hst HV]]].
      exists V. split; [intros x Hx; apply Hvis; now apply incl_set_add|].
      split.
      { intros x [<-|Hx]; [apply Hvis; apply in_set_add|].
        apply Hst. apply in_or_app. now right. }
      intros x Hx. destruct (HV x Hx) as [Hin|Hclosed]; [|now right].
      apply in_set_add_iff in Hin. destruct Hin as [->|Hin]; [|now left].
      right. split.
      * intros [n [Hn Hty]]. apply dict_index_ok in E. rewrite E in Hn.
        injection Hn as <-. apply NodeType_eqb_eq in Hty. congruence.
      * intros s Hs. apply Hst. apply in_or_app. left. apply -> in_rev.
        now apply (incoming_sources_pushed g c v0 E0).
Qed.

Lemma closed_set_reaches (g : RealityGraph) (V : list string) :
  (forall v, In v V -> ~ is_decision g v /\ forall s, incoming_source g v s -> In s V) ->
  forall x d, reaches_back g x d -> In x V -> In d V.
Proof.
  intros HV x d Hreach. induction Hreach as [x|x s d Hs _ IH]; intros Hx; [exact Hx|].
  apply IH. now apply (proj2 (HV x Hx)).
Qed.

Lemma has_decision_ancestry_correct (g : RealityGraph) (node : Node) :
  well_formed g -> dict_mem (n_id node) (nodes g) = true ->
  exists b, has_decision_ancestry g node = Ok b
    /\ (b = true <-> exists d, reaches_back g (n_id node) d /\ is_decision g d).
Proof.
  intros Hwf Hnode.
  destruct (has_decision_ancestry_total g node Hwf Hnode) as [b Hb].
  exists b. split; [exact Hb|]. unfold has_decision_ancestry in Hb.
  destruct b.
  - split; [|reflexivity]. intros _.
    destruct (ancestry_loop_true g _ _ _ Hb) as [s [d [Hs Hd]]].
    destruct Hs as [<-|[]]. now exists d.
  - split; [discriminate|]. intros [d [Hreach Hdec]]. exfalso.
    destruct (ancestry_loop_false g _ _ _ Hb) as [V [_ [Hst HV]]].
    assert (HV' : forall v, In v V ->
              ~ is_decision g v /\ forall s, incoming_source g v s -> In s V).
    { intros v Hv. destruct (HV v Hv) as [[]|Hc]. exact Hc. }
    assert (Hd : In d V).
    { apply (closed_set_reaches g V HV' (n_id node) d Hreach). apply Hst. now left. }
    now apply (proj1 (HV' d Hd)).
Qed.

(** X16.  [has_decision_ancestry] decides backward reachability.  For a
    node of a well-formed graph it returns a boolean, and the boolean is
    [True] exactly when the node is a decision or a decision is reached
    from it by following incoming edges backwards, over edges of any
    type. *)
Theorem has_decision_ancestry_reachability (g : RealityGraph) (node : Node) :
  well_formed g -> dict_mem (n_id node) (nodes g) = true ->
  exists b, has_decision_ancestry g node = Ok b
    /\ (b = true <-> exists d, reaches_back g (n_id node) d /\ is_decision g d).
Proof.
  exact (has_decision_ancestry_correct g node).
Qed.

Lemma has_decision_ancestry_reachability_witness :
  well_formed scenario_orphan
  /\ dict_mem (n_id (node_of "A1" ASSUMPTION [])) (nodes scenario_orphan) = true
  /\ exists b, has_decision_ancestry scenario_orphan (node_of "A1" ASSUMPTION []) = Ok b
       /\ (b = true <-> exists d, reaches_back scenario_orphan "A1" d
                                  /\ is_decision scenario_orphan d).
Proof.
  assert (Hwf : well_formed scenario_orphan) by (split; reflexivity).
  split; [exact Hwf|]. split; [reflexivity|].
  exact (has_decision_ancestry_reachability scenario_orphan
           (node_of "A1" ASSUMPTION []) Hwf eq_refl).
Defined.


Lemma filter_nil_iff {A : Type} (p : A -> bool) (l : list A) :
  filter p l = [] <-> forall x, In x l -> p x = false.
Proof.
  split.
  - intros Hnil x Hin. destruct (p x) eqn:Hp; [|reflexivity].
    assert (Hx : In x (filter p l)) by (apply filter_In; now split).
    rewrite Hnil in Hx. destruct Hx.
  - intros Hall. destruct (filter p l) as [|x rest] eqn:Hf; [reflexivity|].
    assert (Hx : In x (filter p l)) by (rewrite Hf; now left).
    apply filter_In in Hx. destruct Hx as [Hin Hpx]. rewrite (Hall x Hin) in Hpx.
    discriminate.
Qed.

(** X17.  The existence axiom, in terms of the graph.  On a well-formed
    graph [ExistenceAxiom.verify] returns; it reports nothing exactly when
    every behaviour node is reached backwards from some decision node, and
    otherwise reports a violation of severity 0.8, which is not fatal. *)
Theorem existence_axiom_semantics (g : RealityGraph) (context : Context) :
  well_formed g ->
  exists o, ExistenceAxiom_verify g context = Ok o
    /\ (o = None <->
        forall b, In b (get_behavior_nodes g) ->
                  exists d, reaches_back g (n_id b) d /\ is_decision g d)
    /\ forall v, o = Some v -> severity v = (8 # 10)%Q /\ is_fatal v = false.
Proof.
  intros Hwf. destruct (ExistenceAxiom_verify_total g Hwf context) as [o Ho].
  exists o. split; [exact Ho|].
  assert (Hbeh : forall b, In b (get_behavior_nodes g) ->
            exists f, has_decision_ancestry g b = Ok f
              /\ (f = true <-> exists d, reaches_back g (n_id b) d /\ is_decision g d)).
  { intros b Hb. apply has_decision_ancestry_correct; [exact Hwf|].
    apply (wf_node_value g Hwf). now apply (nodes_by_type_values g BEHAVIOR). }
  split.
  - unfold ExistenceAxiom_verify in Ho. bind_inv Ho.
    assert (Horph : map (fun nb : Node * bool => n_id (fst nb))
                      (filter (fun nb => negb (snd nb)) v) = []
                    <-> forall nb, In nb v -> snd nb = true).
    { split.
      - intros Hm. apply map_eq_nil in Hm. intros nb Hnb.
        pose proof (proj1 (filter_nil_iff _ _) Hm nb Hnb) as Hf. cbv beta in Hf.
        now destruct (snd nb).
      - intros Hall. replace (filter (fun nb => negb (snd nb)) v) with (@nil (Node * bool));
          [reflexivity|].
        symmetry. apply filter_nil_iff. intros nb Hnb. now rewrite (Hall nb Hnb). }
    destruct (map _ (filter _ v)) as [|o0 os] eqn:Hmap.
    + injection Ho as <-. split; [|reflexivity]. intros _ b Hb.
      destruct (Hbeh b Hb) as [f [Hf Hiff]]. apply Hiff.
      destruct (mapM_ok_in _ _ _ b E Hb) as [nb [Hnb Hin]].
      rewrite Hf in Hnb. cbn [bind] in Hnb. injection Hnb as <-.
      exact (proj1 Horph eq_refl (b, f) Hin).
    + injection Ho as <-. split; [discriminate|]. intros Hall. exfalso.
      assert (Hnil : o0 :: os = []); [|discriminate].
      apply Horph. intros nb Hnb.
      destruct (mapM_ok_inv _ _ _ nb E Hnb) as [b [Hb Hfb]].
      destruct (Hbeh b Hb) as [f [Hf Hiff]]. rewrite Hf in Hfb. cbn [bind] in Hfb.
      injection Hfb as <-. cbn [snd]. apply Hiff. now apply Hall.
  - intros v Hv. subst o.
    destruct (ExistenceAxiom_reports g context v Ho) as [_ Hs].
    split; [exact Hs|]. unfold is_fatal. now rewrite Hs.
Qed.

Lemma existence_axiom_semantics_witness :
  well_formed scenario_orphan
  /\ exists o, ExistenceAxiom_verify scenario_orphan empty_context = Ok o
       /\ (o = None <->
           forall b, In b (get_behavior_nodes scenario_orphan) ->
                     exists d, reaches_back scenario_orphan (n_id b) d
                               /\ is_decision scenario_orphan d).
Proof.
  assert (Hwf : well_formed scenario_orphan) by (split; reflexivity).
  split; [exact Hwf|].
  destruct (existence_axiom_semantics scenario_orphan empty_context Hwf)
    as [o [H1 [H2 _]]].
  exists o. split; [exact H1 | exact H2].
Defined.


(* ------------------------------------------------------------------ *)
(** ** High availability beside a single point *)

Lemma logical_contradiction_found (g : RealityGraph) (ha sp : Node) :
  In ha (get_decision_nodes g) ->
  contains "high" (lower (n_name ha)) = true ->
  contains "availab" (lower (n_name ha)) = true ->
  In sp (get_decision_nodes g) ->
  contains "single" (lower (n_name sp)) = true ->
  exists c, In c (_find_logical_contradictions g)
            /\ c_node_a c = ha /\ c_node_b c = sp /\ c_severity c = (95 # 100)%Q.
Proof.
  intros Hha H1 H2 Hsp H3.
  exists (mkContradiction ha sp
            (VStr "High availability cannot coexist with single point of failure")
            (95 # 100)
            [n_name ha; "requires_redundancy"; n_name sp; "lacks_redundancy"]).
  split; [|now repeat split].
  unfold _find_logical_contradictions. apply in_or_app. left.
  apply in_concat. eexists. split.
  - apply in_map_iff. exists ha. split; [reflexivity|].
    apply filter_In. split; [exact Hha | now rewrite H1, H2].
  - apply in_map_iff. exists sp. split; [reflexivity|].
    apply filter_In. split; [exact Hsp | exact H3].
Qed.

Lemma ContradictionLaw_verify_max `{Formatter} (g : RealityGraph) (context : Context)
    (cs : list Contradiction) (o : option AxiomViolation) (c : Contradiction) :
  find_contradictions g = Ok cs -> In c cs ->
  ContradictionLaw_verify g context = Ok o ->
  exists v, o = Some v /\ axiom_name v = "CONTRADICTION_LAW"
            /\ (c_severity c <= severity v)%Q.
Proof.
  intros Hcs Hc Ho. unfold ContradictionLaw_verify in Ho. rewrite Hcs in Ho.
  cbn [bind] in Ho. destruct cs as [|c0 cs0]; [destruct Hc|].
  bind_inv Ho. injection Ho as <-. eexists. split; [reflexivity|].
  split; [reflexivity|]. cbn [severity].
  apply (py_max_list_ge _ _ _ E). now apply in_map.
Qed.

(** X18.  A decision whose name mentions "high" and "availab" beside a
    decision whose name mentions "single" (the same decision will do) is a
    contradiction of severity 0.95.  On a graph that holds such decisions,
    whenever [verify_all] returns, whatever the context, it reports a fatal
    violation of the contradiction law, and the judge that receives the
    violations returns NOT PERMISSIBLE for the reason
    "Fatal violation of CONTRADICTION_LAW", whatever index and
    counterfactual results it is given. *)
Theorem ha_single_point_not_permissible `{Formatter} (g : RealityGraph)
    (context : Context) (fii : Q) (cf : list CounterfactualResult) (ha sp : Node)
    (vs : list AxiomViolation) :
  In ha (get_decision_nodes g) ->
  contains "high" (lower (n_name ha)) = true ->
  contains "availab" (lower (n_name ha)) = true ->
  In sp (get_decision_nodes g) ->
  contains "single" (lower (n_name sp)) = true ->
  verify_all g context = Ok vs ->
  (exists c, In c (_find_logical_contradictions g)
             /\ c_node_a c = ha /\ c_node_b c = sp /\ c_severity c = (95 # 100)%Q)
  /\ exists v vd,
       In v vs /\ axiom_name v = "CONTRADICTION_LAW" /\ is_fatal v = true
       /\ render_verdict (mkJudge g vs fii cf) = Ok vd
       /\ verdict vd = NOT_PERMISSIBLE
       /\ primary_reason vd = "Fatal violation of CONTRADICTION_LAW".
Proof.
  intros Hha H1 H2 Hsp H3 Hvs.
  pose proof (logical_contradiction_found g ha sp Hha H1 H2 Hsp H3) as Hfound.
  split; [exact Hfound|].
  destruct Hfound as [c [Hc [_ [_ Hsev]]]].
  destruct (verify_all_reported g context vs Hvs)
    as [o1 [o2 [o3 [o4 [o5 [o6 [Ho1 [Ho2 [_ [_ [_ [_ Heq]]]]]]]]]]]].
  destruct (find_contradictions g) as [cs| |] eqn:Hcs;
    try (unfold ContradictionLaw_verify in Ho2; rewrite Hcs in Ho2; discriminate Ho2).
  assert (Hccs : In c cs).
  { pose proof Hcs as Hcs'. unfold find_contradictions in Hcs'. bind_inv Hcs'.
    injection Hcs' as <-. apply in_or_app. right. apply in_or_app. now right. }
  destruct (ContradictionLaw_verify_max g context cs o2 c Hcs Hccs Ho2)
    as [v [-> [Hname Hmax]]].
  assert (Hfatal : is_fatal v = true) by (apply is_fatal_iff; rewrite Hsev in Hmax; lra).
  assert (Hfirst : exists rest, filter is_fatal vs = v :: rest).
  { subst vs. rewrite filter_app.
    replace (filter is_fatal (reported o1)) with (@nil AxiomViolation).
    - cbn [reported app filter]. rewrite Hfatal. now eexists.
    - destruct o1 as [v1|]; [|reflexivity]. cbn [reported filter].
      destruct (ExistenceAxiom_reports g context v1 Ho1) as [_ Hs1].
      unfold is_fatal. now rewrite Hs1. }
  destruct Hfirst as [rest Hrest].
  exists v, (_verdict_fatal_axiom (mkJudge g vs fii cf) v).
  split; [subst vs; apply in_or_app; right; now left|].
  split; [exact Hname|]. split; [exact Hfatal|].
  split; [unfold render_verdict; cbn [j_violations]; now rewrite Hrest|].
  split; [reflexivity|]. cbn [primary_reason _verdict_fatal_axiom]. now rewrite Hname.
Qed.

Lemma ha_single_point_not_permissible_witness :
  exists vs v vd,
    verify_all scenario_ha_single empty_context = Ok vs
    /\ In v vs /\ axiom_name v = "CONTRADICTION_LAW" /\ is_fatal v = true
    /\ render_verdict (mkJudge scenario_ha_single vs 0 []) = Ok vd
    /\ verdict vd = NOT_PERMISSIBLE
    /\ primary_reason vd = "Fatal violation of CONTRADICTION_LAW".
Proof.
  assert (E : exists vs, verify_all scenario_ha_single empty_context = Ok vs)
    by (vm_compute; eexists; reflexivity).
  destruct E as [vs E]. exists vs.
  destruct (@ha_single_point_not_permissible fraction_formatter scenario_ha_single
              empty_context 0%Q []
              (node_of "Highly available API on a single database" DECISION [])
              (node_of "Highly available API on a single database" DECISION [])
              vs (or_introl eq_refl) eq_refl eq_refl (or_introl eq_refl) eq_refl E)
    as [_ [v [vd Hrest]]].
  exists v, vd. split; [exact E | exact Hrest].
Defined.


(* ------------------------------------------------------------------ *)
(** ** [compute_causal_paths] *)

(** A search that returned with some room returns the same with more. *)
Lemma dfs_edges_more_room (rec1 rec2 : string -> PathState -> result PathState) :
  (forall t s r, rec1 t s = Ok r -> rec2 t s = Ok r) ->
  forall es st r, dfs_edges rec1 es st = Ok r -> dfs_edges rec2 es st = Ok r.
Proof.
  intros Hrec. induction es as [|edge es IH]; intros st r Hr; cbn [dfs_edges] in *.
  - exact Hr.
  - destruct (is_causal edge); [|now apply IH].
    destruct (rec1 (e_target edge) st) as [st1| |] eqn:E; cbn [bind] in Hr;
      try discriminate Hr.
    rewrite (Hrec _ _ _ E). cbn [bind]. now apply IH.
Qed.

Lemma dfs_more_room (g : RealityGraph) (to_id : string) (room : nat) :
  forall room' node st r,
    room <= room' -> dfs g to_id room node st = Ok r ->
    dfs g to_id room' node st = Ok r.
Proof.
  induction room as [|room IH]; intros room' node st r Hle Hr; [discriminate Hr|].
  destruct room' as [|room']; [lia|]. cbn [dfs] in *.
  destruct (set_mem node (ps_visited st)); [exact Hr|].
  destruct (String.eqb node to_id); [exact Hr|].
  destruct (get_outgoing_edges g node) as [out| |]; cbn [bind] in *;
    try discriminate Hr.
  match type of Hr with
  | bind ?m _ = _ => destruct m as [st2| |] eqn:E; cbn [bind] in Hr; try discriminate Hr
  end.
  rewrite (dfs_edges_more_room (dfs g to_id room) (dfs g to_id room')
             (fun t s r0 Hr0 => IH room' t s r0 (le_S_n _ _ Hle) Hr0) _ _ _ E).
  exact Hr.
Qed.

Section CausalPaths.
Context `{Interpreter}.
Variable g : RealityGraph.
Variables from_id to_id : string.
Hypothesis Hwf : well_formed g.

(** The ids [dfs] can enter: the start and the nodes, which hold the target
    of every edge. *)
Let universe : list string := from_id :: dict_keys (nodes g).

(** A simple causal path from the start to the goal. *)
Let good (p : list string) : Prop :=
  hd_error p = Some from_id /\ last p "" = to_id /\ NoDup p /\ causal_path g p.

Let inv (st : PathState) : Prop :=
  ps_visited st = ps_current_path st
  /\ NoDup (ps_current_path st)
  /\ incl (ps_current_path st) universe
  /\ causal_path g (ps_current_path st)
  /\ (ps_current_path st = [] \/ hd_error (ps_current_path st) = Some from_id)
  /\ Forall good (ps_paths st).

(** What a call [dfs(node)] from [st] returns: the closed-over path and
    visited set are as before, the paths found before are kept, and every
    simple causal continuation from [node] to the goal has been recorded. *)
Let post (node : string) (st : PathState) (r : result PathState) : Prop :=
  exists st', r = Ok st' /\ inv st'
    /\ ps_current_path st' = ps_current_path st
    /\ incl (ps_paths st) (ps_paths st')
    /\ forall q, hd_error q = Some node -> last q "" = to_id ->
         NoDup (ps_current_path st ++ q)%list -> causal_path g q ->
         In (ps_current_path st ++ q)%list (ps_paths st').

Lemma causal_path_snoc (l : list string) (x : string) :
  causal_path g l -> (l <> [] -> causal_step g (last l "") x) ->
  causal_path g (l ++ [x])%list.
Proof.
  induction l as [|a l IH]; intros Hl Hx; [exact I|].
  destruct l as [|b l'].
  - cbn. split; [|exact I]. apply Hx. discriminate.
  - cbn [app causal_path] in *. destruct Hl as [Hab Hl]. split; [exact Hab|].
    apply IH; [exact Hl|]. intros _. apply Hx. discriminate.
Qed.

Lemma causal_path_tail (a : string) (l : list string) :
  causal_path g (a :: l) -> causal_path g l.
Proof.
  destruct l as [|b l']; [intros _; exact I|]. now intros [_ Hl].
Qed.

Lemma edge_target_in_universe (eid : string) (e : Edge) :
  dict_get eid (edges g) = Some e -> In (e_target e) universe.
Proof.
  intros Hget. right. apply dict_mem_in_keys.
  now apply (wf_edge_endpoints g Hwf eid e), dict_get_in.
Qed.

Lemma dfs_edges_post (recurse : string -> PathState -> result PathState)
    (node : string) (cp1 : list string) :
  (forall target st, inv st -> ps_current_path st = cp1 -> In target universe ->
     causal_step g node target -> post target st (recurse target st)) ->
  forall es st,
    (forall e, In e es -> exists eid, In eid (bucket (_adjacency g) node)
                                      /\ dict_get eid (edges g) = Some e) ->
    inv st -> ps_current_path st = cp1 ->
    exists st', dfs_edges recurse es st = Ok st' /\ inv st'
      /\ ps_current_path st' = cp1
      /\ incl (ps_paths st) (ps_paths st')
      /\ forall e q, In e es -> is_causal e = true ->
           hd_error q = Some (e_target e) -> last q "" = to_id ->
           NoDup (cp1 ++ q)%list -> causal_path g q ->
           In (cp1 ++ q)%list (ps_paths st').
Proof.
  intros Hrec. induction es as [|edge es IH]; intros st Hes Hinv Hcp; cbn [dfs_edges].
  - exists st. split; [reflexivity|]. split; [exact Hinv|]. split; [exact Hcp|].
    split; [apply incl_refl|]. intros e q [].
  - assert (Hes' : forall e, In e es ->
              exists eid, In eid (bucket (_adjacency g) node)
                          /\ dict_get eid (edges g) = Some e)
      by (intros e He; apply Hes; now right).
    destruct (is_causal edge) eqn:Hc.
    + destruct (Hes edge (or_introl eq_refl)) as [eid [Hb Hget]].
      destruct (Hrec (e_target edge) st Hinv Hcp) as [st1 [Hr [Hinv1 [Hcp1 [Hinc1 Hall1]]]]].
      { now apply (edge_target_in_universe eid). }
      { now exists eid, edge. }
      rewrite Hr. cbn [bind]. rewrite Hcp in Hcp1, Hall1.
      destruct (IH st1 Hes' Hinv1 Hcp1) as [st2 [Hr2 [Hinv2 [Hcp2 [Hinc2 Hall2]]]]].
      exists st2. split; [exact Hr2|]. split; [exact Hinv2|]. split; [exact Hcp2|].
      split; [intros p Hp; now apply Hinc2, Hinc1|].
      intros e q [<-|He] Hce Hq1 Hq2 Hq3 Hq4.
      * apply Hinc2. now apply Hall1.
      * now apply (Hall2 e).
    + destruct (IH st Hes' Hinv Hcp) as [st2 [Hr2 [Hinv2 [Hcp2 [Hinc2 Hall2]]]]].
      exists st2. split; [exact Hr2|]. split; [exact Hinv2|]. split; [exact Hcp2|].
      split; [exact Hinc2|].
      intros e q [<-|He] Hce Hq1 Hq2 Hq3 Hq4; [congruence | now apply (Hall2 e)].
Qed.

Lemma dfs_post (fuel : nat) :
  forall node st,
    inv st -> In node universe ->
    (ps_current_path st = [] -> node = from_id) ->
    (ps_current_path st <> [] -> causal_step g (last (ps_current_path st) "") node) ->
    List.length universe < fuel + List.length (ps_current_path st) ->
    post node st (dfs g to_id fuel node st).
Proof.
  induction fuel as [|fuel IH]; intros node st Hinv Hnode Hfirst Hstep Hfuel.
  { destruct Hinv as [_ [Hnd [Hincl _]]].
    pose proof (NoDup_incl_length Hnd Hincl). lia. }
  pose proof Hinv as Hinv0.
  destruct Hinv as [Hvis [Hnd [Hincl [Hchain [Hhd Hgood]]]]].
  set (cp := ps_current_path st) in *.
  cbn [dfs]. rewrite Hvis. fold cp. destruct (set_mem node cp) eqn:Hmem.
  - exists st. split; [reflexivity|]. split; [exact Hinv0|]. split; [reflexivity|].
    split; [apply incl_refl|].
    intros q Hq1 _ Hq3 _. exfalso. fold cp in Hq3.
    destruct q as [|x q']; [discriminate|]. injection Hq1 as ->.
    apply set_mem_in in Hmem.
    apply NoDup_remove_2 in Hq3. apply Hq3. apply in_or_app. now left.
  - apply set_mem_not_in in Hmem. rewrite (set_add_fresh _ _ Hmem).
    set (cp1 := (cp ++ [node])%list).
    assert (Hnd1 : NoDup cp1).
    { unfold cp1. apply NoDup_app_remove_r with (l' := []).
      rewrite app_nil_r. apply Permutation_NoDup with (l := node :: cp);
        [|now constructor].
      change (node :: cp) with ([node] ++ cp)%list. apply Permutation_app_comm. }
    assert (Hincl1 : incl cp1 universe).
    { intros x Hx. apply in_app_or in Hx. destruct Hx as [Hx|[<-|[]]];
        [now apply Hincl | exact Hnode]. }
    assert (Hchain1 : causal_path g cp1) by (now apply causal_path_snoc).
    assert (Hhd1 : hd_error cp1 = Some from_id).
    { unfold cp1. destruct cp as [|a cp'] eqn:Hcp'.
      - cbn. now rewrite (Hfirst eq_refl).
      - destruct Hhd as [Hhd|Hhd]; [discriminate | exact Hhd]. }
    assert (Hlast1 : last cp1 "" = node) by (unfold cp1; apply last_last).
    assert (Hinv1 : forall ps, Forall good ps -> inv (mkPathState ps cp1 cp1)).
    { intros ps Hps. repeat split; try assumption. now right. }
    assert (Hfinish : forall st2,
              inv st2 -> ps_current_path st2 = cp1 ->
              exists st', (visited <- set_remove node (ps_visited st2) ;;
                           Ok (mkPathState (ps_paths st2) visited
                                 (removelast (ps_current_path st2)))) = Ok st'
                          /\ inv st' /\ ps_current_path st' = cp
                          /\ ps_paths st' = ps_paths st2).
    { intros st2 [Hvis2 [_ [_ [_ [_ Hgood2]]]]] Hcp2.
      rewrite Hvis2, Hcp2. unfold set_remove, cp1.
      assert (Hm : set_mem node (cp ++ [node])%list = true).
      { apply set_mem_in. apply in_or_app. right. now left. }
      rewrite Hm. cbn [bind]. rewrite (set_discard_fresh _ _ Hmem), removelast_last.
      eexists. split; [reflexivity|]. split; [|split; reflexivity].
      repeat split; try assumption. }
    destruct (String.eqb node to_id) eqn:Hto.
    + apply String.eqb_eq in Hto. cbn [bind ps_paths ps_visited ps_current_path].
      fold cp1.
      assert (Hgood1 : Forall good (ps_paths st ++ [cp1])%list).
      { apply Forall_app. split; [exact Hgood|]. constructor; [|constructor].
        repeat split; try assumption. now rewrite Hlast1. }
      destruct (Hfinish (mkPathState (ps_paths st ++ [cp1])%list cp1 cp1))
        as [st' [Hr [Hinv' [Hcp' Hps']]]]; [now apply Hinv1 | reflexivity|].
      cbn [ps_paths ps_visited ps_current_path] in Hr, Hps'.
      exists st'. split; [exact Hr|]. split; [exact Hinv'|]. split; [exact Hcp'|].
      rewrite Hps'. split; [intros p Hp; apply in_or_app; now left|].
      intros q Hq1 Hq2 Hq3 _. apply in_or_app. right. left. unfold cp1. f_equal.
      destruct q as [|x q']; [discriminate|]. injection Hq1 as ->.
      destruct q' as [|y q'']; [reflexivity|]. exfalso.
      apply NoDup_app_remove_l in Hq3. inversion Hq3 as [|? ? Hnotin _].
      apply Hnotin.
      assert (Hl : last (y :: q'') "" = node) by (rewrite Hto; exact Hq2).
      rewrite <- Hl.
      destruct (exists_last (l := y :: q'')) as [l' [z Hz]]; [discriminate|].
      rewrite Hz, last_last. apply in_or_app. right. now left.
    + apply String.eqb_neq in Hto.
      destruct (wf_outgoing g Hwf node) as [es [Hes _]]. rewrite Hes. cbn [bind].
      assert (Hes' : forall e, In e es ->
                exists eid, In eid (bucket (_adjacency g) node)
                            /\ dict_get eid (edges g) = Some e).
      { intros e He. unfold get_outgoing_edges in Hes.
        destruct (mapM_ok_inv _ _ _ e Hes He) as [eid [Heid Hidx]].
        exists eid. split; [exact Heid | now apply dict_index_ok]. }
      destruct (dfs_edges_post (dfs g to_id fuel) node cp1) with
        (es := es) (st := mkPathState (ps_paths st) cp1 cp1)
        as [st2 [Hr2 [Hinv2 [Hcp2 [Hinc2 Hall2]]]]];
        [ | exact Hes' | now apply Hinv1 | reflexivity | ].
      { intros target st0 Hinv0' Hcp0 Htarget Hst0. apply IH; try assumption.
        - rewrite Hcp0. unfold cp1. intros Habs. now apply app_eq_nil in Habs.
        - intros _. rewrite Hcp0, Hlast1. exact Hst0.
        - rewrite Hcp0. unfold cp1. rewrite length_app. cbn [List.length]. lia. }
      rewrite Hr2. cbn [ps_paths] in Hinc2.
      destruct (Hfinish st2 Hinv2 Hcp2) as [st' [Hr [Hinv' [Hcp' Hps']]]].
      exists st'. split; [exact Hr|]. split; [exact Hinv'|]. split; [exact Hcp'|].
      rewrite Hps'. split; [exact Hinc2|].
      intros q Hq1 Hq2 Hq3 Hq4.
      destruct q as [|x q']; [discriminate|]. injection Hq1 as ->.
      destruct q' as [|b q'']; [cbn in Hq2; congruence|].
      destruct Hq4 as [[eid [e [Heid [Hget [Hce Htgt]]]]] Hq4].
      assert (He : In e es).
      { unfold get_outgoing_edges in Hes.
        exact (mapM_index_in (edges g) _ es eid e Hes Heid Hget). }
      change (ps_current_path st) with cp in Hq3 |- *.
      replace (cp ++ node :: b :: q'')%list with (cp1 ++ b :: q'')%list
        by (unfold cp1; now rewrite <- app_assoc).
      apply (Hall2 e (b :: q'') He Hce).
      * cbn. now rewrite Htgt.
      * exact Hq2.
      * unfold cp1. now rewrite <- app_assoc.
      * exact Hq4.
Qed.

(** With room for two calls more than the graph has nodes, the search from
    the start finds exactly the simple causal paths. *)
Lemma dfs_from_start (room : nat) :
  S (List.length (nodes g)) < room ->
  exists st', dfs g to_id room from_id (mkPathState [] [] []) = Ok st'
    /\ Forall good (ps_paths st')
    /\ forall q, good q -> In q (ps_paths st').
Proof.
  intros Hroom.
  destruct (dfs_post room from_id (mkPathState [] [] []))
    as [st' [Hr [Hinv [_ [_ Hall]]]]].
  - split; [reflexivity|]. split; [constructor|]. split; [intros x []|].
    split; [exact I|]. split; [now left | constructor].
  - now left.
  - reflexivity.
  - intros Habs. now contradiction Habs.
  - cbn [ps_current_path List.length universe]. unfold dict_keys.
    rewrite length_map. lia.
  - exists st'. split; [exact Hr|]. split; [apply Hinv|].
    intros q [Hq1 [Hq2 [Hq3 Hq4]]]. now apply (Hall q).
Qed.

Lemma compute_causal_paths_returns :
  S (List.length (nodes g)) < recursion_room ->
  is_ok (compute_causal_paths g from_id to_id).
Proof.
  intros Hroom. unfold compute_causal_paths.
  destruct (dfs_from_start recursion_room Hroom) as [st' [Hr _]].
  rewrite Hr. cbn [bind]. now eexists.
Qed.

Lemma compute_causal_paths_spec (ps : list (list string)) :
  compute_causal_paths g from_id to_id = Ok ps ->
  Forall good ps /\ forall q, good q -> In q ps.
Proof.
  unfold compute_causal_paths. intros Hps.
  destruct (dfs g to_id recursion_room from_id (mkPathState [] [] []))
    as [st| |] eqn:Hst; cbn [bind] in Hps; try discriminate Hps.
  injection Hps as <-.
  destruct (dfs_from_start (recursion_room + S (S (S (List.length (nodes g))))))
    as [st' [Hr [Hgood Hall]]]; [lia|].
  rewrite (dfs_more_room g to_id recursion_room _ _ _ st (Nat.le_add_r _ _) Hst) in Hr.
  injection Hr as <-. now split.
Qed.

End CausalPaths.


Lemma compute_causal_paths_self `{Interpreter} (g : RealityGraph) (x : string) :
  0 < recursion_room -> compute_causal_paths g x x = Ok [[x]].
Proof.
  unfold compute_causal_paths. intros Hroom.
  destruct recursion_room as [|room]; [lia|].
  cbn [dfs ps_visited ps_paths ps_current_path set_mem existsb].
  rewrite String.eqb_refl. cbn [bind ps_visited ps_paths ps_current_path app].
  unfold set_remove, set_add. cbn [set_mem existsb app]. rewrite String.eqb_refl.
  cbn [orb bind set_discard filter]. rewrite String.eqb_refl. reflexivity.
Qed.

(** X19.  On a well-formed graph, whenever [compute_causal_paths] returns it
    returns exactly the simple causal paths between the two ids: a list is
    among the paths returned if and only if it starts at the first id, ends
    at the second, repeats no node, and joins every two consecutive nodes by
    an outgoing edge of type CAUSES, ENABLES or REQUIRES.  It does return
    when the interpreter has room for two nested calls more than the graph
    has nodes ([dfs] nests one call per node of a path and raises
    [RecursionError] beyond the room); from an id to itself one call is
    enough, and the result is the single path that holds just that id. *)
Theorem compute_causal_paths_simple_paths `{Interpreter} (g : RealityGraph)
    (from_id to_id : string) :
  well_formed g ->
  (forall ps, compute_causal_paths g from_id to_id = Ok ps ->
     forall p, In p ps <->
       (hd_error p = Some from_id /\ last p "" = to_id /\ NoDup p
        /\ causal_path g p))
  /\ (S (List.length (nodes g)) < recursion_room ->
      is_ok (compute_causal_paths g from_id to_id))
  /\ (0 < recursion_room -> compute_causal_paths g from_id from_id = Ok [[from_id]]).
Proof.
  intros Hwf. split; [|split].
  - intros ps Hps p.
    destruct (compute_causal_paths_spec g from_id to_id Hwf ps Hps) as [Hgood Hall].
    split.
    + intros Hp. rewrite Forall_forall in Hgood. now apply Hgood.
    + apply Hall.
  - now apply compute_causal_paths_returns.
  - now apply compute_causal_paths_self.
Qed.

(** The resource graph, with room for 900 nested calls: one causal path
    leads from the first decision to the resource. *)
Lemma compute_causal_paths_simple_paths_witness :
  well_formed scenario_resource
  /\ compute_causal_paths scenario_resource "D1" "R1" = Ok [["D1"; "R1"]]
  /\ (forall p, In p [["D1"; "R1"]] <->
        (hd_error p = Some "D1" /\ last p "" = "R1" /\ NoDup p
         /\ causal_path scenario_resource p))
  /\ is_ok (compute_causal_paths scenario_resource "D1" "R1").
Proof.
  assert (Hwf : well_formed scenario_resource) by (split; reflexivity).
  split; [exact Hwf|]. split; [reflexivity|].
  destruct (@compute_causal_paths_simple_paths roomy_interpreter scenario_resource
              "D1" "R1" Hwf) as [Hspec [Hret _]].
  split; [exact (Hspec _ eq_refl)|].
  apply Hret. cbn. lia.
Defined.

(** The decision of [scenario_orphan] has one causal path to nothing but
    itself: its only edge is an ASSUMES edge. *)
Lemma compute_causal_paths_example :
  compute_causal_paths scenario_orphan "D1" "A1" = Ok []
  /\ compute_causal_paths scenario_resource "D1" "R1" = Ok [["D1"; "R1"]]
  /\ @compute_causal_paths {| recursion_room := 1 |} scenario_resource "D1" "R1"
     = Raise RecursionError.
Proof.
  repeat split; reflexivity.
Qed.


(* ------------------------------------------------------------------ *)
(** ** [_find_all_dependents] is forward reachability *)

Lemma dependents_step_char (out : list Edge) :
  forall (dependents : pyset) (stack : list string),
    (forall x, In x (fst (dependents_step out dependents stack)) <->
               In x dependents
               \/ exists e, In e out /\ is_dependency e = true /\ e_target e = x)
    /\ (forall x, In x (snd (dependents_step out dependents stack)) <->
                  In x stack
                  \/ exists e, In e out /\ is_dependency e = true /\ e_target e = x).
Proof.
  unfold dependents_step.
  induction out as [|e out IH]; intros dependents stack; cbn [fold_left fst snd].
  - split; intros x; (split; [now left | intros [Hx|[e [[] _]]]; exact Hx]).
  - fold (is_dependency e). destruct (is_dependency e) eqn:Hd.
    + destruct (IH (set_add (e_target e) dependents) (e_target e :: stack)) as [H1 H2].
      cbn [fst snd] in H1, H2. split; intros x.
      * rewrite H1, in_set_add_iff. split.
        -- intros [[->|Hx]|[e' [He' Hx]]].
           ++ right. exists e. split; [now left | now split].
           ++ now left.
           ++ right. exists e'. split; [now right | exact Hx].
        -- intros [Hx|[e' [[<-|He'] [Hd' Hx]]]].
           ++ left. now right.
           ++ left. left. now symmetry.
           ++ right. exists e'. now split.
      * rewrite H2. split.
        -- intros [[<-|Hx]|[e' [He' Hx]]].
           ++ right. exists e. split; [now left | now split].
           ++ now left.
           ++ right. exists e'. split; [now right | exact Hx].
        -- intros [Hx|[e' [[<-|He'] [Hd' Hx]]]].
           ++ left. now right.
           ++ left. left. exact Hx.
           ++ right. exists e'. now split.
    + destruct (IH dependents stack) as [H1 H2]. split; intros x.
      * rewrite H1. split.
        -- intros [Hx|[e' [He' Hx]]]; [now left|]. right. exists e'. split; [now right | exact Hx].
        -- intros [Hx|[e' [[<-|He'] [Hd' Hx]]]]; [now left | congruence|].
           right. exists e'. now split.
      * rewrite H2. split.
        -- intros [Hx|[e' [He' Hx]]]; [now left|]. right. exists e'. split; [now right | exact Hx].
        -- intros [Hx|[e' [[<-|He'] [Hd' Hx]]]]; [now left | congruence|].
           right. exists e'. now split.
Qed.

Lemma outgoing_dependency_step (g : RealityGraph) (v : string) (es : list Edge) :
  get_outgoing_edges g v = Ok es ->
  forall t, (exists e, In e es /\ is_dependency e = true /\ e_target e = t)
            <-> dependency_step g v t.
Proof.
  unfold get_outgoing_edges. intros Hes t. split.
  - intros [e [He [Hd Ht]]].
    destruct (mapM_ok_inv _ _ _ e Hes He) as [eid [Heid Hidx]].
    exists eid, e. split; [exact Heid|]. split; [now apply dict_index_ok | now split].
  - intros [eid [e [Heid [Hget [Hd Ht]]]]]. exists e.
    split; [exact (mapM_index_in (edges g) _ es eid e Hes Heid Hget) | now split].
Qed.

Lemma dependents_loop_spec (g : RealityGraph) (fuel : nat) :
  forall dependents visited stack D,
    dependents_loop g fuel dependents visited stack = Ok D ->
    incl dependents D
    /\ (forall d, In d D ->
          In d dependents \/ exists s, In s stack /\ depends_transitively g s d)
    /\ exists V : list string,
         incl visited V /\ incl stack V
         /\ forall v, In v V ->
              In v visited
              \/ forall t, dependency_step g v t -> In t D /\ In t V.
Proof.
  induction fuel as [|fuel IH]; intros dependents visited stack D Hloop;
    destruct stack as [|c rest]; cbn [dependents_loop] in Hloop; try discriminate.
  - injection Hloop as <-. split; [apply incl_refl|]. split; [intros d Hd; now left|].
    exists visited. split; [apply incl_refl|]. split; [intros x []|]. intros v Hv. now left.
  - injection Hloop as <-. split; [apply incl_refl|]. split; [intros d Hd; now left|].
    exists visited. split; [apply incl_refl|]. split; [intros x []|]. intros v Hv. now left.
  - destruct (set_mem c visited) eqn:Hc.
    + destruct (IH _ _ _ _ Hloop) as [Hinc [Hsound [V [Hvis [Hst HV]]]]].
      split; [exact Hinc|]. split.
      * intros d Hd. destruct (Hsound d Hd) as [Hin|[s [Hs Hr]]]; [now left|].
        right. exists s. split; [now right | exact Hr].
      * exists V. split; [exact Hvis|]. split; [|exact HV].
        intros x [<-|Hx]; [apply Hvis; now apply set_mem_in | now apply Hst].
    + bind_inv Hloop.
      destruct (dependents_step_char v dependents rest) as [Hfst Hsnd].
      pose proof (outgoing_dependency_step g c v E) as Hout.
      destruct (IH _ _ _ _ Hloop) as [Hinc [Hsound [V [Hvis [Hst HV]]]]].
      split; [intros d Hd; apply Hinc; apply Hfst; now left|].
      split.
      * intros d Hd. destruct (Hsound d Hd) as [Hin|[s [Hs Hr]]].
        -- apply Hfst in Hin. destruct Hin as [Hin|Ht]; [now left|].
           right. exists c. split; [now left|]. apply depends_one. now apply Hout.
        -- apply Hsnd in Hs. right. destruct Hs as [Hs|Ht].
           ++ exists s. split; [now right | exact Hr].
           ++ exists c. split; [now left|].
              apply (depends_more g c s d); [now apply Hout | exact Hr].
      * exists V. split; [intros x Hx; apply Hvis; now apply incl_set_add|].
        split.
        { intros x [<-|Hx]; [apply Hvis; apply in_set_add|].
          apply Hst. apply Hsnd. now left. }
        intros x Hx. destruct (HV x Hx) as [Hin|Hclosed]; [|now right].
        apply in_set_add_iff in Hin. destruct Hin as [->|Hin]; [|now left].
        right. intros t Ht. apply Hout in Ht. split.
        -- apply Hinc. apply Hfst. now right.
        -- apply Hst. apply Hsnd. now right.
Qed.

Lemma find_all_dependents_correct (g : RealityGraph) (node_id : string) :
  well_formed g ->
  exists D, _find_all_dependents g node_id = Ok D
    /\ forall d, In d D <-> depends_transitively g node_id d.
Proof.
  intros Hwf. destruct (find_all_dependents_total g node_id Hwf) as [D [HD _]].
  exists D. split; [exact HD|]. unfold _find_all_dependents in HD.
  destruct (dependents_loop_spec g _ _ _ _ _ HD) as [_ [Hsound [V [_ [Hst HV]]]]].
  intros d. split.
  - intros Hd. destruct (Hsound d Hd) as [[]|[s [[<-|[]] Hr]]]. exact Hr.
  - intros Hr.
    assert (Hclosed : forall v, In v V ->
              forall t, dependency_step g v t -> In t D /\ In t V).
    { intros v Hv. destruct (HV v Hv) as [[]|Hc]. exact Hc. }
    assert (Hgen : forall a c, depends_transitively g a c -> In a V -> In c D).
    { intros a c Hac. induction Hac as [a b Hab|a b c Hab _ IHbc]; intros Ha.
      - now apply (Hclosed a Ha b).
      - apply IHbc. now apply (Hclosed a Ha b). }
    apply (Hgen node_id d Hr). apply Hst. now left.
Qed.

(** X20.  [_find_all_dependents] computes forward reachability.  On a
    well-formed graph it returns, for any id, a set that holds exactly the
    ids reached from it by one or more CAUSES or ENABLES edges; the id
    itself belongs to the set only when it lies on a cycle of such
    edges. *)
Theorem find_all_dependents_reachability (g : RealityGraph) (node_id : string) :
  well_formed g ->
  exists D, _find_all_dependents g node_id = Ok D
    /\ forall d, In d D <-> depends_transitively g node_id d.
Proof.
  exact (find_all_dependents_correct g node_id).
Qed.

Lemma find_all_dependents_reachability_witness :
  well_formed scenario_orphan
  /\ exists D, _find_all_dependents scenario_orphan "D1" = Ok D
       /\ forall d, In d D <-> depends_transitively scenario_orphan "D1" d.
Proof.
  assert (Hwf : well_formed scenario_orphan) by (split; reflexivity).
  split; [exact Hwf|].
  exact (find_all_dependents_reachability scenario_orphan "D1" Hwf).
Defined.


(* ------------------------------------------------------------------ *)
(** ** The standard scenarios *)

Lemma in_firstn {A : Type} (n : nat) (l : list A) (x : A) :
  In x (firstn n l) -> In x l.
Proof.
  revert l. induction n as [|n IH]; intros l; destruct l as [|a l]; cbn [firstn];
    intros Hx; try (now destruct Hx).
  destruct Hx as [<-|Hx]; [now left | right; now apply IH].
Qed.

Lemma firstn_length_bound {A : Type} (n : nat) (l : list A) :
  List.length (firstn n l) <= n.
Proof.
  revert l. induction n as [|n IH]; intros [|a l]; cbn [firstn List.length]; try lia.
  specialize (IH l). lia.
Qed.

Lemma standard_scenario_cases (g : RealityGraph) (s : CounterfactualScenario) :
  In s (generate_standard_scenarios g) ->
  (7 # 10 <= s_criticality s)%Q
  /\ exists m, s_modifications s = [m]
       /\ forall id, modification_target m = Some id ->
            exists n, In n (dict_values (nodes g)) /\ n_id n = id.
Proof.
  unfold generate_standard_scenarios. intros Hs.
  apply in_app_or in Hs. destruct Hs as [Hs|Hs].
  { destruct Hs as [<-|[<-|[]]]; cbn [s_criticality s_modifications];
      (split; [lra|]); eexists; (split; [reflexivity|]); intros id Hid; discriminate Hid. }
  apply in_app_or in Hs. destruct Hs as [Hs|Hs].
  { apply in_map_iff in Hs. destruct Hs as [n [<- Hn]].
    cbn [s_criticality s_modifications]. split; [lra|]. eexists. split; [reflexivity|].
    intros id Hid. injection Hid as <-. exists n. split; [|reflexivity].
    apply in_firstn in Hn. unfold get_critical_nodes in Hn. now apply filter_In in Hn. }
  apply in_app_or in Hs. destruct Hs as [Hs|Hs].
  { apply in_map_iff in Hs. destruct Hs as [n [<- Hn]].
    cbn [s_criticality s_modifications]. split; [lra|]. eexists. split; [reflexivity|].
    intros id Hid. injection Hid as <-. exists n. split; [|reflexivity].
    apply in_firstn in Hn. apply filter_In in Hn. destruct Hn as [Hn _].
    now apply (nodes_by_type_values g RESOURCE). }
  apply in_map_iff in Hs. destruct Hs as [n [<- Hn]].
  cbn [s_criticality s_modifications]. split; [lra|]. eexists. split; [reflexivity|].
  intros id Hid. injection Hid as <-. exists n. split; [|reflexivity].
  apply in_firstn in Hn. now apply (nodes_by_type_values g ASSUMPTION).
Qed.

(** X21.  [generate_standard_scenarios] produces between 2 and 10
    scenarios, the two traffic spikes first.  Every scenario carries
    exactly one modification, aimed (when it names a node) at a node of
    the base graph, and has a criticality of at least 0.7.  So for results
    of standard scenarios every failure is a critical failure: what
    [get_critical_failures] selects, and the judge counts, is every
    scenario that did not survive. *)
Theorem standard_scenarios_are_critical (g : RealityGraph) :
  2 <= List.length (generate_standard_scenarios g) <= 10
  /\ map s_name (firstn 2 (generate_standard_scenarios g))
     = ["Traffic Spike 1.5x"; "Traffic Spike 3x"]
  /\ (forall s, In s (generate_standard_scenarios g) ->
        (7 # 10 <= s_criticality s)%Q
        /\ exists m, s_modifications s = [m]
             /\ forall id, modification_target m = Some id ->
                  exists n, In n (dict_values (nodes g)) /\ n_id n = id)
  /\ (forall results,
        (forall r, In r results -> In (scenario r) (generate_standard_scenarios g)) ->
        get_critical_failures results = filter (fun r => negb (survived r)) results).
Proof.
  split.
  { unfold generate_standard_scenarios. rewrite !length_app, !length_map.
    cbn [List.length].
    pose proof (firstn_length_bound 3 (get_critical_nodes g (8 # 10))).
    pose proof (firstn_length_bound 2
                  (filter (fun r => orb (contains "human" (lower (n_name r)))
                                        (contains "engineer" (lower (n_name r))))
                          (get_nodes_by_type g RESOURCE))).
    pose proof (firstn_length_bound 3 (get_nodes_by_type g ASSUMPTION)).
    lia. }
  split; [reflexivity|].
  split; [apply standard_scenario_cases|].
  intros results Hall. unfold get_critical_failures. apply filter_ext_in.
  intros r Hr. destruct (standard_scenario_cases g (scenario r) (Hall r Hr)) as [Hc _].
  assert (Hq : Qgeb (s_criticality (scenario r)) (7 # 10) = true)
    by (now apply Qle_bool_iff).
  rewrite Hq. apply andb_true_r.
Qed.


(* ------------------------------------------------------------------ *)
(** ** The results of a simulation *)

Lemma hbind_ok_inv {A B : Type} (m : HM A) (k : A -> HM B) (h : heap) (b : B) :
  fst (hbind m k h) = Ok b ->
  exists a, fst (m h) = Ok a /\ fst (k a (snd (m h))) = Ok b.
Proof.
  unfold hbind. destruct (m h) as [[a| |] h1]; cbn [fst snd]; try discriminate.
  intros Hk. now exists a.
Qed.

Lemma compute_clamped `{Formatter} `{Interpreter} (g : RealityGraph)
    (violations : list AxiomViolation)
    (fii : Q) :
  compute g violations = Ok fii -> (0 <= fii <= 1)%Q.
Proof.
  unfold compute. intros Hc. bind_inv Hc. injection Hc as <-.
  set (x := _combine_factors _ _ _).
  destruct (py_max_spec 0 x) as [M1 _].
  destruct (py_min_spec 1 (py_max 0 x)) as [N1 [_ N3]].
  split; [apply N3; lra | exact N1].
Qed.

Lemma verify_all_empty_context `{Formatter} (g : RealityGraph) (vs : list AxiomViolation) :
  verify_all g empty_context = Ok vs ->
  List.length vs <= 2
  /\ forall v, In v vs -> is_fatal v = true -> axiom_name v = "CONTRADICTION_LAW".
Proof.
  intros Hvs. split.
  - destruct (verify_all_reported g empty_context vs Hvs)
      as [o1 [o2 [o3 [o4 [o5 [o6 [H1 [H2 [H3 [H4 [H5 [H6 Heq]]]]]]]]]]]].
    cbv in H3, H4, H5, H6.
    injection H3 as <-. injection H4 as <-. injection H5 as <-. injection H6 as <-.
    subst vs. cbn [reported]. rewrite !app_nil_r, length_app.
    destruct o1, o2; cbn [reported List.length]; lia.
  - intros v Hin Hf.
    destruct (fatal_origin g empty_context vs v Hvs Hin Hf) as [Hn|[_ Hc]];
      [exact Hn | discriminate Hc].
Qed.

Lemma test_scenario_result `{Formatter} `{Interpreter} (uuid4 : addr -> string)
    (base : addr)
    (sc : CounterfactualScenario) (h : heap) (r : CounterfactualResult) :
  fst (_test_scenario uuid4 base sc h) = Ok r ->
  scenario r = sc
  /\ (0 <= fii_after r <= 1)%Q
  /\ (survived r = true <->
      (forall v, In v (new_violations r) -> is_fatal v = false)
      /\ (fii_after r < 9 # 10)%Q)
  /\ (survived r = true <-> collapse_reason r = "")
  /\ List.length (new_violations r) <= 2
  /\ (forall v, In v (new_violations r) -> is_fatal v = true ->
        axiom_name v = "CONTRADICTION_LAW").
Proof.
  unfold _test_scenario. intros Hr.
  apply hbind_ok_inv in Hr. destruct Hr as [tg [_ Hr]].
  apply hbind_ok_inv in Hr. destruct Hr as [g [_ Hr]].
  apply hbind_ok_inv in Hr. destruct Hr as [vs [Hvs Hr]].
  apply hbind_ok_inv in Hr. destruct Hr as [fii [Hfii Hr]].
  unfold hlift in Hvs, Hfii. cbn [fst] in Hvs, Hfii.
  unfold hret in Hr. cbn [fst] in Hr. injection Hr as <-.
  cbn [scenario fii_after survived collapse_reason new_violations].
  destruct (verify_all_empty_context g vs Hvs) as [Hlen Hfatal].
  split; [reflexivity|]. split; [now apply (compute_clamped g vs)|].
  unfold get_fatal_violations.
  assert (Hsurv : andb (Nat.eqb (List.length (filter is_fatal vs)) 0)
                       (negb (Qgeb fii (9 # 10))) = true
                  <-> (forall v, In v vs -> is_fatal v = false) /\ (fii < 9 # 10)%Q).
  { rewrite andb_true_iff, Nat.eqb_eq, negb_true_iff, length_zero_iff_nil,
      filter_is_fatal_nil.
    unfold Qgeb. split; intros [H1 H2]; (split; [exact H1|]).
    - apply Qnot_le_lt. intros Hle. apply Qle_bool_iff in Hle. congruence.
    - destruct (Qle_bool (9 # 10) fii) eqn:Hb; [|reflexivity].
      apply Qle_bool_iff in Hb. exfalso. apply (Qlt_not_le _ _ H2 Hb). }
  split; [exact Hsurv|].
  split.
  { destruct (andb _ _) eqn:Hs; [split; reflexivity|].
    split; [discriminate|]. intros Hreason. exfalso.
    destruct (filter is_fatal vs); discriminate Hreason. }
  split; [exact Hlen | exact Hfatal].
Qed.

Lemma hmapM_results {X Y : Type} (P : X -> Y -> Prop) (f : X -> HM Y) :
  (forall x h y, fst (f x h) = Ok y -> P x y) ->
  forall l h ys, fst (hmapM f l h) = Ok ys -> Forall2 P l ys.
Proof.
  intros Hf. induction l as [|x l IH]; intros h ys Hys; cbn [hmapM] in Hys.
  - unfold hret in Hys. cbn [fst] in Hys. injection Hys as <-. constructor.
  - apply hbind_ok_inv in Hys. destruct Hys as [y [Hy Hys]].
    apply hbind_ok_inv in Hys. destruct Hys as [ys' [Hys' Hys]].
    unfold hret in Hys. cbn [fst] in Hys. injection Hys as <-.
    constructor; [exact (Hf x h y Hy) | exact (IH _ ys' Hys')].
Qed.

(** X22.  When [run_simulation] returns, it returns one result per
    scenario, in the order of the scenarios.  In every result the index
    lies between 0 and 1; the scenario survived exactly when no violation
    found in the modified clone is fatal and the index is below 0.9, and
    exactly then the collapse reason is empty; at most two violations are
    recorded, and a fatal one is a violation of the contradiction law. *)
Theorem run_simulation_results `{Formatter} `{Interpreter} (uuid4 : addr -> string)
    (base : addr)
    (scenarios : list CounterfactualScenario) (h : heap)
    (results : list CounterfactualResult) :
  fst (run_simulation uuid4 base scenarios h) = Ok results ->
  map scenario results = scenarios
  /\ forall r, In r results ->
       (0 <= fii_after r <= 1)%Q
       /\ (survived r = true <->
           (forall v, In v (new_violations r) -> is_fatal v = false)
           /\ (fii_after r < 9 # 10)%Q)
       /\ (survived r = true <-> collapse_reason r = "")
       /\ List.length (new_violations r) <= 2
       /\ (forall v, In v (new_violations r) -> is_fatal v = true ->
             axiom_name v = "CONTRADICTION_LAW").
Proof.
  unfold run_simulation. intros Hrun.
  pose proof (hmapM_results
                (fun sc r =>
                   scenario r = sc
                   /\ (0 <= fii_after r <= 1)%Q
                   /\ (survived r = true <->
                       (forall v, In v (new_violations r) -> is_fatal v = false)
                       /\ (fii_after r < 9 # 10)%Q)
                   /\ (survived r = true <-> collapse_reason r = "")
                   /\ List.length (new_violations r) <= 2
                   /\ (forall v, In v (new_violations r) -> is_fatal v = true ->
                         axiom_name v = "CONTRADICTION_LAW"))
                (_test_scenario uuid4 base)
                (fun sc h0 r => test_scenario_result uuid4 base sc h0 r)
                scenarios h results Hrun) as Hall.
  clear Hrun. induction Hall as [|sc r scs rs [Hsc Hr] _ IH].
  - split; [reflexivity | intros r []].
  - destruct IH as [Hmap Hrest]. split.
    + cbn [map]. now rewrite Hsc, Hmap.
    + intros r' [<-|Hr']; [exact Hr | now apply Hrest].
Qed.

Lemma run_simulation_results_witness :
  exists results,
    fst (run_simulation uuid_of_address 6 (generate_standard_scenarios graph_base)
           heap_base) = Ok results
    /\ map scenario results = generate_standard_scenarios graph_base
    /\ forall r, In r results ->
         (0 <= fii_after r <= 1)%Q
         /\ (survived r = true <->
             (forall v, In v (new_violations r) -> is_fatal v = false)
             /\ (fii_after r < 9 # 10)%Q)
         /\ (survived r = true <-> collapse_reason r = "")
         /\ List.length (new_violations r) <= 2
         /\ (forall v, In v (new_violations r) -> is_fatal v = true ->
               axiom_name v = "CONTRADICTION_LAW").
Proof.
  assert (E : exists rs,
             fst (run_simulation uuid_of_address 6
                    (generate_standard_scenarios graph_base) heap_base) = Ok rs)
    by (vm_compute; eexists; reflexivity).
  destruct E as [rs E]. exists rs. split; [exact E|].
  exact (run_simulation_results uuid_of_address 6 _ heap_base rs E).
Defined.


(* ------------------------------------------------------------------ *)
(** ** [_find_deadlock_paths] finds a cycle exactly when there is one *)

Lemma outgoing_requirement_step (g : RealityGraph) (v : string) (es : list Edge) :
  get_outgoing_edges g v = Ok es ->
  forall t, (exists e, In e es /\ is_requirement e = true /\ e_target e = t)
            <-> requirement_step g v t.
Proof.
  unfold get_outgoing_edges. intros Hes t. split.
  - intros [e [He [Hd Ht]]].
    destruct (mapM_ok_inv _ _ _ e Hes He) as [eid [Heid Hidx]].
    exists eid, e. split; [exact Heid|]. split; [now apply dict_index_ok | now split].
  - intros [eid [e [Heid [Hget [Hd Ht]]]]]. exists e.
    split; [exact (mapM_index_in (edges g) _ es eid e Hes Heid Hget) | now split].
Qed.

Lemma requirement_chain_app_r (g : RealityGraph) (pre l : list string) :
  requirement_chain g (pre ++ l) -> requirement_chain g l.
Proof.
  induction pre as [|x pre IH]; [trivial|].
  cbn [app requirement_chain]. intros [_ Hc]. now apply IH.
Qed.

Lemma requirement_chain_app_l (g : RealityGraph) (l suf : list string) :
  requirement_chain g (l ++ suf) -> requirement_chain g l.
Proof.
  induction l as [|x l IH]; [intros _; exact I|].
  cbn [app requirement_chain]. intros [Hx Hc]. split; [|now apply IH].
  destruct l as [|y l]; [exact I | exact Hx].
Qed.

Lemma requirement_chain_snoc (g : RealityGraph) (node : string) (l : list string) :
  requirement_chain g l ->
  (l = [] \/ requirement_step g (last l "") node) ->
  requirement_chain g (l ++ [node]).
Proof.
  induction l as [|x l IH]; intros Hc Hlast.
  - cbn. split; exact I.
  - destruct Hlast as [Hnil|Hlast]; [discriminate|].
    cbn [requirement_chain] in Hc. destruct Hc as [Hx Hc].
    destruct l as [|y l].
    + cbn. cbn in Hlast. split; [exact Hlast | split; exact I].
    + change ((x :: y :: l) ++ [node])%list with (x :: ((y :: l) ++ [node]))%list.
      change (requirement_step g x y /\ requirement_chain g ((y :: l) ++ [node])%list).
      split; [exact Hx|]. apply IH; [exact Hc|]. right. exact Hlast.
Qed.

Lemma requirement_chain_reach (g : RealityGraph) (z : string) (l : list string) :
  forall x, requirement_chain g (x :: l) ->
            requirement_step g (last (x :: l) "") z ->
            requires_transitively g x z.
Proof.
  induction l as [|y l IH]; intros x Hc Hlast.
  - apply requires_one. exact Hlast.
  - cbn [requirement_chain] in Hc. destruct Hc as [Hxy Hc].
    apply (requires_more g x y z Hxy). apply IH; [exact Hc | exact Hlast].
Qed.

Lemma list_index_split (x : string) (l : list string) :
  forall i, list_index x l = Some i ->
            exists pre rest, l = (pre ++ x :: rest)%list /\ skipn i l = x :: rest.
Proof.
  induction l as [|y l IH]; intros i Hi; cbn [list_index] in Hi; [discriminate|].
  destruct (String.eqb x y) eqn:E.
  - apply String.eqb_eq in E. subst y. injection Hi as <-.
    exists [], l. split; reflexivity.
  - destruct (list_index x l) as [j|]; [|discriminate]. injection Hi as <-.
    destruct (IH j eq_refl) as [pre [rest [Hl Hs]]].
    exists (y :: pre), rest. split; [now rewrite Hl | exact Hs].
Qed.

Lemma last_app_cons (d x : string) (pre rest : list string) :
  last (pre ++ x :: rest) d = last (x :: rest) d.
Proof.
  induction pre as [|a pre IH]; [reflexivity|].
  cbn [app]. rewrite <- IH.
  destruct (pre ++ x :: rest)%list eqn:E; [destruct pre; discriminate | reflexivity].
Qed.

Lemma NoDup_snoc (x : string) (l : list string) :
  NoDup l -> ~ In x l -> NoDup (l ++ [x]).
Proof.
  intros Hnd Hx. apply NoDup_app; [exact Hnd | constructor; [intros [] | constructor] |].
  intros a Ha [<-|[]]. now apply Hx.
Qed.

Lemma finished_closed (g : RealityGraph) (st : DeadlockState) :
  (forall y z, finished st y -> requirement_step g y z -> finished st z) ->
  forall y z, requires_transitively g y z -> finished st y -> finished st z.
Proof.
  intros Hclosed y z Hr. induction Hr as [a b Hab|a b c Hab _ IH]; intros Ha.
  - now apply (Hclosed a b).
  - apply IH. now apply (Hclosed a b).
Qed.

Lemma deadlock_path_cycle (g : RealityGraph) (st : DeadlockState) (node target : string)
    (P0 : list string) (p : CollapsePath) :
  deadlock_path g st target = Ok p ->
  dl_current_path st = (P0 ++ [node])%list ->
  requirement_chain g (dl_current_path st) ->
  NoDup (dl_current_path st) ->
  requirement_step g node target ->
  path_type p = CP_DEADLOCK /\ requirement_cycle g (path_nodes p).
Proof.
  unfold deadlock_path. intros Hp HP Hchain Hnd Hstep. bind_inv Hp.
  injection Hp as <-. cbn [path_type path_nodes]. split; [reflexivity|].
  destruct (dl_current_path st) as [|x0 l0] eqn:Hcp;
    [destruct P0; discriminate HP|].
  destruct (list_index target (x0 :: l0)) as [i|] eqn:Hi; [|discriminate E].
  cbn [from_option] in E. injection E as <-.
  destruct (list_index_split target _ i Hi) as [pre [rest [Hl Hs]]].
  rewrite Hs in E0 |- *. rewrite Hl in Hchain, Hnd.
  split; [discriminate|].
  split; [now apply (NoDup_app_remove_l pre)|].
  split.
  { intros x Hx. destruct (mapM_ok_in _ _ _ x E0 Hx) as [nm [Hnm _]].
    unfold node_attr, get_node in Hnm.
    destruct (dict_get x (nodes g)) as [n|] eqn:Hn; [|discriminate].
    apply dict_mem_get. now exists n. }
  split; [now apply (requirement_chain_app_r g pre)|].
  cbn [hd]. rewrite <- (last_app_cons "" target pre rest), <- Hl, HP, last_last.
  exact Hstep.
Qed.

Lemma cycle_edges_search
    (recurse : string -> DeadlockState -> result (bool * DeadlockState))
    (g : RealityGraph) (node : string) (P0 : list string) (out : list Edge) :
  (forall target st r,
      recurse target st = Ok r -> search_inv g st -> ~ In target (dl_visited st) ->
      (dl_current_path st = []
       \/ requirement_step g (last (dl_current_path st) "") target) ->
      search_post g target st r) ->
  get_outgoing_edges g node = Ok out ->
  forall es seen st r,
    out = (seen ++ es)%list ->
    cycle_edges recurse g node es st = Ok r ->
    search_inv g st ->
    dl_current_path st = (P0 ++ [node])%list ->
    (forall e, In e seen -> is_requirement e = true -> finished st (e_target e)) ->
    if fst r then first_cycle g (snd r)
    else search_inv g (snd r)
         /\ dl_current_path (snd r) = P0
         /\ incl (dl_visited st) (dl_visited (snd r))
         /\ finished (snd r) node.
Proof.
  intros Hrec Hout.
  induction es as [|edge es IH]; intros seen st r Hsplit Hr Hinv HP Hseen;
    cbn [cycle_edges] in Hr.
  - destruct Hinv as [Hps [HRP [Hchain [Hnd [Hincl [Hclosed Hacyc]]]]]].
    rewrite app_nil_r in Hsplit. subst seen.
    assert (Hfresh : ~ In node P0).
    { rewrite HP in Hnd. intros Hin. apply NoDup_remove_2 in Hnd.
      apply Hnd. now rewrite app_nil_r. }
    assert (HnodeV : In node (dl_visited st)).
    { apply Hincl. rewrite HP. apply in_or_app. right. now left. }
    unfold set_remove in Hr. rewrite HRP, HP in Hr.
    assert (Hmem : set_mem node (P0 ++ [node])%list = true).
    { apply set_mem_in. apply in_or_app. right. now left. }
    rewrite Hmem in Hr. cbn [bind] in Hr.
    rewrite (set_discard_fresh _ _ Hfresh), removelast_last in Hr.
    injection Hr as <-. cbn [fst snd].
    assert (Hfin : forall y, In y (dl_visited st) /\ ~ In y P0 ->
                             finished st y \/ y = node).
    { intros y [Hy1 Hy2]. destruct (string_dec y node) as [->|Hne]; [now right|].
      left. split; [exact Hy1|]. rewrite HRP, HP. intros Hin.
      apply in_app_or in Hin. destruct Hin as [Hin|[Heq|[]]]; [now apply Hy2|].
      now apply Hne. }
    assert (Hmono : forall y, finished st y -> In y (dl_visited st) /\ ~ In y P0).
    { intros y [Hy1 Hy2]. split; [exact Hy1|]. intros Hin. apply Hy2.
      rewrite HRP, HP. apply in_or_app. now left. }
    assert (Hnodefin : ~ finished st node).
    { intros [_ Hn]. apply Hn. rewrite HRP, HP. apply in_or_app. right. now left. }
    assert (Hsucc : forall z, requirement_step g node z -> finished st z).
    { intros z Hz. apply (outgoing_requirement_step g node out Hout) in Hz.
      destruct Hz as [e [He [Hreq <-]]]. now apply Hseen. }
    split; [|split; [reflexivity | split; [apply incl_refl | now split]]].
    unfold search_inv, finished. cbn [dl_paths dl_rec_stack dl_current_path dl_visited].
    split; [exact Hps|]. split; [reflexivity|].
    split; [rewrite HP in Hchain; now apply (requirement_chain_app_l g P0 [node])|].
    split; [rewrite HP in Hnd; now apply (NoDup_app_remove_r P0 [node])|].
    split; [intros x Hx; apply Hincl; rewrite HP; apply in_or_app; now left|].
    split.
    + intros y z Hy Hyz. apply Hmono.
      destruct (Hfin y Hy) as [Hy'| ->]; [now apply (Hclosed y z) | now apply Hsucc].
    + intros y Hy Hcyc. destruct (Hfin y Hy) as [Hy'| ->]; [now apply (Hacyc y)|].
      apply Hnodefin. inversion Hcyc as [a b Hab|a b c Hab Hbc]; subst.
      * now apply Hsucc.
      * apply (finished_closed g st Hclosed b node Hbc). now apply Hsucc.
  - change (orb (String.eqb (EdgeType_value (e_type edge)) "requires")
                (String.eqb (EdgeType_value (e_type edge)) "depends_on"))
      with (is_requirement edge) in Hr.
    assert (Hsplit' : out = ((seen ++ [edge]) ++ es)%list)
      by (now rewrite <- app_assoc).
    assert (Hedge : In edge out).
    { rewrite Hsplit. apply in_or_app. right. now left. }
    destruct (is_requirement edge) eqn:Hreq.
    + assert (Hstep : requirement_step g node (e_target edge)).
      { apply (outgoing_requirement_step g node out Hout). exists edge. now repeat split. }
      destruct (set_mem (e_target edge) (dl_visited st)) eqn:Hv; cbn [negb] in Hr.
      * destruct (set_mem (e_target edge) (dl_rec_stack st)) eqn:HR.
        -- bind_inv Hr. injection Hr as <-. cbn [fst snd].
           destruct Hinv as [Hps [HRP [Hchain [Hnd _]]]].
           exists v. cbn [dl_paths]. rewrite Hps. split; [reflexivity|].
           now apply (deadlock_path_cycle g st node (e_target edge) P0).
        -- apply (IH (seen ++ [edge])%list st r Hsplit' Hr Hinv HP).
           intros e He Hq. apply in_app_or in He. destruct He as [He|[<-|[]]].
           ++ now apply Hseen.
           ++ split; [now apply set_mem_in | now apply set_mem_not_in].
      * bind_inv Hr.
        assert (Hpost : search_post g (e_target edge) st v).
        { apply Hrec; [exact E | exact Hinv | now apply set_mem_not_in |].
          right. rewrite HP, last_last. exact Hstep. }
        unfold search_post in Hpost. destruct (fst v) eqn:Hb.
        -- injection Hr as <-. cbn [fst snd]. exact Hpost.
        -- destruct Hpost as [Hinv' [HP' [Hvis Hfin]]].
           assert (HR' : dl_rec_stack (snd v) = dl_rec_stack st).
           { destruct Hinv as [_ [HRP _]]. destruct Hinv' as [_ [HRP' _]].
             now rewrite HRP', HP', HRP. }
           assert (IHr := IH (seen ++ [edge])%list (snd v) r Hsplit' Hr Hinv').
           destruct (fst r).
           ++ apply IHr; [now rewrite HP'|].
              intros e He Hq. apply in_app_or in He. destruct He as [He|[<-|[]]].
              ** destruct (Hseen e He Hq) as [H1 H2].
                 split; [now apply Hvis | now rewrite HR'].
              ** exact Hfin.
           ++ destruct IHr as [I1 [I2 [I3 I4]]]; [now rewrite HP'| |].
              { intros e He Hq. apply in_app_or in He. destruct He as [He|[<-|[]]].
                - destruct (Hseen e He Hq) as [H1 H2].
                  split; [now apply Hvis | now rewrite HR'].
                - exact Hfin. }
              split; [exact I1|]. split; [exact I2|]. split; [|exact I4].
              intros x Hx. now apply I3, Hvis.
    + apply (IH (seen ++ [edge])%list st r Hsplit' Hr Hinv HP).
      intros e He Hq. apply in_app_or in He. destruct He as [He|[<-|[]]].
      * now apply Hseen.
      * congruence.
Qed.

Lemma has_cycle_search (g : RealityGraph) (fuel : nat) :
  forall target st r,
    has_cycle g fuel target st = Ok r -> search_inv g st ->
    ~ In target (dl_visited st) ->
    (dl_current_path st = []
     \/ requirement_step g (last (dl_current_path st) "") target) ->
    search_post g target st r.
Proof.
  induction fuel as [|fuel IH]; intros target st r Hr Hinv Hv Hlast; [discriminate|].
  cbn [has_cycle] in Hr. bind_inv Hr.
  destruct Hinv as [Hps [HRP [Hchain [Hnd [Hincl [Hclosed Hacyc]]]]]].
  assert (HfreshP : ~ In target (dl_current_path st)).
  { intros Hin. apply Hv. now apply Hincl. }
  assert (HfreshR : ~ In target (dl_rec_stack st)) by (now rewrite HRP).
  set (st1 := mkDeadlock (dl_paths st) (set_add target (dl_visited st))
                (set_add target (dl_rec_stack st))
                (dl_current_path st ++ [target])%list) in Hr.
  assert (Hfin1 : forall y, finished st1 y <-> finished st y).
  { intros y. unfold finished, st1. cbn [dl_visited dl_rec_stack].
    rewrite (set_add_fresh _ _ HfreshR), in_set_add_iff, in_app_iff. split.
    - intros [[->|Hy] Hn]; [exfalso; apply Hn; right; now left|].
      split; [exact Hy|]. intros Hin. apply Hn. now left.
    - intros [Hy Hn]. split; [now right|]. intros [Hin|[<-|[]]]; [now apply Hn|].
      now apply Hv. }
  assert (Hinv1 : search_inv g st1).
  { unfold search_inv. split; [exact Hps|].
    split; [unfold st1; cbn [dl_rec_stack dl_current_path];
            now rewrite (set_add_fresh _ _ HfreshR), HRP|].
    split; [now apply requirement_chain_snoc|].
    split; [now apply NoDup_snoc|].
    split.
    { unfold st1. cbn [dl_current_path dl_visited]. intros x Hx.
      apply in_set_add_iff. apply in_app_or in Hx.
      destruct Hx as [Hx|[<-|[]]]; [right; now apply Hincl | now left]. }
    split.
    - intros y z Hy Hyz. apply Hfin1. apply (Hclosed y z); [now apply Hfin1 | exact Hyz].
    - intros y Hy. apply Hacyc. now apply Hfin1. }
  pose proof (cycle_edges_search (has_cycle g fuel) g target (dl_current_path st) v
                IH E v [] st1 r eq_refl Hr Hinv1 eq_refl) as Hloop.
  unfold search_post. destruct (fst r).
  - apply Hloop. intros e [].
  - destruct Hloop as [I1 [I2 [I3 I4]]]; [intros e []|].
    split; [exact I1|]. split; [exact I2|]. split; [|exact I4].
    intros x Hx. apply I3. unfold st1. cbn [dl_visited]. apply in_set_add_iff. now right.
Qed.

Lemma cycle_edges_appends
    (recurse : string -> DeadlockState -> result (bool * DeadlockState))
    (g : RealityGraph) (node_id : string) :
  (forall target st r, recurse target st = Ok r ->
     exists more, dl_paths (snd r) = (dl_paths st ++ more)%list) ->
  forall es st r, cycle_edges recurse g node_id es st = Ok r ->
    exists more, dl_paths (snd r) = (dl_paths st ++ more)%list.
Proof.
  intros Hrec. induction es as [|edge es IH]; intros st r Hr; cbn [cycle_edges] in Hr.
  - bind_inv Hr. injection Hr as <-. exists []. cbn [snd dl_paths]. now rewrite app_nil_r.
  - destruct (orb _ _); [|now apply (IH st)].
    destruct (negb (set_mem (e_target edge) (dl_visited st))).
    + bind_inv Hr. destruct (Hrec _ _ _ E) as [m1 Hm1].
      destruct (fst v); [injection Hr as <-; now exists m1|].
      destruct (IH (snd v) r Hr) as [m2 Hm2].
      exists (m1 ++ m2)%list. now rewrite Hm2, Hm1, app_assoc.
    + destruct (set_mem (e_target edge) (dl_rec_stack st)); [|now apply (IH st)].
      bind_inv Hr. injection Hr as <-. now exists [v].
Qed.

Lemma has_cycle_appends (g : RealityGraph) (fuel : nat) :
  forall node st r, has_cycle g fuel node st = Ok r ->
    exists more, dl_paths (snd r) = (dl_paths st ++ more)%list.
Proof.
  induction fuel as [|fuel IH]; intros node st r Hr; [discriminate|].
  cbn [has_cycle] in Hr. bind_inv Hr.
  exact (cycle_edges_appends (has_cycle g fuel) g node IH v _ r Hr).
Qed.

Lemma deadlock_roots_appends `{Interpreter} (g : RealityGraph) (roots : list string) :
  forall st st', deadlock_roots g roots st = Ok st' ->
    exists more, dl_paths st' = (dl_paths st ++ more)%list.
Proof.
  induction roots as [|node roots IH]; intros st st' Hr; cbn [deadlock_roots] in Hr.
  - injection Hr as <-. exists []. now rewrite app_nil_r.
  - destruct (negb (set_mem node (dl_visited st))); [|now apply (IH st)].
    bind_inv Hr. destruct (has_cycle_appends g _ _ _ _ E) as [m1 Hm1].
    destruct (IH (snd v) st' Hr) as [m2 Hm2].
    exists (m1 ++ m2)%list. now rewrite Hm2, Hm1, app_assoc.
Qed.

Lemma deadlock_roots_search `{Interpreter} (g : RealityGraph) (roots : list string) :
  forall st st',
    deadlock_roots g roots st = Ok st' ->
    search_inv g st -> dl_current_path st = [] ->
    (exists p rest, dl_paths st' = p :: rest
                    /\ path_type p = CP_DEADLOCK
                    /\ requirement_cycle g (path_nodes p))
    \/ (search_inv g st' /\ dl_current_path st' = []
        /\ incl (dl_visited st) (dl_visited st')
        /\ forall k, In k roots -> In k (dl_visited st')).
Proof.
  induction roots as [|node roots IH]; intros st st' Hr Hinv HP;
    cbn [deadlock_roots] in Hr.
  - injection Hr as <-. right. split; [exact Hinv|]. split; [exact HP|].
    split; [apply incl_refl | intros k []].
  - destruct (set_mem node (dl_visited st)) eqn:Hv; cbn [negb] in Hr.
    + destruct (IH st st' Hr Hinv HP) as [Hl|[I1 [I2 [I3 I4]]]]; [now left|].
      right. split; [exact I1|]. split; [exact I2|]. split; [exact I3|].
      intros k [<-|Hk]; [apply I3; now apply set_mem_in | now apply I4].
    + bind_inv Hr.
      assert (Hpost : search_post g node st v).
      { apply (has_cycle_search g recursion_room); [exact E | exact Hinv | |now left].
        now apply set_mem_not_in. }
      unfold search_post in Hpost. destruct (fst v).
      * left. destruct Hpost as [p [Hp [Hty Hcyc]]].
        destruct (deadlock_roots_appends g roots _ _ Hr) as [more Hmore].
        exists p, more. rewrite Hmore, Hp. split; [reflexivity|]. split; [exact Hty | exact Hcyc].
      * destruct Hpost as [Hinv' [HP' [Hvis Hfin]]].
        destruct (IH (snd v) st' Hr Hinv') as [Hl|[I1 [I2 [I3 I4]]]];
          [now rewrite HP' | now left|].
        right. split; [exact I1|]. split; [exact I2|].
        split; [intros x Hx; now apply I3, Hvis|].
        intros k [<-|Hk]; [apply I3; exact (proj1 Hfin) | now apply I4].
Qed.

Lemma find_deadlock_paths_search `{Interpreter} (g : RealityGraph)
    (ps : list CollapsePath) :
  _find_deadlock_paths g = Ok ps ->
  (exists p rest, ps = p :: rest
                  /\ path_type p = CP_DEADLOCK /\ requirement_cycle g (path_nodes p))
  \/ (ps = []
      /\ forall x, dict_mem x (nodes g) = true -> ~ requires_transitively g x x).
Proof.
  unfold _find_deadlock_paths. intros Hps. bind_inv Hps. injection Hps as <-.
  assert (Hinit : search_inv g (mkDeadlock [] [] [] [])).
  { unfold search_inv, finished. cbn [dl_paths dl_rec_stack dl_current_path dl_visited].
    split; [reflexivity|]. split; [reflexivity|]. split; [exact I|].
    split; [constructor|]. split; [intros x []|].
    split; [intros y z [[] _] | intros y [[] _]]. }
  destruct (deadlock_roots_search g _ _ _ E Hinit eq_refl) as [Hl|[I1 [I2 [_ I4]]]].
  - now left.
  - right. destruct I1 as [Hp [HRP [_ [_ [_ [_ Hacyc]]]]]]. split; [exact Hp|].
    intros x Hx. apply Hacyc. split; [apply I4; now apply dict_mem_in_keys|].
    rewrite HRP, I2. intros [].
Qed.

(** X23.  When [_find_deadlock_paths] returns, it returns no path exactly
    when no node of the graph lies on a cycle of REQUIRES and DEPENDS_ON
    edges; and the first path it returns is a deadlock path whose nodes form
    such a cycle: nodes of the graph, none twice, each with an edge to the
    next and the last with an edge to the first. *)
Theorem deadlock_detection_correct `{Interpreter} (g : RealityGraph)
    (ps : list CollapsePath) :
  _find_deadlock_paths g = Ok ps ->
  (ps = [] <->
   forall x, dict_mem x (nodes g) = true -> ~ requires_transitively g x x)
  /\ (forall p, hd_error ps = Some p ->
        path_type p = CP_DEADLOCK /\ requirement_cycle g (path_nodes p)).
Proof.
  intros Hps.
  destruct (find_deadlock_paths_search g ps Hps)
    as [[p [rest [Heq [Hty Hcyc]]]]|[Heq Hnone]]; subst ps.
  - split.
    + split; [discriminate|]. intros Hnone. exfalso.
      destruct Hcyc as [Hne [_ [Hnodes [Hchain Hlast]]]].
      destruct (path_nodes p) as [|x l]; [now apply Hne|].
      apply (Hnone x); [apply Hnodes; now left|].
      now apply (requirement_chain_reach g x l).
    + intros p' Hp'. injection Hp' as <-. now split.
  - split; [now split | discriminate].
Qed.

Lemma deadlock_detection_correct_witness :
  exists ps,
    _find_deadlock_paths scenario_circular = Ok ps
    /\ (ps = [] <->
        forall x, dict_mem x (nodes scenario_circular) = true ->
                  ~ requires_transitively scenario_circular x x)
    /\ (forall p, hd_error ps = Some p ->
          path_type p = CP_DEADLOCK
          /\ requirement_cycle scenario_circular (path_nodes p)).
Proof.
  assert (E : exists ps, _find_deadlock_paths scenario_circular = Ok ps)
    by (vm_compute; eexists; reflexivity).
  destruct E as [ps E]. exists ps. split; [exact E|].
  exact (deadlock_detection_correct scenario_circular ps E).
Defined.

(** Only the first path is covered: a call that meets a cycle returns without
    leaving the nodes it is in, so a later call can pair what is left on the
    current path with its own nodes.  Here the second path puts "C" behind
    "B", which has no edge to it. *)
Lemma deadlock_later_paths_example :
  exists ps,
    _find_deadlock_paths scenario_circular = Ok ps
    /\ map path_nodes ps = [["A"; "B"]; ["A"; "B"; "C"]]
    /\ ~ requirement_step scenario_circular "B" "C".
Proof.
  eexists. split; [vm_compute; reflexivity|]. split; [reflexivity|].
  intros [eid [e [Heid [Hget [_ Ht]]]]].
  vm_compute in Heid. destruct Heid as [<-|[]].
  vm_compute in Hget. injection Hget as <-. discriminate Ht.
Qed.


(* ------------------------------------------------------------------ *)
(** ** The scenario of a missing resource *)

Lemma read_dict_ext_in {V : Type} (rd rd' : addr -> option V) (d : dict addr) :
  (forall k a, In (k, a) d -> rd' a = rd a) -> read_dict rd' d = read_dict rd d.
Proof.
  induction d as [|[k0 a0] d IH]; intros Hext; [reflexivity|].
  cbn [read_dict]. rewrite (Hext k0 a0 (or_introl eq_refl)).
  rewrite IH; [reflexivity|]. intros k a Hin. apply (Hext k a). now right.
Qed.

Lemma read_dict_keys {V : Type} (rd : addr -> option V) (d : dict addr) (vs : dict V) :
  read_dict rd d = Some vs -> dict_keys vs = dict_keys d.
Proof.
  revert vs. induction d as [|[k0 a0] d IH]; intros vs Hd; cbn [read_dict] in Hd.
  - now injection Hd as <-.
  - destruct (rd a0) as [v0|]; [|discriminate].
    destruct (read_dict rd d) as [vs0|]; [|discriminate].
    injection Hd as <-.
    change (dict_keys ((k0, v0) :: vs0)) with (k0 :: dict_keys vs0).
    change (dict_keys ((k0, a0) :: d)) with (k0 :: dict_keys d).
    now rewrite (IH vs0).
Qed.

Lemma read_dict_key_update {V : Type} (rd rd' : addr -> option V) (d : dict addr)
    (k : string) (a : addr) (v' : V) :
  forall vs,
    read_dict rd d = Some vs -> NoDup (dict_keys d) ->
    dict_get k d = Some a -> rd' a = Some v' ->
    (forall k' a', In (k', a') d -> k' <> k -> rd' a' = rd a') ->
    read_dict rd' d = Some (dict_set k v' vs).
Proof.
  induction d as [|[k0 a0] d IH]; intros vs Hd Hnd Hget Ha Hothers; [discriminate|].
  cbn [read_dict] in Hd |- *. cbn [dict_get] in Hget.
  destruct (rd a0) as [v0|] eqn:E0; [|discriminate].
  destruct (read_dict rd d) as [vs0|] eqn:Ed; [|discriminate].
  injection Hd as <-. cbn [dict_set]. cbn in Hnd. inversion Hnd as [|? ? Hk0 Hnd']; subst.
  destruct (String.eqb k k0) eqn:E.
  - apply String.eqb_eq in E. subst k0. injection Hget as ->. rewrite Ha.
    rewrite (read_dict_ext_in rd rd' d), Ed; [reflexivity|].
    intros k' a' Hin. apply (Hothers k' a'); [now right|].
    intros ->. apply Hk0. apply in_map_iff. now exists (k, a').
  - apply String.eqb_neq in E.
    rewrite (Hothers k0 a0 (or_introl eq_refl)) by congruence. rewrite E0.
    rewrite (IH vs0 eq_refl Hnd' Hget Ha); [reflexivity|].
    intros k' a' Hin. apply (Hothers k' a'). now right.
Qed.

Lemma set_nth_set_nth (a : addr) (o1 o2 : obj) (h : heap) :
  set_nth a o2 (set_nth a o1 h) = set_nth a o2 h.
Proof.
  revert a. induction h as [|x h IH]; intros [|a]; cbn; try reflexivity.
  now rewrite IH.
Qed.

Lemma remove_resource_run (h : heap) (c : addr) (go : GraphObj) (rid : string)
    (na : addr) (no : NodeObj) (md : dict pyval) :
  nth_error h c = Some (OGraph go) -> dict_get rid (go_nodes go) = Some na ->
  nth_error h na = Some (ONode no) -> nth_error h (no_metadata no) = Some (OMeta md) ->
  modify_remove_resource rid c h
  = (Ok tt,
     set_nth (no_metadata no)
       (OMeta (dict_set "capacity" (VNum 0) (dict_set "available" (VBool false) md))) h).
Proof.
  intros Hc Hget Hna Hmd. unfold modify_remove_resource.
  rewrite (hbind_ok _ _ _ _ _ (load_graph_ok h c go Hc)). rewrite Hget.
  rewrite (hbind_ok _ _ _ _ _ (load_node_ok h na no Hna)).
  rewrite (hbind_ok _ _ _ _ _ (load_meta_ok h _ md Hmd)).
  unfold hbind at 1, store.
  assert (Hlt : no_metadata no < List.length h) by (apply nth_error_Some; congruence).
  rewrite (hbind_ok _ _ _ _ _
             (load_meta_ok _ _ _ (set_nth_hit (no_metadata no) _ h Hlt))).
  now rewrite set_nth_set_nth.
Qed.

(** On the heap [_modify_remove_resource] does what [remove_resource_value]
    computes, where the nodes of the graph have metadata dicts of their
    own. *)
Lemma remove_resource_holds (h : heap) (c : addr) (g : RealityGraph) (rid : string) :
  holds h c g -> NoDup (dict_keys (nodes g)) ->
  exists h', modify_remove_resource rid c h = (Ok tt, h')
             /\ holds h' c (remove_resource_value rid g).
Proof.
  intros Hholds Hkeys.
  destruct Hholds as [go [Hc [Hn [He [Ha [Hr [Hnd [Hs1 Hs2]]]]]]]].
  pose proof (read_dict_get _ _ _ rid Hn) as Hlook.
  unfold remove_resource_value, get_node.
  destruct (dict_get rid (go_nodes go)) as [na|] eqn:Hget.
  - assert (Hin : In (rid, na) (go_nodes go)) by (now apply dict_get_in).
    destruct (read_dict_in _ _ _ _ _ Hn Hin) as [r Hread].
    rewrite Hread in Hlook. rewrite Hlook.
    destruct (read_node_inv h na r Hread) as [no [Hno [Hmd Heq]]].
    set (m := no_metadata no) in *.
    set (md' := dict_set "capacity" (VNum 0)
                  (dict_set "available" (VBool false) (n_metadata r))).
    set (h' := set_nth m (OMeta md') h).
    assert (Hlt : m < List.length h) by (apply nth_error_Some; congruence).
    assert (Hm' : nth_error h' m = Some (OMeta md')) by (now apply set_nth_hit).
    assert (Hother : forall x, x <> m -> nth_error h' x = nth_error h x).
    { intros x Hx. unfold h'. apply set_nth_other. congruence. }
    assert (Hnodeobj : forall x n0, nth_error h' x = Some (ONode n0) ->
                                    nth_error h x = Some (ONode n0)).
    { intros x n0 Hx. destruct (Nat.eq_dec x m) as [->|Hne]; [congruence|].
      now rewrite <- (Hother x Hne). }
    assert (Hedgeobj : forall x e0, nth_error h' x = Some (OEdge e0) ->
                                    nth_error h x = Some (OEdge e0)).
    { intros x e0 Hx. destruct (Nat.eq_dec x m) as [->|Hne]; [congruence|].
      now rewrite <- (Hother x Hne). }
    exists h'. split; [exact (remove_resource_run h c go rid na no _ Hc Hget Hno Hmd)|].
    exists go. cbn [nodes edges _adjacency _reverse_adjacency].
    split; [rewrite Hother; [exact Hc | intros ->; congruence]|].
    split.
    { apply (read_dict_key_update (read_node h) (read_node h') _ rid na); try assumption.
      - rewrite <- (read_dict_keys _ _ _ Hn). exact Hkeys.
      - unfold read_node. rewrite (Hother na) by (intros ->; congruence).
        rewrite Hno. fold m. rewrite Hm'. rewrite Heq. reflexivity.
      - intros k' a' Hin' Hne. unfold read_node.
        destruct (Nat.eq_dec a' m) as [->|Hne'].
        + now rewrite Hm', Hmd.
        + rewrite (Hother a' Hne').
          destruct (nth_error h a') as [[n0| | | |]|] eqn:Ea; try reflexivity.
          rewrite (Hother (no_metadata n0)); [reflexivity|].
          intros Heqm. apply Hne. exact (Hs1 k' a' n0 rid na no Hin' Hin Ea Hno Heqm). }
    split.
    { rewrite (read_dict_ext_in (read_edge h) (read_edge h')); [exact He|].
      intros k' a' Hin'. unfold read_edge.
      destruct (Nat.eq_dec a' m) as [->|Hne'].
      - now rewrite Hm', Hmd.
      - rewrite (Hother a' Hne').
        destruct (nth_error h a') as [[|e0| | |]|] eqn:Ea; try reflexivity.
        rewrite (Hother (eo_metadata e0)); [reflexivity|].
        intros Heqm. apply (Hs2 rid na no k' a' e0 Hin Hin' Hno Ea). now symmetry. }
    assert (Hsets : forall x, read_set h' x = read_set h x).
    { intros x. unfold read_set. destruct (Nat.eq_dec x m) as [->|Hne'].
      - now rewrite Hm', Hmd.
      - now rewrite (Hother x Hne'). }
    split; [rewrite (read_dict_ext_in (read_set h) (read_set h')); [exact Ha|];
            intros; apply Hsets|].
    split; [rewrite (read_dict_ext_in (read_set h) (read_set h')); [exact Hr|];
            intros; apply Hsets|].
    split; [exact Hnd|].
    split.
    + intros k a n0 k' a' n0' Hi Hi' Hx Hx'.
      apply (Hs1 k a n0 k' a' n0' Hi Hi'); now apply Hnodeobj.
    + intros k a n0 k' a' e0 Hi Hi' Hx Hx'.
      apply (Hs2 k a n0 k' a' e0 Hi Hi'); [now apply Hnodeobj | now apply Hedgeobj].
  - rewrite Hlook. exists h. split.
    + unfold modify_remove_resource.
      rewrite (hbind_ok _ _ _ _ _ (load_graph_ok h c go Hc)). now rewrite Hget.
    + exists go. repeat (split; [assumption|]). exact Hs2.
Qed.

Lemma well_formed_remove_resource (g : RealityGraph) (rid : string) :
  well_formed g -> well_formed (remove_resource_value rid g).
Proof.
  intros Hwf. unfold remove_resource_value, get_node.
  destruct (dict_get rid (nodes g)) as [r|] eqn:Hget; [|exact Hwf].
  destruct Hwf as [Hkeyed Hlock].
  apply keyedb_spec in Hkeyed. destruct Hkeyed as [Nn [Ne [Na [Nr [Kn Ke]]]]].
  apply lockstepb_spec in Hlock. destruct Hlock as [L1 [L2 [L3 [L4 [L5 L6]]]]].
  assert (Hmem : dict_mem rid (nodes g) = true) by (apply dict_mem_get; now exists r).
  assert (Hkeys : dict_keys (dict_set rid (unavailable r) (nodes g)) = dict_keys (nodes g))
    by (now apply dict_keys_set_present).
  assert (Hm : forall k, dict_mem k (dict_set rid (unavailable r) (nodes g))
                         = dict_mem k (nodes g)).
  { intros k. now rewrite !dict_mem_keys, Hkeys. }
  split.
  - apply keyedb_spec. cbn [nodes edges _adjacency _reverse_adjacency]. rewrite Hkeys.
    split; [exact Nn|]. split; [exact Ne|]. split; [exact Na|]. split; [exact Nr|].
    split; [|exact Ke].
    intros k n Hin. apply in_dict_set in Hin. destruct Hin as [[-> ->]|Hin].
    + cbn [unavailable n_id]. apply Kn. now apply dict_get_in.
    + now apply Kn.
  - apply lockstepb_spec. cbn [nodes edges _adjacency _reverse_adjacency]. rewrite Hkeys.
    split; [intros k Hk; rewrite Hm; now apply L1|].
    split; [intros k Hk; rewrite Hm; now apply L2|].
    split; [exact L3|].
    split; [|split; [exact L5 | exact L6]].
    intros eid e Hin. rewrite !Hm. now apply L4.
Qed.

Lemma prepare_remove_resource `{Formatter} (uuid4 : addr -> string) (h : heap)
    (base : addr) (G : RealityGraph) (rid : string) :
  read_graph h base = Some G -> well_formed G ->
  exists Gc h2,
    prepare_scenario uuid4 base [ModifyRemoveResource rid] h = (Ok (List.length h), h2)
    /\ read_graph h2 (List.length h) = Some (remove_resource_value rid Gc)
    /\ read_graph h2 base = Some G
    /\ nodes Gc = nodes G /\ edges Gc = edges G
    /\ (forall k eid, In eid (bucket (_adjacency Gc) k)
                      <-> In eid (bucket (_adjacency G) k))
    /\ (forall k eid, In eid (bucket (_reverse_adjacency Gc) k)
                      <-> In eid (bucket (_reverse_adjacency G) k))
    /\ well_formed Gc.
Proof.
  intros HG Hwf.
  destruct (clone_value_total G Hwf) as [Gc [Hval [Hn [He [Ha [Hr [Hba Hbr]]]]]]].
  destruct (clone_graph_builds h base G Gc HG Hval) as [h1 [Hrun1 [Hholds1 _]]].
  assert (Hwfc : well_formed Gc) by (now apply (well_formed_same_content G Gc)).
  assert (Hkeys : NoDup (dict_keys (nodes Gc))).
  { destruct Hwfc as [Hk _]. apply keyedb_spec in Hk. tauto. }
  destruct (remove_resource_holds h1 (List.length h) Gc rid Hholds1 Hkeys)
    as [h2 [Hrun2 Hholds2]].
  assert (Hrun : prepare_scenario uuid4 base [ModifyRemoveResource rid] h
                 = (Ok (List.length h), h2)).
  { unfold prepare_scenario.
    rewrite (hbind_ok _ _ _ _ _ Hrun1). cbn [hfor apply_modification].
    rewrite (hbind_ok _ _ _ _ _
               (hbind_ok _ (fun _ => hret tt) _ _ _ Hrun2)). reflexivity. }
  destruct (safe_frame _ _ h
              (safe_prepare_scenario (List.length h) uuid4 base
                 [ModifyRemoveResource rid])) as [Hpre _].
  rewrite Hrun in Hpre. cbn [snd] in Hpre.
  exists Gc, h2. split; [exact Hrun|]. split; [now apply holds_read_graph|].
  split; [now apply (read_graph_stable h)|].
  repeat (split; [assumption|]). exact Hwfc.
Qed.

(** X24.  A scenario that removes a resource, run on a heap whose base
    graph is well-formed, raises nothing.  It leaves a new graph object that
    reads back as the base graph with, on the node of that id, the metadata
    entries [available] set to [False] and [capacity] set to 0, every other
    node as in the base graph (all of them when no node has the id), the
    edges and the buckets of the base graph, and that is well-formed again;
    the base graph reads back as before. *)
Theorem remove_resource_scenario `{Formatter} (uuid4 : addr -> string) (h : heap)
    (base : addr) (G : RealityGraph) (rid : string) :
  read_graph h base = Some G -> well_formed G ->
  let run := prepare_scenario uuid4 base [ModifyRemoveResource rid] h in
  exists G',
    fst run = Ok (List.length h)
    /\ read_graph (snd run) (List.length h) = Some G'
    /\ read_graph (snd run) base = Some G
    /\ nodes G' = nodes (remove_resource_value rid G)
    /\ edges G' = edges G
    /\ (forall k eid, In eid (bucket (_adjacency G') k)
                      <-> In eid (bucket (_adjacency G) k))
    /\ (forall k eid, In eid (bucket (_reverse_adjacency G') k)
                      <-> In eid (bucket (_reverse_adjacency G) k))
    /\ well_formed G'.
Proof.
  intros HG Hwf run.
  destruct (prepare_remove_resource uuid4 h base G rid HG Hwf)
    as [Gc [h2 [Hrun [Hread [Hbase [Hn [He [Hba [Hbr Hwfc]]]]]]]]].
  exists (remove_resource_value rid Gc). unfold run. rewrite Hrun. cbn [fst snd].
  split; [reflexivity|]. split; [exact Hread|]. split; [exact Hbase|].
  assert (Hshape : nodes (remove_resource_value rid Gc) = nodes (remove_resource_value rid G)
                   /\ edges (remove_resource_value rid Gc) = edges G
                   /\ _adjacency (remove_resource_value rid Gc) = _adjacency Gc
                   /\ _reverse_adjacency (remove_resource_value rid Gc)
                      = _reverse_adjacency Gc).
  { unfold remove_resource_value, get_node. rewrite Hn.
    destruct (dict_get rid (nodes G)); cbn [nodes edges _adjacency _reverse_adjacency];
      rewrite ?Hn, ?He; repeat split. }
  destruct Hshape as [S1 [S2 [S3 S4]]].
  split; [exact S1|]. split; [exact S2|].
  split; [intros k eid; rewrite S3; apply Hba|].
  split; [intros k eid; rewrite S4; apply Hbr|].
  now apply well_formed_remove_resource.
Qed.

Lemma remove_resource_scenario_witness :
  read_graph heap_base 6 = Some graph_base /\ well_formed graph_base
  /\ let run := prepare_scenario uuid_of_address 6 [ModifyRemoveResource "R"] heap_base in
     exists G',
       fst run = Ok 11
       /\ read_graph (snd run) 11 = Some G'
       /\ read_graph (snd run) 6 = Some graph_base
       /\ nodes G' = nodes (remove_resource_value "R" graph_base)
       /\ edges G' = edges graph_base
       /\ (forall k eid, In eid (bucket (_adjacency G') k)
                         <-> In eid (bucket (_adjacency graph_base) k))
       /\ (forall k eid, In eid (bucket (_reverse_adjacency G') k)
                         <-> In eid (bucket (_reverse_adjacency graph_base) k))
       /\ well_formed G'.
Proof.
  assert (HG : read_graph heap_base 6 = Some graph_base) by reflexivity.
  assert (Hwf : well_formed graph_base) by (split; reflexivity).
  split; [exact HG|]. split; [exact Hwf|].
  exact (remove_resource_scenario uuid_of_address heap_base 6 graph_base "R" HG Hwf).
Defined.


(* ------------------------------------------------------------------ *)
(** ** A required resource that goes missing *)

Lemma demand_of_unavailable (r : Node) : demand_of (unavailable r) = demand_of r.
Proof.
  unfold demand_of, unavailable. cbn [n_metadata].
  now rewrite !dict_get_set_other by discriminate.
Qed.


Lemma py_sum_from_positive (vals : list pyval) :
  (forall v, In v vals -> exists q, as_num v = Ok q /\ (0 < q)%Q) ->
  forall acc t, py_sum_from acc vals = Ok t ->
                (acc <= t)%Q /\ (vals <> [] -> (acc < t)%Q).
Proof.
  induction vals as [|v vals IH]; intros Hpos acc t Ht; cbn [py_sum_from] in Ht.
  - injection Ht as <-. split; [lra | intros Hne; now contradiction Hne].
  - destruct (Hpos v (or_introl eq_refl)) as [q [Hq Hq0]].
    rewrite Hq in Ht. cbn [bind] in Ht.
    destruct (IH (fun x Hx => Hpos x (or_intror Hx)) _ _ Ht) as [Hle _].
    split; [lra | intros _; lra].
Qed.

Lemma survival_zero (cs : list Q) : In 1%Q cs -> (survival cs == 0)%Q.
Proof.
  induction cs as [|c cs IH]; intros Hin; [destruct Hin|].
  cbn [survival fold_right]. fold (survival cs).
  destruct Hin as [->|Hin]; [ring | rewrite (IH Hin); ring].
Qed.

Lemma base_fii_certain (ps : list CollapsePath) (p : CollapsePath) :
  In p ps -> certainty p = 1%Q -> (_compute_base_fii ps == 1)%Q.
Proof.
  intros Hin Hc. rewrite base_fii_closed_form, survival_zero; [ring|].
  rewrite <- Hc. now apply in_map.
Qed.

(** One collapse path of certainty 1 makes the index 1, whatever the other
    paths and the adjustments are. *)
Lemma compute_certain `{Formatter} `{Interpreter} (g : RealityGraph)
    (vs : list AxiomViolation)
    (fii : Q) (ps : list CollapsePath) (p : CollapsePath) :
  compute g vs = Ok fii -> _identify_collapse_paths g = Ok ps ->
  In p ps -> certainty p = 1%Q -> (fii == 1)%Q.
Proof.
  unfold compute. intros Hc Hps Hin Hcert. rewrite Hps in Hc. cbn [bind] in Hc.
  bind_inv Hc. injection Hc as <-.
  pose proof (base_fii_certain ps p Hin Hcert) as Hb.
  assert (Hx : (_combine_factors (_compute_base_fii ps) v v0 == 1)%Q).
  { unfold _combine_factors, prob_or. rewrite Hb. ring. }
  set (x := _combine_factors _ _ _) in *.
  destruct (py_max_spec 0 x) as [M1 [M2 M3]].
  destruct (py_min_spec 1 (py_max 0 x)) as [N1 [N2 N3]].
  assert (py_max 0 x <= 1)%Q by (apply M3; lra).
  assert (1 <= py_min 1 (py_max 0 x))%Q by (apply N3; lra).
  lra.
Qed.

(** A resource of capacity 0 that is required, by consumers of positive
    demand, is reported exhausted with certainty 1. *)
Lemma missing_resource_path `{Formatter} (g : RealityGraph) (resource : Node)
    (zs : list CollapsePath) :
  well_formed g ->
  dict_get "capacity" (n_metadata resource) = Some (VNum 0) ->
  (exists eid e, In (eid, e) (edges g)
                 /\ e_target e = n_id resource /\ e_type e = REQUIRES) ->
  (forall eid e src,
      In (eid, e) (edges g) -> e_target e = n_id resource -> e_type e = REQUIRES ->
      dict_get (e_source e) (nodes g) = Some src -> positive_demand src) ->
  resource_exhaustion_path g resource = Ok zs ->
  exists p, zs = [p] /\ certainty p = 1%Q.
Proof.
  intros [Hkeyed Hlock] Hcap [eid0 [e0 [Hin0 [Ht0 Hty0]]]] Hpos Hzs.
  apply keyedb_spec in Hkeyed. destruct Hkeyed as [_ [Ne _]].
  apply lockstepb_spec in Hlock. destruct Hlock as [_ [_ [_ [L4 [_ L6]]]]].
  unfold resource_exhaustion_path in Hzs. cbv zeta in Hzs. rewrite Hcap in Hzs.
  destruct (get_incoming_edges g (n_id resource)) as [inc| |] eqn:Hinc; try discriminate.
  cbn [bind] in Hzs.
  assert (Hinc_char : forall e, In e inc ->
            exists eid, In (eid, e) (edges g) /\ e_target e = n_id resource).
  { intros e He. unfold get_incoming_edges in Hinc.
    destruct (mapM_ok_inv _ _ _ e Hinc He) as [eid [Heid Hidx]].
    apply dict_index_ok in Hidx. exists eid. split; [now apply dict_get_in|].
    destruct (bucket_in_entry _ _ _ Heid) as [s [Hks Hes]].
    destruct (L6 _ s eid Hks Hes) as [e' [Hget' Ht']]. congruence. }
  assert (He0 : In e0 (requires_edges_of inc)).
  { unfold requires_edges_of. apply filter_In. split; [|now rewrite Hty0].
    unfold get_incoming_edges in Hinc.
    apply (mapM_index_in (edges g) _ inc eid0 e0 Hinc).
    - destruct (L4 eid0 e0 Hin0) as [_ [Hb _]]. now rewrite <- Ht0.
    - now apply in_dict_get. }
  assert (Hreqs : forall e, In e (requires_edges_of inc) ->
            forall v, demand_at g e = Ok v -> exists q, as_num v = Ok q /\ (0 < q)%Q).
  { intros e He v Hv. unfold requires_edges_of in He. apply filter_In in He.
    destruct He as [He Hty]. destruct (Hinc_char e He) as [eid [Hin Ht]].
    assert (Hreq : e_type e = REQUIRES) by (destruct (e_type e); now try discriminate Hty).
    unfold demand_at, node_attr, get_node in Hv.
    destruct (dict_get (e_source e) (nodes g)) as [src|] eqn:Hsrc; [|discriminate].
    cbn [bind] in Hv. injection Hv as <-.
    exact (Hpos eid e src Hin Ht Hreq Hsrc). }
  destruct (requires_edges_of inc) as [|e1 rest] eqn:Hreq; [destruct He0|].
  destruct (mapM (demand_at g) (e1 :: rest)) as [demands| |] eqn:Hd; try discriminate.
  cbn [bind] in Hzs.
  destruct (py_sum demands) as [total| |] eqn:Hsum; try discriminate.
  cbn [bind as_num] in Hzs.
  assert (Htotal : (0 < total)%Q).
  { assert (Hvals : forall v, In v demands -> exists q, as_num v = Ok q /\ (0 < q)%Q).
    { intros v Hv. destruct (mapM_ok_inv _ _ _ v Hd Hv) as [e [He Hdem]].
      now apply (Hreqs e He v). }
    destruct (py_sum_from_positive demands Hvals 0 total Hsum) as [_ Hlt].
    apply Hlt. intros ->. apply mapM_ok_length in Hd. discriminate Hd. }
  rewrite (proj2 (Qgtb_lt total 0) Htotal) in Hzs.
  unfold exhaustion_certainty in Hzs.
  replace (Qgtb 0 0) with false in Hzs by reflexivity.
  cbn [bind] in Hzs. injection Hzs as <-.
  eexists. split; reflexivity.
Qed.

Lemma concatM_ok_elem {A B : Type} (f : A -> result (list B)) (l : list A)
    (ys : list B) (x : A) :
  concatM f l = Ok ys -> In x l -> exists zs, f x = Ok zs /\ incl zs ys.
Proof.
  intros Hc Hin. pose proof Hc as Hc'. unfold concatM in Hc'.
  destruct (mapM f l) as [ls| |] eqn:Hm; cbn [bind] in Hc'; try discriminate Hc'.
  destruct (mapM_ok_in f l ls x Hm Hin) as [zs [Hzs _]].
  exists zs. split; [exact Hzs|]. now apply (concatM_ok_in f l ys x zs).
Qed.

(** X25.  Take a well-formed base graph in which some node REQUIRES a
    resource and every node that does so has a positive demand (a missing
    [resource_demand] counts as 1).  Whenever the scenario that removes this
    resource returns a result, the index of the modified clone, computed
    exactly, is 1, the scenario is not survived and a collapse reason is
    given. *)
Theorem missing_resource_collapses `{Formatter} `{Interpreter} (uuid4 : addr -> string)
    (h : heap) (base : addr) (G : RealityGraph) (sc : CounterfactualScenario)
    (rid : string) (r : Node) (res : CounterfactualResult) :
  read_graph h base = Some G -> well_formed G ->
  s_modifications sc = [ModifyRemoveResource rid] ->
  dict_get rid (nodes G) = Some r -> n_type r = RESOURCE ->
  (exists eid e, In (eid, e) (edges G) /\ e_target e = rid /\ e_type e = REQUIRES) ->
  (forall eid e src,
      In (eid, e) (edges G) -> e_target e = rid -> e_type e = REQUIRES ->
      dict_get (e_source e) (nodes G) = Some src -> positive_demand src) ->
  fst (_test_scenario uuid4 base sc h) = Ok res ->
  scenario res = sc
  /\ (fii_after res == 1)%Q
  /\ survived res = false
  /\ collapse_reason res <> "".
Proof.
  intros HG Hwf Hmods Hget Hty Hreq Hpos Hres.
  destruct (prepare_remove_resource uuid4 h base G rid HG Hwf)
    as [Gc [h2 [Hrun [Hread [_ [Hn [He [_ [_ Hwfc]]]]]]]]].
  set (G2 := remove_resource_value rid Gc) in *.
  assert (Hwf2 : well_formed G2) by (now apply well_formed_remove_resource).
  assert (HG2 : nodes G2 = dict_set rid (unavailable r) (nodes G) /\ edges G2 = edges G).
  { unfold G2, remove_resource_value, get_node. rewrite Hn, Hget.
    cbn [nodes edges]. rewrite ?Hn, ?He. split; reflexivity. }
  destruct HG2 as [Hn2 He2].
  assert (Hid : n_id r = rid).
  { destruct Hwf as [Hk _]. apply keyedb_spec in Hk.
    destruct Hk as [_ [_ [_ [_ [Kn _]]]]]. apply Kn. now apply dict_get_in. }
  assert (Hsnap : snapshot (List.length h) h2 = (Ok G2, h2))
    by (unfold snapshot; now rewrite Hread).
  unfold _test_scenario in Hres. rewrite Hmods in Hres.
  rewrite (hbind_ok _ _ _ _ _ Hrun), (hbind_ok _ _ _ _ _ Hsnap) in Hres.
  apply hbind_ok_inv in Hres. destruct Hres as [vs [Hvs Hres]].
  apply hbind_ok_inv in Hres. destruct Hres as [fii [Hfii Hres]].
  unfold hlift in Hvs, Hfii. cbn [fst] in Hvs, Hfii.
  unfold hret in Hres. cbn [fst] in Hres. injection Hres as <-.
  assert (Hone : (fii == 1)%Q).
  { assert (Hr2 : In (unavailable r) (dict_values (nodes G2))).
    { rewrite Hn2. apply (dict_get_in_values rid). apply dict_get_set_same. }
    destruct (_identify_collapse_paths G2) as [ps| |] eqn:Hps;
      try (unfold compute in Hfii; rewrite Hps in Hfii; discriminate Hfii).
    pose proof Hps as Hps'. unfold _identify_collapse_paths in Hps'. bind_inv Hps'.
    injection Hps' as Hps'.
    assert (Hr2' : In (unavailable r) (get_nodes_by_type G2 RESOURCE)).
    { unfold get_nodes_by_type. apply filter_In. split; [exact Hr2|].
      cbn [unavailable n_type]. rewrite Hty. reflexivity. }
    destruct (concatM_ok_elem _ _ _ (unavailable r) E0 Hr2') as [zs [Hzs Hincl]].
    destruct (missing_resource_path G2 (unavailable r) zs Hwf2) as [p [-> Hp]];
      try assumption.
    - unfold unavailable. cbn [n_metadata]. apply dict_get_set_same.
    - cbn [unavailable n_id]. rewrite Hid, He2. exact Hreq.
    - cbn [unavailable n_id]. rewrite Hid, He2, Hn2.
      intros eid e src Hin Ht Hq Hsrc.
      destruct (String.eqb (e_source e) rid) eqn:E'.
      + apply String.eqb_eq in E'. rewrite E', dict_get_set_same in Hsrc.
        injection Hsrc as <-. unfold positive_demand. rewrite demand_of_unavailable.
        apply (Hpos eid e r Hin Ht Hq). now rewrite E'.
      + apply String.eqb_neq in E'. rewrite dict_get_set_other in Hsrc by assumption.
        exact (Hpos eid e src Hin Ht Hq Hsrc).
    - apply (compute_certain G2 vs fii ps p Hfii Hps); [|exact Hp].
      rewrite <- Hps'. apply in_or_app. right. apply in_or_app. left.
      apply Hincl. now left. }
  cbn [scenario fii_after survived collapse_reason].
  assert (Hge : Qgeb fii (9 # 10) = true).
  { unfold Qgeb. apply Qle_bool_iff. lra. }
  rewrite Hge. cbn [negb]. rewrite andb_false_r.
  split; [reflexivity|]. split; [exact Hone|]. split; [reflexivity|].
  destruct (get_fatal_violations vs); discriminate.
Qed.


Lemma missing_resource_collapses_witness :
  read_graph heap_base 6 = Some graph_base /\ well_formed graph_base
  /\ exists res,
       fst (_test_scenario uuid_of_address 6 scenario_human_unavailable heap_base)
       = Ok res
       /\ scenario res = scenario_human_unavailable
       /\ (fii_after res == 1)%Q
       /\ survived res = false
       /\ collapse_reason res <> "".
Proof.
  assert (HG : read_graph heap_base 6 = Some graph_base) by reflexivity.
  assert (Hwf : well_formed graph_base) by (split; reflexivity).
  split; [exact HG|]. split; [exact Hwf|].
  assert (E : exists res,
             fst (_test_scenario uuid_of_address 6 scenario_human_unavailable
                    heap_base) = Ok res)
    by (vm_compute; eexists; reflexivity).
  destruct E as [res E]. exists res. split; [exact E|].
  apply (missing_resource_collapses uuid_of_address heap_base 6 graph_base
           scenario_human_unavailable "R" (node_of "R" RESOURCE [("capacity", VNum 10)])
           res HG Hwf).
  - reflexivity.
  - reflexivity.
  - reflexivity.
  - exists "E", (edge_of "E" "B" "R" REQUIRES []).
    split; [now left|]. split; reflexivity.
  - intros eid e src Hin _ _ Hsrc. vm_compute in Hin. destruct Hin as [Heq|[]].
    injection Heq as <- <-. vm_compute in Hsrc. injection Hsrc as <-.
    exists 8%Q. split; [reflexivity | reflexivity].
  - exact E.
Defined.


(* ------------------------------------------------------------------ *)
(** ** What a node failure leaves of a well-formed graph *)

Lemma dict_get_del_other {V : Type} (k k' : string) (d : dict V) :
  k' <> k -> dict_get k' (dict_del k d) = dict_get k' d.
Proof.
  intros Hne. induction d as [|[k0 v0] d IH]; cbn [dict_del dict_get]; [reflexivity|].
  destruct (String.eqb k k0) eqn:E.
  - apply String.eqb_eq in E. subst k0.
    destruct (String.eqb k' k) eqn:E'; [apply String.eqb_eq in E'; contradiction|].
    reflexivity.
  - cbn [dict_get]. destruct (String.eqb k' k0); [reflexivity | exact IH].
Qed.

Lemma dict_get_del_same {V : Type} (k : string) (d : dict V) :
  NoDup (dict_keys d) -> dict_get k (dict_del k d) = None.
Proof.
  induction d as [|[k0 v0] d IH]; intros Hnd; cbn [dict_del]; [reflexivity|].
  change (dict_keys ((k0, v0) :: d)) with (k0 :: dict_keys d) in Hnd.
  inversion Hnd as [|? ? Hk0 Hnd']; subst.
  destruct (String.eqb k k0) eqn:E.
  - apply String.eqb_eq in E. subst k0.
    destruct (dict_get k d) eqn:G; [|reflexivity].
    exfalso. apply Hk0. apply dict_mem_in_keys. unfold dict_mem. now rewrite G.
  - cbn [dict_get]. rewrite E. now apply IH.
Qed.

Lemma dict_del_absent {V : Type} (k : string) (d : dict V) :
  dict_mem k d = false -> dict_del k d = d.
Proof.
  unfold dict_mem. induction d as [|[k0 v0] d IH]; cbn [dict_del dict_get];
    [reflexivity|].
  destruct (String.eqb k k0); [discriminate|]. intros Hm. now rewrite IH.
Qed.

Lemma in_keys_del {V : Type} (k k' : string) (d : dict V) :
  In k' (dict_keys (dict_del k d)) -> In k' (dict_keys d).
Proof.
  unfold dict_keys. intros Hin. apply in_map_iff in Hin.
  destruct Hin as [[k1 v1] [Heq Hin]]. cbn in Heq. subst k1.
  apply in_dict_del in Hin. apply in_map_iff. now exists (k', v1).
Qed.

Lemma dict_keys_del_nodup {V : Type} (k : string) (d : dict V) :
  NoDup (dict_keys d) -> NoDup (dict_keys (dict_del k d)).
Proof.
  induction d as [|[k0 v0] d IH]; intros Hnd; cbn [dict_del]; [exact Hnd|].
  change (dict_keys ((k0, v0) :: d)) with (k0 :: dict_keys d) in Hnd.
  inversion Hnd as [|? ? Hk0 Hnd']; subst.
  destruct (String.eqb k k0); [exact Hnd'|].
  change (NoDup (k0 :: dict_keys (dict_del k d))). constructor; [|now apply IH].
  intros Hin. apply Hk0. now apply (in_keys_del k).
Qed.

Lemma dict_mem_del {V : Type} (k k' : string) (d : dict V) :
  NoDup (dict_keys d) ->
  dict_mem k' (dict_del k d) = if String.eqb k' k then false else dict_mem k' d.
Proof.
  intros Hnd. unfold dict_mem. destruct (String.eqb k' k) eqn:E.
  - apply String.eqb_eq in E. subst k'. now rewrite dict_get_del_same.
  - apply String.eqb_neq in E. now rewrite dict_get_del_other.
Qed.

Lemma bucket_del (idx : dict pyset) (k k' : string) :
  k' <> k -> bucket (dict_del k idx) k' = bucket idx k'.
Proof.
  intros Hne. unfold bucket. now rewrite dict_get_del_other.
Qed.

Lemma in_set_discard (x y : string) (s : pyset) :
  In y (set_discard x s) <-> In y s /\ y <> x.
Proof.
  unfold set_discard. rewrite filter_In, negb_true_iff, String.eqb_neq.
  split; intros [H1 H2]; (split; [exact H1 | congruence]).
Qed.

(** After [idx[key].discard(eid)] under the guard [key in idx], the index
    has the keys it had, and the bucket of [key] has lost [eid]. *)
Lemma discard_bucket (idx : dict pyset) (key eid : string) :
  let idx' := match dict_get key idx with
              | Some s => dict_set key (set_discard eid s) idx
              | None => idx
              end in
  dict_keys idx' = dict_keys idx
  /\ forall k x, In x (bucket idx' k) <-> In x (bucket idx k) /\ (k = key -> x <> eid).
Proof.
  destruct (dict_get key idx) as [s|] eqn:Hget; cbn zeta.
  - split.
    + apply dict_keys_set_present. unfold dict_mem. now rewrite Hget.
    + intros k x. rewrite bucket_set. destruct (String.eqb k key) eqn:E.
      * apply String.eqb_eq in E. subst k. rewrite in_set_discard.
        unfold bucket. rewrite Hget. split; intros [H1 H2]; (split; [exact H1|]); auto.
      * apply String.eqb_neq in E. split; [intros Hx; split; [exact Hx | tauto] | tauto].
  - split; [reflexivity|]. intros k x. split; [|tauto].
    intros Hx. split; [exact Hx|]. intros ->. unfold bucket in Hx.
    rewrite Hget in Hx. destruct Hx.
Qed.

(** The structural invariants in terms of lookups. *)
Lemma well_formed_lookup (g : RealityGraph) :
  well_formed g <->
  NoDup (dict_keys (nodes g)) /\ NoDup (dict_keys (edges g))
  /\ NoDup (dict_keys (_adjacency g)) /\ NoDup (dict_keys (_reverse_adjacency g))
  /\ (forall k n, dict_get k (nodes g) = Some n -> n_id n = k)
  /\ (forall k e, dict_get k (edges g) = Some e -> e_id e = k)
  /\ (forall k, dict_mem k (_adjacency g) = dict_mem k (nodes g))
  /\ (forall k, dict_mem k (_reverse_adjacency g) = dict_mem k (nodes g))
  /\ (forall eid e, dict_get eid (edges g) = Some e ->
        In eid (bucket (_adjacency g) (e_source e))
        /\ In eid (bucket (_reverse_adjacency g) (e_target e))
        /\ dict_mem (e_source e) (nodes g) = true
        /\ dict_mem (e_target e) (nodes g) = true)
  /\ (forall k eid, In eid (bucket (_adjacency g) k) ->
        exists e, dict_get eid (edges g) = Some e /\ e_source e = k)
  /\ (forall k eid, In eid (bucket (_reverse_adjacency g) k) ->
        exists e, dict_get eid (edges g) = Some e /\ e_target e = k).
Proof.
  unfold well_formed. rewrite keyedb_spec, lockstepb_spec. split.
  - intros [[Nn [Ne [Na [Nr [Kn Ke]]]]] [L1 [L2 [L3 [L4 [L5 L6]]]]]].
    split; [exact Nn|]. split; [exact Ne|]. split; [exact Na|]. split; [exact Nr|].
    split; [intros k n Hk; apply Kn; now apply dict_get_in|].
    split; [intros k e Hk; apply Ke; now apply dict_get_in|].
    split.
    { intros k. destruct (dict_mem k (nodes g)) eqn:Hn.
      - apply dict_mem_in_keys in Hn. now apply L3.
      - destruct (dict_mem k (_adjacency g)) eqn:Ha; [|reflexivity].
        apply dict_mem_in_keys in Ha. apply L1 in Ha. congruence. }
    split.
    { intros k. destruct (dict_mem k (nodes g)) eqn:Hn.
      - apply dict_mem_in_keys in Hn. now apply L3.
      - destruct (dict_mem k (_reverse_adjacency g)) eqn:Ha; [|reflexivity].
        apply dict_mem_in_keys in Ha. apply L2 in Ha. congruence. }
    split; [intros eid e He; apply L4; now apply dict_get_in|].
    split.
    + intros k eid Hin. destruct (bucket_in_entry _ _ _ Hin) as [s [Hks Hes]].
      now apply (L5 k s eid).
    + intros k eid Hin. destruct (bucket_in_entry _ _ _ Hin) as [s [Hks Hes]].
      now apply (L6 k s eid).
  - intros [Nn [Ne [Na [Nr [Kn [Ke [Ma [Mr [L4 [L5 L6]]]]]]]]]].
    split.
    + split; [exact Nn|]. split; [exact Ne|]. split; [exact Na|]. split; [exact Nr|].
      split; [intros k n Hin; apply Kn; now apply in_dict_get|].
      intros k e Hin. apply Ke. now apply in_dict_get.
    + split; [intros k Hk; rewrite <- Ma; now apply dict_mem_in_keys|].
      split; [intros k Hk; rewrite <- Mr; now apply dict_mem_in_keys|].
      split; [intros k Hk; rewrite Ma, Mr; split; now apply dict_mem_in_keys|].
      split; [intros eid e Hin; apply L4; now apply in_dict_get|].
      split.
      * intros k s eid Hks Hes. apply L5. now rewrite (bucket_of_entry _ k s Na Hks).
      * intros k s eid Hks Hes. apply L6. now rewrite (bucket_of_entry _ k s Nr Hks).
Qed.

(** Removing one edge of a well-formed graph leaves a well-formed graph with
    the same nodes. *)
Lemma remove_edge_well_formed (g : RealityGraph) (eid : string) (edge : Edge) :
  well_formed g -> dict_get eid (edges g) = Some edge ->
  exists g', remove_edge_value g eid = Ok g'
             /\ well_formed g' /\ nodes g' = nodes g
             /\ edges g' = dict_del eid (edges g)
             /\ dict_keys (_adjacency g') = dict_keys (_adjacency g)
             /\ dict_keys (_reverse_adjacency g') = dict_keys (_reverse_adjacency g).
Proof.
  intros Hwf Hget. apply well_formed_lookup in Hwf.
  destruct Hwf as [Nn [Ne [Na [Nr [Kn [Ke [Ma [Mr [L4 [L5 L6]]]]]]]]]].
  unfold remove_edge_value. rewrite (dict_get_index _ _ _ Hget). cbn [bind].
  destruct (discard_bucket (_adjacency g) (e_source edge) eid) as [Ka Ba].
  destruct (discard_bucket (_reverse_adjacency g) (e_target edge) eid) as [Kr Br].
  cbn zeta in Ka, Ba, Kr, Br.
  set (adj' := match dict_get (e_source edge) (_adjacency g) with
               | Some s => dict_set (e_source edge) (set_discard eid s) (_adjacency g)
               | None => _adjacency g
               end) in *.
  set (radj' := match dict_get (e_target edge) (_reverse_adjacency g) with
                | Some s => dict_set (e_target edge) (set_discard eid s)
                              (_reverse_adjacency g)
                | None => _reverse_adjacency g
                end) in *.
  assert (Ba' : forall k x, In x (bucket adj' k) <-> In x (bucket (_adjacency g) k) /\ x <> eid).
  { intros k x. rewrite Ba. split; [|tauto].
    intros [Hx Hne]. split; [exact Hx|]. intros ->.
    destruct (L5 k eid Hx) as [e' [He' Hs]]. apply Hne; [congruence | reflexivity]. }
  assert (Br' : forall k x, In x (bucket radj' k)
                            <-> In x (bucket (_reverse_adjacency g) k) /\ x <> eid).
  { intros k x. rewrite Br. split; [|tauto].
    intros [Hx Hne]. split; [exact Hx|]. intros ->.
    destruct (L6 k eid Hx) as [e' [He' Hs]]. apply Hne; [congruence | reflexivity]. }
  assert (Hlook : forall k e, dict_get k (dict_del eid (edges g)) = Some e ->
                              k <> eid /\ dict_get k (edges g) = Some e).
  { intros k e Hk. destruct (String.eqb k eid) eqn:E.
    - apply String.eqb_eq in E. subst k. rewrite dict_get_del_same in Hk by assumption.
      discriminate.
    - apply String.eqb_neq in E. rewrite dict_get_del_other in Hk by assumption.
      now split. }
  exists (mkGraph (nodes g) (dict_del eid (edges g)) adj' radj').
  split; [reflexivity|]. clearbody adj' radj'.
  cbn [nodes edges _adjacency _reverse_adjacency].
  split; [|split; [reflexivity|]; split; [reflexivity|]; split; [exact Ka | exact Kr]].
  apply well_formed_lookup. cbn [nodes edges _adjacency _reverse_adjacency].
  rewrite Ka, Kr.
  split; [exact Nn|]. split; [now apply dict_keys_del_nodup|].
  split; [exact Na|]. split; [exact Nr|]. split; [exact Kn|].
  split; [intros k e Hk; apply Ke; now apply (Hlook k e)|].
  split; [intros k; rewrite <- Ma, !dict_mem_keys; now rewrite Ka|].
  split; [intros k; rewrite <- Mr, !dict_mem_keys; now rewrite Kr|].
  split.
  { intros k e Hk. destruct (Hlook k e Hk) as [Hne Hk'].
    destruct (L4 k e Hk') as [H1 [H2 [H3 H4]]].
    split; [apply Ba'; now split|]. split; [apply Br'; now split|]. now split. }
  split.
  - intros k x Hx. apply Ba' in Hx. destruct Hx as [Hx Hne].
    destruct (L5 k x Hx) as [e [He Hs]]. exists e.
    split; [now rewrite dict_get_del_other | exact Hs].
  - intros k x Hx. apply Br' in Hx. destruct Hx as [Hx Hne].
    destruct (L6 k x Hx) as [e [He Hs]]. exists e.
    split; [now rewrite dict_get_del_other | exact Hs].
Qed.

Lemma remove_edges_well_formed (ids : list string) :
  forall g, well_formed g -> NoDup ids ->
    (forall eid, In eid ids -> dict_mem eid (edges g) = true) ->
    exists g', remove_edges_value ids g = Ok g'
               /\ well_formed g' /\ nodes g' = nodes g
               /\ (forall k e, dict_get k (edges g') = Some e <->
                               dict_get k (edges g) = Some e /\ ~ In k ids).
Proof.
  induction ids as [|eid ids IH]; intros g Hwf Hnd Hall.
  - exists g. split; [reflexivity|]. split; [exact Hwf|]. split; [reflexivity|].
    intros k e. tauto.
  - inversion Hnd as [|? ? Hfresh Hnd']; subst.
    destruct (proj1 (dict_mem_get _ _) (Hall eid (or_introl eq_refl))) as [edge Hget].
    destruct (remove_edge_well_formed g eid edge Hwf Hget)
      as [g1 [Hstep [Hwf1 [Hn1 [He1 _]]]]].
    assert (Ne : NoDup (dict_keys (edges g))).
    { apply well_formed_lookup in Hwf. tauto. }
    destruct (IH g1 Hwf1 Hnd') as [g2 [Hrest [Hwf2 [Hn2 He2]]]].
    { intros x Hx. rewrite He1, dict_mem_del by assumption.
      destruct (String.eqb x eid) eqn:E; [|apply Hall; now right].
      apply String.eqb_eq in E. subst x. contradiction. }
    exists g2. cbn [remove_edges_value]. rewrite Hstep. cbn [bind].
    split; [exact Hrest|]. split; [exact Hwf2|]. split; [congruence|].
    intros k e. rewrite He2, He1. split.
    + intros [Hk Hnot]. destruct (String.eqb k eid) eqn:E.
      * apply String.eqb_eq in E. subst k. rewrite dict_get_del_same in Hk by assumption.
        discriminate.
      * apply String.eqb_neq in E. rewrite dict_get_del_other in Hk by assumption.
        split; [exact Hk|]. intros [Heq|Hin]; [now apply E | now apply Hnot].
    + intros [Hk Hnot]. split.
      * rewrite dict_get_del_other; [exact Hk|]. intros ->. apply Hnot. now left.
      * intros Hin. apply Hnot. now right.
Qed.

Lemma nodup_keys_filter {V : Type} (p : string * V -> bool) (d : dict V) :
  NoDup (dict_keys d) -> NoDup (map fst (filter p d)).
Proof.
  unfold dict_keys. induction d as [|kv d IH]; intros Hnd; cbn [filter map];
    [constructor|].
  cbn [map] in Hnd. inversion Hnd as [|? ? Hk Hnd']; subst.
  destruct (p kv); [|now apply IH].
  cbn [map]. constructor; [|now apply IH].
  intros Hin. apply Hk. apply in_map_iff in Hin. destruct Hin as [kv' [Heq Hin]].
  apply filter_In in Hin. apply in_map_iff. exists kv'. tauto.
Qed.

(** [_modify_node_failure] on a well-formed graph: the node is gone, so is
    every edge that starts or ends at it and no other, and the graph is
    well-formed again. *)
Lemma node_failure_value_spec (g : RealityGraph) (node_id : string) :
  well_formed g ->
  exists g', node_failure_value node_id g = Ok g'
             /\ nodes g' = dict_del node_id (nodes g)
             /\ (forall k e, dict_get k (edges g') = Some e <->
                   dict_get k (edges g) = Some e
                   /\ e_source e <> node_id /\ e_target e <> node_id)
             /\ well_formed g'.
Proof.
  intros Hwf. pose proof (proj1 (well_formed_lookup g) Hwf) as Hl.
  destruct Hl as [Nn [Ne [Na [Nr [Kn [Ke [Ma [Mr [L4 [L5 L6]]]]]]]]]].
  unfold node_failure_value. destruct (dict_mem node_id (nodes g)) eqn:Hmem.
  - cbv zeta.
    set (ids := map fst (filter (fun kv => is_incident node_id (snd kv)) (edges g))).
    assert (Hids : forall k, In k ids <->
                     exists e, dict_get k (edges g) = Some e /\ is_incident node_id e = true).
    { intros k. unfold ids. rewrite in_map_iff. split.
      - intros [[k' e] [Heq Hin]]. cbn in Heq. subst k'. apply filter_In in Hin.
        destruct Hin as [Hin Hinc]. exists e. split; [now apply in_dict_get | exact Hinc].
      - intros [e [Hk Hinc]]. exists (k, e). split; [reflexivity|].
        apply filter_In. split; [now apply dict_get_in | exact Hinc]. }
    destruct (remove_edges_well_formed ids g Hwf) as [g1 [Hrun [Hwf1 [Hn1 He1]]]].
    { now apply nodup_keys_filter. }
    { intros eid Hin. apply Hids in Hin. destruct Hin as [e [Hk _]].
      apply dict_mem_get. now exists e. }
    rewrite Hrun. cbn [bind].
    pose proof (proj1 (well_formed_lookup g1) Hwf1) as Hl1.
    destruct Hl1 as [Nn1 [Ne1 [Na1 [Nr1 [Kn1 [Ke1 [Ma1 [Mr1 [M4 [M5 M6]]]]]]]]]].
    assert (Hedges : forall k e, dict_get k (edges g1) = Some e <->
                       dict_get k (edges g) = Some e
                       /\ e_source e <> node_id /\ e_target e <> node_id).
    { intros k e. rewrite He1, Hids. split.
      - intros [Hk Hnot]. split; [exact Hk|].
        split; intros Heq; apply Hnot; exists e; (split; [exact Hk|]);
          unfold is_incident; rewrite Heq, String.eqb_refl;
          [reflexivity | apply orb_true_r].
      - intros [Hk [Hs Ht]]. split; [exact Hk|]. intros [e' [Hk' Hinc]].
        assert (e' = e) by congruence. subst e'. unfold is_incident in Hinc.
        apply orb_true_iff in Hinc. destruct Hinc as [E|E]; apply String.eqb_eq in E;
          contradiction. }
    assert (Hdel : forall d : dict pyset,
               (if dict_mem node_id d then dict_del node_id d else d) = dict_del node_id d).
    { intros d. destruct (dict_mem node_id d) eqn:E; [reflexivity|].
      now rewrite dict_del_absent. }
    rewrite !Hdel. eexists. split; [reflexivity|].
    cbn [nodes edges _adjacency _reverse_adjacency].
    split; [now rewrite Hn1|]. split; [exact Hedges|].
    apply well_formed_lookup. cbn [nodes edges _adjacency _reverse_adjacency].
    split; [now apply dict_keys_del_nodup|]. split; [exact Ne1|].
    split; [now apply dict_keys_del_nodup|]. split; [now apply dict_keys_del_nodup|].
    split.
    { intros k n Hk. destruct (String.eqb k node_id) eqn:E.
      - apply String.eqb_eq in E. subst k. rewrite dict_get_del_same in Hk by assumption.
        discriminate.
      - apply String.eqb_neq in E. rewrite dict_get_del_other in Hk by assumption.
        now apply Kn1. }
    split; [exact Ke1|].
    split; [intros k; rewrite !dict_mem_del by assumption; now rewrite Ma1|].
    split; [intros k; rewrite !dict_mem_del by assumption; now rewrite Mr1|].
    split.
    { intros k e Hk. destruct (proj1 (Hedges k e) Hk) as [_ [Hs Ht]].
      destruct (M4 k e Hk) as [H1 [H2 [H3 H4]]].
      rewrite !bucket_del, !dict_mem_del by assumption.
      apply String.eqb_neq in Hs. apply String.eqb_neq in Ht. rewrite Hs, Ht.
      now repeat split. }
    split.
    + intros k x Hx. destruct (String.eqb k node_id) eqn:E.
      * apply String.eqb_eq in E. subst k. exfalso. unfold bucket in Hx.
        rewrite dict_get_del_same in Hx by assumption. destruct Hx.
      * apply String.eqb_neq in E. rewrite bucket_del in Hx by assumption.
        now apply M5.
    + intros k x Hx. destruct (String.eqb k node_id) eqn:E.
      * apply String.eqb_eq in E. subst k. exfalso. unfold bucket in Hx.
        rewrite dict_get_del_same in Hx by assumption. destruct Hx.
      * apply String.eqb_neq in E. rewrite bucket_del in Hx by assumption.
        now apply M6.
  - exists g. split; [reflexivity|]. split; [now rewrite dict_del_absent|].
    split; [|exact Hwf].
    intros k e. split; [|tauto]. intros Hk. split; [exact Hk|].
    destruct (L4 k e Hk) as [_ [_ [H3 H4]]]. split; intros Heq; congruence.
Qed.


(* ------------------------------------------------------------------ *)
(** ** [_modify_node_failure] on the heap *)

Lemma read_dict_del {V : Type} (rd : addr -> option V) (k : string) (d : dict addr) :
  forall vs, read_dict rd d = Some vs ->
             read_dict rd (dict_del k d) = Some (dict_del k vs).
Proof.
  induction d as [|[k0 a0] d IH]; intros vs Hd; cbn [read_dict] in Hd.
  - injection Hd as <-. reflexivity.
  - destruct (rd a0) as [v0|] eqn:E0; [|discriminate].
    destruct (read_dict rd d) as [vs0|] eqn:Ed; [|discriminate].
    injection Hd as <-. cbn [dict_del]. destruct (String.eqb k k0); [exact Ed|].
    cbn [read_dict]. now rewrite E0, (IH vs0 eq_refl).
Qed.

Lemma in_values_del (k : string) (d : dict addr) (a : addr) :
  In a (dict_values (dict_del k d)) -> In a (dict_values d).
Proof.
  unfold dict_values. intros Hin. apply in_map_iff in Hin.
  destruct Hin as [[k1 a1] [Heq Hin]]. cbn in Heq. subst a1.
  apply in_dict_del in Hin. apply in_map_iff. now exists (k1, a).
Qed.

Lemma nodup_values_del (k : string) (d : dict addr) (rest : list addr) :
  NoDup (dict_values d ++ rest)%list ->
  NoDup (dict_values (dict_del k d) ++ rest)%list.
Proof.
  induction d as [|[k0 a0] d IH]; intros Hnd; cbn [dict_del]; [exact Hnd|].
  change (dict_values ((k0, a0) :: d)) with (a0 :: dict_values d) in Hnd.
  cbn [app] in Hnd. inversion Hnd as [|? ? Hnotin Hnd']; subst.
  destruct (String.eqb k k0); [exact Hnd'|].
  change (dict_values ((k0, a0) :: dict_del k d))
    with (a0 :: dict_values (dict_del k d)).
  cbn [app]. constructor; [|now apply IH].
  intros Hin. apply Hnotin. apply in_app_or in Hin. apply in_or_app.
  destruct Hin as [Hin|Hin]; [left; now apply (in_values_del k) | now right].
Qed.

Lemma nodup_values_del_r (k : string) (d : dict addr) (front : list addr) :
  NoDup (front ++ dict_values d)%list ->
  NoDup (front ++ dict_values (dict_del k d))%list.
Proof.
  intros Hnd.
  apply (Permutation_NoDup (l := (dict_values (dict_del k d) ++ front)%list));
    [apply Permutation_app_comm|].
  apply nodup_values_del.
  apply (Permutation_NoDup (l := (front ++ dict_values d)%list));
    [apply Permutation_app_comm | exact Hnd].
Qed.

Lemma heap_set_discard_ok (h : heap) (sa : addr) (s : pyset) (x : string) :
  nth_error h sa = Some (OSet s) ->
  heap_set_discard sa x h = (Ok tt, set_nth sa (OSet (set_discard x s)) h).
Proof.
  intros Hs. unfold heap_set_discard.
  now rewrite (hbind_ok _ _ _ _ _ (load_set_ok h sa s Hs)).
Qed.

(** [if key in idx: idx[key].discard(eid)] on an index whose buckets are
    separate set objects: the bucket of [key] loses [eid], and nothing that
    is not a bucket of the index is touched. *)
Lemma guarded_discard (h : heap) (d : dict addr) (vs : dict pyset) (key eid : string) :
  read_dict (read_set h) d = Some vs -> NoDup (dict_values d) ->
  exists h',
    (match dict_get key d with
     | Some sa => heap_set_discard sa eid
     | None => hret tt
     end) h = (Ok tt, h')
    /\ read_dict (read_set h') d
       = Some (match dict_get key vs with
               | Some s => dict_set key (set_discard eid s) vs
               | None => vs
               end)
    /\ keeps h h'
    /\ (forall a, ~ In a (dict_values d) -> nth_error h' a = nth_error h a).
Proof.
  intros Hd Hnd. pose proof (read_dict_get _ _ _ key Hd) as Hlook.
  destruct (dict_get key d) as [sa|] eqn:Hsa.
  - destruct (read_dict_in _ _ _ _ _ Hd (dict_get_in _ _ _ Hsa)) as [s Hs].
    rewrite Hs in Hlook. rewrite Hlook. apply read_set_bound in Hs.
    exists (set_nth sa (OSet (set_discard eid s)) h).
    split; [now apply heap_set_discard_ok|].
    split; [now apply read_dict_update|].
    split; [now apply (keeps_store_set h sa s)|].
    intros a Hnotin. apply set_nth_other. intros ->. apply Hnotin.
    now apply (dict_get_in_values key).
  - rewrite Hlook. exists h. split; [reflexivity|]. split; [exact Hd|].
    split; [apply keeps_refl | reflexivity].
Qed.

Lemma separate_kept (h h' : heap) (go : GraphObj) (ns : dict Node) (es : dict Edge)
    (nodes' edges' adj' radj' : dict addr) :
  separate h go -> keeps h h' ->
  read_dict (read_node h) (go_nodes go) = Some ns ->
  read_dict (read_edge h) (go_edges go) = Some es ->
  (forall k a, In (k, a) nodes' -> In (k, a) (go_nodes go)) ->
  (forall k a, In (k, a) edges' -> In (k, a) (go_edges go)) ->
  separate h' (mkGraphObj nodes' edges' adj' radj').
Proof.
  intros [Hs1 Hs2] Hk Hn He Hsubn Hsube. split; cbn [go_nodes go_edges].
  - intros k a no k' a' no' Hin Hin' Ha Ha' Hm.
    apply Hsubn in Hin. apply Hsubn in Hin'.
    destruct (kept_node_entry h h' _ _ k a Hn Hk Hin) as [x [Hx0 [Hx _]]].
    destruct (kept_node_entry h h' _ _ k' a' Hn Hk Hin') as [y [Hy0 [Hy _]]].
    assert (no = x) by congruence. assert (no' = y) by congruence. subst.
    exact (Hs1 k a x k' a' y Hin Hin' Hx0 Hy0 Hm).
  - intros k a no k' a' eo Hin Hin' Ha Ha' Hm.
    apply Hsubn in Hin. apply Hsube in Hin'.
    destruct (kept_node_entry h h' _ _ k a Hn Hk Hin) as [x [Hx0 [Hx _]]].
    destruct (kept_edge_entry h h' _ _ k' a' He Hk Hin') as [y [Hy0 [Hy _]]].
    assert (no = x) by congruence. assert (eo = y) by congruence. subst.
    exact (Hs2 k a x k' a' y Hin Hin' Hx0 Hy0 Hm).
Qed.

Lemma remove_edge_holds (h : heap) (c : addr) (g g' : RealityGraph) (eid : string) :
  holds h c g -> remove_edge_value g eid = Ok g' ->
  exists h', remove_edge c eid h = (Ok tt, h') /\ holds h' c g' /\ keeps h h'.
Proof.
  intros [go [Hc [Hn [He [Ha [Hr [Hnd Hsep]]]]]]] Hval.
  unfold remove_edge_value in Hval.
  destruct (dict_index eid (edges g)) as [edge| |] eqn:Hidx; try discriminate.
  cbn [bind] in Hval. injection Hval as <-.
  apply dict_index_ok in Hidx.
  pose proof (read_dict_get _ _ _ eid He) as Hlook. rewrite Hidx in Hlook.
  destruct (dict_get eid (go_edges go)) as [ea|] eqn:Hea; [|discriminate].
  symmetry in Hlook.
  destruct (read_edge_inv h ea edge Hlook) as [eo [Heo [Hmd Heq]]].
  assert (Hsrc : e_source edge = eo_source eo) by (rewrite Heq; reflexivity).
  assert (Htgt : e_target edge = eo_target eo) by (rewrite Heq; reflexivity).
  assert (Hnd_a : NoDup (dict_values (go_adjacency go)))
    by (now apply NoDup_app_remove_r in Hnd).
  assert (Hnd_r : NoDup (dict_values (go_reverse_adjacency go)))
    by (now apply NoDup_app_remove_l in Hnd).
  assert (Hdisj : forall x, In x (dict_values (go_adjacency go)) ->
                            ~ In x (dict_values (go_reverse_adjacency go))).
  { intros x Hx Hx'. apply in_split in Hx. destruct Hx as [l1 [l2 Hx]].
    rewrite Hx, <- app_assoc in Hnd. cbn [app] in Hnd.
    apply NoDup_remove_2 in Hnd. apply Hnd.
    apply in_or_app. right. apply in_or_app. now right. }
  assert (Hca : ~ In c (dict_values (go_adjacency go))).
  { intros Hx. apply in_map_iff in Hx. destruct Hx as [[k a] [Hka Hin]].
    cbn in Hka. subst a. destruct (read_dict_in _ _ _ _ _ Ha Hin) as [s Hs].
    unfold read_set in Hs. rewrite Hc in Hs. discriminate. }
  assert (Hcr : ~ In c (dict_values (go_reverse_adjacency go))).
  { intros Hx. apply in_map_iff in Hx. destruct Hx as [[k a] [Hka Hin]].
    cbn in Hka. subst a. destruct (read_dict_in _ _ _ _ _ Hr Hin) as [s Hs].
    unfold read_set in Hs. rewrite Hc in Hs. discriminate. }
  destruct (guarded_discard h _ _ (e_source edge) eid Ha Hnd_a)
    as [h1 [Hrun1 [Ha1 [Hk1 Hf1]]]].
  assert (Hr1 : read_dict (read_set h1) (go_reverse_adjacency go)
                = Some (_reverse_adjacency g)).
  { rewrite (read_dict_ext_in (read_set h) (read_set h1)); [exact Hr|].
    intros k a Hin. unfold read_set. rewrite Hf1; [reflexivity|].
    intros Hx. apply (Hdisj a Hx). apply in_map_iff. now exists (k, a). }
  destruct (guarded_discard h1 _ _ (e_target edge) eid Hr1 Hnd_r)
    as [h2 [Hrun2 [Hr2 [Hk2 Hf2]]]].
  assert (Ha2 : read_dict (read_set h2) (go_adjacency go)
                = read_dict (read_set h1) (go_adjacency go)).
  { apply read_dict_ext_in. intros k a Hin. unfold read_set.
    rewrite Hf2; [reflexivity|].
    intros Hx. apply (Hdisj a); [|exact Hx]. apply in_map_iff. now exists (k, a). }
  rewrite Ha1 in Ha2.
  set (go' := mkGraphObj (go_nodes go) (dict_del eid (go_edges go))
                (go_adjacency go) (go_reverse_adjacency go)).
  assert (Hc2 : nth_error h2 c = Some (OGraph go)).
  { rewrite Hf2 by exact Hcr. rewrite Hf1 by exact Hca. exact Hc. }
  assert (Hk3 : keeps h (set_nth c (OGraph go') h2)).
  { eapply keeps_trans; [exact Hk1|]. eapply keeps_trans; [exact Hk2|].
    now apply (keeps_store_graph h2 c go go'). }
  exists (set_nth c (OGraph go') h2). split.
  { unfold remove_edge.
    rewrite (hbind_ok _ _ _ _ _ (load_graph_ok h c go Hc)).
    unfold href.
    rewrite (hbind_ok (hlift (dict_index eid (go_edges go))) _ h h ea)
      by (unfold hlift; now rewrite (dict_get_index _ _ _ Hea)).
    rewrite (hbind_ok _ _ _ _ _ (load_edge_ok h ea eo Heo)).
    rewrite <- Hsrc, <- Htgt.
    rewrite (hbind_ok _ _ _ _ _ Hrun1), (hbind_ok _ _ _ _ _ Hrun2).
    reflexivity. }
  split; [|exact Hk3].
  exists go'. split; [apply set_nth_hit; apply nth_error_Some; congruence|].
  cbn [nodes edges _adjacency _reverse_adjacency go_nodes go_edges go_adjacency
       go_reverse_adjacency go'].
  split; [now apply (read_dict_keeps_node h)|].
  split; [apply read_dict_del; now apply (read_dict_keeps_edge h)|].
  split.
  { apply (read_dict_stable (read_set h2)); [|exact Ha2].
    intros a s Hs. now apply (read_set_store_graph h2 a c go go'). }
  split.
  { apply (read_dict_stable (read_set h2)); [|exact Hr2].
    intros a s Hs. now apply (read_set_store_graph h2 a c go go'). }
  split; [exact Hnd|].
  apply (separate_kept h _ go (nodes g) (edges g)); try assumption.
  - intros k a Hin. exact Hin.
  - intros k a Hin. now apply in_dict_del in Hin.
Qed.

Lemma remove_edges_holds (c : addr) (ids : list string) :
  forall (h : heap) (g g' : RealityGraph),
    holds h c g -> remove_edges_value ids g = Ok g' ->
    exists h', hfor ids (remove_edge c) h = (Ok tt, h') /\ holds h' c g' /\ keeps h h'.
Proof.
  induction ids as [|eid ids IH]; intros h g g' Hholds Hval;
    cbn [remove_edges_value] in Hval.
  - injection Hval as <-. exists h. split; [reflexivity|].
    split; [exact Hholds | apply keeps_refl].
  - destruct (remove_edge_value g eid) as [g1| |] eqn:Hstep; try discriminate.
    cbn [bind] in Hval.
    destruct (remove_edge_holds h c g g1 eid Hholds Hstep) as [h1 [Hrun1 [Hholds1 Hk1]]].
    destruct (IH h1 g1 g' Hholds1 Hval) as [h2 [Hrun2 [Hholds2 Hk2]]].
    exists h2. split; [|split; [exact Hholds2 | now apply (keeps_trans h h1 h2)]].
    cbn [hfor]. now rewrite (hbind_ok _ _ _ _ _ Hrun1).
Qed.

Lemma failure_flags (h : heap) (node_id : string) (d : dict addr) :
  forall vs, read_dict (read_edge h) d = Some vs ->
    hmapM (fun kv =>
             edge <~ load_edge (snd kv) ;;
             hret (fst kv, orb (String.eqb (eo_source edge) node_id)
                               (String.eqb (eo_target edge) node_id)))
          d h
    = (Ok (map (fun kv => (fst kv, is_incident node_id (snd kv))) vs), h).
Proof.
  induction d as [|[k0 a0] d IH]; intros vs Hd; cbn [read_dict] in Hd.
  - injection Hd as <-. reflexivity.
  - destruct (read_edge h a0) as [e0|] eqn:E0; [|discriminate].
    destruct (read_dict (read_edge h) d) as [vs0|] eqn:Ed; [|discriminate].
    injection Hd as <-.
    destruct (read_edge_inv h a0 e0 E0) as [eo [Heo [Hmd Heq]]].
    cbn [hmapM].
    rewrite (hbind_ok _ _ h h (k0, is_incident node_id e0)).
    + now rewrite (hbind_ok _ _ _ _ _ (IH vs0 eq_refl)).
    + cbn [fst snd]. rewrite (hbind_ok _ _ _ _ _ (load_edge_ok h a0 eo Heo)).
      unfold hret, is_incident. now rewrite Heq.
Qed.

Lemma flags_filter {V : Type} (p : V -> bool) (vs : dict V) :
  map fst (filter snd (map (fun kv => (fst kv, p (snd kv))) vs))
  = map fst (filter (fun kv => p (snd kv)) vs).
Proof.
  induction vs as [|[k v] vs IH]; [reflexivity|].
  cbn [map filter fst snd]. destruct (p v); cbn [map fst]; now rewrite IH.
Qed.

(** On the heap [_modify_node_failure] does what [node_failure_value]
    computes. *)
Lemma node_failure_holds (h : heap) (c : addr) (g g' : RealityGraph) (node_id : string) :
  holds h c g -> node_failure_value node_id g = Ok g' ->
  exists h', modify_node_failure node_id c h = (Ok tt, h') /\ holds h' c g'.
Proof.
  intros Hholds Hval. pose proof Hholds as [go [Hc [Hn [He _]]]].
  assert (Hmem : dict_mem node_id (go_nodes go) = dict_mem node_id (nodes g)).
  { rewrite !dict_mem_keys. now rewrite (read_dict_keys _ _ _ Hn). }
  unfold node_failure_value in Hval. unfold modify_node_failure.
  rewrite (hbind_ok _ _ _ _ _ (load_graph_ok h c go Hc)). rewrite Hmem.
  destruct (dict_mem node_id (nodes g)).
  - cbv zeta in Hval.
    rewrite (hbind_ok _ _ _ _ _ (failure_flags h node_id _ _ He)).
    cbv zeta. rewrite flags_filter.
    destruct (remove_edges_value
                (map fst (filter (fun kv => is_incident node_id (snd kv)) (edges g))) g)
      as [g1| |] eqn:Hloop; try discriminate.
    cbn [bind] in Hval. injection Hval as <-.
    destruct (remove_edges_holds c _ h g g1 Hholds Hloop) as [h1 [Hrun1 [Hholds1 _]]].
    rewrite (hbind_ok _ _ _ _ _ Hrun1).
    destruct Hholds1 as [go1 [Hc1 [Hn1 [He1 [Ha1 [Hr1 [Hnd1 Hsep1]]]]]]].
    rewrite (hbind_ok _ _ _ _ _ (load_graph_ok h1 c go1 Hc1)).
    assert (Hma : dict_mem node_id (go_adjacency go1) = dict_mem node_id (_adjacency g1)).
    { rewrite !dict_mem_keys. now rewrite (read_dict_keys _ _ _ Ha1). }
    assert (Hmr : dict_mem node_id (go_reverse_adjacency go1)
                  = dict_mem node_id (_reverse_adjacency g1)).
    { rewrite !dict_mem_keys. now rewrite (read_dict_keys _ _ _ Hr1). }
    rewrite Hma, Hmr.
    set (go2 := mkGraphObj (dict_del node_id (go_nodes go1)) (go_edges go1)
                  (if dict_mem node_id (_adjacency g1)
                   then dict_del node_id (go_adjacency go1) else go_adjacency go1)
                  (if dict_mem node_id (_reverse_adjacency g1)
                   then dict_del node_id (go_reverse_adjacency go1)
                   else go_reverse_adjacency go1)).
    exists (set_nth c (OGraph go2) h1). split; [reflexivity|].
    assert (Hk : keeps h1 (set_nth c (OGraph go2) h1))
      by (now apply (keeps_store_graph h1 c go1 go2)).
    assert (Hsets : forall d vs, read_dict (read_set h1) d = Some vs ->
                      read_dict (read_set (set_nth c (OGraph go2) h1)) d = Some vs).
    { intros d vs. apply read_dict_stable. intros a s Hs.
      now apply (read_set_store_graph h1 a c go1 go2). }
    exists go2. split; [apply set_nth_hit; apply nth_error_Some; congruence|].
    cbn [nodes edges _adjacency _reverse_adjacency go_nodes go_edges go_adjacency
         go_reverse_adjacency go2].
    split; [apply read_dict_del; now apply (read_dict_keeps_node h1)|].
    split; [now apply (read_dict_keeps_edge h1)|].
    split.
    { destruct (dict_mem node_id (_adjacency g1)); [apply read_dict_del|];
        now apply Hsets. }
    split.
    { destruct (dict_mem node_id (_reverse_adjacency g1)); [apply read_dict_del|];
        now apply Hsets. }
    split.
    { destruct (dict_mem node_id (_adjacency g1));
        destruct (dict_mem node_id (_reverse_adjacency g1)); try exact Hnd1.
      - apply nodup_values_del. now apply nodup_values_del_r.
      - now apply nodup_values_del.
      - now apply nodup_values_del_r. }
    apply (separate_kept h1 _ go1 (nodes g1) (edges g1)); try assumption.
    + intros k a Hin. now apply in_dict_del in Hin.
    + intros k a Hin. exact Hin.
  - injection Hval as <-. exists h. split; [reflexivity | exact Hholds].
Qed.

Lemma prepare_node_failure `{Formatter} (uuid4 : addr -> string) (h : heap)
    (base : addr) (G : RealityGraph) (node_id : string) :
  read_graph h base = Some G -> well_formed G ->
  exists G' h2,
    prepare_scenario uuid4 base [ModifyNodeFailure node_id] h = (Ok (List.length h), h2)
    /\ read_graph h2 (List.length h) = Some G'
    /\ read_graph h2 base = Some G
    /\ nodes G' = dict_del node_id (nodes G)
    /\ (forall k e, dict_get k (edges G') = Some e <->
          dict_get k (edges G) = Some e
          /\ e_source e <> node_id /\ e_target e <> node_id)
    /\ well_formed G'.
Proof.
  intros HG Hwf.
  destruct (clone_value_total G Hwf) as [Gc [Hval [Hn [He [Ha [Hr [Hba Hbr]]]]]]].
  destruct (clone_graph_builds h base G Gc HG Hval) as [h1 [Hrun1 [Hholds1 _]]].
  assert (Hwfc : well_formed Gc) by (now apply (well_formed_same_content G Gc)).
  destruct (node_failure_value_spec Gc node_id Hwfc) as [G' [Hfail [Hn' [He' Hwf']]]].
  destruct (node_failure_holds h1 (List.length h) Gc G' node_id Hholds1 Hfail)
    as [h2 [Hrun2 Hholds2]].
  assert (Hrun : prepare_scenario uuid4 base [ModifyNodeFailure node_id] h
                 = (Ok (List.length h), h2)).
  { unfold prepare_scenario.
    rewrite (hbind_ok _ _ _ _ _ Hrun1). cbn [hfor apply_modification].
    rewrite (hbind_ok _ _ _ _ _
               (hbind_ok _ (fun _ => hret tt) _ _ _ Hrun2)). reflexivity. }
  destruct (safe_frame _ _ h
              (safe_prepare_scenario (List.length h) uuid4 base
                 [ModifyNodeFailure node_id])) as [Hpre _].
  rewrite Hrun in Hpre. cbn [snd] in Hpre.
  exists G', h2. split; [exact Hrun|]. split; [now apply holds_read_graph|].
  split; [now apply (read_graph_stable h)|].
  split; [now rewrite Hn', Hn|]. split; [|exact Hwf'].
  intros k e. rewrite He', He. reflexivity.
Qed.

(** X26.  A scenario in which a node fails, run on a heap whose base graph
    is well-formed, raises nothing.  It leaves a new graph object that reads
    back with the nodes of the base graph except the failed one, in their
    order, and with exactly those edges of the base graph that neither start
    nor end at the failed node; this graph is well-formed again (no edge
    without its endpoints, both indices in lock-step), and the base graph
    reads back as before. *)
Theorem node_failure_scenario `{Formatter} (uuid4 : addr -> string) (h : heap)
    (base : addr) (G : RealityGraph) (node_id : string) :
  read_graph h base = Some G -> well_formed G ->
  let run := prepare_scenario uuid4 base [ModifyNodeFailure node_id] h in
  exists G',
    fst run = Ok (List.length h)
    /\ read_graph (snd run) (List.length h) = Some G'
    /\ read_graph (snd run) base = Some G
    /\ nodes G' = dict_del node_id (nodes G)
    /\ (forall k e, dict_get k (edges G') = Some e <->
          dict_get k (edges G) = Some e
          /\ e_source e <> node_id /\ e_target e <> node_id)
    /\ well_formed G'.
Proof.
  intros HG Hwf run.
  destruct (prepare_node_failure uuid4 h base G node_id HG Hwf)
    as [G' [h2 [Hrun [Hread [Hbase [Hn [He Hwf']]]]]]].
  exists G'. unfold run. rewrite Hrun. cbn [fst snd].
  split; [reflexivity|]. split; [exact Hread|]. split; [exact Hbase|].
  split; [exact Hn|]. split; [exact He | exact Hwf'].
Qed.

Lemma node_failure_scenario_witness :
  read_graph heap_base 6 = Some graph_base /\ well_formed graph_base
  /\ let run := prepare_scenario uuid_of_address 6 [ModifyNodeFailure "R"] heap_base in
     exists G',
       fst run = Ok 11
       /\ read_graph (snd run) 11 = Some G'
       /\ read_graph (snd run) 6 = Some graph_base
       /\ nodes G' = dict_del "R" (nodes graph_base)
       /\ (forall k e, dict_get k (edges G') = Some e <->
             dict_get k (edges graph_base) = Some e
             /\ e_source e <> "R" /\ e_target e <> "R")
       /\ well_formed G'.
Proof.
  assert (HG : read_graph heap_base 6 = Some graph_base) by reflexivity.
  assert (Hwf : well_formed graph_base) by (split; reflexivity).
  split; [exact HG|]. split; [exact Hwf|].
  exact (node_failure_scenario uuid_of_address heap_base 6 graph_base "R" HG Hwf).
Defined.


(* ------------------------------------------------------------------ *)
(** ** The cascade rule *)

Lemma set_add_nodup (x : string) (s : pyset) : NoDup s -> NoDup (set_add x s).
Proof.
  intros Hnd. unfold set_add. destruct (set_mem x s) eqn:E; [exact Hnd|].
  apply NoDup_snoc; [exact Hnd | now apply set_mem_not_in].
Qed.

Lemma dependents_step_nodup (out : list Edge) :
  forall (dependents : pyset) (stack : list string),
    NoDup dependents -> NoDup (fst (dependents_step out dependents stack)).
Proof.
  unfold dependents_step.
  induction out as [|e out IH]; intros d st Hnd; cbn [fold_left]; [exact Hnd|].
  destruct (orb _ _); [|now apply IH].
  apply IH. cbn [fst]. now apply set_add_nodup.
Qed.

Lemma dependents_loop_nodup (g : RealityGraph) (fuel : nat) :
  forall dependents visited stack D,
    dependents_loop g fuel dependents visited stack = Ok D ->
    NoDup dependents -> NoDup D.
Proof.
  induction fuel as [|fuel IH]; intros d v st D Hl Hnd;
    destruct st as [|c rest]; cbn [dependents_loop] in Hl; try discriminate.
  - now injection Hl as <-.
  - now injection Hl as <-.
  - destruct (set_mem c v); [now apply (IH _ _ _ _ Hl)|].
    cbv zeta in Hl. bind_inv Hl. apply (IH _ _ _ _ Hl).
    now apply dependents_step_nodup.
Qed.

Lemma find_all_dependents_enumerates (g : RealityGraph) (node_id : string) (D : pyset) :
  well_formed g -> _find_all_dependents g node_id = Ok D ->
  NoDup D /\ forall d, In d D <-> depends_transitively g node_id d.
Proof.
  intros Hwf HD. split.
  - unfold _find_all_dependents in HD.
    apply (dependents_loop_nodup _ _ _ _ _ _ HD). constructor.
  - destruct (find_all_dependents_correct g node_id Hwf) as [D' [HD' Hiff]].
    rewrite HD in HD'. injection HD' as <-. exact Hiff.
Qed.

(** X28.  On a well-formed graph, [_find_cascading_failure_paths] reports a
    path for a node exactly when its criticality is at least 0.8 and more
    than three nodes can be reached from it over CAUSES and ENABLES edges.
    The path lists the node and then each of those nodes once, and its
    certainty is a tenth of their number, capped at 0.9. *)
Theorem cascading_failure_rule `{Formatter} (g : RealityGraph) (ps : list CollapsePath) :
  well_formed g -> _find_cascading_failure_paths g = Ok ps ->
  (forall p, In p ps ->
     path_type p = CP_CASCADING_FAILURE
     /\ exists node D,
          In node (get_critical_nodes g (8 # 10))
          /\ path_nodes p = n_id node :: D
          /\ NoDup D
          /\ (forall d, In d D <-> depends_transitively g (n_id node) d)
          /\ 3 < List.length D
          /\ certainty p = py_min (9 # 10) (Qnat (List.length D) / 10)%Q)
  /\ (forall node D,
        In node (get_critical_nodes g (8 # 10)) ->
        NoDup D -> (forall d, In d D <-> depends_transitively g (n_id node) d) ->
        3 < List.length D ->
        exists p, In p ps /\ hd_error (path_nodes p) = Some (n_id node)).
Proof.
  intros Hwf Hps. unfold _find_cascading_failure_paths in Hps. split.
  - refine (concatM_forall _ _ _ _ _ Hps).
    intros node bs b Hnode Hf Hb. cbv beta in Hf. bind_inv Hf.
    destruct (find_all_dependents_enumerates g (n_id node) v Hwf E) as [Hnd Hiff].
    destruct (Nat.ltb 3 (List.length v)) eqn:Hlt; [|injection Hf as <-; destruct Hb].
    apply Nat.ltb_lt in Hlt. bind_inv Hf. injection Hf as <-.
    destruct Hb as [<-|[]]. cbn [path_type path_nodes certainty].
    split; [reflexivity|]. exists node, v.
    split; [exact Hnode|]. split; [reflexivity|]. split; [exact Hnd|].
    split; [exact Hiff|]. split; [exact Hlt|].
    unfold py_div in E0. replace (Qeq_bool 10 0) with false in E0 by reflexivity.
    now injection E0 as <-.
  - intros node D Hnode Hnd Hiff Hlt.
    destruct (find_all_dependents_correct g (n_id node) Hwf) as [D0 [HD0 Hiff0]].
    destruct (find_all_dependents_enumerates g (n_id node) D0 Hwf HD0) as [Hnd0 _].
    assert (Hlen : List.length D0 = List.length D).
    { apply Permutation_length. apply NoDup_Permutation; try assumption.
      intros d. now rewrite Hiff0, Hiff. }
    eexists. split.
    + eapply (concatM_ok_in _ _ _ node _ Hps Hnode).
      * cbv beta. rewrite HD0. cbn [bind].
        rewrite (proj2 (Nat.ltb_lt 3 (List.length D0))) by lia.
        unfold py_div. replace (Qeq_bool 10 0) with false by reflexivity.
        cbn [bind]. reflexivity.
      * now left.
    + reflexivity.
Qed.

Lemma cascading_failure_rule_witness :
  well_formed scenario_cascade
  /\ exists ps,
       _find_cascading_failure_paths scenario_cascade = Ok ps
       /\ (forall p, In p ps ->
             path_type p = CP_CASCADING_FAILURE
             /\ exists node D,
                  In node (get_critical_nodes scenario_cascade (8 # 10))
                  /\ path_nodes p = n_id node :: D
                  /\ NoDup D
                  /\ (forall d, In d D <->
                                depends_transitively scenario_cascade (n_id node) d)
                  /\ 3 < List.length D
                  /\ certainty p = py_min (9 # 10) (Qnat (List.length D) / 10)%Q)
       /\ (forall node D,
             In node (get_critical_nodes scenario_cascade (8 # 10)) ->
             NoDup D ->
             (forall d, In d D <-> depends_transitively scenario_cascade (n_id node) d) ->
             3 < List.length D ->
             exists p, In p ps /\ hd_error (path_nodes p) = Some (n_id node)).
Proof.
  assert (Hwf : well_formed scenario_cascade) by (split; reflexivity).
  assert (E : exists ps, _find_cascading_failure_paths scenario_cascade = Ok ps)
    by (vm_compute; eexists; reflexivity).
  split; [exact Hwf|]. destruct E as [ps E]. exists ps. split; [exact E|].
  exact (cascading_failure_rule scenario_cascade ps Hwf E).
Defined.

(** The cascade of [scenario_cascade]: one path, from "N0" through the four
    services behind it in the order their set yields them, of certainty
    0.4. *)
Lemma cascading_failure_example :
  exists p,
    _find_cascading_failure_paths scenario_cascade = Ok [p]
    /\ hd_error (path_nodes p) = Some "N0"
    /\ Permutation (tl (path_nodes p)) ["N1"; "N2"; "N3"; "N4"]
    /\ certainty p = (4 # 10)%Q.
Proof.
  eexists. split; [vm_compute; reflexivity|]. split; [reflexivity|].
  split; [apply Permutation_refl | reflexivity].
Qed.


(* ------------------------------------------------------------------ *)
(** ** Modifications that find nothing to act on *)

Lemma hfor_idle {X : Type} (f : X -> HM unit) (l : list X) (h : heap) :
  (forall x, In x l -> f x h = (Ok tt, h)) -> hfor l f h = (Ok tt, h).
Proof.
  induction l as [|x l IH]; intros Hall; [reflexivity|].
  cbn [hfor]. rewrite (hbind_ok _ _ _ _ _ (Hall x (or_introl eq_refl))).
  apply IH. intros y Hy. apply Hall. now right.
Qed.

Lemma load_nodes_ok (h : heap) (d : dict addr) :
  forall vs, read_dict (read_node h) d = Some vs ->
    exists nos, hmapM load_node (dict_values d) h = (Ok nos, h)
      /\ forall no, In no nos ->
           exists n, In n (dict_values vs)
                     /\ no_type no = n_type n /\ no_name no = n_name n.
Proof.
  induction d as [|[k0 a0] d IH]; intros vs Hd; cbn [read_dict] in Hd.
  - injection Hd as <-. exists []. split; [reflexivity | intros no []].
  - destruct (read_node h a0) as [n0|] eqn:E0; [|discriminate].
    destruct (read_dict (read_node h) d) as [vs0|] eqn:Ed; [|discriminate].
    injection Hd as <-.
    destruct (read_node_inv h a0 n0 E0) as [no [Hno [Hmd Heq]]].
    destruct (IH vs0 eq_refl) as [nos [Hrun Hall]].
    exists (no :: nos). split.
    + change (dict_values ((k0, a0) :: d)) with (a0 :: dict_values d). cbn [hmapM].
      rewrite (hbind_ok _ _ _ _ _ (load_node_ok h a0 no Hno)).
      now rewrite (hbind_ok _ _ _ _ _ Hrun).
    + change (dict_values ((k0, n0) :: vs0)) with (n0 :: dict_values vs0).
      intros x [<-|Hx].
      * exists n0. split; [now left|]. rewrite Heq. split; reflexivity.
      * destruct (Hall x Hx) as [n [Hn Hsame]]. exists n. split; [now right | exact Hsame].
Qed.

Lemma traffic_spike_idle (h : heap) (c : addr) (g : RealityGraph) (multiplier : Q) :
  holds h c g ->
  (forall n, In n (dict_values (nodes g)) -> n_type n = RESOURCE ->
     contains "cpu" (lower (n_name n)) = false
     /\ contains "memory" (lower (n_name n)) = false) ->
  modify_traffic_spike multiplier c h = (Ok tt, h).
Proof.
  intros [go [Hc [Hn _]]] Hquiet. unfold modify_traffic_spike.
  rewrite (hbind_ok _ _ _ _ _ (load_graph_ok h c go Hc)).
  destruct (load_nodes_ok h _ _ Hn) as [nos [Hrun Hall]].
  rewrite (hbind_ok _ _ _ _ _ Hrun). cbv zeta.
  apply hfor_idle. intros no Hin. apply filter_In in Hin. destruct Hin as [Hin Hty].
  apply NodeType_eqb_eq in Hty.
  destruct (Hall no Hin) as [n [Hn' [Ht Hname]]].
  destruct (Hquiet n Hn') as [H1 H2]; [congruence|].
  now rewrite Hname, H1, H2.
Qed.

Lemma load_edges_ok (h : heap) (d : dict addr) (es : dict Edge) (ids : list string) :
  read_dict (read_edge h) d = Some es ->
  (forall eid, In eid ids -> exists e, dict_get eid es = Some e) ->
  exists eos,
    hmapM (fun eid => ea <~ href eid d ;; load_edge ea) ids h = (Ok eos, h)
    /\ forall eo, In eo eos ->
         exists eid e, In eid ids /\ dict_get eid es = Some e
                       /\ eo_type eo = e_type e /\ eo_source eo = e_source e.
Proof.
  intros Hd. induction ids as [|eid ids IH]; intros Hall.
  - exists []. split; [reflexivity | intros eo []].
  - destruct (Hall eid (or_introl eq_refl)) as [e Hget].
    pose proof (read_dict_get _ _ _ eid Hd) as Hlook. rewrite Hget in Hlook.
    destruct (dict_get eid d) as [ea|] eqn:Hea; [|discriminate]. symmetry in Hlook.
    destruct (read_edge_inv h ea e Hlook) as [eo [Heo [Hmd Heq]]].
    destruct IH as [eos [Hrun Hrest]]; [intros x Hx; apply Hall; now right|].
    exists (eo :: eos). split.
    + cbn [hmapM].
      rewrite (hbind_ok _ _ h h eo).
      * now rewrite (hbind_ok _ _ _ _ _ Hrun).
      * unfold href.
        rewrite (hbind_ok (hlift (dict_index eid d)) _ h h ea)
          by (unfold hlift; now rewrite (dict_get_index _ _ _ Hea)).
        now apply load_edge_ok.
    + intros x [<-|Hx].
      * exists eid, e. split; [now left|]. split; [exact Hget|].
        rewrite Heq. split; reflexivity.
      * destruct (Hrest x Hx) as [eid' [e' [Hin' Hsame]]].
        exists eid', e'. split; [now right | exact Hsame].
Qed.

Lemma outgoing_objects_ok (h : heap) (c : addr) (g : RealityGraph) (k : string) :
  holds h c g -> well_formed g ->
  exists eos,
    heap_bucket_edges c go_adjacency k h = (Ok eos, h)
    /\ forall eo, In eo eos ->
         exists eid e, dict_get eid (edges g) = Some e /\ e_source e = k
                       /\ eo_type eo = e_type e.
Proof.
  intros [go [Hc [Hn [He [Ha _]]]]] Hwf. apply well_formed_lookup in Hwf.
  destruct Hwf as [_ [_ [_ [_ [_ [_ [_ [_ [_ [L5 _]]]]]]]]]].
  unfold heap_bucket_edges.
  rewrite (hbind_ok _ _ _ _ _ (load_graph_ok h c go Hc)).
  pose proof (read_dict_get _ _ _ k Ha) as Hlook.
  destruct (dict_get k (go_adjacency go)) as [sa|] eqn:Hsa.
  - destruct (read_dict_in _ _ _ _ _ Ha (dict_get_in _ _ _ Hsa)) as [s Hs].
    rewrite Hs in Hlook. apply read_set_bound in Hs.
    rewrite (hbind_ok _ _ _ _ _ (load_set_ok h sa s Hs)).
    assert (Hbucket : bucket (_adjacency g) k = s) by (unfold bucket; now rewrite Hlook).
    destruct (load_edges_ok h (go_edges go) (edges g) s He) as [eos [Hrun Hall]].
    { intros eid Hin. rewrite <- Hbucket in Hin.
      destruct (L5 k eid Hin) as [e [Hget _]]. now exists e. }
    exists eos. split; [exact Hrun|].
    intros eo Hin. destruct (Hall eo Hin) as [eid [e [Hid [Hget [Hty _]]]]].
    exists eid, e. split; [exact Hget|]. split; [|exact Hty].
    rewrite <- Hbucket in Hid. destruct (L5 k eid Hid) as [e' [Hget' Hs']]. congruence.
  - exists []. split; [reflexivity | intros eo []].
Qed.

Lemma violate_assumption_idle (uuid4 : addr -> string) (h : heap) (c : addr)
    (g : RealityGraph) (assumption_id : string) :
  holds h c g -> well_formed g ->
  (forall k e, dict_get k (edges g) = Some e -> e_source e = assumption_id ->
               e_type e <> ASSUMES) ->
  modify_violate_assumption uuid4 assumption_id c h = (Ok tt, h).
Proof.
  intros Hholds Hwf Hquiet. pose proof Hholds as [go [Hc [Hn _]]].
  unfold modify_violate_assumption.
  rewrite (hbind_ok _ _ _ _ _ (load_graph_ok h c go Hc)).
  destruct (dict_get assumption_id (go_nodes go)) as [na|] eqn:Hna; [|reflexivity].
  destruct (read_dict_in _ _ _ _ _ Hn (dict_get_in _ _ _ Hna)) as [n Hread].
  destruct (read_node_inv h na n Hread) as [no [Hno _]].
  rewrite (hbind_ok _ _ _ _ _ (load_node_ok h na no Hno)).
  destruct (outgoing_objects_ok h c g assumption_id Hholds Hwf) as [eos [Hrun Hall]].
  rewrite (hbind_ok _ _ _ _ _ Hrun).
  apply hfor_idle. intros eo Hin.
  destruct (Hall eo Hin) as [eid [e [Hget [Hs Hty]]]].
  pose proof (Hquiet eid e Hget Hs) as Hne. rewrite <- Hty in Hne.
  destruct (eo_type eo); try reflexivity. now contradiction Hne.
Qed.

(** X27.  A modification that finds nothing to act on changes nothing: on
    a well-formed base graph, preparing the scenario is just cloning the
    graph (same result, same heap) when the modification is a traffic spike
    and no resource has "cpu" or "memory" in its name, a violated assumption
    from which no ASSUMES edge starts, or a failed node or removed resource
    that is no node of the graph. *)
Theorem idle_modification_scenario `{Formatter} (uuid4 : addr -> string) (h : heap)
    (base : addr) (G : RealityGraph) (m : Modification) :
  read_graph h base = Some G -> well_formed G ->
  match m with
  | ModifyTrafficSpike _ =>
      forall k n, dict_get k (nodes G) = Some n -> n_type n = RESOURCE ->
        contains "cpu" (lower (n_name n)) = false
        /\ contains "memory" (lower (n_name n)) = false
  | ModifyViolateAssumption assumption_id =>
      forall k e, dict_get k (edges G) = Some e -> e_source e = assumption_id ->
        e_type e <> ASSUMES
  | ModifyNodeFailure node_id => dict_mem node_id (nodes G) = false
  | ModifyRemoveResource resource_id => dict_mem resource_id (nodes G) = false
  end ->
  prepare_scenario uuid4 base [m] h = _clone_graph base h
  /\ fst (_clone_graph base h) = Ok (List.length h).
Proof.
  intros HG Hwf Hidle.
  destruct (clone_value_total G Hwf) as [Gc [Hval [Hn [He [Ha [Hr [Hba Hbr]]]]]]].
  destruct (clone_graph_builds h base G Gc HG Hval) as [h1 [Hrun1 [Hholds1 _]]].
  assert (Hwfc : well_formed Gc) by (now apply (well_formed_same_content G Gc)).
  assert (Hstep : apply_modification uuid4 m (List.length h) h1 = (Ok tt, h1)).
  { pose proof Hholds1 as [go [Hc [Hgn _]]].
    destruct m as [multiplier|node_id|resource_id|assumption_id];
      cbn [apply_modification].
    - apply (traffic_spike_idle h1 _ Gc); [exact Hholds1|].
      intros n Hin Hty. rewrite Hn in Hin.
      destruct (in_dict_values _ _ Hin) as [k Hk].
      apply (Hidle k n); [|exact Hty].
      apply in_dict_get; [|exact Hk].
      apply well_formed_lookup in Hwf. tauto.
    - unfold modify_node_failure.
      rewrite (hbind_ok _ _ _ _ _ (load_graph_ok h1 _ go Hc)).
      replace (dict_mem node_id (go_nodes go)) with false; [reflexivity|].
      rewrite !dict_mem_keys in *. now rewrite <- (read_dict_keys _ _ _ Hgn), Hn.
    - unfold modify_remove_resource.
      rewrite (hbind_ok _ _ _ _ _ (load_graph_ok h1 _ go Hc)).
      destruct (dict_get resource_id (go_nodes go)) eqn:Hget; [|reflexivity].
      exfalso. assert (Hm : dict_mem resource_id (go_nodes go) = true)
        by (unfold dict_mem; now rewrite Hget).
      rewrite !dict_mem_keys in *.
      rewrite <- (read_dict_keys _ _ _ Hgn), Hn in Hm. congruence.
    - apply (violate_assumption_idle uuid4 h1 _ Gc); [exact Hholds1 | exact Hwfc|].
      rewrite He. exact Hidle. }
  split; [|now rewrite Hrun1].
  unfold prepare_scenario. rewrite (hbind_ok _ _ _ _ _ Hrun1). cbn [hfor].
  rewrite (hbind_ok _ _ _ _ _ (hbind_ok _ (fun _ => hret tt) _ _ _ Hstep)).
  now rewrite Hrun1.
Qed.

Lemma idle_modification_scenario_witness :
  read_graph heap_base 6 = Some graph_base /\ well_formed graph_base
  /\ prepare_scenario uuid_of_address 6 [ModifyViolateAssumption "R"] heap_base
     = _clone_graph 6 heap_base
  /\ fst (_clone_graph 6 heap_base) = Ok 11.
Proof.
  assert (HG : read_graph heap_base 6 = Some graph_base) by reflexivity.
  assert (Hwf : well_formed graph_base) by (split; reflexivity).
  split; [exact HG|]. split; [exact Hwf|].
  apply (idle_modification_scenario uuid_of_address heap_base 6 graph_base
           (ModifyViolateAssumption "R") HG Hwf).
  intros k e Hget Hs Hty. destruct (String.eqb k "E") eqn:E.
  - apply String.eqb_eq in E. subst k. vm_compute in Hget. injection Hget as <-.
    discriminate Hty.
  - apply String.eqb_neq in E.
    assert (Hk : dict_mem k (edges graph_base) = true)
      by (unfold dict_mem; now rewrite Hget).
    apply dict_mem_in_keys in Hk. vm_compute in Hk. destruct Hk as [Hk|[]].
    now apply E.
Defined.


(* ------------------------------------------------------------------ *)
(** ** The rule for single points of failure *)

Lemma flagged_dependents (g : RealityGraph) (D : list string) :
  forall flagged,
    mapM (fun d => c <- node_attr g n_criticality d ;; Ok (d, Qgtb c (7 # 10))) D
    = Ok flagged ->
    map fst flagged = D
    /\ forall d b, In (d, b) flagged ->
         exists n, get_node g d = Some n /\ b = Qgtb (n_criticality n) (7 # 10).
Proof.
  induction D as [|a D IH]; intros flagged Hm; cbn [mapM] in Hm.
  - injection Hm as <-. split; [reflexivity | intros d b []].
  - destruct (node_attr g n_criticality a) as [c| |] eqn:Ec; cbn [bind] in Hm;
      try discriminate.
    destruct (mapM (fun d => c0 <- node_attr g n_criticality d ;;
                             Ok (d, Qgtb c0 (7 # 10))) D) as [fl| |] eqn:Em;
      cbn [bind] in Hm; try discriminate.
    injection Hm as <-. destruct (IH fl eq_refl) as [H1 H2].
    split; [cbn [map fst]; now rewrite H1|].
    intros d b [Heq|Hin]; [|now apply H2].
    injection Heq as <- <-. unfold node_attr in Ec.
    destruct (get_node g a) as [n|] eqn:Eg; [|discriminate].
    injection Ec as <-. now exists n.
Qed.

(** X29.  On a well-formed graph, [_find_spof_paths] reports a path for a
    node exactly when the node has no truthy [has_redundancy] entry and more
    than one of the nodes reachable from it over CAUSES and ENABLES edges
    has a criticality above 0.7.  The path lists the node and then each of
    those critical nodes once; its certainty is 0.7 plus 0.05 for each of
    them, capped at 0.95; and it is filed as a human dependency exactly
    when the node is a resource, as a cascading failure otherwise. *)
Theorem spof_rule `{Formatter} (g : RealityGraph) (ps : list CollapsePath) :
  well_formed g -> _find_spof_paths g = Ok ps ->
  (forall p, In p ps ->
     exists node C,
       In node (dict_values (nodes g))
       /\ has_redundancy node = false
       /\ path_nodes p = n_id node :: C
       /\ NoDup C
       /\ (forall d, In d C <->
             depends_transitively g (n_id node) d
             /\ exists n, get_node g d = Some n /\ (7 # 10 < n_criticality n)%Q)
       /\ 1 < List.length C
       /\ certainty p
          = py_min (95 # 100) ((7 # 10) + Qnat (List.length C) * (5 # 100))%Q
       /\ path_type p
          = if String.eqb (NodeType_value (n_type node)) "resource"
            then CP_HUMAN_DEPENDENCY else CP_CASCADING_FAILURE)
  /\ (forall node C,
        In node (dict_values (nodes g)) -> has_redundancy node = false ->
        NoDup C ->
        (forall d, In d C <->
           depends_transitively g (n_id node) d
           /\ exists n, get_node g d = Some n /\ (7 # 10 < n_criticality n)%Q) ->
        1 < List.length C ->
        exists p, In p ps /\ hd_error (path_nodes p) = Some (n_id node)).
Proof.
  intros Hwf Hps. unfold _find_spof_paths in Hps.
  match type of Hps with concatM ?f0 _ = _ => set (f := f0) in Hps end.
  assert (Hnode : forall node zs, f node = Ok zs ->
            exists C,
              NoDup C
              /\ (forall d, In d C <->
                    depends_transitively g (n_id node) d
                    /\ exists n, get_node g d = Some n /\ (7 # 10 < n_criticality n)%Q)
              /\ (andb (negb (has_redundancy node)) (Nat.ltb 1 (List.length C)) = false ->
                  zs = [])
              /\ (andb (negb (has_redundancy node)) (Nat.ltb 1 (List.length C)) = true ->
                  exists p, zs = [p]
                    /\ path_nodes p = n_id node :: C
                    /\ certainty p
                       = py_min (95 # 100)
                           ((7 # 10) + Qnat (List.length C) * (5 # 100))%Q
                    /\ path_type p
                       = if String.eqb (NodeType_value (n_type node)) "resource"
                         then CP_HUMAN_DEPENDENCY else CP_CASCADING_FAILURE)).
  { intros node zs Hf. unfold f in Hf. bind_inv Hf. cbv zeta in Hf.
    destruct (find_all_dependents_enumerates g (n_id node) v Hwf E) as [HndD HiffD].
    destruct (flagged_dependents g v v0 E0) as [Hfst Hflag].
    exists (map fst (filter snd v0)).
    split.
    { apply nodup_keys_filter. unfold dict_keys. now rewrite Hfst. }
    split.
    { intros d. rewrite in_map_iff. split.
      - intros [[d' b] [Heq Hin]]. cbn in Heq. subst d'. apply filter_In in Hin.
        destruct Hin as [Hin Hb]. cbn in Hb. subst b.
        destruct (Hflag d true Hin) as [n [Hn Hc]]. split.
        + apply HiffD. rewrite <- Hfst. apply in_map_iff. now exists (d, true).
        + exists n. split; [exact Hn|]. now apply Qgtb_lt.
      - intros [Hd [n [Hn Hc]]]. apply HiffD in Hd. rewrite <- Hfst in Hd.
        apply in_map_iff in Hd. destruct Hd as [[d' b] [Heq Hin]]. cbn in Heq. subst d'.
        destruct (Hflag d b Hin) as [n' [Hn' Hb]].
        assert (n' = n) by congruence. subst n'.
        assert (Hbt : b = true) by (rewrite Hb; now apply Qgtb_lt).
        rewrite Hbt in Hin.
        exists (d, true). split; [reflexivity|]. apply filter_In.
        split; [exact Hin | reflexivity]. }
    change (match dict_get "has_redundancy" (n_metadata node) with
            | Some v => truthy v
            | None => false
            end) with (has_redundancy node) in Hf.
    destruct (andb (negb (has_redundancy node))
                (Nat.ltb 1 (List.length (map fst (filter snd v0))))) eqn:Hc;
      injection Hf as <-.
    - split; [discriminate|]. intros _. eexists. split; [reflexivity|].
      cbn [path_nodes certainty path_type]. split; [reflexivity|]. split; reflexivity.
    - split; [reflexivity | discriminate]. }
  split.
  - refine (concatM_forall _ _ _ _ _ Hps).
    intros node bs b Hin Hf Hb.
    destruct (Hnode node bs Hf) as [C [Hnd [Hiff [Hoff Hon]]]].
    destruct (andb (negb (has_redundancy node)) (Nat.ltb 1 (List.length C))) eqn:Hc.
    + destruct (Hon eq_refl) as [p [-> [Hp1 [Hp2 Hp3]]]]. destruct Hb as [<-|[]].
      apply andb_true_iff in Hc. destruct Hc as [Hr Hl].
      apply negb_true_iff in Hr. apply Nat.ltb_lt in Hl.
      exists node, C. repeat (split; [assumption|]). exact Hp3.
    + rewrite (Hoff eq_refl) in Hb. destruct Hb.
  - intros node C Hin Hred Hnd Hiff Hlen.
    pose proof Hps as Hps'. unfold concatM in Hps'. bind_inv Hps'.
    destruct (mapM_ok_in f _ _ node E Hin) as [zs [Hf _]].
    destruct (Hnode node zs Hf) as [C0 [Hnd0 [Hiff0 [_ Hon]]]].
    assert (Hlen0 : List.length C0 = List.length C).
    { apply Permutation_length. apply NoDup_Permutation; try assumption.
      intros d. now rewrite Hiff0, Hiff. }
    destruct Hon as [p [-> [Hp1 _]]].
    { rewrite Hred, Hlen0. cbn [negb andb]. apply Nat.ltb_lt. exact Hlen. }
    exists p. split.
    + apply (concatM_ok_in f _ ps node [p] Hps Hin Hf). now left.
    + now rewrite Hp1.
Qed.

Lemma spof_rule_witness :
  well_formed scenario_spof
  /\ exists ps,
       _find_spof_paths scenario_spof = Ok ps
       /\ (forall p, In p ps ->
             exists node C,
               In node (dict_values (nodes scenario_spof))
               /\ has_redundancy node = false
               /\ path_nodes p = n_id node :: C
               /\ NoDup C
               /\ (forall d, In d C <->
                     depends_transitively scenario_spof (n_id node) d
                     /\ exists n, get_node scenario_spof d = Some n
                                  /\ (7 # 10 < n_criticality n)%Q)
               /\ 1 < List.length C
               /\ certainty p
                  = py_min (95 # 100) ((7 # 10) + Qnat (List.length C) * (5 # 100))%Q
               /\ path_type p
                  = if String.eqb (NodeType_value (n_type node)) "resource"
                    then CP_HUMAN_DEPENDENCY else CP_CASCADING_FAILURE)
       /\ (forall node C,
             In node (dict_values (nodes scenario_spof)) ->
             has_redundancy node = false ->
             NoDup C ->
             (forall d, In d C <->
                depends_transitively scenario_spof (n_id node) d
                /\ exists n, get_node scenario_spof d = Some n
                             /\ (7 # 10 < n_criticality n)%Q) ->
             1 < List.length C ->
             exists p, In p ps /\ hd_error (path_nodes p) = Some (n_id node)).
Proof.
  assert (Hwf : well_formed scenario_spof) by (split; reflexivity).
  assert (E : exists ps, _find_spof_paths scenario_spof = Ok ps)
    by (vm_compute; eexists; reflexivity).
  split; [exact Hwf|]. destruct E as [ps E]. exists ps. split; [exact E|].
  exact (spof_rule scenario_spof ps Hwf E).
Defined.

(** The single point of failure of [scenario_spof]: the database, filed as
    a human dependency because it is a resource, with certainty 0.8. *)
Lemma spof_rule_example :
  exists p,
    _find_spof_paths scenario_spof = Ok [p]
    /\ hd_error (path_nodes p) = Some "DB"
    /\ Permutation (tl (path_nodes p)) ["Checkout"; "Billing"]
    /\ path_type p = CP_HUMAN_DEPENDENCY
    /\ certainty p = (800 # 1000)%Q.
Proof.
  eexists. split; [vm_compute; reflexivity|]. split; [reflexivity|].
  split; [apply Permutation_refl|]. split; reflexivity.
Qed.


(* ------------------------------------------------------------------ *)
(** ** The standard simulation never raises *)
















